(* ===== verification/_CoqProject ===== *)
-Q . S2P
Prelude.v
GoStrings.v
Netip.v
GoNet.v
Api.v
World.v
Constants.v
Instances.v
Reservations.v
LoadBalancer.v
Bgp.v
GoSort.v
GoTime.v
MetalLBTypes.v
MetalLBPeers.v
ServiceSelectors.v
GoSlices.v
CrdStore.v
Interleaving.v
Crd.v
CrdPeers.v
CrdConverge.v
CrdPools.v
MetalLB.v
MetalLBConverge.v
GoSortEff.v
MetalLBEqual.v
ConfigFile.v
SelectorOrder.v
PoolOrder.v
ConfigFileProps.v
GoHash.v
LoadBalancers.v
LoadBalancerProps.v
System.v
ControlPlane.v
ControlPlaneProps.v
Controllers.v
Concurrent.v
Config.v
Cloud.v
Store.v
StoreConcurrency.v
Server.v
ServerProps.v
