(* ===== verification/Prelude.v ===== *)
(** * cloud-provider-cherry

    A model of the Kubernetes cloud provider for Cherry Servers, and what it
    does right or wrong. The provider answers the cloud controller manager:
    it maps nodes to servers, gives services of type LoadBalancer a floating
    IP announced over BGP, and keeps one floating IP on a live control plane
    node.

    ** The parts and where they are modelled

    File names of the program are relative to [cherry/]. Records are its
    structs, functions keep its names; a method [T.f] is [f], or [T_f] where
    the name is taken.

    - Instances, [instances.go] and [server_ip.go]: [Instances]. Provider IDs,
      the server of a node, the addresses reported for it.
    - Reservations, [ipreservations.go]: [Reservations]. Floating IPs by tags.
    - BGP, [bgp.go]: [Bgp]. Enabling BGP on the project and on a server.
    - Load balancer controller, [loadbalancers.go]: [LoadBalancers], with
      [Constants] and, for the cluster tag, [GoHash]; properties in
      [LoadBalancerProps]. It calls an implementation through the record
      [loadbalancers.LB] of [LoadBalancer] ([loadbalancers/interface.go]),
      which also holds the implementations [empty] and [kubevip].
    - MetalLB, [loadbalancers/metallb/metallb.go] and [bgp_peers.go]:
      [MetalLB] and [MetalLBPeers]. The load balancer works on a
      [Configurer]; the class [ConfigurerLaws] says what one promises, and
      [MetalLB] proves [RemoveService] against the class and that the
      custom resource configurer keeps the promises; [MetalLBConverge] shows
      that reconciling a service again settles.
    - Custom resources, [metallb/crd.go]: [Crd]; its exact effect on the API
      server's store in [CrdPeers] and [CrdPools], over [CrdStore]; that
      repeating the updates settles in [CrdConverge].
    - Configuration file and config map, [metallb/config.go], [resource.go]
      and [configmap.go]: data in [MetalLBTypes], the services a peer records
      in [ServiceSelectors] (shared with [Crd]), comparisons in
      [MetalLBEqual], the file and the configurer in [ConfigFile]; properties
      in [SelectorOrder] (node selectors), [PoolOrder] (pools) and
      [ConfigFileProps].
    - Control plane endpoint, [fip_controlplane_reconciliation.go] and
      [ssa-helpers.go]: [ControlPlane], properties in [ControlPlaneProps].
    - The parts put together: [System] is the load balancer controller on
      top of MetalLB on top of the custom resources, [Controllers] the load
      balancer controller beside the control plane endpoint manager, whole
      calls and events one after the other. [Concurrent] runs the same
      definitions in any number of threads that take turns between any two
      calls to the API, over [Interleaving].
    - Configuration, [config.go]: [Config].
    - Wiring, [cloud.go], and [main.go]: [Cloud].
    - API simulator of the tests, [server/store/memory.go] and
      [server/server.go]: [Store] and [Server]; [ServerProps]. The numbers
      it gives to concurrent requests: [StoreConcurrency].

    The parts of Go's library the program uses are written out where their
    result matters: [GoStrings], [Netip], [GoNet], [GoTime], [GoSort],
    [GoSortEff], [GoSlices], [GoHash].

    ** How state and effects are modelled

    A function that calls a client is in the monad [M W] below: it takes the
    world [W] and gives a value, an error or a panic, and the world as it is
    then; nothing is rolled back. The clients (Cherry Servers, Kubernetes,
    custom resources, HTTP) are classes over [W] in [Api] with the laws the
    proofs use; [World] is one concrete instance, in which the witnesses
    run. Nothing is assumed of [W] by the definitions, so they also run in
    the [shared] world of [Interleaving], where each call finds the world as
    the other threads left it. Shared memory is explicit where the code relies on it: the store of
    the simulator keeps pointers and cells, the comparisons of [MetalLBEqual]
    return what their sorting in place leaves, the slice functions of
    [GoSlices] return what is left of the array. [range] over a map gives the
    entries in an order the class [GoRange] leaves open. Panics are results:
    the theorems say where they happen.

    ** What the theorems show

    - Control plane: a health check moves the address only when it has to and
      only to a live eligible node, and does so when one answers, unless one
      that answers has a provider ID that names no server; nothing else of
      the reservations ever changes; what the two ports of the manager are
      after any events; with the addresses the provider itself reports an
      assigned address is not recognised, and both handlers then only list
      the reservations.
    - Load balancers: at most one reservation per service whatever fails;
      what each operation leaves behind, and what a failed deletion loses;
      services managed by others are not touched.
    - The parts together: creating and deleting a service leaves no
      reservation, pool or recorded service behind, serving it again changes
      nothing, and over any run of both controllers no service comes to have
      two reservations, a service keeps its address until it is deleted and
      the endpoint of the control plane is never lost.
    - The same under any interleaving of single API calls, without the locks,
      as long as no service is served by two threads at once; what two such
      threads do wrong, and how two updates of one peer lose a service.
    - MetalLB: the exact effect of every operation on peers, pools and
      advertisements, also of the loop that shortens the list it runs over;
      adding a pool of its own and removing it is the identity where the
      default advertisement is well formed; removing a service takes away
      exactly that service, on any configurer that keeps the promises; the
      config map configurer does not. Reconciling a service twice reaches a
      state that reconciling keeps, if no other pool has its address; with
      another pool it never settles.
    - Configuration file: [NodeSelectors.Equal], which sorts with a [Less]
      that writes, is equality up to order where [Less] is an order, and so
      is the comparison of pools; a pool added and removed, joined to its
      twin or not, gives the file back up to that order; peers added and
      removed.
    - Configuration and wiring: bounds of an accepted configuration, settings
      that are ignored, and how an unknown load balancer scheme fails.
    - Simulator: its handlers refine an abstract map of objects, IDs are
      unique in every reachable state and those of the objects in all four
      maps, what is created can be read; its
      numbering, run one memory access at a time under any schedule, behaves
      as if each call were made at once, and always ends.
    - Nodes: provider IDs are read back as written and never panic.

    ** Bounds and fuel

    [int] is 64 bits wide; conversions to 16 and 32 bits wrap and parsing
    checks its range. [Split] takes as fuel the length of the string, enough
    because each cut takes a byte ([Join_Split], [Split_Join]);
    [ParseDuration] the same, one unit more ([duration_loop_fuel]); the
    sixteen bytes of an IPv6 address bound its parser. Sorting up to
    twelve elements is Go's insertion sort; above that, classes state what
    any correct sort gives. A call of [getID] takes eight steps, so a
    schedule that makes n calls ends after exactly 8 n ([steps_left]).

    ** Not modelled

    - [url.Parse], label selector parsing, JSON and YAML codecs, the router
      of the simulator: library code, parameters of the model.
    - Informers, work queues and the locks of [client-go]: the handlers they
      call are modelled. They run one at a time except in [Concurrent], where
      they are interleaved between API calls; there a handler of the endpoint
      manager finds any ports, which it reads once. Only [getID] is
      interleaved at the level of memory accesses; the simulator's maps and
      the manager's ports are read and written without a common lock, which
      is noted and not modelled.
    - Why the MetalLB client of the cluster cannot be built: without it
      [NewLB] ends the process, modelled as a panic.
    - Logging; the flags of [main]. The library is not modelled, among it
      the queues that decide which service is worked on when.
    - Arrays shared between the two operands of one comparison in
      [config.go].

    ** This file

    Errors, results and the monad with its inversion tactic [inv_ok]; the
    frame predicate [keeps] with the hint database [keeps]; integers, maps
    and [range]. *)

From stdpp Require Export base gmap strings list sorting pretty fin_maps.

(** ** Go errors

    [error] values keep the format string and the rendered arguments of
    the call that built them; [Errorw] is [fmt.Errorf] with a [%w] verb
    (the cause stays visible to [errors.Is]), [Errorv] is [fmt.Errorf]
    with a [%v] verb (the cause is only text). The two sentinels are those
    of [k8s.io/cloud-provider]; [EExt] is an error made by code outside
    the repository. *)
Inductive error : Type :=
| ENew (msg : string)
| Errorf (fmt : string) (args : list string)
| Errorw (fmt : string) (args : list string) (cause : error)
| Errorv (fmt : string) (args : list string) (cause : error)
| EExt (what : string)
| InstanceNotFound
| ImplementedElsewhere.

Global Instance error_eq_dec : EqDecision error.
Proof. solve_decision. Defined.

(** [errors.Is]: walk the chain of wrapped errors. *)
Fixpoint errors_Is (e target : error) : bool :=
  bool_decide (e = target) ||
  match e with
  | Errorw _ _ cause => errors_Is cause target
  | _ => false
  end.

(** ** Results and the state-and-failure monad

    A Go function that returns [(T, error)] and acts on the outside world
    [W] is an [M W T]: it may return a value, return an error, or panic (a
    nil dereference, an out-of-range index). The world reached so far is
    kept in all three cases: Go has no rollback. *)
Inductive res (A : Type) : Type :=
| Ok (a : A)
| Err (e : error)
| Panic.
Arguments Ok {A} _.
Arguments Err {A} _.
Arguments Panic {A}.

Definition M (W A : Type) : Type := W → res A * W.

Global Instance M_ret {W} : MRet (M W) := λ A a w, (Ok a, w).
Global Instance M_bind {W} : MBind (M W) := λ A B k c w,
  match c w with
  | (Ok a, w') => k a w'
  | (Err e, w') => (Err e, w')
  | (Panic, w') => (Panic, w')
  end.

Definition raise {W A} (e : error) : M W A := λ w, (Err e, w).
Definition panic {W A} : M W A := λ w, (Panic, w).

(** Run [c] and hand its result, success or error, to the caller: what
    [v, err := c()] does. A panic still propagates. *)
Definition try {W A} (c : M W A) : M W (error + A) := λ w,
  match c w with
  | (Ok a, w') => (Ok (inr a), w')
  | (Err e, w') => (Ok (inl e), w')
  | (Panic, w') => (Panic, w')
  end.

(** [if err != nil { return f(err) }]. *)
Definition wrap_err {W A} (f : error → error) (c : M W A) : M W A := λ w,
  match c w with
  | (Err e, w') => (Err (f e), w')
  | r => r
  end.

(** A pure fallible computation used inside an effectful one. *)
Definition lift_res {W A} (r : res A) : M W A := λ w, (r, w).

Global Instance res_ret : MRet res := λ A a, Ok a.
Global Instance res_bind : MBind res := λ A B k c,
  match c with
  | Ok a => k a
  | Err e => Err e
  | Panic => Panic
  end.

Definition res_wrap {A} (f : error → error) (r : res A) : res A :=
  match r with
  | Err e => Err (f e)
  | r => r
  end.

(** ** Inversion lemmas of the monad *)
Section monad.
Context {W : Type}.

Lemma bind_Ok {A B} (c : M W A) (k : A → M W B) w b w' :
  (c ≫= k) w = (Ok b, w') ↔
  ∃ a w1, c w = (Ok a, w1) ∧ k a w1 = (Ok b, w').
Proof.
  unfold mbind, M_bind. destruct (c w) as [[a|e|] w1]; naive_solver.
Qed.

Lemma bind_run {A B} (c : M W A) (k : A → M W B) w a w1 :
  c w = (Ok a, w1) → (c ≫= k) w = k a w1.
Proof. unfold mbind, M_bind. by intros ->. Qed.

Lemma bind_run_Err {A B} (c : M W A) (k : A → M W B) w e w1 :
  c w = (Err e, w1) → (c ≫= k) w = (Err e, w1).
Proof. unfold mbind, M_bind. by intros ->. Qed.

Lemma bind_run_Panic {A B} (c : M W A) (k : A → M W B) w w1 :
  c w = (Panic, w1) → (c ≫= k) w = (Panic, w1).
Proof. unfold mbind, M_bind. by intros ->. Qed.

Lemma ret_Ok {A} (a b : A) (w w' : W) :
  (mret a : M W A) w = (Ok b, w') ↔ a = b ∧ w = w'.
Proof. unfold mret, M_ret. naive_solver. Qed.

Lemma wrap_err_Ok {A} f (c : M W A) w a w' :
  wrap_err f c w = (Ok a, w') ↔ c w = (Ok a, w').
Proof. unfold wrap_err. destruct (c w) as [[]]; naive_solver. Qed.

Lemma wrap_err_Err {A} f (c : M W A) w e w' :
  wrap_err f c w = (Err e, w') ↔ ∃ e0, c w = (Err e0, w') ∧ e = f e0.
Proof. unfold wrap_err. destruct (c w) as [[]]; naive_solver. Qed.

Lemma raise_not_Ok {A} e (w w' : W) (a : A) : raise e w ≠ (Ok a, w').
Proof. done. Qed.
End monad.

(** One step of inversion on a run of the monad that ended in [Ok]. *)
Ltac inv_ok :=
  repeat match goal with
  | H : (mbind _ _) _ = (Ok _, _) |- _ =>
      let a := fresh "a" in let w := fresh "w" in let H1 := fresh "Hrun" in
      apply bind_Ok in H; destruct H as (a & w & H1 & H)
  | H : (mret _) _ = (Ok _, _) |- _ => apply ret_Ok in H; destruct H; subst
  | H : wrap_err _ _ _ = (Ok _, _) |- _ => apply wrap_err_Ok in H
  | H : raise _ _ = (Ok _, _) |- _ => discriminate H
  | H : panic _ = (Ok _, _) |- _ => discriminate H
  end.

(** ** Computations that leave a part of the world alone

    [keeps view c]: whatever the outcome of [c], error and panic included,
    [view] of the world is the same before and after. *)
Definition keeps {W A B} (view : W → B) (c : M W A) : Prop :=
  ∀ w r w', c w = (r, w') → view w' = view w.

Create HintDb keeps.

Section keeps.
Context {W B : Type} (view : W → B).

Lemma keeps_ret {A} (a : A) : keeps view (mret a).
Proof. by intros w r w' [= _ <-]. Qed.
Lemma keeps_raise {A} e : keeps view (raise (A := A) e).
Proof. by intros w r w' [= _ <-]. Qed.
Lemma keeps_panic {A} : keeps view (panic (A := A)).
Proof. by intros w r w' [= _ <-]. Qed.
Lemma keeps_lift {A} (x : res A) : keeps view (lift_res x).
Proof. by intros w r w' [= _ <-]. Qed.
Lemma keeps_bind {A C} (c : M W A) (k : A → M W C) :
  keeps view c → (∀ a, keeps view (k a)) → keeps view (c ≫= k).
Proof.
  intros Hc Hk w r w'. unfold mbind, M_bind. destruct (c w) as [[a|e|] w1] eqn:E; intros Hr.
  - rewrite (Hk a _ _ _ Hr). by eapply Hc.
  - injection Hr as _ <-. by eapply Hc.
  - injection Hr as _ <-. by eapply Hc.
Qed.
Lemma keeps_wrap_err {A} f (c : M W A) : keeps view c → keeps view (wrap_err f c).
Proof.
  intros Hc w r w'. unfold wrap_err. destruct (c w) as [[a|e|] w1] eqn:E;
    intros [= _ <-]; by eapply Hc.
Qed.
Lemma keeps_try {A} (c : M W A) : keeps view c → keeps view (try c).
Proof.
  intros Hc w r w'. unfold try. destruct (c w) as [[a|e|] w1] eqn:E;
    intros [= _ <-]; by eapply Hc.
Qed.
End keeps.

(** [moves view R c]: whatever the outcome, [R] relates the views before
    and after. A computation that moves may be surrounded by ones that do
    not. *)
Definition moves {W A B} (view : W → B) (R : relation B) (c : M W A) : Prop :=
  ∀ w r w', c w = (r, w') → R (view w) (view w').

Section moves.
Context {W B : Type} (view : W → B) (R : relation B) `{!Reflexive R}.

Lemma moves_keeps {A} (c : M W A) : keeps view c → moves view R c.
Proof. intros Hc w r w' Hr. by rewrite (Hc _ _ _ Hr). Qed.
Lemma moves_bind_l {A C} (c : M W A) (k : A → M W C) :
  keeps view c → (∀ a, moves view R (k a)) → moves view R (c ≫= k).
Proof.
  intros Hc Hk w r w'. unfold mbind, M_bind. destruct (c w) as [[a|e|] w1] eqn:E; intros Hr.
  - rewrite <-(Hc _ _ _ E). by eapply Hk.
  - injection Hr as _ <-. by rewrite (Hc _ _ _ E).
  - injection Hr as _ <-. by rewrite (Hc _ _ _ E).
Qed.
Lemma moves_bind_r {A C} (c : M W A) (k : A → M W C) :
  moves view R c → (∀ a, keeps view (k a)) → moves view R (c ≫= k).
Proof.
  intros Hc Hk w r w'. unfold mbind, M_bind. destruct (c w) as [[a|e|] w1] eqn:E; intros Hr.
  - rewrite (Hk a _ _ _ Hr). by eapply Hc.
  - injection Hr as _ <-. by eapply Hc.
  - injection Hr as _ <-. by eapply Hc.
Qed.
Lemma moves_wrap_err {A} f (c : M W A) : moves view R c → moves view R (wrap_err f c).
Proof.
  intros Hc w r w'. unfold wrap_err. destruct (c w) as [[a|e|] w1] eqn:E;
    intros [= _ <-]; by eapply Hc.
Qed.
End moves.
#[export] Hint Resolve keeps_ret keeps_raise keeps_panic keeps_lift : keeps.

(** [stays R c]: whatever the outcome, [R], a preorder, relates the worlds
    before and after. Keeping a view is the case of [unchanged view]. *)
Definition stays {W A} (R : relation W) (c : M W A) : Prop :=
  ∀ w r w', c w = (r, w') → R w w'.
Definition unchanged {W B} (view : W → B) : relation W := λ w w', view w' = view w.
#[export] Instance unchanged_PreOrder {W B} (view : W → B) : PreOrder (unchanged view).
Proof. split; unfold unchanged; [done|]. intros x y z. congruence. Qed.

Section stays.
Context {W : Type} (R : relation W) `{!PreOrder R}.

Lemma stays_ret {A} (a : A) : stays R (mret a).
Proof. by intros w r w' [= _ <-]. Qed.
Lemma stays_raise {A} e : stays R (raise (A := A) e).
Proof. by intros w r w' [= _ <-]. Qed.
Lemma stays_panic {A} : stays R (panic (A := A)).
Proof. by intros w r w' [= _ <-]. Qed.
Lemma stays_lift {A} (x : res A) : stays R (lift_res x).
Proof. by intros w r w' [= _ <-]. Qed.
Lemma stays_bind {A C} (c : M W A) (k : A → M W C) :
  stays R c → (∀ a, stays R (k a)) → stays R (c ≫= k).
Proof.
  intros Hc Hk w r w'. unfold mbind, M_bind. destruct (c w) as [[a|e|] w1] eqn:E; intros Hr.
  - transitivity w1; [by eapply Hc|by eapply Hk].
  - injection Hr as _ <-. by eapply Hc.
  - injection Hr as _ <-. by eapply Hc.
Qed.
Lemma stays_ret_bind {A C} (a : A) (k : A → M W C) : stays R (k a) → stays R (mret a ≫= k).
Proof. done. Qed.
Lemma stays_panic_bind {A C} (k : A → M W C) : stays R (panic ≫= k).
Proof. by intros w r w' [= _ <-]. Qed.
Lemma stays_wrap_err {A} f (c : M W A) : stays R c → stays R (wrap_err f c).
Proof.
  intros Hc w r w'. unfold wrap_err. destruct (c w) as [[a|e|] w1] eqn:E;
    intros [= _ <-]; by eapply Hc.
Qed.
Lemma stays_try {A} (c : M W A) : stays R c → stays R (try c).
Proof.
  intros Hc w r w'. unfold try. destruct (c w) as [[a|e|] w1] eqn:E;
    intros [= _ <-]; by eapply Hc.
Qed.
End stays.
Create HintDb stays.
#[export] Hint Extern 0 (stays _ (mret _)) => apply stays_ret; apply _ : stays.
#[export] Hint Extern 0 (stays _ (raise _)) => apply stays_raise; apply _ : stays.
#[export] Hint Extern 0 (stays _ panic) => apply stays_panic; apply _ : stays.
#[export] Hint Extern 0 (stays _ (lift_res _)) => apply stays_lift; apply _ : stays.
Ltac solve_stays :=
  repeat first
    [ progress intros
    | solve [eauto with stays]
    | match goal with |- stays _ (mret _ ≫= _) => apply stays_ret_bind; cbv beta end
    | match goal with |- stays _ (panic ≫= _) => apply stays_panic_bind; apply _ end
    | apply stays_bind; [apply _|..]
    | apply stays_wrap_err
    | apply stays_try
    | match goal with
      | |- stays _ (match ?x with _ => _ end) => destruct x
      | |- stays _ (let _ := _ in _) => cbv zeta
      end ].

(** Follow the structure of the computation; leaves are left to the hints. *)
Ltac solve_keeps :=
  repeat first
    [ progress intros
    | solve [eauto with keeps]
    | apply keeps_bind
    | apply keeps_wrap_err
    | apply keeps_try
    | match goal with
      | |- keeps _ (match ?x with _ => _ end) => destruct x
      | |- keeps _ (let _ := _ in _) => cbv zeta
      end ].

(** An equation between two closed terms, checked by the virtual machine. *)
Ltac vm_refl :=
  lazymatch goal with |- @eq ?A ?a ?b => exact (@eq_refl A b <: @eq A a b) end.

(** Naming the result of a successful lookup. *)
Lemma Some_default {A} (x : option A) (d : A) :
  match x with Some _ => true | None => false end = true → x = Some (default d x).
Proof. by destruct x. Qed.

(** Filters that take nothing away. *)
Lemma filter_id {A} (P : A → Prop) `{∀ x, Decision (P x)} l : Forall P l → filter P l = l.
Proof. induction 1 as [|x l Hx _ IH]; [done|]. by rewrite filter_cons_True, IH. Qed.
Lemma filter_others `{EqDecision A} (x : A) (l : list A) : x ∉ l → filter (λ y, y ≠ x) l = l.
Proof. intros Hx. apply filter_id, Forall_forall. by intros y Hy ->. Qed.

(** ** Machine integers

    [int] is 64 bits wide on every platform the program is built for; the
    conversions [uint32(x)] and [uint16(x)] keep the low bits. *)
Definition min_int : Z := - 2 ^ 63.
Definition max_int : Z := 2 ^ 63 - 1.
Definition min_int32 : Z := - 2 ^ 31.
Definition max_int32 : Z := 2 ^ 31 - 1.
Definition uint32 (x : Z) : Z := x `mod` 2 ^ 32.
Definition uint16 (x : Z) : Z := x `mod` 2 ^ 16.

Lemma uint32_id x : (0 ≤ x < 2 ^ 32)%Z → uint32 x = x.
Proof. apply Z.mod_small. Qed.
Lemma uint16_id x : (0 ≤ x < 2 ^ 16)%Z → uint16 x = x.
Proof. apply Z.mod_small. Qed.
Lemma uint32_range x : (0 ≤ uint32 x < 2 ^ 32)%Z.
Proof. by apply Z.mod_pos_bound. Qed.
Lemma uint16_range x : (0 ≤ uint16 x < 2 ^ 16)%Z.
Proof. by apply Z.mod_pos_bound. Qed.

(** ** Go maps

    A Go map that may be nil is an [option] of a [gmap]; reading a missing
    key, or reading from a nil map, gives the zero value. *)
Definition map_get (m : option (gmap string string)) (k : string) : string :=
  match m with
  | Some m => default "" (m !! k)
  | None => ""
  end.

(** [range] over a map visits every entry once, in an order the language
    leaves open. A development-wide parameter gives the order; every
    theorem holds for every choice of it. *)
Class GoRange := {
  range_map : ∀ {K : Type} `{Countable K} {A : Type}, gmap K A → list (K * A);
  range_map_perm : ∀ {K : Type} `{Countable K} {A : Type} (m : gmap K A),
    range_map m ≡ₚ map_to_list m
}.

(** The order of [map_to_list] is one such choice; the concrete runs use it. *)
Definition key_order : GoRange := {|
  range_map := λ K _ _ A m, map_to_list m;
  range_map_perm := λ K _ _ A m, reflexivity _
|}.

Lemma range_map_lookup `{GoRange} {A} (m : gmap string A) k v :
  (k, v) ∈ range_map m ↔ m !! k = Some v.
Proof. rewrite range_map_perm. apply elem_of_map_to_list. Qed.

Lemma range_map_empty `{GoRange, Countable K} {A} : range_map (∅ : gmap K A) = [].
Proof. apply Permutation_nil_r. by rewrite range_map_perm, map_to_list_empty. Qed.
