(* ===== verification/GoStrings.v ===== *)
(** * Go's [strings] and [strconv], as far as the program uses them

    A Go string is a sequence of bytes; [string] is that sequence. The
    operations are those of the packages [strings] and [strconv] at the
    arguments the program calls them with. *)

From Stdlib Require Import Ascii.
From S2P Require Import Prelude.

(** ** Definitions *)

(** Go's [<] on strings: bytewise lexicographic order. *)
Definition str_lt (s t : string) : bool := String.ltb s t.

(** [strip p s] is the rest of [s] after the prefix [p]. *)
Fixpoint strip (p s : string) : option string :=
  match p, s with
  | "", _ => Some s
  | String a p', String b s' => if decide (a = b) then strip p' s' else None
  | String _ _, "" => None
  end.

(** [strings.HasPrefix], [strings.TrimPrefix], [strings.TrimSuffix]. *)
Definition HasPrefix (s p : string) : bool :=
  match strip p s with Some _ => true | None => false end.
Definition TrimPrefix (s p : string) : string := default s (strip p s).
Definition TrimSuffix (s p : string) : string :=
  match strip (String.rev p) (String.rev s) with
  | Some r => String.rev r
  | None => s
  end.

(** [strings.Cut]: split around the first occurrence of [sep]. *)
Fixpoint Cut (sep s : string) : option (string * string) :=
  match strip sep s with
  | Some rest => Some ("", rest)
  | None =>
      match s with
      | "" => None
      | String c s' =>
          match Cut sep s' with
          | Some (a, b) => Some (String c a, b)
          | None => None
          end
      end
  end.

(** [strings.Split(s, sep)] for a non-empty [sep]: each cut consumes at
    least one byte, so as many cuts as there are bytes are enough. *)
Fixpoint split_go (fuel : nat) (sep s : string) : list string :=
  match fuel with
  | 0 => [s]
  | S n =>
      match Cut sep s with
      | Some (a, b) => a :: split_go n sep b
      | None => [s]
      end
  end.
Definition Split (s sep : string) : list string := split_go (String.length s) sep s.

(** [strings.SplitN(s, sep, 2)]. *)
Definition SplitN2 (s sep : string) : list string :=
  match Cut sep s with
  | Some (a, b) => [a; b]
  | None => [s]
  end.

(** [strings.Join]. *)
Fixpoint Join (l : list string) (sep : string) : string :=
  match l with
  | [] => ""
  | [x] => x
  | x :: l' => x +:+ sep +:+ Join l' sep
  end.

(** [strings.Replace(s, old, new, 1)] for a non-empty [old]. *)
Definition Replace1 (s old new : string) : string :=
  match Cut old s with
  | Some (a, b) => a +:+ new +:+ b
  | None => s
  end.

(** [strings.ToLower] on ASCII text (label values are ASCII). *)
Definition lower_ascii (c : ascii) : ascii :=
  let n := N_of_ascii c in
  if (65 <=? n)%N && (n <=? 90)%N then ascii_of_N (n + 32) else c.
Fixpoint ToLower (s : string) : string :=
  match s with
  | "" => ""
  | String c s' => String (lower_ascii c) (ToLower s')
  end.

(** [sort.Strings]: the increasing rearrangement of the list, which is
    unique because the order on strings is total. *)
Definition sort_Strings (l : list string) : list string := merge_sort String.le l.

(** [strconv.Itoa] and the [%d] verb. *)
Definition Itoa (z : Z) : string := pretty z.

(** The digit loop of [strconv]: [None] on an empty run or a non-digit. *)
Fixpoint digits_acc (acc : N) (s : string) : option N :=
  match s with
  | "" => Some acc
  | String c s' =>
      match Ascii.is_nat c with
      | Some d => digits_acc (acc * 10 + N.of_nat d) s'
      | None => None
      end
  end.
Definition digits (s : string) : option N :=
  match s with
  | "" => None
  | _ => digits_acc 0 s
  end.

(** The optional sign followed by digits that [ParseInt] accepts in base 10. *)
Definition parse_signed (s : string) : option Z :=
  match s with
  | "" => None
  | String c s' =>
      if decide (c = "-"%char) then n ← digits s'; Some (- Z.of_N n)%Z
      else if decide (c = "+"%char) then n ← digits s'; Some (Z.of_N n)
      else n ← digits s; Some (Z.of_N n)
  end.

(** [strconv.ParseInt(s, 10, 32)] and [strconv.Atoi]: [None] is the syntax
    or range error. *)
Definition ParseInt32 (s : string) : option Z :=
  z ← parse_signed s;
  if (min_int32 <=? z)%Z && (z <=? max_int32)%Z then Some z else None.
Definition Atoi (s : string) : option Z :=
  z ← parse_signed s;
  if (min_int <=? z)%Z && (z <=? max_int)%Z then Some z else None.

(** [strconv.ParseBool]. *)
Definition ParseBool (s : string) : option bool :=
  if decide (s ∈ ["1"; "t"; "T"; "true"; "TRUE"; "True"]) then Some true
  else if decide (s ∈ ["0"; "f"; "F"; "false"; "FALSE"; "False"]) then Some false
  else None.

(** No byte of [s] is [c]. *)
Fixpoint no_char (c : ascii) (s : string) : Prop :=
  match s with
  | "" => True
  | String a s' => a ≠ c ∧ no_char c s'
  end.

(** ** Lemmas on prefixes and cuts *)

Lemma app_cons a (s t : string) : String a s +:+ t = String a (s +:+ t).
Proof. done. Qed.
Lemma app_empty_l (s : string) : "" +:+ s = s.
Proof. done. Qed.
Lemma app_empty_r (s : string) : s +:+ "" = s.
Proof. induction s as [|a s IH]; [done|]. by rewrite app_cons, IH. Qed.
Lemma str_app_assoc (s t u : string) : s +:+ t +:+ u = (s +:+ t) +:+ u.
Proof.
  induction s as [|a s IH]; [done|]. by rewrite !app_cons, IH.
Qed.
Lemma str_app_inj_l (s t u : string) : s +:+ t = s +:+ u → t = u.
Proof. apply (inj (String.app s)). Qed.
Lemma length_str_app (s t : string) :
  String.length (s +:+ t) = String.length s + String.length t.
Proof. induction s as [|a s IH]; [done|]. rewrite app_cons. simpl. lia. Qed.

Lemma strip_Some p s r : strip p s = Some r ↔ s = p +:+ r.
Proof.
  revert s. induction p as [|a p IH]; intros s; simpl.
  { rewrite app_empty_l. naive_solver. }
  destruct s as [|b s]; [by split|]. rewrite app_cons.
  case_decide as Hab; [|naive_solver]. subst. rewrite IH. naive_solver.
Qed.

Lemma strip_app p r : strip p (p +:+ r) = Some r.
Proof. by apply strip_Some. Qed.

Lemma HasPrefix_app p r : HasPrefix (p +:+ r) p = true.
Proof. unfold HasPrefix. by rewrite strip_app. Qed.

Lemma TrimPrefix_app p r : TrimPrefix (p +:+ r) p = r.
Proof. unfold TrimPrefix. by rewrite strip_app. Qed.

Lemma HasPrefix_spec s p : HasPrefix s p = true ↔ ∃ r, s = p +:+ r.
Proof.
  unfold HasPrefix. destruct (strip p s) as [r|] eqn:E.
  - apply strip_Some in E. naive_solver.
  - split; [done|]. intros [r ->]. by rewrite strip_app in E.
Qed.

(** The parts of a cut put together again give the string. *)
Lemma Cut_app sep s a b : Cut sep s = Some (a, b) → s = a +:+ sep +:+ b.
Proof.
  revert a b. induction s as [|c s IH]; intros a b; simpl;
    destruct (strip sep _) as [r|] eqn:E.
  - intros [= <- <-]. by apply strip_Some in E.
  - done.
  - intros [= <- <-]. by apply strip_Some in E.
  - destruct (Cut sep s) as [[a' b']|]; [|done]. intros [= <- <-].
    rewrite app_cons. by rewrite (IH a' b').
Qed.

(** A byte that occurs in [sep] but not in [a]: the first cut of
    [a ++ sep ++ b] is after [a], when [sep] starts with that byte. *)
Lemma Cut_strip sep s r : strip sep s = Some r → Cut sep s = Some ("", r).
Proof. intros E. destruct s; simpl; by rewrite E. Qed.

Lemma Cut_first c sep a b :
  no_char c a → Cut (String c sep) (a +:+ String c sep +:+ b) = Some (a, b).
Proof.
  induction a as [|x a IH]; intros Ha.
  - apply Cut_strip, (strip_app (String c sep) b).
  - destruct Ha as [Hx Ha]. rewrite app_cons. simpl.
    rewrite decide_False by congruence. by rewrite IH.
Qed.

Lemma Cut_none c sep s : no_char c s → Cut (String c sep) s = None.
Proof.
  induction s as [|x s IH]; [done|]. intros [Hx Hs]. simpl.
  rewrite decide_False by congruence. by rewrite IH.
Qed.

Lemma no_char_app c s t : no_char c (s +:+ t) ↔ no_char c s ∧ no_char c t.
Proof.
  induction s as [|a s IH]; [by rewrite app_empty_l; naive_solver|].
  rewrite app_cons. simpl. rewrite IH. naive_solver.
Qed.

(** ** [Split] and [Join] *)

Lemma Split_none c sep s : no_char c s → Split s (String c sep) = [s].
Proof.
  intros Hs. unfold Split. destruct (String.length s); simpl; [done|].
  by rewrite Cut_none.
Qed.

(** Splitting around the only separator gives its two sides. *)
Lemma Split_two c sep a b :
  no_char c a → no_char c b →
  Split (a +:+ String c sep +:+ b) (String c sep) = [a; b].
Proof.
  intros Ha Hb. unfold Split. rewrite !length_str_app. simpl.
  rewrite Nat.add_succ_r. simpl. rewrite Cut_first by done.
  f_equal. destruct (_ + _); simpl; [done|]. by rewrite Cut_none.
Qed.

Lemma split_go_ne fuel sep s : split_go fuel sep s ≠ [].
Proof. destruct fuel; simpl; [done|]. by destruct (Cut sep s) as [[]|]. Qed.

Lemma Split_ne s sep : Split s sep ≠ [].
Proof. apply split_go_ne. Qed.

Lemma Join_cons x l sep : l ≠ [] → Join (x :: l) sep = x +:+ sep +:+ Join l sep.
Proof. by destruct l. Qed.

(** Joining the parts of a split gives the string back, for any separator. *)
Lemma Join_Split s sep : Join (Split s sep) sep = s.
Proof.
  unfold Split. generalize (String.length s) as n. intros n. revert s.
  induction n as [|n IH]; intros s; [done|]. simpl.
  destruct (Cut sep s) as [[a b]|] eqn:E; [|done].
  rewrite Join_cons by apply split_go_ne. rewrite IH. by apply Cut_app in E.
Qed.

(** Splitting a join of separator-free parts gives the parts back. *)
Lemma split_go_Join c l fuel :
  l ≠ [] → Forall (no_char c) l → length l ≤ S fuel →
  split_go fuel (String c "") (Join l (String c "")) = l.
Proof.
  intros Hne Hl. revert fuel. induction Hl as [|x l Hx Hl IH]; intros fuel Hf; [done|].
  destruct l as [|y l].
  { simpl. destruct fuel; simpl; [done|]. by rewrite Cut_none. }
  rewrite Join_cons by done. simpl in Hf. destruct fuel as [|fuel]; [lia|].
  simpl. rewrite Cut_first by done. f_equal. apply IH; [done|]. simpl. lia.
Qed.

Lemma length_Join c l : length l ≤ S (String.length (Join l (String c ""))).
Proof.
  induction l as [|x l IH]; simpl; [lia|]. destruct l as [|y l]; [simpl; lia|].
  rewrite !length_str_app. simpl in *. lia.
Qed.

Lemma Split_Join c l :
  l ≠ [] → Forall (no_char c) l →
  Split (Join l (String c "")) (String c "") = l.
Proof. intros. apply split_go_Join; auto using length_Join. Qed.

(** No part of a split around one byte has that byte. *)
Lemma Cut_no_char c s :
  match Cut (String c "") s with Some (a, _) => no_char c a | None => no_char c s end.
Proof.
  induction s as [|x s IH]; [done|]. simpl. destruct (decide (c = x)) as [->|Hne]; [done|].
  destruct (Cut _ s) as [[a b]|]; split; (done || congruence).
Qed.
Lemma Split_no_char c s : Forall (no_char c) (Split s (String c "")).
Proof.
  unfold Split. assert (String.length s ≤ String.length s) as Hf by done. revert Hf.
  generalize (String.length s) at 2 3 as n. intros n. revert s.
  induction n as [|n IH]; intros s Hf; simpl.
  - destruct s; simpl in Hf; [by repeat constructor|lia].
  - pose proof (Cut_no_char c s) as Hc. destruct (Cut _ s) as [[a b]|] eqn:E; [|by repeat constructor].
    constructor; [done|]. apply IH. apply Cut_app in E. rewrite E, !length_str_app in Hf. simpl in Hf. lia.
Qed.

(** ** Numbers *)

Lemma digits_acc_cons_char acc x s :
  (x < 10)%N →
  digits_acc acc (String (pretty_N_char x) s) = digits_acc (acc * 10 + x) s.
Proof.
  intros Hx. assert (x ∈ [0;1;2;3;4;5;6;7;8;9]%N) as Hin.
  { rewrite !elem_of_cons. lia. }
  repeat (apply elem_of_cons in Hin as [->|Hin]; [done|]).
  by apply elem_of_nil in Hin.
Qed.

Lemma digits_acc_pretty_go x s :
  digits_acc 0 (pretty_N_go x s) = digits_acc x s.
Proof.
  revert s. induction (N.lt_wf_0 x) as [x _ IH]; intros s.
  destruct (decide (x = 0)%N) as [->|Hx]; [by rewrite pretty_N_go_0|].
  rewrite pretty_N_go_step by lia. rewrite IH.
  - rewrite digits_acc_cons_char by (apply N.mod_lt; lia).
    f_equal. rewrite N.mul_comm. symmetry. apply N.div_mod. lia.
  - apply N.div_lt; lia.
Qed.

(** Any predicate on strings that survives a digit in front holds of the
    digits written by [pretty_N_go]. *)
Lemma pretty_N_go_ind (P : string → Prop) x s :
  (∀ d t, (d < 10)%N → P t → P (String (pretty_N_char d) t)) →
  P s → P (pretty_N_go x s).
Proof.
  intros Hstep. revert s. induction (N.lt_wf_0 x) as [x _ IH]; intros s Hs.
  destruct (decide (x = 0)%N) as [->|Hx]; [by rewrite pretty_N_go_0|].
  rewrite pretty_N_go_step by lia. apply IH; [apply N.div_lt; lia|].
  apply Hstep; [apply N.mod_lt; lia|done].
Qed.

Lemma pretty_N_ind (P : string → Prop) (n : N) :
  P "0" → (∀ d, (d < 10)%N → P (String (pretty_N_char d) "")) →
  (∀ d t, (d < 10)%N → P t → P (String (pretty_N_char d) t)) → P (pretty n).
Proof.
  intros H0 H1 Hstep. unfold pretty, pretty_N. case_decide; [done|].
  rewrite pretty_N_go_step by lia. apply pretty_N_go_ind; [done|].
  apply H1, N.mod_lt. lia.
Qed.

Lemma pretty_N_ne (n : N) : pretty n ≠ "".
Proof. by apply (pretty_N_ind (λ s, s ≠ "")). Qed.

Lemma digits_pretty (n : N) : digits (pretty n) = Some n.
Proof.
  pose proof (pretty_N_ne n) as Hne. unfold digits.
  destruct (pretty n) eqn:E; [done|]. rewrite <-E. clear Hne E.
  unfold pretty, pretty_N. case_decide as Hn; [by subst|].
  apply digits_acc_pretty_go.
Qed.

(** A digit is none of the other bytes. *)
Lemma pretty_N_char_digit d : (d < 10)%N → is_Some (Ascii.is_nat (pretty_N_char d)).
Proof.
  intros Hd. assert (d ∈ [0;1;2;3;4;5;6;7;8;9]%N) as Hin.
  { rewrite !elem_of_cons. lia. }
  repeat (apply elem_of_cons in Hin as [->|Hin]; [by eexists|]).
  by apply elem_of_nil in Hin.
Qed.

Lemma pretty_N_no_char (n : N) c : Ascii.is_nat c = None → no_char c (pretty n).
Proof.
  intros Hc. apply pretty_N_ind.
  - split; [|done]. intros <-. done.
  - intros d Hd. split; [|done]. intros <-.
    destruct (pretty_N_char_digit d Hd). congruence.
  - intros d t Hd Ht. split; [|done]. intros <-.
    destruct (pretty_N_char_digit d Hd). congruence.
Qed.

Lemma pretty_Z_pos (z : Z) : (0 ≤ z)%Z → Itoa z = pretty (Z.to_N z).
Proof. by destruct z. Qed.
Lemma pretty_Z_neg (z : Z) :
  (z < 0)%Z → Itoa z = String "-"%char (pretty (Z.to_N (- z))).
Proof. by destruct z. Qed.

Lemma Itoa_no_char z c : Ascii.is_nat c = None → c ≠ "-"%char → no_char c (Itoa z).
Proof.
  intros Hc Hd. destruct (Z.lt_ge_cases z 0).
  - rewrite pretty_Z_neg by done. split; [done|]. by apply pretty_N_no_char.
  - rewrite pretty_Z_pos by done. by apply pretty_N_no_char.
Qed.

Lemma Itoa_inj z1 z2 : Itoa z1 = Itoa z2 → z1 = z2.
Proof. apply (inj (pretty : Z → string)). Qed.

Lemma parse_signed_pretty_N (n : N) : parse_signed (pretty n) = Some (Z.of_N n).
Proof.
  pose proof (digits_pretty n) as Hd.
  assert (no_char "-"%char (pretty n)) as Hm by by apply pretty_N_no_char.
  assert (no_char "+"%char (pretty n)) as Hp by by apply pretty_N_no_char.
  unfold parse_signed. destruct (pretty n) as [|c s] eqn:E; [done|].
  rewrite decide_False by apply Hm. rewrite decide_False by apply Hp.
  by rewrite Hd.
Qed.

Lemma parse_signed_Itoa z : parse_signed (Itoa z) = Some z.
Proof.
  destruct (Z.lt_ge_cases z 0).
  - rewrite pretty_Z_neg by done. simpl. rewrite digits_pretty. simpl. f_equal. lia.
  - rewrite pretty_Z_pos, parse_signed_pretty_N by done. f_equal. lia.
Qed.

(** [strconv.Atoi] reads back what [strconv.Itoa] printed. *)
Lemma Atoi_Itoa z : (min_int ≤ z ≤ max_int)%Z → Atoi (Itoa z) = Some z.
Proof.
  intros Hz. unfold Atoi. rewrite parse_signed_Itoa. simpl.
  destruct (Z.leb_spec min_int z), (Z.leb_spec z max_int); simpl; (done || lia).
Qed.

Lemma Atoi_range s z : Atoi s = Some z → (min_int ≤ z ≤ max_int)%Z.
Proof.
  unfold Atoi. destruct (parse_signed s) as [z'|]; simpl; [|done].
  destruct (Z.leb_spec min_int z'), (Z.leb_spec z' max_int); naive_solver.
Qed.

Lemma ParseInt32_range s z : ParseInt32 s = Some z → (min_int32 ≤ z ≤ max_int32)%Z.
Proof.
  unfold ParseInt32. destruct (parse_signed s) as [z'|]; simpl; [|done].
  destruct (Z.leb_spec min_int32 z'), (Z.leb_spec z' max_int32); naive_solver.
Qed.

Lemma ParseInt32_Itoa z : (min_int32 ≤ z ≤ max_int32)%Z → ParseInt32 (Itoa z) = Some z.
Proof.
  intros Hz. unfold ParseInt32. rewrite parse_signed_Itoa. simpl.
  destruct (Z.leb_spec min_int32 z), (Z.leb_spec z max_int32); simpl; (done || lia).
Qed.

(** ** Sorting strings *)

Lemma sort_Strings_perm l : sort_Strings l ≡ₚ l.
Proof. apply merge_sort_Permutation. Qed.
Lemma sort_Strings_sorted l : StronglySorted String.le (sort_Strings l).
Proof. apply StronglySorted_merge_sort; apply _. Qed.
Lemma sort_Strings_length l : length (sort_Strings l) = length l.
Proof. by rewrite sort_Strings_perm. Qed.

(** Two lists have the same sorted form exactly when one is a
    rearrangement of the other. *)
Lemma sort_Strings_eq l1 l2 : sort_Strings l1 = sort_Strings l2 ↔ l1 ≡ₚ l2.
Proof.
  split; intros H.
  - by rewrite <-(sort_Strings_perm l1), H, sort_Strings_perm.
  - apply (StronglySorted_unique String.le); [apply sort_Strings_sorted..|].
    by rewrite !sort_Strings_perm.
Qed.

(** ** The last separator *)

Lemma no_char_last c a b s t :
  no_char c s → no_char c t →
  a +:+ String c s = b +:+ String c t → a = b ∧ s = t.
Proof.
  revert b. induction a as [|x a IH]; intros [|y b] Hs Ht.
  - intros [= ->]. done.
  - rewrite app_cons. intros [= <- ->]. by apply no_char_app in Hs as [_ [? _]].
  - rewrite app_cons. intros [= -> <-]. by apply no_char_app in Ht as [_ [? _]].
  - rewrite !app_cons. intros [= -> H]. by destruct (IH b Hs Ht H) as [-> ->].
Qed.

(** A name followed by a dash and a natural number determines both. *)
Lemma dash_number_inj a b (i j : nat) :
  a +:+ "-" +:+ Itoa (Z.of_nat i) = b +:+ "-" +:+ Itoa (Z.of_nat j) → a = b ∧ i = j.
Proof.
  rewrite !pretty_Z_pos by lia. intros H.
  apply no_char_last in H as [-> H]; [|by apply pretty_N_no_char..].
  apply (inj (pretty : N → string)) in H. split; [done|lia].
Qed.

(** ** Reversal and suffixes *)

Lemma rev_app_spec s t : String.rev_app s t = String.rev s +:+ t.
Proof.
  unfold String.rev. revert t. induction s as [|c s IH]; intros t; simpl; [done|].
  rewrite IH, (IH (String c "")). by rewrite <-str_app_assoc.
Qed.
Lemma rev_str_cons c s : String.rev (String c s) = String.rev s +:+ String c "".
Proof. unfold String.rev at 1. simpl. apply rev_app_spec. Qed.
Lemma rev_str_app s t : String.rev (s +:+ t) = String.rev t +:+ String.rev s.
Proof.
  induction s as [|c s IH]; [by rewrite app_empty_r|].
  by rewrite app_cons, !rev_str_cons, IH, <-str_app_assoc.
Qed.
Lemma rev_involutive_str s : String.rev (String.rev s) = s.
Proof. induction s as [|c s IH]; [done|]. by rewrite rev_str_cons, rev_str_app, IH. Qed.
Lemma TrimSuffix_app a b : TrimSuffix (a +:+ b) b = a.
Proof. unfold TrimSuffix. by rewrite rev_str_app, strip_app, rev_involutive_str. Qed.

Lemma Itoa_nat_no_dash n : no_char "-"%char (Itoa (Z.of_nat n)).
Proof. rewrite pretty_Z_pos by lia. by apply pretty_N_no_char. Qed.
