(* ===== verification/Netip.v ===== *)
(** * Go's [net/netip], as far as the program uses it

    [ParseAddr], [Addr.Is4] and the text form of an IPv4 address. The
    parsers follow the byte loops of the package: dotted decimals without
    leading zeros for IPv4; hexadecimal groups, at most one [::], an
    embedded dotted tail and a zone for IPv6. *)

From Stdlib Require Import Ascii.
From S2P Require Import Prelude GoStrings.

(** ** Definitions *)

(** An address: four bytes, or eight 16-bit groups with a zone. *)
Inductive Addr : Type :=
| Addr4 (fields : list N)
| Addr6 (groups : list N) (zone : string).

Definition Is4 (a : Addr) : bool :=
  match a with
  | Addr4 _ => true
  | Addr6 _ _ => false
  end.

(** The loop of [parseIPv4Fields]: [val] and [digLen] describe the field
    being read, [fields] the ones already complete. *)
Fixpoint parseIPv4Fields (s : string) (val : N) (digLen : nat) (fields : list N)
  : option (list N) :=
  match s with
  | "" => if decide (length fields < 3) then None else Some (fields ++ [val])
  | String c s' =>
      match Ascii.is_nat c with
      | Some d =>
          if decide (digLen = 1 ∧ val = 0%N) then None
          else
            let v := (val * 10 + N.of_nat d)%N in
            if (255 <? v)%N then None else parseIPv4Fields s' v (S digLen) fields
      | None =>
          if decide (c = "."%char) then
            if decide (digLen = 0 ∨ s' = "") then None
            else if decide (length fields = 3) then None
            else parseIPv4Fields s' 0 0 (fields ++ [val])
          else None
      end
  end.

Definition parseIPv4 (s : string) : option Addr :=
  Addr4 <$> parseIPv4Fields s 0 0 [].

(** One hexadecimal digit. *)
Definition hex_digit (c : ascii) : option N :=
  let n := N_of_ascii c in
  if (48 <=? n)%N && (n <=? 57)%N then Some (n - 48)%N
  else if (97 <=? n)%N && (n <=? 102)%N then Some (n - 87)%N
  else if (65 <=? n)%N && (n <=? 70)%N then Some (n - 55)%N
  else None.

(** The inner loop of [parseIPv6]: at most four digits; the value, how many
    digits were read and the rest of the string. *)
Fixpoint hex_group (s : string) (off : nat) (acc : N) : option (N * nat * string) :=
  match s with
  | "" => Some (acc, off, "")
  | String c s' =>
      match hex_digit c with
      | Some d => if decide (3 < off) then None else hex_group s' (S off) (acc * 16 + d)%N
      | None => Some (acc, off, s)
      end
  end.

(** The outer loop of [parseIPv6]: [groups] are the 16-bit chunks read so
    far, [ellipsis] the position of [::] among them. Eight rounds fill the
    sixteen bytes. The result is the groups, the ellipsis and what is left
    of the string. *)
Fixpoint ipv6_groups (fuel : nat) (s : string) (groups : list N) (ellipsis : option nat)
  : option (list N * option nat * string) :=
  match fuel with
  | 0 => Some (groups, ellipsis, s)
  | S fuel' =>
      '(acc, off, rest) ← hex_group s 0 0;
      if decide (off = 0) then None
      else if HasPrefix rest "." then
        if decide (ellipsis = None ∧ length groups ≠ 6) then None
        else if decide (8 < length groups + 2) then None
        else
          match parseIPv4Fields s 0 0 [] with
          | Some [a; b; c; d] =>
              Some (groups ++ [(a * 256 + b)%N; (c * 256 + d)%N], ellipsis, "")
          | _ => None
          end
      else
        let groups' := groups ++ [acc] in
        match rest with
        | "" => Some (groups', ellipsis, "")
        | String c s1 =>
            if decide (c ≠ ":"%char) then None
            else
              match s1 with
              | "" => None
              | String c2 s2 =>
                  if decide (c2 = ":"%char) then
                    match ellipsis with
                    | Some _ => None
                    | None =>
                        match s2 with
                        | "" => Some (groups', Some (length groups'), "")
                        | _ => ipv6_groups fuel' s2 groups' (Some (length groups'))
                        end
                    end
                  else ipv6_groups fuel' s1 groups' ellipsis
              end
        end
  end.

Definition parseIPv6 (text : string) : option Addr :=
  '(s, zone) ←
    match Cut "%" text with
    | Some (_, "") => None
    | Some (s, z) => Some (s, z)
    | None => Some (text, "")
    end;
  if decide (s = "::") then Some (Addr6 (replicate 8 0%N) zone)
  else
    let '(start, body) :=
      match strip "::" s with
      | Some r => (Some 0, r)
      | None => (None, s)
      end in
    '(groups, ellipsis, rest) ← ipv6_groups 8 body [] start;
    if decide (rest ≠ "") then None
    else if decide (length groups < 8) then
      e ← ellipsis;
      Some (Addr6 (take e groups ++ replicate (8 - length groups) 0%N ++ drop e groups) zone)
    else
      match ellipsis with
      | Some _ => None
      | None => Some (Addr6 groups zone)
      end.

(** [netip.ParseAddr]: the first [.], [:] or [%] selects the parser. *)
Fixpoint addr_kind (s : string) : option ascii :=
  match s with
  | "" => None
  | String c s' =>
      if decide (c ∈ ["."; ":"; "%"]%char) then Some c else addr_kind s'
  end.
Definition ParseAddr (s : string) : option Addr :=
  match addr_kind s with
  | Some c =>
      if decide (c = "."%char) then parseIPv4 s
      else if decide (c = ":"%char) then parseIPv6 s
      else None
  | None => None
  end.

(** [Addr.String]: dotted decimals for IPv4; for IPv6 the groups in
    hexadecimal with the first longest run of at least two zero groups
    written [::], a dotted tail for an IPv4-mapped address, and the zone. *)
Definition Addr4_String (fields : list N) : string :=
  Join (pretty <$> fields) ".".

Definition hex_char (d : N) : ascii :=
  ascii_of_N (if (d <? 10)%N then 48 + d else 87 + d).
Definition hex16 (g : N) : string :=
  let d3 := (g `div` 4096)%N in
  let d2 := ((g `div` 256) `mod` 16)%N in
  let d1 := ((g `div` 16) `mod` 16)%N in
  let d0 := (g `mod` 16)%N in
  let opt (b : bool) c s := if b then String (hex_char c) s else s in
  opt (4096 <=? g)%N d3 (opt (256 <=? g)%N d2 (opt (16 <=? g)%N d1
    (String (hex_char d0) ""))).
Fixpoint zero_run (l : list N) : nat :=
  match l with
  | 0%N :: l' => S (zero_run l')
  | _ => 0
  end.
Fixpoint longest_zeros (i : nat) (l : list N) (start len : nat) : nat * nat :=
  match l with
  | [] => (start, len)
  | _ :: l' =>
      let n := zero_run l in
      if decide (2 ≤ n ∧ len < n) then longest_zeros (S i) l' i n
      else longest_zeros (S i) l' start len
  end.
Definition Addr6_String (groups : list N) (zone : string) : string :=
  (if decide (take 6 groups = [0; 0; 0; 0; 0; 65535]%N) then
     "::ffff:" +:+ Addr4_String
       ((drop 6 groups) ≫= λ g, [(g `div` 256)%N; (g `mod` 256)%N])
   else
     let '(start, len) := longest_zeros 0 groups 0 0 in
     if decide (len = 0) then Join (hex16 <$> groups) ":"
     else Join (hex16 <$> take start groups) ":" +:+ "::" +:+
          Join (hex16 <$> drop (start + len) groups) ":") +:+
  (if decide (zone = "") then "" else "%" +:+ zone).
Definition Addr_String (a : Addr) : string :=
  match a with
  | Addr4 fields => Addr4_String fields
  | Addr6 groups zone => Addr6_String groups zone
  end.

(** ** The text of a parsed IPv4 address is the address *)

Lemma pretty_N_go_app x s : pretty_N_go x s = pretty_N_go x "" +:+ s.
Proof.
  revert s. induction (N.lt_wf_0 x) as [x _ IH]; intros s.
  destruct (decide (x = 0)%N) as [->|Hx]; [by rewrite !pretty_N_go_0|].
  rewrite !(pretty_N_go_step x) by lia.
  assert (x `div` 10 < x)%N as Hlt by (apply N.div_lt; lia).
  rewrite (IH _ Hlt), (IH _ Hlt (String _ "")). by rewrite <-str_app_assoc.
Qed.

Lemma pretty_N_snoc (v d : N) :
  (0 < v)%N → (d < 10)%N →
  pretty (v * 10 + d)%N = pretty v +:+ String (pretty_N_char d) "".
Proof.
  intros Hv Hd. unfold pretty, pretty_N. rewrite !decide_False by lia.
  rewrite (pretty_N_go_step (v * 10 + d)) by lia.
  replace ((v * 10 + d) `div` 10)%N with v
    by (rewrite N.div_add_l by lia; rewrite N.div_small by lia; lia).
  replace ((v * 10 + d) `mod` 10)%N with d
    by (rewrite N.add_comm, N.Div0.mod_add, N.mod_small by lia; done).
  apply pretty_N_go_app.
Qed.

Lemma is_nat_char c d :
  Ascii.is_nat c = Some d → d < 10 ∧ c = pretty_N_char (N.of_nat d).
Proof.
  destruct c as [[] [] [] [] [] [] [] []]; simpl; intros [= <-]; split; (done || lia).
Qed.

(** The digits read so far of the current field. *)
Definition field_text (val : N) (digLen : nat) : string :=
  if decide (digLen = 0) then "" else pretty val.

(** The part of the address already read. *)
Fixpoint fields_text (fields : list N) : string :=
  match fields with
  | [] => ""
  | f :: fs => pretty f +:+ "." +:+ fields_text fs
  end.

Lemma fields_text_snoc fs v :
  fields_text (fs ++ [v]) = fields_text fs +:+ pretty v +:+ ".".
Proof.
  induction fs as [|f fs IH]; simpl; [by rewrite app_empty_l|].
  by rewrite IH, <-!str_app_assoc.
Qed.

Lemma fields_text_Join fs v :
  fields_text fs +:+ pretty v = Addr4_String (fs ++ [v]).
Proof.
  unfold Addr4_String. induction fs as [|f fs IH]; [done|].
  cbn [fields_text app]. rewrite fmap_cons, Join_cons by (by destruct fs).
  by rewrite <-IH, <-!str_app_assoc.
Qed.

Lemma parseIPv4Fields_text s val digLen fields r :
  parseIPv4Fields s val digLen fields = Some r →
  (digLen = 0 → val = 0%N) → (val = 0%N → digLen ≤ 1) → (digLen = 0 → s ≠ "") →
  fields_text fields +:+ field_text val digLen +:+ s = Addr4_String r.
Proof.
  revert val digLen fields. induction s as [|c s IH]; simpl; intros val digLen fields.
  { case_decide; [done|]. intros [= <-] _ _ Hne. unfold field_text.
    rewrite decide_False by naive_solver. rewrite app_empty_r. apply fields_text_Join. }
  destruct (Ascii.is_nat c) as [d|] eqn:Hc.
  - apply is_nat_char in Hc as [Hd ->]. case_decide as Hlead; [done|].
    destruct (255 <? _)%N; [done|]. intros Hr Hz H1 _.
    rewrite <-(IH _ _ _ Hr); [|lia..|done]. f_equal.
    unfold field_text at 2. simpl.
    unfold field_text. case_decide as H0; subst.
    + rewrite Hz by done. rewrite app_empty_l. simpl.
      destruct d as [|d]; [done|]. unfold pretty, pretty_N.
      rewrite decide_False by lia. rewrite pretty_N_go_step by lia.
      rewrite N.div_small, N.mod_small by lia. by rewrite pretty_N_go_0.
    + rewrite pretty_N_snoc by lia. by rewrite <-str_app_assoc.
  - case_decide as Hdot; [|done]. subst c. case_decide as Hne; [done|].
    case_decide; [done|]. intros Hr _ _ _.
    rewrite <-(IH _ _ _ Hr); [|naive_solver lia..].
    rewrite fields_text_snoc. unfold field_text. simpl.
    rewrite decide_False by naive_solver. by rewrite <-!str_app_assoc.
Qed.

Lemma parseIPv6_not_4 s fields : parseIPv6 s ≠ Some (Addr4 fields).
Proof.
  unfold parseIPv6. intros ([s' zone] & _ & H)%bind_Some. case_decide; [done|].
  destruct (match strip "::" s' with Some r => _ | None => _ end) as [start body].
  apply bind_Some in H as ([[groups ellipsis] rest] & _ & H).
  case_decide; [done|]. case_decide; [|by destruct ellipsis].
  by apply bind_Some in H as (? & _ & ?).
Qed.

(** Printing a parsed IPv4 address gives the text it was parsed from. *)
Lemma ParseAddr_Addr4 s fields : ParseAddr s = Some (Addr4 fields) → Addr4_String fields = s.
Proof.
  unfold ParseAddr. destruct (addr_kind s) as [c|] eqn:Hk; [|done].
  assert (s ≠ "") as Hs by (by destruct s). case_decide.
  - unfold parseIPv4. destruct (parseIPv4Fields s 0 0 []) eqn:E; [|done].
    intros [= <-]. apply parseIPv4Fields_text in E; [|done|lia|done]. by rewrite <-E.
  - case_decide; [|done]. by intros ?%parseIPv6_not_4.
Qed.
