(* ===== verification/GoNet.v ===== *)
(** * Go's [net/url] and [net], as far as the program uses them

    [url.Parse] stays a parameter: its treatment of hosts depends on the
    release and on process-wide settings, and the program only looks at four
    things of its result. [net.SplitHostPort] is written out. *)

From Stdlib Require Import Ascii.
From S2P Require Import Prelude GoStrings.

(** ** Definitions *)

(** A parsed URL: its scheme, its path, the values of its query, and what
    its method [Hostname] returns. *)
Record URL := {
  URL_Scheme : string;
  URL_Path : string;
  URL_Query : gmap string (list string);
  URL_Hostname : string
}.
(** [url.Values.Get]: the first value of the key, or the empty string. *)
Definition Query_Get (u : URL) (key : string) : string :=
  match URL_Query u !! key with
  | Some (v :: _) => v
  | _ => ""
  end.

Class UrlParser := url_Parse : string → res URL.

(** [strings.IndexByte]. *)
Fixpoint IndexByte (s : string) (c : ascii) : option nat :=
  match s with
  | "" => None
  | String a s' => if decide (a = c) then Some 0 else S <$> IndexByte s' c
  end.
(** The parts around the last occurrence of a byte. *)
Definition CutLast (s : string) (c : ascii) : option (string * string) :=
  match Cut (String c "") (String.rev s) with
  | Some (b, a) => Some (String.rev a, String.rev b)
  | None => None
  end.
Definition has_byte (s : string) (c : ascii) : bool := bool_decide (is_Some (IndexByte s c)).

(** [net.SplitHostPort]: [host:port], or [[host]:port] with colons in the
    host. Every error is an [*AddrError]. *)
Definition AddrError (what : string) : error := EExt ("net.SplitHostPort: " +:+ what).
Definition SplitHostPort (hostport : string) : res (string * string) :=
  match CutLast hostport ":" with
  | None => Err (AddrError "missing port in address")
  | Some (before, port) =>
      match hostport with
      | String "[" rest =>
          match Cut "]" rest with
          | None => Err (AddrError "missing ']' in address")
          | Some (host, after) =>
              match after with
              | String ":" port' =>
                  if decide (port' = port) then
                    if has_byte rest "[" then Err (AddrError "unexpected '[' in address")
                    else if has_byte after "]" then Err (AddrError "unexpected ']' in address")
                    else Ok (host, port)
                  else Err (AddrError "too many colons in address")
              | _ => Err (AddrError "missing port in address")
              end
          end
      | _ =>
          if has_byte before ":" then Err (AddrError "too many colons in address")
          else if has_byte hostport "[" then Err (AddrError "unexpected '[' in address")
          else if has_byte hostport "]" then Err (AddrError "unexpected ']' in address")
          else Ok (before, port)
      end
  end.

(** ** Examples *)

Example split_plain : SplitHostPort "1.2.3.4:6443" = Ok ("1.2.3.4", "6443").
Proof. reflexivity. Qed.
Example split_v6 : SplitHostPort "[2001:db8::1]:443" = Ok ("2001:db8::1", "443").
Proof. reflexivity. Qed.
Example split_no_port : SplitHostPort "kubernetes.default.svc" = Err (AddrError "missing port in address").
Proof. reflexivity. Qed.
Example split_v6_bare : SplitHostPort "::1" = Err (AddrError "too many colons in address").
Proof. reflexivity. Qed.
Example split_v6_two : SplitHostPort "[::1]:80:81" = Err (AddrError "too many colons in address").
Proof. reflexivity. Qed.

(** ** Lemmas *)

Lemma has_byte_false s c : has_byte s c = false ↔ no_char c s.
Proof.
  unfold has_byte. rewrite bool_decide_eq_false. induction s as [|a s IH]; simpl.
  { split; [done|]. intros _. by intros [? ?]. }
  destruct (decide (a = c)) as [->|Hne].
  { split; [|tauto]. intros Hn. destruct Hn. by eexists. }
  rewrite fmap_is_Some, IH. tauto.
Qed.
Lemma no_char_rev c s : no_char c s → no_char c (String.rev s).
Proof.
  induction s as [|a s IH]; [done|]. intros [Ha Hs]. rewrite rev_str_cons, no_char_app. simpl. auto.
Qed.
Lemma CutLast_last c a b : no_char c b → CutLast (a +:+ String c b) c = Some (a, b).
Proof.
  intros Hb. unfold CutLast. rewrite rev_str_app, rev_str_cons, <-str_app_assoc.
  change (String c "" +:+ String.rev a) with (String c "" +:+ String.rev a).
  rewrite Cut_first by (by apply no_char_rev). by rewrite !rev_involutive_str.
Qed.

(** A host without colons and brackets joined to a port is split again. *)
Lemma SplitHostPort_join host port :
  no_char ":" host → no_char "[" host → no_char "]" host →
  no_char ":" port → no_char "[" port → no_char "]" port →
  SplitHostPort (host +:+ String ":" port) = Ok (host, port).
Proof.
  intros Hc Ho Hd Hpc Hpo Hpd. unfold SplitHostPort. rewrite CutLast_last by done.
  assert (∀ c, no_char c host → no_char c port → ":"%char ≠ c →
    has_byte (host +:+ String ":" port) c = false) as Hno.
  { intros c H1 H2 Hne. apply has_byte_false. by rewrite no_char_app. }
  assert (has_byte host ":" = false) as -> by by apply has_byte_false.
  rewrite !Hno by done.
  destruct host as [|x host]; [done|]. rewrite app_cons. destruct Ho as [Hx _].
  destruct x as [[] [] [] [] [] [] [] []]; done.
Qed.
