(* ===== verification/Api.v ===== *)
(** * The outside world: API objects and clients

    The program talks to the Cherry Servers API through [cherrygo], to
    Kubernetes through [client-go] and to [/healthz] endpoints over HTTP.
    None of that code is in the repository: the objects are records with
    the fields the program reads or writes, the clients are classes over an
    abstract world [W], and what the program relies on is stated as laws in
    further classes. *)

From S2P Require Import Prelude GoStrings.

(** ** Objects of the Cherry Servers API ([cherrygo]) *)

Record RegionBGP := { BGP_Hosts : list string; BGP_Asn : Z }.
Record Region := {
  Region_ID : Z;
  Region_Name : string;
  Region_Slug : string;
  Region_RegionIso2 : string;
  Region_BGP : RegionBGP
}.
Record Plan := { Plan_ID : Z; Plan_Name : string; Plan_Slug : string }.
Record IPAddress := {
  IP_ID : string;
  IP_Address : string;
  IP_Cidr : string;
  IP_Type : string;
  IP_Tags : option (gmap string string);
  IP_TargetedTo_ID : Z
}.
Record Project := {
  Project_ID : Z;
  Project_Name : string;
  Project_Bgp_Enabled : bool;
  Project_Bgp_LocalASN : Z
}.
Record Server := {
  Server_ID : Z;
  Server_Hostname : string;
  Server_State : string;
  Server_Plan : Plan;
  Server_Region : Region;
  Server_Project : Project;
  Server_IPAddresses : list IPAddress;
  Server_BGP_Enabled : bool;
  Server_Tags : option (gmap string string)
}.

(** Requests. *)
Record CreateIPAddress := {
  CreateIP_Region : string;
  CreateIP_Tags : option (gmap string string)
}.
Record UpdateServer := {
  UpdateServer_Tags : option (option (gmap string string));
  UpdateServer_Bgp : bool
}.
Record UpdateProject := {
  UpdateProject_Name : option string;
  UpdateProject_Bgp : option bool
}.

(** ** Objects of the Kubernetes API ([k8s.io/api/core/v1]) *)

Record NodeAddress := { NodeAddress_Type : string; NodeAddress_Address : string }.
Record Node := {
  Node_Name : string;
  Node_Labels : option (gmap string string);
  Node_Annotations : option (gmap string string);
  Node_ProviderID : string;
  Node_Unschedulable : bool;
  Node_Deleting : bool; (* the deletion timestamp is set *)
  Node_Addresses : list NodeAddress
}.
Record ServicePort := { ServicePort_TargetPort : Z }.
Record Service := {
  Service_Namespace : string;
  Service_Name : string;
  Service_Annotations : option (gmap string string);
  Service_LoadBalancerIP : string;
  Service_Ports : list ServicePort
}.

Record ObjectReference := {
  Ref_APIVersion : string;
  Ref_FieldPath : string;
  Ref_Kind : string;
  Ref_Name : string;
  Ref_Namespace : string;
  Ref_ResourceVersion : string;
  Ref_UID : string
}.
Record EndpointAddress := {
  Endpoint_Hostname : string;
  Endpoint_IP : string;
  Endpoint_NodeName : option string;
  Endpoint_TargetRef : option ObjectReference
}.
Record EndpointPort := {
  Port_Name : string;
  Port_Port : Z;
  Port_Protocol : string;
  Port_AppProtocol : option string
}.
Record EndpointSubset := {
  Subset_Addresses : list EndpointAddress;
  Subset_NotReadyAddresses : list EndpointAddress;
  Subset_Ports : list EndpointPort
}.
Record Endpoints := {
  Endpoints_Namespace : string;
  Endpoints_Name : string;
  Endpoints_Subsets : list EndpointSubset
}.

Definition NodeHostName : string := "Hostname".
Definition NodeExternalIP : string := "ExternalIP".
Definition NodeInternalIP : string := "InternalIP".

Definition set_Annotations (a : option (gmap string string)) (s : Service) : Service := {|
  Service_Namespace := Service_Namespace s;
  Service_Name := Service_Name s;
  Service_Annotations := a;
  Service_LoadBalancerIP := Service_LoadBalancerIP s;
  Service_Ports := Service_Ports s
|}.
Definition set_IPAddresses (l : list IPAddress) (s : Server) : Server := {|
  Server_ID := Server_ID s;
  Server_Hostname := Server_Hostname s;
  Server_State := Server_State s;
  Server_Plan := Server_Plan s;
  Server_Region := Server_Region s;
  Server_Project := Server_Project s;
  Server_IPAddresses := l;
  Server_BGP_Enabled := Server_BGP_Enabled s;
  Server_Tags := Server_Tags s
|}.

(** A reservation after the request to attach the one of that ID to a
    server, whose ID is sent in decimal. *)
Definition with_target (target : Z) (ip : IPAddress) : IPAddress := {|
  IP_ID := IP_ID ip; IP_Address := IP_Address ip; IP_Cidr := IP_Cidr ip;
  IP_Type := IP_Type ip; IP_Tags := IP_Tags ip; IP_TargetedTo_ID := target
|}.
Definition targeted (id target : string) (ip : IPAddress) : IPAddress :=
  if decide (IP_ID ip = id) then with_target (default 0%Z (Atoi target)) ip else ip.

(** ** Clients *)

(** The calls of [cherrygo] the program makes. [Servers_Get] also gives the
    HTTP status of the response, [None] when there is no response object;
    the other calls are used for their value or their error only. *)
Class CherryClient (W : Type) := {
  IPAddresses_List : Z → M W (list IPAddress);
  IPAddresses_Create : Z → CreateIPAddress → M W IPAddress;
  IPAddresses_Remove : string → M W unit;
  IPAddresses_Update : string → string → M W unit;
  Servers_Get : Z → W → (Server * option Z * option error) * W;
  Servers_List : Z → M W (list Server);
  Servers_Update : Z → UpdateServer → M W Server;
  Projects_Get : Z → M W Project;
  Projects_Update : Z → UpdateProject → M W Project
}.

(** The calls of [client-go] the program makes on core objects. A list of
    nodes is selected by the presence of one label. A nil object returned
    without an error is [None]. *)
Class KubeClient (W : Type) := {
  Namespaces_Get : string → M W (option string); (* the UID of a namespace *)
  Nodes_List : string → M W (list Node);
  Nodes_PatchAnnotations : string → gmap string string → M W unit;
  Services_Get : string → string → M W (option Service);
  Services_Update : string → Service → M W unit
}.

(** [metav1.LabelSelector]. *)
Record LabelSelectorRequirement := {
  LSR_Key : string;
  LSR_Operator : string;
  LSR_Values : option (list string)
}.
Record LabelSelector := {
  LS_MatchLabels : option (gmap string string);
  LS_MatchExpressions : list LabelSelectorRequirement
}.

(** A label selector of apimachinery: what [Matches] answers. Parsing
    selectors is code outside the repository. *)
Definition Selector : Type := gmap string string → bool.
Class Parsers := {
  labels_Parse : string → res Selector;
  ParseToLabelSelector : string → res LabelSelector
}.
Definition labels_Everything : Selector := λ _, true.

(** ** Apply configurations ([k8s.io/client-go/applyconfigurations/core/v1])

    The objects of server-side apply: a field that no [With...] call set is
    [None], or the empty list. *)
Module applyconfig.
Record ObjectReference := {
  Ref_APIVersion : option string;
  Ref_FieldPath : option string;
  Ref_Kind : option string;
  Ref_Name : option string;
  Ref_Namespace : option string;
  Ref_ResourceVersion : option string;
  Ref_UID : option string
}.
Record EndpointAddress := {
  Endpoint_Hostname : option string;
  Endpoint_IP : option string;
  Endpoint_NodeName : option string;
  Endpoint_TargetRef : option ObjectReference
}.
Record EndpointPort := {
  Port_Name : option string;
  Port_Port : option Z;
  Port_Protocol : option string;
  Port_AppProtocol : option string
}.
Record EndpointSubset := {
  Subset_Addresses : list EndpointAddress;
  Subset_NotReadyAddresses : list EndpointAddress;
  Subset_Ports : list EndpointPort
}.
Record Endpoints := {
  Endpoints_Name : string;
  Endpoints_Namespace : string;
  Endpoints_Subsets : list EndpointSubset
}.
Record ServicePort := {
  SPort_Name : option string;
  SPort_Port : option Z;
  SPort_Protocol : option string;
  SPort_TargetPort : option Z
}.
Record ServiceSpec := {
  SSpec_Type : option string;
  SSpec_LoadBalancerIP : option string;
  SSpec_Ports : list ServicePort
}.
Record LoadBalancerIngress := { Ingress_IP : option string; Ingress_IPMode : option string }.
Record ServiceStatus := { SStatus_Ingress : list LoadBalancerIngress }.
Record Service := {
  Service_Name : string;
  Service_Namespace : string;
  Service_Annotations : gmap string string;
  Service_Spec : option ServiceSpec;
  Service_Status : option ServiceStatus
}.
End applyconfig.

(** Server-side apply of the objects above, by one field manager. *)
Class ApplyClient (W : Type) := {
  Endpoints_Apply : string → applyconfig.Endpoints → string → M W unit;
  Services_Apply : string → applyconfig.Service → string → M W unit;
  Services_ApplyStatus : string → applyconfig.Service → string → M W unit
}.

(** ** Objects of MetalLB ([go.universe.tf/metallb/api/v1beta1]) *)

(** The API server keeps objects as JSON and leaves empty fields out, so a
    nil slice or map and an empty one are the same value of a spec. *)
Module metalapi.
Record MatchExpression := {
  MatchExpression_Key : string;
  MatchExpression_Operator : string;
  MatchExpression_Values : list string
}.
Record NodeSelector := {
  NodeSelector_MatchLabels : gmap string string;
  NodeSelector_MatchExpressions : list MatchExpression
}.
Record BGPPeerSpec := {
  Spec_MyASN : Z;
  Spec_ASN : Z;
  Spec_Address : string;
  Spec_SrcAddress : string;
  Spec_Port : Z;
  Spec_HoldTime : Z; (* nanoseconds *)
  Spec_RouterID : string;
  Spec_NodeSelectors : list NodeSelector;
  Spec_Password : string;
  Spec_EBGPMultiHop : bool
}.
Record BGPPeer := {
  BGPPeer_Name : string;
  BGPPeer_Namespace : string;
  BGPPeer_Labels : option (gmap string string);
  BGPPeer_Spec : BGPPeerSpec
}.
Record IPAddressPool := {
  Pool_Name : string;
  Pool_Namespace : string;
  Pool_Labels : option (gmap string string);
  Pool_Addresses : list string;
  Pool_AutoAssign : option bool;
  Pool_AvoidBuggyIPs : bool
}.
Record BGPAdvertisement := {
  Adv_Name : string;
  Adv_Namespace : string;
  Adv_Labels : option (gmap string string);
  Adv_IPAddressPools : list string
}.
End metalapi.

(** Metadata of a custom resource. *)
Class CrdObject (Obj : Type) := {
  obj_Namespace : Obj → string;
  obj_Name : Obj → string;
  obj_Labels : Obj → option (gmap string string)
}.
Definition obj_key {Obj} `{CrdObject Obj} (o : Obj) : string * string :=
  (obj_Namespace o, obj_Name o).

Global Instance BGPPeer_crd : CrdObject metalapi.BGPPeer := {|
  obj_Namespace := metalapi.BGPPeer_Namespace;
  obj_Name := metalapi.BGPPeer_Name;
  obj_Labels := metalapi.BGPPeer_Labels
|}.
Global Instance IPAddressPool_crd : CrdObject metalapi.IPAddressPool := {|
  obj_Namespace := metalapi.Pool_Namespace;
  obj_Name := metalapi.Pool_Name;
  obj_Labels := metalapi.Pool_Labels
|}.
Global Instance BGPAdvertisement_crd : CrdObject metalapi.BGPAdvertisement := {|
  obj_Namespace := metalapi.Adv_Namespace;
  obj_Name := metalapi.Adv_Name;
  obj_Labels := metalapi.Adv_Labels
|}.

(** Every label of the selector is on the object with that value. *)
Definition labels_match (sel : gmap string string) (labels : option (gmap string string)) : bool :=
  bool_decide (sel ⊆ default ∅ labels).

(** The calls of the controller-runtime client on one kind of object: [List]
    with a label selector in a namespace, [Create], [Patch] with the merge
    patch from an original to a modified object, and [Delete]. *)
Class CrdClient (W Obj : Type) := {
  crd_List : gmap string string → string → M W (list Obj);
  crd_Create : Obj → M W unit;
  crd_Patch : Obj → Obj → M W unit;
  crd_Delete : Obj → M W unit
}.

(** What the program relies on: the API server keeps one object per
    namespace and name; a successful call has the documented effect and
    nothing else; a merge patch from the stored object to a modified one
    stores the modified one (RFC 7386); calls do not panic. [crd_objs] is
    the server's store. *)
Class CrdLaws (W Obj : Type) `{CrdObject Obj, CrdClient W Obj} := {
  crd_objs : W → gmap (string * string) Obj;
  crd_keyed : ∀ w k o, crd_objs w !! k = Some o → obj_key o = k;
  crd_List_Ok : ∀ sel ns w l w', crd_List sel ns w = (Ok l, w') →
    w' = w ∧ NoDup l ∧
    ∀ o, o ∈ l ↔ crd_objs w !! obj_key o = Some o ∧ obj_Namespace o = ns ∧
                 labels_match sel (obj_Labels o) = true;
  crd_Create_Ok : ∀ o w w', crd_Create o w = (Ok (), w') →
    crd_objs w !! obj_key o = None ∧ crd_objs w' = <[obj_key o := o]> (crd_objs w);
  crd_Patch_Ok : ∀ old new w w', crd_Patch old new w = (Ok (), w') →
    obj_key new = obj_key old → crd_objs w !! obj_key old = Some old →
    crd_objs w' = <[obj_key old := new]> (crd_objs w);
  crd_Delete_Ok : ∀ o w w', crd_Delete o w = (Ok (), w') →
    crd_objs w' = delete (obj_key o) (crd_objs w);
  crd_no_panic : ∀ w w',
    (∀ sel ns, crd_List sel ns w ≠ (Panic, w')) ∧
    (∀ o, crd_Create o w ≠ (Panic, w')) ∧
    (∀ old new, crd_Patch old new w ≠ (Panic, w')) ∧
    (∀ o, crd_Delete o w ≠ (Panic, w'))
}.

(** One call on one kind, whatever its outcome. *)
Inductive crd_call {W Obj : Type} `{CrdClient W Obj} (w : W) : W → Prop :=
| call_List sel ns r w' : crd_List sel ns w = (r, w') → crd_call w w'
| call_Create o r w' : crd_Create o w = (r, w') → crd_call w w'
| call_Patch old new r w' : crd_Patch old new w = (r, w') → crd_call w w'
| call_Delete o r w' : crd_Delete o w = (r, w') → crd_call w w'.
Arguments crd_call W Obj {_} _ _.

(** A call on one kind leaves the objects of another kind alone. *)
Class CrdFrame (W Obj Obj' : Type) `{CrdClient W Obj, CrdLaws W Obj'} : Prop :=
  crd_frame : ∀ w w', crd_call W Obj w w' → crd_objs (Obj := Obj') w' = crd_objs w.

(** ** HTTP *)

(** The health checks: building the request may fail, the exchange gives a
    status code or an error. *)
Class HttpClient (W : Type) := {
  http_NewRequest : string → option error;
  http_Do : string → M W Z
}.
