(* ===== verification/World.v ===== *)
(** * A concrete world for the clients

    One instance of every client class: a cluster and a project held in
    finite maps, each call doing what its documentation says, and all of
    them failing when the world is [w_down]. The laws of [Api] hold of it,
    so no theorem that assumes them is about nothing; the witnesses run
    the program in it. *)

From S2P Require Import Prelude GoStrings Api.
Import metalapi.

(** ** Definitions *)

(** The Cherry Servers side. [c_next] numbers the reservations made. *)
Record CherryWorld := {
  c_ips : list IPAddress;
  c_next : Z;
  c_servers : gmap Z Server;
  c_project : Project
}.
(** What server-side apply was asked for, newest last. *)
Inductive applied :=
| AppliedEndpoints (ns : string) (e : applyconfig.Endpoints) (manager : string)
| AppliedService (ns : string) (s : applyconfig.Service) (manager : string)
| AppliedStatus (ns : string) (s : applyconfig.Service) (manager : string).
(** The Kubernetes side: core objects. *)
Record KubeWorld := {
  k_uid : option string;
  k_nodes : list Node;
  k_services : gmap (string * string) Service;
  k_health : gmap string Z;
  k_applied : list applied
}.
Record World := {
  w_down : bool;
  w_cherry : CherryWorld;
  w_kube : KubeWorld;
  w_peers : gmap (string * string) BGPPeer;
  w_pools : gmap (string * string) IPAddressPool;
  w_advs : gmap (string * string) BGPAdvertisement
}.

Definition set_cherry (c : CherryWorld) (w : World) : World := {|
  w_down := w_down w; w_cherry := c; w_kube := w_kube w;
  w_peers := w_peers w; w_pools := w_pools w; w_advs := w_advs w |}.
Definition set_kube (k : KubeWorld) (w : World) : World := {|
  w_down := w_down w; w_cherry := w_cherry w; w_kube := k;
  w_peers := w_peers w; w_pools := w_pools w; w_advs := w_advs w |}.
Definition set_peers (m : gmap (string * string) BGPPeer) (w : World) : World := {|
  w_down := w_down w; w_cherry := w_cherry w; w_kube := w_kube w;
  w_peers := m; w_pools := w_pools w; w_advs := w_advs w |}.
Definition set_pools (m : gmap (string * string) IPAddressPool) (w : World) : World := {|
  w_down := w_down w; w_cherry := w_cherry w; w_kube := w_kube w;
  w_peers := w_peers w; w_pools := m; w_advs := w_advs w |}.
Definition set_advs (m : gmap (string * string) BGPAdvertisement) (w : World) : World := {|
  w_down := w_down w; w_cherry := w_cherry w; w_kube := w_kube w;
  w_peers := w_peers w; w_pools := w_pools w; w_advs := m |}.

(** Every call fails while the world is down. *)
Definition online {A} (c : M World A) : M World A := λ w,
  if w_down w then (Err (EExt "connection refused"), w) else c w.

Definition with_region_tags (id : Z) (req : CreateIPAddress) : IPAddress := {|
  IP_ID := "ip-" +:+ Itoa id;
  IP_Address := "203.0.113." +:+ Itoa id;
  IP_Cidr := "203.0.113." +:+ Itoa id +:+ "/32";
  IP_Type := "floating-ip";
  IP_Tags := CreateIP_Tags req;
  IP_TargetedTo_ID := 0
|}.
Definition enable_bgp (req : UpdateServer) (s : Server) : Server := {|
  Server_ID := Server_ID s; Server_Hostname := Server_Hostname s;
  Server_State := Server_State s; Server_Plan := Server_Plan s;
  Server_Region := Server_Region s; Server_Project := Server_Project s;
  Server_IPAddresses := Server_IPAddresses s;
  Server_BGP_Enabled := UpdateServer_Bgp req;
  Server_Tags := default (Server_Tags s) (UpdateServer_Tags req) |}.
Definition no_server : Server := {|
  Server_ID := 0; Server_Hostname := ""; Server_State := "";
  Server_Plan := {| Plan_ID := 0; Plan_Name := ""; Plan_Slug := "" |};
  Server_Region := {| Region_ID := 0; Region_Name := ""; Region_Slug := "";
    Region_RegionIso2 := ""; Region_BGP := {| BGP_Hosts := []; BGP_Asn := 0 |} |};
  Server_Project := {| Project_ID := 0; Project_Name := "";
    Project_Bgp_Enabled := false; Project_Bgp_LocalASN := 0 |};
  Server_IPAddresses := []; Server_BGP_Enabled := false; Server_Tags := None |}.

Definition cherry_ips (f : list IPAddress → list IPAddress) (next : Z) (c : CherryWorld) : CherryWorld := {|
  c_ips := f (c_ips c); c_next := next;
  c_servers := c_servers c; c_project := c_project c |}.

Global Instance World_Cherry : CherryClient World := {|
  IPAddresses_List := λ _, online (λ w, (Ok (c_ips (w_cherry w)), w));
  IPAddresses_Create := λ _ req, online (λ w,
    let c := w_cherry w in
    let ip := with_region_tags (c_next c) req in
    (Ok ip, set_cherry (cherry_ips (λ l, l ++ [ip]) (c_next c + 1) c) w));
  IPAddresses_Remove := λ id, online (λ w,
    let c := w_cherry w in
    (Ok (), set_cherry (cherry_ips (filter (λ ip, IP_ID ip ≠ id)) (c_next c) c) w));
  IPAddresses_Update := λ id target, online (λ w,
    let c := w_cherry w in
    (Ok (), set_cherry (cherry_ips (fmap (targeted id target)) (c_next c) c) w));
  Servers_Get := λ id w,
    if w_down w then ((no_server, None, Some (EExt "connection refused")), w)
    else
      match c_servers (w_cherry w) !! id with
      | Some s => ((s, Some 200%Z, None), w)
      | None => ((no_server, Some 404%Z, Some (EExt "not found")), w)
      end;
  Servers_List := λ p, online (λ w,
    (Ok (filter (λ s, Project_ID (Server_Project s) = p)
           ((map_to_list (c_servers (w_cherry w))).*2)), w));
  Servers_Update := λ id req, online (λ w,
    let c := w_cherry w in
    match c_servers c !! id with
    | Some s =>
        let s' := enable_bgp req s in
        (Ok (set_IPAddresses [] s'),
         set_cherry {| c_ips := c_ips c; c_next := c_next c;
                       c_servers := <[id := s']> (c_servers c); c_project := c_project c |} w)
    | None => (Err (EExt "not found"), w)
    end);
  Projects_Get := λ _, online (λ w, (Ok (c_project (w_cherry w)), w));
  Projects_Update := λ _ req, online (λ w,
    let c := w_cherry w in
    let p := c_project c in
    let p' := {| Project_ID := Project_ID p;
                 Project_Name := default (Project_Name p) (UpdateProject_Name req);
                 Project_Bgp_Enabled := default (Project_Bgp_Enabled p) (UpdateProject_Bgp req);
                 Project_Bgp_LocalASN := Project_Bgp_LocalASN p |} in
    (Ok p', set_cherry {| c_ips := c_ips c; c_next := c_next c;
                          c_servers := c_servers c; c_project := p' |} w))
|}.

Definition annotate (name : string) (a : gmap string string) (n : Node) : Node :=
  if decide (Node_Name n = name) then {|
    Node_Name := Node_Name n; Node_Labels := Node_Labels n;
    Node_Annotations := Some (a ∪ default ∅ (Node_Annotations n));
    Node_ProviderID := Node_ProviderID n; Node_Unschedulable := Node_Unschedulable n;
    Node_Deleting := Node_Deleting n; Node_Addresses := Node_Addresses n |}
  else n.

Global Instance World_Kube : KubeClient World := {|
  Namespaces_Get := λ _, online (λ w, (Ok (k_uid (w_kube w)), w));
  Nodes_List := λ label, online (λ w,
    (Ok (filter (λ n, is_Some (default ∅ (Node_Labels n) !! label)) (k_nodes (w_kube w))), w));
  Nodes_PatchAnnotations := λ name a, online (λ w,
    let k := w_kube w in
    (Ok (), set_kube {| k_uid := k_uid k; k_nodes := annotate name a <$> k_nodes k;
                        k_services := k_services k; k_health := k_health k;
                        k_applied := k_applied k |} w));
  Services_Get := λ ns name, online (λ w,
    match k_services (w_kube w) !! (ns, name) with
    | Some s => (Ok (Some s), w)
    | None => (Err (EExt "not found"), w)
    end);
  Services_Update := λ ns svc, online (λ w,
    let k := w_kube w in
    (Ok (), set_kube {| k_uid := k_uid k; k_nodes := k_nodes k;
                        k_services := <[(ns, Service_Name svc) := svc]> (k_services k);
                        k_health := k_health k; k_applied := k_applied k |} w))
|}.

Definition apply (a : applied) : M World unit := online (λ w,
  let k := w_kube w in
  (Ok (), set_kube {| k_uid := k_uid k; k_nodes := k_nodes k; k_services := k_services k;
                      k_health := k_health k; k_applied := k_applied k ++ [a] |} w)).
Global Instance World_Apply : ApplyClient World := {|
  Endpoints_Apply := λ ns e manager, apply (AppliedEndpoints ns e manager);
  Services_Apply := λ ns s manager, apply (AppliedService ns s manager);
  Services_ApplyStatus := λ ns s manager, apply (AppliedStatus ns s manager)
|}.

Global Instance World_Http : HttpClient World := {|
  http_NewRequest := λ _, None;
  http_Do := λ url, online (λ w,
    match k_health (w_kube w) !! url with
    | Some code => (Ok code, w)
    | None => (Err (EExt "connection refused"), w)
    end)
|}.

(** The calls on one kind of custom resource, given where the world keeps
    its objects. *)
Section store.
Context {Obj : Type} `{CrdObject Obj} (get : World → gmap (string * string) Obj)
  (set : gmap (string * string) Obj → World → World).

Definition store_objs (w : World) : gmap (string * string) Obj :=
  filter (λ kv, obj_key kv.2 = kv.1) (get w).

Definition store_client : CrdClient World Obj := {|
  crd_List := λ sel ns, online (λ w,
    (Ok (filter (λ o, obj_Namespace o = ns ∧ labels_match sel (obj_Labels o) = true)
           ((map_to_list (store_objs w)).*2)), w));
  crd_Create := λ o, online (λ w,
    match store_objs w !! obj_key o with
    | Some _ => (Err (EExt "already exists"), w)
    | None => (Ok (), set (<[obj_key o := o]> (get w)) w)
    end);
  crd_Patch := λ old new, online (λ w,
    match store_objs w !! obj_key old with
    | Some _ => (Ok (), set (<[obj_key old := new]> (get w)) w)
    | None => (Err (EExt "not found"), w)
    end);
  crd_Delete := λ o, online (λ w,
    match store_objs w !! obj_key o with
    | Some _ => (Ok (), set (delete (obj_key o) (get w)) w)
    | None => (Err (EExt "not found"), w)
    end)
|}.
End store.

Global Instance World_peers : CrdClient World BGPPeer := store_client w_peers set_peers.
Global Instance World_pools : CrdClient World IPAddressPool := store_client w_pools set_pools.
Global Instance World_advs : CrdClient World BGPAdvertisement := store_client w_advs set_advs.

(** ** The laws hold *)

Section store_laws.
Context {Obj : Type} `{CrdObject Obj} (get : World → gmap (string * string) Obj)
  (set : gmap (string * string) Obj → World → World)
  (get_set : ∀ m w, get (set m w) = m).

Lemma store_keyed w k o : store_objs get w !! k = Some o → obj_key o = k.
Proof. unfold store_objs. by rewrite map_lookup_filter_Some; intros [_ ?]. Qed.

Lemma store_insert w k o : obj_key o = k →
  store_objs get (set (<[k := o]> (get w)) w) = <[k := o]> (store_objs get w).
Proof.
  intros Hk. unfold store_objs. rewrite get_set. by apply map_filter_insert_True.
Qed.

Lemma store_delete w k :
  store_objs get (set (delete k (get w)) w) = delete k (store_objs get w).
Proof. unfold store_objs. rewrite get_set. apply map_filter_delete. Qed.

Program Definition store_laws : @CrdLaws World Obj _ (store_client get set) := {|
  crd_objs := store_objs get
|}.
Next Obligation. apply store_keyed. Qed.
Next Obligation.
  intros sel ns w l w'. simpl. unfold online. destruct (w_down w); [done|].
  intros [= <- <-]. split; [done|]. split.
  - apply NoDup_filter. apply (NoDup_fmap_2_strong snd).
    + intros [k1 o1] [k2 o2] H1 H2 Heq. simpl in *. subst o2.
      apply elem_of_map_to_list, store_keyed in H1.
      apply elem_of_map_to_list, store_keyed in H2. congruence.
    + apply NoDup_map_to_list.
  - intros o. rewrite list_elem_of_filter, list_elem_of_fmap. split.
    + intros [Hm ([k o'] & -> & Hin)]. apply elem_of_map_to_list in Hin. simpl in *.
      by rewrite (store_keyed _ _ _ Hin).
    + intros [Hlk Hm]. split; [done|]. exists (obj_key o, o). split; [done|].
      by apply elem_of_map_to_list.
Qed.
Next Obligation.
  intros o w w'. simpl. unfold online. destruct (w_down w); [done|].
  destruct (store_objs get w !! obj_key o) eqn:E; [done|].
  intros [= <-]. split; [done|]. by apply store_insert.
Qed.
Next Obligation.
  intros old new w w'. simpl. unfold online. destruct (w_down w); [done|].
  intros Hrun Hk Hold. rewrite Hold in Hrun. injection Hrun as <-. by apply store_insert.
Qed.
Next Obligation.
  intros o w w'. simpl. unfold online. destruct (w_down w); [done|].
  destruct (store_objs get w !! obj_key o) eqn:E; [|done].
  intros [= <-]. apply store_delete.
Qed.
Next Obligation.
  intros w w'. simpl. unfold online. destruct (w_down w); [done|].
  repeat split; intros; repeat case_match; done.
Qed.

(** A call on this kind leaves every part of the world that [set] leaves. *)
Lemma store_frame {A} (view : World → A) w w' :
  (∀ m w, view (set m w) = view w) →
  @crd_call World Obj (store_client get set) w w' → view w' = view w.
Proof.
  intros Hview [sel ns r ? Hc|o r ? Hc|old new r ? Hc|o r ? Hc]; revert Hc; simpl;
    unfold online; destruct (w_down w); repeat case_match; intros [= <- <-]; auto.
Qed.
End store_laws.

Global Instance World_peers_laws : CrdLaws World BGPPeer :=
  store_laws w_peers set_peers (λ m w, eq_refl).
Global Instance World_pools_laws : CrdLaws World IPAddressPool :=
  store_laws w_pools set_pools (λ m w, eq_refl).
Global Instance World_advs_laws : CrdLaws World BGPAdvertisement :=
  store_laws w_advs set_advs (λ m w, eq_refl).

Global Instance World_peers_pools : CrdFrame World BGPPeer IPAddressPool.
Proof. intros w w'. by apply (store_frame _ _ (store_objs w_pools)). Qed.
Global Instance World_peers_advs : CrdFrame World BGPPeer BGPAdvertisement.
Proof. intros w w'. by apply (store_frame _ _ (store_objs w_advs)). Qed.
Global Instance World_pools_peers : CrdFrame World IPAddressPool BGPPeer.
Proof. intros w w'. by apply (store_frame _ _ (store_objs w_peers)). Qed.
Global Instance World_advs_peers : CrdFrame World BGPAdvertisement BGPPeer.
Proof. intros w w'. by apply (store_frame _ _ (store_objs w_peers)). Qed.
Global Instance World_pools_advs : CrdFrame World IPAddressPool BGPAdvertisement.
Proof. intros w w'. by apply (store_frame _ _ (store_objs w_advs)). Qed.
Global Instance World_advs_pools : CrdFrame World BGPAdvertisement IPAddressPool.
Proof. intros w w'. by apply (store_frame _ _ (store_objs w_pools)). Qed.

(** ** Concrete runs *)

Definition no_project : Project := {|
  Project_ID := 0; Project_Name := ""; Project_Bgp_Enabled := false; Project_Bgp_LocalASN := 0 |}.
Definition empty_world : World := {|
  w_down := false;
  w_cherry := {| c_ips := []; c_next := 1; c_servers := ∅; c_project := no_project |};
  w_kube := {| k_uid := Some "uid"; k_nodes := []; k_services := ∅; k_health := ∅; k_applied := [] |};
  w_peers := ∅; w_pools := ∅; w_advs := ∅ |}.

(** The world a computation leaves. *)
Definition final {A} (c : M World A) (w : World) : World := (c w).2.
