(* ===== verification/Constants.v ===== *)
(** * Constants of the cloud provider

    [cherry/constants.go]: tags of the reservations and the default names of
    the annotations. *)

From S2P Require Import Prelude.

Definition cherryIdentifier : string := "cloud-provider-cherry-auto".
Definition cherryTag : string := "usage".
Definition cherryValue : string := cherryIdentifier.
Definition DefaultAnnotationNodeASN : string := "cherryservers.com/bgp-peers-{{n}}-node-asn".
Definition DefaultAnnotationPeerASN : string := "cherryservers.com/bgp-peers-{{n}}-peer-asn".
Definition DefaultAnnotationPeerIP : string := "cherryservers.com/bgp-peers-{{n}}-peer-ip".
Definition DefaultAnnotationSrcIP : string := "cherryservers.com/bgp-peers-{{n}}-src-ip".
Definition DefaultAnnotationFIPRegion : string := "cherryservers.com/fip-region".
Definition DefaultAnnotationMultiHop : string := "cherryservers.com/bgp-peers-{{n}}-peer-multi-hop".
Definition AnnotationLoadBalancerManaged : string := "cherryservers.com/loadbalancer-managed".
