(* ===== verification/Instances.v ===== *)
(** * Instances: nodes and the servers behind them

    [cherry/instances.go] and [cherry/server_ip.go]: the provider ID format,
    the lookup of the server of a node, and the addresses reported for it. *)

From Stdlib Require Import Ascii.
From S2P Require Import Prelude GoStrings Netip Api World.

(** ** Definitions *)

Definition ProviderName : string := "cherryservers".

Definition serverPublicIPType : string := "primary-ip".
Definition serverPrivateIPType : string := "private-ip".

Record serverIPs := { public : list Addr; private : list Addr }.

(** The loop of [ipsFromServer]; the second component is the list of parse
    errors that [errors.Join] combines (no error when it is empty). *)
Fixpoint ipsFromServer_loop (l : list IPAddress) (pub priv : list Addr) (errs : list error)
  : serverIPs * list error :=
  match l with
  | [] => ({| public := pub; private := priv |}, errs)
  | ip :: l' =>
      match ParseAddr (IP_Address ip) with
      | None => ipsFromServer_loop l' pub priv (errs ++ [EExt ("ParseAddr " +:+ IP_Address ip)])
      | Some addr =>
          if decide (IP_Type ip = serverPublicIPType) then
            ipsFromServer_loop l' (pub ++ [addr]) priv errs
          else if decide (IP_Type ip = serverPrivateIPType) then
            ipsFromServer_loop l' pub (priv ++ [addr]) errs
          else ipsFromServer_loop l' pub priv errs
      end
  end.
Definition ipsFromServer (s : Server) : serverIPs * list error :=
  ipsFromServer_loop (Server_IPAddresses s) [] [] [].

Fixpoint first4 (l : list Addr) : option Addr :=
  match l with
  | [] => None
  | ip :: l' => if Is4 ip then Some ip else first4 l'
  end.
Definition anyPublic4 (s : serverIPs) : res Addr :=
  match first4 (public s) with
  | Some ip => Ok ip
  | None => Err (ENew "server doesn't have a public IPv4")
  end.

Fixpoint all4 (l : list Addr) : list Addr :=
  match l with
  | [] => []
  | ip :: l' => if Is4 ip then ip :: all4 l' else all4 l'
  end.
Definition allPublic4 (s : serverIPs) : list Addr := all4 (public s).
Definition allPrivate4 (s : serverIPs) : list Addr := all4 (private s).

(** Parse errors are only logged. *)
Definition nodeAddresses (server : Server) : res (list NodeAddress) :=
  let '(ips, _) := ipsFromServer server in
  let pub := allPublic4 ips in
  let pri := allPrivate4 ips in
  if decide (length pri < 1) then Err (ENew "could not get at least one private ip")
  else if decide (length pub < 1) then Err (ENew "could not get at least one public ip")
  else
    Ok (({| NodeAddress_Type := NodeHostName; NodeAddress_Address := Server_Hostname server |} ::
         ((λ ip, {| NodeAddress_Type := NodeExternalIP; NodeAddress_Address := Addr_String ip |})
            <$> pub)) ++
        ((λ ip, {| NodeAddress_Type := NodeInternalIP; NodeAddress_Address := Addr_String ip |})
            <$> pri)).

Definition serverIDFromProviderID (providerID : string) : res Z :=
  if decide (providerID = "") then Err (ENew "providerID cannot be empty string")
  else
    let atoi s :=
      match Atoi s with
      | Some id => Ok id
      | None => Err (Errorw "error converting serverID from providerID: %w" [] (EExt "strconv.Atoi"))
      end in
    match Split providerID "://" with
    | [scheme; rest] =>
        if decide (scheme ≠ ProviderName) then
          Err (Errorf "provider name from providerID should be %s, was %s" [ProviderName; scheme])
        else atoi rest
    | [_] => atoi providerID
    | _ => Err (Errorf "unexpected providerID format: %s, format should be: 'server-id' or 'cherryservers://server-id'" [providerID])
    end.

Definition providerIDFromServer (server : Server) : string :=
  ProviderName +:+ "://" +:+ Itoa (Server_ID server).

Record InstanceMetadata_t := {
  md_ProviderID : string;
  md_InstanceType : string;
  md_NodeAddresses : list NodeAddress;
  md_Region : string
}.

(** The methods of [instances]: [project] is its field. *)
Section instances.
Context {W : Type} {CC : CherryClient W}.
Variable project : Z.

(** [resp.StatusCode] is read before the error is looked at: a reply
    without a response object is a nil dereference. *)
Definition serverByID (id : Z) : M W Server := λ w,
  let '((server, resp, err), w') := Servers_Get id w in
  match resp with
  | None => (Panic, w')
  | Some code =>
      if decide (code = 404%Z) then (Err InstanceNotFound, w')
      else
        match err with
        | Some e => (Err e, w')
        | None => (Ok server, w')
        end
  end.

Fixpoint find_hostname (servers : list Server) (nodeName : string) : option Server :=
  match servers with
  | [] => None
  | s :: l => if decide (Server_Hostname s = nodeName) then Some s else find_hostname l nodeName
  end.
Definition serverByName (projectID : Z) (nodeName : string) : M W Server :=
  if decide (nodeName = "") then raise (ENew "node name cannot be empty string")
  else
    servers ← Servers_List projectID;
    match find_hostname servers nodeName with
    | Some s => mret s
    | None => raise InstanceNotFound
    end.

Definition serverFromProviderID (providerID : string) : M W Server :=
  id ← lift_res (serverIDFromProviderID providerID);
  serverByID id.

Definition serverByNode (node : Node) : M W Server :=
  if decide (Node_ProviderID node ≠ "") then serverFromProviderID (Node_ProviderID node)
  else serverByName project (Node_Name node).

Definition InstanceShutdown (node : Node) : M W bool :=
  server ← serverFromProviderID (Node_ProviderID node);
  mret (bool_decide (Server_State server = "inactive")).

Definition InstanceExists (node : Node) : M W bool :=
  r ← try (serverFromProviderID (Node_ProviderID node));
  match r with
  | inl err => if errors_Is err InstanceNotFound then mret false else raise err
  | inr _ => mret true
  end.

Definition InstanceMetadata (node : Node) : M W InstanceMetadata_t :=
  server ← serverByNode node;
  addresses ← lift_res (nodeAddresses server);
  mret {|
    md_ProviderID := providerIDFromServer server;
    md_InstanceType := Plan_Slug (Server_Plan server);
    md_NodeAddresses := addresses;
    md_Region := Region_Slug (Server_Region server)
  |}.
End instances.

(** ** Lemmas *)

Lemma digits_acc_no_char acc s n c :
  digits_acc acc s = Some n → Ascii.is_nat c = None → no_char c s.
Proof.
  revert acc. induction s as [|x s IH]; simpl; intros acc Hs Hc; [done|].
  destruct (Ascii.is_nat x) eqn:Hx; [|done]. split; [congruence|]. by eapply IH.
Qed.

Lemma digits_no_char s n c : digits s = Some n → Ascii.is_nat c = None → no_char c s.
Proof. unfold digits. destruct s; [done|]. apply digits_acc_no_char. Qed.

Lemma Atoi_no_colon s z : Atoi s = Some z → no_char ":" s ∧ s ≠ "".
Proof.
  unfold Atoi. destruct (parse_signed s) as [z'|] eqn:E; [|done]. intros _.
  unfold parse_signed in E. destruct s as [|c s]; [done|]. split; [|done].
  case_decide as Hm; [|case_decide as Hp].
  - subst. apply bind_Some in E as (n & Hn & _).
    split; [done|]. by eapply digits_no_char.
  - subst. apply bind_Some in E as (n & Hn & _).
    split; [done|]. by eapply digits_no_char.
  - apply bind_Some in E as (n & Hn & _). by eapply digits_no_char.
Qed.

Lemma provider_id_parts rest z :
  Atoi rest = Some z → Split (ProviderName +:+ "://" +:+ rest) "://" = [ProviderName; rest].
Proof. intros [Hn _]%Atoi_no_colon. apply Split_two; [by vm_compute|done]. Qed.

Lemma serverIDFromProviderID_no_panic pid : serverIDFromProviderID pid ≠ Panic.
Proof.
  unfold serverIDFromProviderID. case_decide; [done|]. repeat case_match; done.
Qed.

(** A malformed provider ID is never reported as a missing instance. *)
Lemma serverIDFromProviderID_Err pid e :
  serverIDFromProviderID pid = Err e → errors_Is e InstanceNotFound = false.
Proof.
  unfold serverIDFromProviderID. case_decide; [by intros [= <-]|].
  repeat case_match; by intros [= <-].
Qed.

Lemma find_hostname_list_find servers name :
  find_hostname servers name = snd <$> list_find (λ s, Server_Hostname s = name) servers.
Proof.
  induction servers as [|s l IH]; simpl; [done|]. case_decide; [done|].
  rewrite IH. by destruct (list_find _ l) as [[]|].
Qed.

(** The addresses of one type that are IPv4 literals, as the API wrote them. *)
Fixpoint v4_texts (typ : string) (l : list IPAddress) : list string :=
  match l with
  | [] => []
  | ip :: l' =>
      match ParseAddr (IP_Address ip) with
      | Some (Addr4 _) =>
          if decide (IP_Type ip = typ) then IP_Address ip :: v4_texts typ l'
          else v4_texts typ l'
      | _ => v4_texts typ l'
      end
  end.

Lemma all4_app l1 l2 : all4 (l1 ++ l2) = all4 l1 ++ all4 l2.
Proof. induction l1 as [|a l1 IH]; simpl; [done|]. destruct (Is4 a); simpl; by rewrite IH. Qed.

Lemma ipsFromServer_loop_texts l pub priv errs ips es :
  ipsFromServer_loop l pub priv errs = (ips, es) →
  Addr_String <$> allPublic4 ips =
    (Addr_String <$> all4 pub) ++ v4_texts serverPublicIPType l ∧
  Addr_String <$> allPrivate4 ips =
    (Addr_String <$> all4 priv) ++ v4_texts serverPrivateIPType l.
Proof.
  revert pub priv errs. induction l as [|ip l IH]; simpl; intros pub priv errs.
  { intros [= <- <-]. by rewrite !app_nil_r. }
  destruct (ParseAddr (IP_Address ip)) as [addr|] eqn:Ha; [|apply IH].
  repeat case_decide; intros [Hpub Hpri]%IH; subst; rewrite Hpub, Hpri.
  all: rewrite ?all4_app, ?fmap_app; simpl.
  all: destruct addr as [f|g z]; simpl; rewrite ?app_nil_r;
    try (rewrite <-(ParseAddr_Addr4 _ _ Ha), <-?app_assoc); try done.
  all: try (unfold serverPublicIPType, serverPrivateIPType in *; congruence).
Qed.

Lemma ipsFromServer_texts s ips es :
  ipsFromServer s = (ips, es) →
  Addr_String <$> allPublic4 ips = v4_texts serverPublicIPType (Server_IPAddresses s) ∧
  Addr_String <$> allPrivate4 ips = v4_texts serverPrivateIPType (Server_IPAddresses s).
Proof. intros H%ipsFromServer_loop_texts. exact H. Qed.

Lemma nodeAddresses_texts server :
  let pub := v4_texts serverPublicIPType (Server_IPAddresses server) in
  let pri := v4_texts serverPrivateIPType (Server_IPAddresses server) in
  nodeAddresses server =
    if decide (pri = []) then Err (ENew "could not get at least one private ip")
    else if decide (pub = []) then Err (ENew "could not get at least one public ip")
    else Ok ({| NodeAddress_Type := NodeHostName; NodeAddress_Address := Server_Hostname server |} ::
             (Build_NodeAddress NodeExternalIP <$> pub) ++
             (Build_NodeAddress NodeInternalIP <$> pri)).
Proof.
  intros pub pri. unfold nodeAddresses.
  destruct (ipsFromServer server) as [ips es] eqn:E.
  apply ipsFromServer_texts in E as [Hpub Hpri].
  subst pub pri. rewrite <-Hpub, <-Hpri.
  destruct (allPrivate4 ips) as [|p ps]; [done|]. simpl.
  destruct (allPublic4 ips) as [|q qs]; [done|]. simpl.
  do 2 f_equal. rewrite <-!list_fmap_compose. done.
Qed.

Lemma v4_texts_elem typ l s :
  s ∈ v4_texts typ l → ∃ ip, ip ∈ l ∧ IP_Address ip = s ∧ IP_Type ip = typ.
Proof.
  induction l as [|ip l IH]; simpl; [by intros ?%elem_of_nil|].
  assert (s ∈ v4_texts typ l → ∃ ip', ip' ∈ ip :: l ∧ IP_Address ip' = s ∧ IP_Type ip' = typ) as Hrest.
  { intros (ip' & Hin & Hrest)%IH. exists ip'. split; [by right|done]. }
  destruct (ParseAddr (IP_Address ip)) as [[]|]; try done. case_decide; [|done].
  intros [->|Hin]%elem_of_cons; [|auto]. exists ip. split; [apply list_elem_of_here|done].
Qed.

(** Every reported address is the host name or the text of one of the
    server's primary or private addresses. *)
Lemma nodeAddresses_elem server addresses a :
  nodeAddresses server = Ok addresses → a ∈ addresses →
  NodeAddress_Address a = Server_Hostname server ∨
  ∃ ip, ip ∈ Server_IPAddresses server ∧ IP_Address ip = NodeAddress_Address a ∧
    (IP_Type ip = serverPublicIPType ∨ IP_Type ip = serverPrivateIPType).
Proof.
  rewrite nodeAddresses_texts. cbv zeta. do 2 (destruct (decide _); [done|]). intros [= <-].
  intros [->|[Hin|Hin]%elem_of_app]%elem_of_cons; [by left|right..].
  - apply list_elem_of_fmap in Hin as (s & -> & (ip & Hin & Hs & Ht)%v4_texts_elem). exists ip. auto.
  - apply list_elem_of_fmap in Hin as (s & -> & (ip & Hin & Hs & Ht)%v4_texts_elem). exists ip. auto.
Qed.

(** ** Properties *)

(** C40: the provider ID the program writes for a server is read back as the
    ID of that server, for every ID a Go [int] can hold. *)
Theorem provider_id_roundtrip server :
  (min_int ≤ Server_ID server ≤ max_int)%Z →
  serverIDFromProviderID (providerIDFromServer server) = Ok (Server_ID server).
Proof.
  intros Hid. pose proof (Atoi_Itoa _ Hid) as Ha.
  unfold serverIDFromProviderID, providerIDFromServer.
  rewrite decide_False by done. rewrite (provider_id_parts _ _ Ha).
  rewrite decide_False by naive_solver. by rewrite Ha.
Qed.

(** C39: [serverIDFromProviderID] accepts exactly a decimal [int] on its own
    and a decimal [int] after [cherryservers://]; everything else is an
    error, never a panic. *)
Theorem provider_id_accepts pid :
  (∀ id, serverIDFromProviderID pid = Ok id ↔
    Atoi pid = Some id ∨ ∃ rest, pid = ProviderName +:+ "://" +:+ rest ∧ Atoi rest = Some id)
  ∧ serverIDFromProviderID pid ≠ Panic.
Proof.
  split.
  - intros id. split.
    + unfold serverIDFromProviderID. case_decide; [done|].
      pose proof (Join_Split pid "://") as Hj.
      destruct (Split pid "://") as [|a [|b [|]]] eqn:E; [done|..|done].
      * destruct (Atoi pid) eqn:Ha; naive_solver.
      * case_decide as Hp; [done|]. destruct (Atoi b) eqn:Hb; [|done].
        intros [= ->]. right. exists b. split; [|done]. rewrite <-Hj. simpl.
        f_equal. by destruct (decide (a = ProviderName)).
    + intros [Ha|(rest & -> & Ha)]; unfold serverIDFromProviderID.
      * destruct (Atoi_no_colon _ _ Ha) as [Hc Hne]. rewrite decide_False by done.
        rewrite Split_none by done. by rewrite Ha.
      * rewrite decide_False by done. rewrite (provider_id_parts _ _ Ha).
        rewrite decide_False by naive_solver. by rewrite Ha.
  - apply serverIDFromProviderID_no_panic.
Qed.

(** C38: the addresses reported for a server are its host name, then every
    public and every private IPv4 address exactly as the API wrote it and in
    its order; IPv6 and unparsable entries are dropped, and a server without
    both kinds is an error. *)
Theorem nodeAddresses_spec server :
  let pub := v4_texts serverPublicIPType (Server_IPAddresses server) in
  let pri := v4_texts serverPrivateIPType (Server_IPAddresses server) in
  nodeAddresses server =
    if decide (pri = []) then Err (ENew "could not get at least one private ip")
    else if decide (pub = []) then Err (ENew "could not get at least one public ip")
    else Ok ({| NodeAddress_Type := NodeHostName; NodeAddress_Address := Server_Hostname server |} ::
             (Build_NodeAddress NodeExternalIP <$> pub) ++
             (Build_NodeAddress NodeInternalIP <$> pri)).
Proof. apply nodeAddresses_texts. Qed.

(** The lookups, on every reply of the API. *)
Section lookup.
Context {W : Type} {CC : CherryClient W}.

(** [InstanceExists] answers [false] exactly on a 404, [true] exactly on
    a reply without an error, reports any other API error, and refuses a
    malformed provider ID without calling the API at all. *)
Theorem InstanceExists_spec node (w : W) :
  match serverIDFromProviderID (Node_ProviderID node) with
  | Ok id =>
      let '((server, resp, err), w') := Servers_Get id w in
      InstanceExists node w =
        match resp, err with
        | None, _ => (Panic, w')
        | Some code, None => (Ok (bool_decide (code ≠ 404%Z)), w')
        | Some code, Some e =>
            if decide (code = 404%Z ∨ errors_Is e InstanceNotFound) then (Ok false, w')
            else (Err e, w')
        end
  | Err e => InstanceExists node w = (Err e, w)
  | Panic => False
  end.
Proof.
  unfold InstanceExists, serverFromProviderID, try, lift_res, mbind, M_bind.
  destruct (serverIDFromProviderID _) as [id|e|] eqn:E.
  - destruct (Servers_Get id w) as [[[server resp] err] w'] eqn:Hget.
    unfold serverByID. rewrite Hget.
    destruct resp as [code|]; [|done]. case_decide as H404.
    + subst. destruct err; [|done]. by rewrite decide_True by naive_solver.
    + destruct err as [e|]; [|by rewrite bool_decide_true].
      destruct (errors_Is e InstanceNotFound) eqn:He.
      * by rewrite decide_True by naive_solver.
      * by rewrite decide_False by naive_solver.
  - by rewrite (serverIDFromProviderID_Err _ _ E).
  - by apply serverIDFromProviderID_no_panic in E.
Qed.

(** a node with a provider ID is looked up by that ID only; a node
    without one is looked up by name, and then the first server of the
    project with that host name is used. Metadata of a found server carry
    its provider ID, plan slug, region slug and addresses. *)
Theorem InstanceMetadata_by_name project node servers (w w' : W) :
  Node_ProviderID node = "" → Node_Name node ≠ "" →
  Servers_List project w = (Ok servers, w') →
  InstanceMetadata project node w =
    match list_find (λ s, Server_Hostname s = Node_Name node) servers with
    | None => (Err InstanceNotFound, w')
    | Some (_, s) =>
        match nodeAddresses s with
        | Ok addrs => (Ok {| md_ProviderID := providerIDFromServer s;
                             md_InstanceType := Plan_Slug (Server_Plan s);
                             md_NodeAddresses := addrs;
                             md_Region := Region_Slug (Server_Region s) |}, w')
        | Err e => (Err e, w')
        | Panic => (Panic, w')
        end
    end.
Proof.
  intros Hid Hname Hlist. unfold InstanceMetadata, serverByNode, serverByName.
  rewrite decide_False by naive_solver. rewrite decide_False by done.
  unfold mbind, M_bind. rewrite Hlist.
  rewrite find_hostname_list_find.
  by destruct (list_find _ servers) as [[i s]|]; simpl; [destruct (nodeAddresses s)|].
Qed.
End lookup.

(** ** Concrete runs *)

Definition demo_server : Server := {|
  Server_ID := 7; Server_Hostname := "n1"; Server_State := "active";
  Server_Plan := {| Plan_ID := 1; Plan_Name := "P"; Plan_Slug := "cloud_vps_1" |};
  Server_Region := {| Region_ID := 1; Region_Name := "EU-Nord-1"; Region_Slug := "eu_nord_1";
    Region_RegionIso2 := "LT"; Region_BGP := {| BGP_Hosts := ["10.0.0.1"]; BGP_Asn := 64512 |} |};
  Server_Project := {| Project_ID := 1; Project_Name := "p";
    Project_Bgp_Enabled := true; Project_Bgp_LocalASN := 65000 |};
  Server_IPAddresses :=
    [{| IP_ID := "a"; IP_Address := "5.199.0.1"; IP_Cidr := "5.199.0.0/24";
        IP_Type := serverPublicIPType; IP_Tags := None; IP_TargetedTo_ID := 7 |};
     {| IP_ID := "b"; IP_Address := "10.1.0.1"; IP_Cidr := "10.1.0.0/24";
        IP_Type := serverPrivateIPType; IP_Tags := None; IP_TargetedTo_ID := 7 |}];
  Server_BGP_Enabled := false; Server_Tags := None |}.
Definition server_world : World :=
  set_cherry {| c_ips := []; c_next := 1; c_servers := {[ 7%Z := demo_server ]};
                c_project := Server_Project demo_server |} empty_world.

Lemma provider_id_roundtrip_witness :
  providerIDFromServer demo_server = "cherryservers://7" ∧
  serverIDFromProviderID (providerIDFromServer demo_server) = Ok 7%Z.
Proof.
  split; [vm_refl|].
  refine (provider_id_roundtrip demo_server _). split; discriminate.
Defined.

Definition unnamed_node : Node := {|
  Node_Name := "n1"; Node_Labels := None; Node_Annotations := None; Node_ProviderID := "";
  Node_Unschedulable := false; Node_Deleting := false; Node_Addresses := [] |}.
Lemma InstanceMetadata_by_name_witness :
  InstanceMetadata 1 unnamed_node server_world =
    (Ok {| md_ProviderID := "cherryservers://7"; md_InstanceType := "cloud_vps_1";
           md_NodeAddresses := [{| NodeAddress_Type := NodeHostName; NodeAddress_Address := "n1" |};
             {| NodeAddress_Type := NodeExternalIP; NodeAddress_Address := "5.199.0.1" |};
             {| NodeAddress_Type := NodeInternalIP; NodeAddress_Address := "10.1.0.1" |}];
           md_Region := "eu_nord_1" |}, server_world).
Proof.
  rewrite (InstanceMetadata_by_name 1 unnamed_node [demo_server] server_world server_world);
    [vm_refl|reflexivity|discriminate|vm_refl].
Defined.
