(* ===== verification/Reservations.v ===== *)
(** * Reservations: floating IPs selected by their tags

    [cherry/ipreservations.go]. *)

From S2P Require Import Prelude Api World.

(** ** Definitions *)

(** The inner loop: every target tag is present with its value. The order
    in which the target tags are visited does not matter to the answer. *)
Definition has_all_tags (targetTags tags : gmap string string) : bool :=
  forallb (λ kv : string * string, bool_decide (tags !! kv.1 = Some kv.2))
    (map_to_list targetTags).

Fixpoint ipReservationsByAllTags (targetTags : gmap string string) (ips : list IPAddress)
  : list IPAddress :=
  match ips with
  | [] => []
  | ip :: ips' =>
      match IP_Tags ip with
      | None => ipReservationsByAllTags targetTags ips'
      | Some tags =>
          if has_all_tags targetTags tags
          then ip :: ipReservationsByAllTags targetTags ips'
          else ipReservationsByAllTags targetTags ips'
      end
  end.

Definition ipReservationByAllTags (targetTags : gmap string string) (ips : list IPAddress)
  : option IPAddress :=
  match ipReservationsByAllTags targetTags ips with
  | ip :: _ => Some ip
  | [] => None
  end.

(** ** Properties *)

(** The reservation carries all the target tags. *)
Definition carries (targetTags : gmap string string) (ip : IPAddress) : Prop :=
  ∃ tags, IP_Tags ip = Some tags ∧ targetTags ⊆ tags.

Lemma has_all_tags_spec target tags : has_all_tags target tags = true ↔ target ⊆ tags.
Proof.
  unfold has_all_tags. rewrite forallb_forall, map_subseteq_spec. split.
  - intros Hall k v Hk. specialize (Hall (k, v)).
    rewrite bool_decide_eq_true in Hall. apply Hall.
    by apply list_elem_of_In, elem_of_map_to_list.
  - intros Hsub [k v] Hin%list_elem_of_In%elem_of_map_to_list.
    rewrite bool_decide_eq_true. by apply Hsub.
Qed.

Lemma carries_dec target ip : Decision (carries target ip).
Proof.
  unfold carries. destruct (IP_Tags ip) as [tags|] eqn:E; [|right; naive_solver].
  destruct (decide (target ⊆ tags)); [left|right]; naive_solver.
Defined.
Global Existing Instance carries_dec.

Lemma ipReservationsByAllTags_filter target ips :
  ipReservationsByAllTags target ips = filter (carries target) ips.
Proof.
  induction ips as [|ip ips IH]; [done|]. rewrite filter_cons. simpl.
  destruct (IP_Tags ip) as [tags|] eqn:E.
  - destruct (has_all_tags target tags) eqn:Hm.
    + apply has_all_tags_spec in Hm. rewrite decide_True by (by exists tags). by rewrite IH.
    + rewrite decide_False; [done|]. intros (tags' & Htags & Hsub).
      assert (tags' = tags) as -> by congruence.
      apply has_all_tags_spec in Hsub. congruence.
  - rewrite decide_False; [done|]. intros (tags' & Htags & _). congruence.
Qed.

(** the reservation found for a set of tags is the first of the list
    that carries all of them, and none is found exactly when none carries
    them all. *)
Theorem ipReservationByAllTags_first target ips :
  match ipReservationByAllTags target ips with
  | Some ip =>
      ∃ before after, ips = before ++ ip :: after ∧ carries target ip ∧
        Forall (λ ip', ¬ carries target ip') before
  | None => Forall (λ ip, ¬ carries target ip) ips
  end.
Proof.
  unfold ipReservationByAllTags. rewrite ipReservationsByAllTags_filter.
  induction ips as [|ip ips IH]; [by constructor|]. rewrite filter_cons. case_decide as Hc.
  - by exists [], ips.
  - destruct (filter (carries target) ips); [constructor; [done|exact IH]|].
    destruct IH as (before & after & -> & Hi & Hb).
    exists (ip :: before), after. split; [done|]. split; [done|]. by constructor.
Qed.

(** ** What the clients of the API rely on

    The API's list of reservations: [List] gives all of them, [Create] adds
    one with the requested tags or nothing, [Remove] takes out the one of
    that ID, [Update] with a target attaches the one of that ID to the
    server of that number. A call that fails changes nothing. *)
Class ReservationLaws (W : Type) `{CherryClient W} := {
  api_ips : W → list IPAddress;
  IPAddresses_List_keeps : ∀ p w r w', IPAddresses_List p w = (r, w') → w' = w;
  IPAddresses_List_Ok : ∀ p w ips w', IPAddresses_List p w = (Ok ips, w') → ips = api_ips w;
  IPAddresses_Create_Ok : ∀ p req w ip w', IPAddresses_Create p req w = (Ok ip, w') →
    IP_Tags ip = CreateIP_Tags req ∧ api_ips w' = api_ips w ++ [ip];
  IPAddresses_Create_fail : ∀ p req w r w', IPAddresses_Create p req w = (r, w') →
    (∀ ip, r ≠ Ok ip) → api_ips w' = api_ips w;
  IPAddresses_Remove_Ok : ∀ id w u w', IPAddresses_Remove id w = (Ok u, w') →
    api_ips w' = filter (λ ip, IP_ID ip ≠ id) (api_ips w);
  IPAddresses_Remove_fail : ∀ id w r w', IPAddresses_Remove id w = (r, w') →
    r ≠ Ok () → api_ips w' = api_ips w;
  IPAddresses_Update_Ok : ∀ id target w u w', IPAddresses_Update id target w = (Ok u, w') →
    api_ips w' = targeted id target <$> api_ips w;
  IPAddresses_Update_fail : ∀ id target w r w', IPAddresses_Update id target w = (r, w') →
    r ≠ Ok () → api_ips w' = api_ips w
}.

Global Program Instance World_reservation_laws : ReservationLaws World := {|
  api_ips := λ w, c_ips (w_cherry w)
|}.
Next Obligation. intros p w r w'. simpl. unfold online. destruct (w_down w); by intros [= _ <-]. Qed.
Next Obligation. intros p w ips w'. simpl. unfold online. destruct (w_down w); by intros [= <-]. Qed.
Next Obligation.
  intros p req w ip w'. simpl. unfold online. destruct (w_down w); [done|]. by intros [= <- <-].
Qed.
Next Obligation.
  intros p req w r w'. simpl. unfold online. destruct (w_down w); intros [= <- <-] Hr; [done|].
  by destruct (Hr _ eq_refl).
Qed.
Next Obligation.
  intros id w u w'. simpl. unfold online. destruct (w_down w); [done|]. by intros [= _ <-].
Qed.
Next Obligation.
  intros id w r w'. simpl. unfold online. destruct (w_down w); intros [= <- <-] Hr; [done|].
  by destruct Hr.
Qed.
Next Obligation.
  intros id target w u w'. simpl. unfold online. destruct (w_down w); [done|]. by intros [= _ <-].
Qed.
Next Obligation.
  intros id target w r w'. simpl. unfold online. destruct (w_down w); intros [= <- <-] Hr; [done|].
  by destruct Hr.
Qed.
