(* ===== verification/LoadBalancer.v ===== *)
(** * The load balancer interface and its two trivial implementations

    [cherry/loadbalancers/interface.go] and [node.go], the packages
    [empty] and [kubevip], and the service IP annotations of [metallb].
    A [*v1.Service] is an option; a method that writes through it returns
    the service it leaves behind. *)

From S2P Require Import Prelude Api.

(** ** Definitions *)

Module loadbalancers.
Record Peer := { Address : string; Port : Z }.
Record Node := {
  Name : string;
  SourceIP : string;
  LocalASN : Z;
  PeerASN : Z;
  Password : string;
  Peers : list Peer;
  Region : string
}.

(** [loadbalancers.LB]. *)
Record LB (W : Type) := {
  AddService : string → string → string → list Node → M W unit;
  RemoveService : string → string → string → M W unit;
  UpdateService : string → string → list Node → M W unit;
  ServiceIP : option Service → string * bool;
  SetServiceIP : option Service → string → res Service
}.
End loadbalancers.
Arguments loadbalancers.AddService {W} _.
Arguments loadbalancers.RemoveService {W} _.
Arguments loadbalancers.UpdateService {W} _.
Arguments loadbalancers.ServiceIP {W} _.
Arguments loadbalancers.SetServiceIP {W} _.

Module empty.
Definition defaultLoadBalancerIPsAnnotation : string := "cherryservers.com/loadBalancerIPs".

Record LB := { loadBalancerIPsAnnotation : string }.

Definition NewLB (annotation : string) : LB :=
  if decide (annotation = "") then
    {| loadBalancerIPsAnnotation := defaultLoadBalancerIPsAnnotation |}
  else {| loadBalancerIPsAnnotation := annotation |}.

Definition ServiceIP (l : LB) (svc : option Service) : string * bool :=
  match svc with
  | None => ("", false)
  | Some svc =>
      let ip := map_get (Service_Annotations svc) (loadBalancerIPsAnnotation l) in
      if decide (ip ≠ "") then (ip, true)
      else
        let ip := Service_LoadBalancerIP svc in
        if decide (ip ≠ "") then (ip, true) else ("", false)
  end.

Definition SetServiceIP (l : LB) (svc : option Service) (ip : string) : res Service :=
  match svc with
  | None => Err (ENew "failed to set ip, service is nil")
  | Some svc =>
      let annotations := default ∅ (Service_Annotations svc) in
      Ok (set_Annotations (Some (<[loadBalancerIPsAnnotation l := ip]> annotations)) svc)
  end.

Definition AddService {W} (_ _ _ : string) (_ : list loadbalancers.Node) : M W unit := mret ().
Definition RemoveService {W} (_ _ _ : string) : M W unit := mret ().
Definition UpdateService {W} (_ _ : string) (_ : list loadbalancers.Node) : M W unit := mret ().

Definition impl {W} (l : LB) : loadbalancers.LB W := {|
  loadbalancers.AddService := AddService;
  loadbalancers.RemoveService := RemoveService;
  loadbalancers.UpdateService := UpdateService;
  loadbalancers.ServiceIP := ServiceIP l;
  loadbalancers.SetServiceIP := SetServiceIP l
|}.
End empty.

Module kubevip.
Definition loadBalancerIPsAnnotation : string := "kube-vip.io/loadbalancerIPs".

Definition ServiceIP (svc : option Service) : string * bool :=
  match svc with
  | None => ("", false)
  | Some svc =>
      let ip := map_get (Service_Annotations svc) loadBalancerIPsAnnotation in
      if decide (ip ≠ "") then (ip, true)
      else
        let ip := Service_LoadBalancerIP svc in
        if decide (ip ≠ "") then (ip, true) else ("", false)
  end.

Definition SetServiceIP (svc : option Service) (ip : string) : res Service :=
  match svc with
  | None => Err (ENew "failed to set ip, service is nil")
  | Some svc =>
      let annotations := default ∅ (Service_Annotations svc) in
      Ok (set_Annotations (Some (<[loadBalancerIPsAnnotation := ip]> annotations)) svc)
  end.

Definition AddService {W} (_ _ _ : string) (_ : list loadbalancers.Node) : M W unit := mret ().
Definition RemoveService {W} (_ _ _ : string) : M W unit := mret ().
Definition UpdateService {W} (_ _ : string) (_ : list loadbalancers.Node) : M W unit := mret ().

(** [NewLB] keeps nothing of its arguments. *)
Definition NewLB {W} (_ : string) : loadbalancers.LB W := {|
  loadbalancers.AddService := AddService;
  loadbalancers.RemoveService := RemoveService;
  loadbalancers.UpdateService := UpdateService;
  loadbalancers.ServiceIP := ServiceIP;
  loadbalancers.SetServiceIP := SetServiceIP
|}.
End kubevip.

(** The annotations of the MetalLB implementation ([metallb.go]); the rest
    of it is in [MetalLB]. *)
Module metallb_ip.
Definition oldLoadBalancerIPsAnnotation : string := "metallb.universe.tf/loadBalancerIPs".
Definition loadBalancerIPsAnnotation : string := "metallb.io/loadBalancerIPs".

Definition ServiceIP (svc : option Service) : string * bool :=
  match svc with
  | None => ("", false)
  | Some svc =>
      let ip := map_get (Service_Annotations svc) loadBalancerIPsAnnotation in
      if decide (ip ≠ "") then (ip, true)
      else
        let ip := map_get (Service_Annotations svc) oldLoadBalancerIPsAnnotation in
        if decide (ip ≠ "") then (ip, true)
        else
          let ip := Service_LoadBalancerIP svc in
          if decide (ip ≠ "") then (ip, true) else ("", false)
  end.

Definition SetServiceIP (svc : option Service) (ip : string) : res Service :=
  match svc with
  | None => Err (ENew "failed to set ip, service is nil")
  | Some svc =>
      let annotations := default ∅ (Service_Annotations svc) in
      Ok (set_Annotations (Some (<[loadBalancerIPsAnnotation := ip]> annotations)) svc)
  end.
End metallb_ip.

(** ** What the annotations promise to the load balancer component

    A service whose IP was set has that IP; nothing but the annotations is
    written; a nil service has no IP and cannot be given one. *)
Class LBAnnotations {W} (l : loadbalancers.LB W) : Prop := {
  SetServiceIP_Ok : ∀ svc ip, ∃ svc', loadbalancers.SetServiceIP l (Some svc) ip = Ok svc' ∧
    Service_Name svc' = Service_Name svc ∧ Service_Namespace svc' = Service_Namespace svc ∧
    Service_LoadBalancerIP svc' = Service_LoadBalancerIP svc ∧
    Service_Ports svc' = Service_Ports svc ∧
    (ip ≠ "" → loadbalancers.ServiceIP l (Some svc') = (ip, true));
  SetServiceIP_nil : ∀ ip, ∃ e, loadbalancers.SetServiceIP l None ip = Err e;
  ServiceIP_sound : ∀ svc ip found, loadbalancers.ServiceIP l svc = (ip, found) →
    found = bool_decide (ip ≠ "")
}.

Lemma map_get_insert m k v : map_get (Some (<[k := v]> m)) k = v.
Proof. simpl. by rewrite lookup_insert_eq. Qed.

(** Unfold the annotations of one implementation and split their cases. *)
Ltac solve_annotations f :=
  split;
  [ intros ? ? ; eexists; repeat (split; [done|]); intros ?; simpl;
    by rewrite lookup_insert_eq, decide_True
  | by eexists
  | intros [?|] ? ?; simpl; unfold f; [|by intros [= <- <-]];
    repeat case_decide; intros [= <- <-]; by rewrite ?bool_decide_true by done ].

Global Instance empty_LBAnnotations {W} (l : empty.LB) : LBAnnotations (empty.impl (W := W) l).
Proof. solve_annotations empty.ServiceIP. Qed.
Global Instance kubevip_LBAnnotations {W} config : LBAnnotations (kubevip.NewLB (W := W) config).
Proof. solve_annotations kubevip.ServiceIP. Qed.
