(* ===== verification/Bgp.v ===== *)
(** * BGP: enabling it on the project and on servers

    [cherry/bgp.go]. The struct [bgp] is the record [bgp]; its client fields
    are the client classes. *)

From S2P Require Import Prelude GoStrings Netip Api World Instances.

(** ** Definitions *)

Definition PeerPort : Z := 179.

Record BGPPeer := { BGPPeer_Address : string; BGPPeer_Port : Z }.
Record NodeBGPInfo := {
  Info_SourceIP : string;
  Info_LocalASN : Z;
  Info_RemoteASN : Z;
  Info_Peers : list BGPPeer
}.

Record bgp := { bgp_project : Z; bgp_localASN : Z }.

Section bgp.
Context {W : Type} {CC : CherryClient W}.

(** [enableBGP] writes [b.localASN]: the record it leaves is returned. *)
Definition enableBGP (b : bgp) : M W bgp :=
  project ← wrap_err (Errorv "error getting project %d: %v" [Itoa (bgp_project b)])
              (Projects_Get (bgp_project b));
  if Project_Bgp_Enabled project then
    mret {| bgp_project := bgp_project b; bgp_localASN := Project_Bgp_LocalASN project |}
  else
    project' ← Projects_Update (bgp_project b)
      {| UpdateProject_Name := Some (Project_Name project);
         UpdateProject_Bgp := Some true |};
    mret {| bgp_project := bgp_project b; bgp_localASN := Project_Bgp_LocalASN project' |}.

Definition newBGP (project : Z) : M W bgp :=
  wrap_err (Errorw "failed to enable BGP on project %d: %w" [Itoa project])
    (enableBGP {| bgp_project := project; bgp_localASN := 0 |}).

(** Parse errors of single addresses are only logged. *)
Definition nodeBGPInfoFromServer (b : bgp) (s : Server) : res NodeBGPInfo :=
  let '(ips, _) := ipsFromServer s in
  match anyPublic4 ips with
  | Ok sourceIP =>
      Ok {| Info_LocalASN := bgp_localASN b;
            Info_RemoteASN := BGP_Asn (Region_BGP (Server_Region s));
            Info_Peers := (λ a, {| BGPPeer_Address := a; BGPPeer_Port := PeerPort |})
                            <$> BGP_Hosts (Region_BGP (Server_Region s));
            Info_SourceIP := Addr_String sourceIP |}
  | Err e => Err (Errorw "no public IP for server %d: %w" [Itoa (Server_ID s)] e)
  | Panic => Panic
  end.

(** [Servers.Get] used for its value or its error. *)
Definition get_server (id : Z) : M W Server := λ w,
  let '((server, _, err), w') := Servers_Get id w in
  match err with
  | Some e => (Err e, w')
  | None => (Ok server, w')
  end.

Definition ensureNodeBGPEnabled (b : bgp) (providerID : string) : M W NodeBGPInfo :=
  id ← lift_res (serverIDFromProviderID providerID);
  server ← wrap_err (Errorv "error getting server %d: %v" [Itoa id]) (get_server id);
  let ips := Server_IPAddresses server in
  if Server_BGP_Enabled server then lift_res (nodeBGPInfoFromServer b server)
  else
    server' ← Servers_Update id
      {| UpdateServer_Tags := Some (Server_Tags server); UpdateServer_Bgp := true |};
    lift_res (nodeBGPInfoFromServer b (set_IPAddresses ips server')).
End bgp.

(** ** What the component relies on

    The API keeps a table of servers and a project. [Servers.Get] reads the
    table; a successful update with the flag set enables BGP on the stored
    server, keeps its ID, region and addresses, and replies with the
    server, of which only ID and region are relied on (the reply carries no
    addresses). The project behaves likewise. *)
Class ServerLaws (W : Type) `{CherryClient W} := {
  api_server : W → Z → option Server;
  Servers_Get_read : ∀ id w s resp w', Servers_Get id w = ((s, resp, None), w') →
    w' = w ∧ api_server w id = Some s;
  Servers_Update_bgp : ∀ id tags w s s' w', api_server w id = Some s →
    Servers_Update id {| UpdateServer_Tags := tags; UpdateServer_Bgp := true |} w = (Ok s', w') →
    Server_ID s' = Server_ID s ∧ Server_Region s' = Server_Region s ∧
    ∃ s2, api_server w' id = Some s2 ∧ Server_BGP_Enabled s2 = true ∧
      Server_ID s2 = Server_ID s ∧ Server_Region s2 = Server_Region s ∧
      Server_IPAddresses s2 = Server_IPAddresses s;
  Servers_Update_no_panic : ∀ id req w w', Servers_Update id req w ≠ (Panic, w');
  api_project : W → Z → option Project;
  Projects_Get_read : ∀ p w pr w', Projects_Get p w = (Ok pr, w') →
    w' = w ∧ api_project w p = Some pr;
  Projects_Update_bgp : ∀ p name w pr w',
    Projects_Update p {| UpdateProject_Name := name; UpdateProject_Bgp := Some true |} w
      = (Ok pr, w') →
    api_project w' p = Some pr ∧ Project_Bgp_Enabled pr = true
}.

Program Definition World_server_laws : ServerLaws World := {|
  api_server := λ w id, c_servers (w_cherry w) !! id;
  api_project := λ w _, Some (c_project (w_cherry w))
|}.
Next Obligation.
  intros id w s resp w'. simpl. destruct (w_down w); [done|].
  destruct (c_servers (w_cherry w) !! id); by intros [= <- <- <-].
Qed.
Next Obligation.
  intros id tags w s s' w' Hs. simpl. unfold online. destruct (w_down w); [done|].
  rewrite Hs. intros [= <- <-]. simpl. split_and!; [done..|].
  exists (enable_bgp {| UpdateServer_Tags := tags; UpdateServer_Bgp := true |} s).
  by rewrite lookup_insert_eq.
Qed.
Next Obligation.
  intros id req w w'. simpl. unfold online. destruct (w_down w); [done|].
  by destruct (c_servers (w_cherry w) !! id).
Qed.
Next Obligation.
  intros p w pr w'. simpl. unfold online. destruct (w_down w); [done|]. by intros [= <- <-].
Qed.
Next Obligation.
  intros p name w pr w'. simpl. unfold online. destruct (w_down w); [done|]. by intros [= <- <-].
Qed.
Global Existing Instance World_server_laws.

(** ** Lemmas *)

Lemma first4_text ips errs s :
  ipsFromServer s = (ips, errs) →
  Addr_String <$> first4 (public ips) =
    head (v4_texts serverPublicIPType (Server_IPAddresses s)).
Proof.
  intros [H _]%ipsFromServer_texts. rewrite <-H. unfold allPublic4.
  induction (public ips) as [|a l IH]; simpl; [done|]. by destruct (Is4 a).
Qed.

(** The information about a server depends on its ID, region and addresses
    only, not on whether BGP is already enabled. *)
Lemma nodeBGPInfoFromServer_ext b s s' :
  Server_ID s = Server_ID s' → Server_Region s = Server_Region s' →
  Server_IPAddresses s = Server_IPAddresses s' →
  nodeBGPInfoFromServer b s = nodeBGPInfoFromServer b s'.
Proof.
  unfold nodeBGPInfoFromServer, ipsFromServer. by intros -> -> ->.
Qed.

Section laws.
Context {W : Type} `{ServerLaws W}.

Lemma get_server_Ok id (w : W) s w' :
  get_server id w = (Ok s, w') →
  w' = w ∧ api_server w id = Some s ∧ (Servers_Get id w).1.2 = None.
Proof.
  unfold get_server. destruct (Servers_Get id w) as [[[s0 resp] [e|]] w0] eqn:E; [done|].
  intros [= -> ->]. by apply Servers_Get_read in E as [-> ?].
Qed.

(** The server behind the provider ID, what is computed from it, and the
    state it is left in. *)
Lemma ensureNodeBGPEnabled_Ok b pid (w : W) info w' :
  ensureNodeBGPEnabled b pid w = (Ok info, w') →
  ∃ id s s', serverIDFromProviderID pid = Ok id ∧
    api_server w id = Some s ∧ nodeBGPInfoFromServer b s = Ok info ∧
    api_server w' id = Some s' ∧ Server_BGP_Enabled s' = true ∧
    Server_ID s' = Server_ID s ∧ Server_Region s' = Server_Region s ∧
    Server_IPAddresses s' = Server_IPAddresses s ∧
    (Server_BGP_Enabled s = true → w' = w).
Proof.
  unfold ensureNodeBGPEnabled. intros Hrun. inv_ok.
  unfold lift_res in Hrun0. injection Hrun0 as Hid ->.
  apply get_server_Ok in Hrun1 as (-> & Hs & _).
  exists a, a0. destruct (Server_BGP_Enabled a0) eqn:Hb.
  - unfold lift_res in Hrun. injection Hrun as Hinfo ->. by exists a0.
  - inv_ok. unfold lift_res in Hrun. injection Hrun as Hinfo ->.
    destruct (Servers_Update_bgp _ _ _ _ _ _ Hs Hrun0)
      as (Hi & Hr & s2 & Hs2 & Hb2 & Hi2 & Hr2 & Ha2).
    exists s2. split_and!; try done.
    rewrite <-Hinfo. by apply nodeBGPInfoFromServer_ext.
Qed.

(** ** Properties *)

(** C36: when BGP information for a node is returned, it is that of the
    server named by the provider ID: its region's ASN, one peer on port 179
    per BGP host of the region in order, and its first public IPv4 address
    as the API wrote it, the same whether BGP had to be enabled first or
    not; and BGP is enabled on that server afterwards. *)
Theorem ensureNodeBGPEnabled_spec b pid (w : W) info w' :
  ensureNodeBGPEnabled b pid w = (Ok info, w') →
  ∃ id s, serverIDFromProviderID pid = Ok id ∧ api_server w id = Some s ∧
    Info_LocalASN info = bgp_localASN b ∧
    Info_RemoteASN info = BGP_Asn (Region_BGP (Server_Region s)) ∧
    Info_Peers info = (λ a, {| BGPPeer_Address := a; BGPPeer_Port := 179 |})
                        <$> BGP_Hosts (Region_BGP (Server_Region s)) ∧
    head (v4_texts serverPublicIPType (Server_IPAddresses s)) = Some (Info_SourceIP info) ∧
    ∃ s', api_server w' id = Some s' ∧ Server_BGP_Enabled s' = true.
Proof.
  intros (id & s & s' & Hid & Hs & Hinfo & Hs' & Hb & _)%ensureNodeBGPEnabled_Ok.
  exists id, s. split; [done|]. split; [done|].
  unfold nodeBGPInfoFromServer in Hinfo.
  destruct (ipsFromServer s) as [ips errs] eqn:E. apply first4_text in E.
  unfold anyPublic4 in Hinfo. destruct (first4 (public ips)) as [ip|] eqn:Hip; [|done].
  injection Hinfo as <-. simpl in *. split_and!; eauto.
Qed.

(** asking again for a node whose BGP was enabled changes nothing and
    gives the same answer, as long as the server can be read. *)
Theorem ensureNodeBGPEnabled_idempotent b pid id (w : W) info w' :
  ensureNodeBGPEnabled b pid w = (Ok info, w') →
  serverIDFromProviderID pid = Ok id → (Servers_Get id w').1.2 = None →
  ensureNodeBGPEnabled b pid w' = (Ok info, w').
Proof.
  intros (id' & s & s' & Hid & _ & Hinfo & Hs' & Hb & Hi & Hr & Ha & _)%ensureNodeBGPEnabled_Ok.
  rewrite Hid. intros [= <-] Hget. unfold ensureNodeBGPEnabled.
  unfold mbind, M_bind, lift_res. rewrite Hid. unfold wrap_err, get_server.
  destruct (Servers_Get id' w') as [[[s2 resp] err] w2] eqn:E. simpl in Hget. subst err.
  apply Servers_Get_read in E as [-> Hs2]. assert (s2 = s') as -> by congruence.
  rewrite Hb. f_equal. rewrite <-Hinfo. by apply nodeBGPInfoFromServer_ext.
Qed.

(** a BGP handler is built only for a project that has BGP enabled, with
    that project's local ASN, and a project that already has it is not
    written to. *)
Theorem newBGP_enabled project (w : W) b w' :
  newBGP project w = (Ok b, w') →
  (∃ pr, api_project w' project = Some pr ∧ Project_Bgp_Enabled pr = true ∧
     bgp_project b = project ∧ bgp_localASN b = Project_Bgp_LocalASN pr) ∧
  (∀ pr, api_project w project = Some pr → Project_Bgp_Enabled pr = true → w' = w).
Proof.
  unfold newBGP, enableBGP. intros Hrun. inv_ok. simpl in *.
  apply Projects_Get_read in Hrun0 as [-> Hp].
  destruct (Project_Bgp_Enabled a) eqn:Hb; inv_ok.
  - split; [|done]. by exists a.
  - match goal with H' : Projects_Update _ _ _ = _ |- _ =>
      apply Projects_Update_bgp in H' as [Hp' Hb'] end.
    split; [by exists a0|].
    intros pr Hpr. assert (pr = a) as -> by congruence. congruence.
Qed.
End laws.

(** ** Concrete runs *)

Definition demo_bgp : bgp := {| bgp_project := 1; bgp_localASN := 65000 |}.
Definition bgp_world : World := final (ensureNodeBGPEnabled demo_bgp "cherryservers://7") server_world.
Definition demo_info : NodeBGPInfo := {|
  Info_SourceIP := "5.199.0.1"; Info_LocalASN := 65000; Info_RemoteASN := 64512;
  Info_Peers := [{| BGPPeer_Address := "10.0.0.1"; BGPPeer_Port := 179 |}] |}.

Lemma ensureNodeBGPEnabled_spec_witness :
  ∃ id s, serverIDFromProviderID "cherryservers://7" = Ok id ∧ api_server server_world id = Some s ∧
    Info_LocalASN demo_info = bgp_localASN demo_bgp ∧
    Info_RemoteASN demo_info = BGP_Asn (Region_BGP (Server_Region s)) ∧
    Info_Peers demo_info = (λ a, {| BGPPeer_Address := a; BGPPeer_Port := 179 |})
                        <$> BGP_Hosts (Region_BGP (Server_Region s)) ∧
    head (v4_texts serverPublicIPType (Server_IPAddresses s)) = Some (Info_SourceIP demo_info) ∧
    ∃ s', api_server bgp_world id = Some s' ∧ Server_BGP_Enabled s' = true.
Proof.
  refine (ensureNodeBGPEnabled_spec demo_bgp "cherryservers://7" server_world demo_info bgp_world _).
  vm_refl.
Defined.
Lemma ensureNodeBGPEnabled_idempotent_witness :
  ensureNodeBGPEnabled demo_bgp "cherryservers://7" bgp_world = (Ok demo_info, bgp_world).
Proof.
  refine (ensureNodeBGPEnabled_idempotent demo_bgp "cherryservers://7" 7 server_world demo_info bgp_world
    _ _ _); vm_refl.
Defined.
Lemma newBGP_enabled_witness :
  ∃ pr, api_project server_world 1 = Some pr ∧ Project_Bgp_Enabled pr = true ∧
     bgp_project demo_bgp = 1%Z ∧ bgp_localASN demo_bgp = Project_Bgp_LocalASN pr.
Proof.
  refine (proj1 (newBGP_enabled 1 server_world demo_bgp server_world _)). vm_refl.
Defined.
