(* ===== verification/GoSort.v ===== *)
(** * Go's [sort.Sort] and [slices.SortFunc]

    Both run an insertion sort on at most twelve elements and pattern
    defeating quicksort above. The insertion sort is written out, because
    some of the program's comparisons are not orders and the result then
    depends on the algorithm; of the quicksort only what its documentation
    promises is used. *)

From S2P Require Import Prelude.

(** ** Definitions *)

Section insertion.
Context {A : Type} (less : A → A → bool).

(** The inner loop: [x] moves left past its neighbours while it is less
    than them. [prefix] is the sorted part, nearest neighbour first. *)
Fixpoint sift (x : A) (prefix : list A) : list A :=
  match prefix with
  | [] => [x]
  | y :: prefix' => if less x y then y :: sift x prefix' else x :: prefix
  end.

Fixpoint insertion_loop (prefix l : list A) : list A :=
  match l with
  | [] => reverse prefix
  | x :: l' => insertion_loop (sift x prefix) l'
  end.
Definition insertionSort (l : list A) : list A := insertion_loop [] l.
End insertion.

(** The comparison is a strict weak order. *)
Class StrictWeak {A} (less : A → A → bool) : Prop := {
  less_asym : ∀ x y, less x y = true → less y x = false;
  less_cotrans : ∀ x y z, less y x = false → less z y = false → less z x = false
}.

(** [l] is sorted: no element is less than an earlier one. *)
Definition sorted_by {A} (less : A → A → bool) : list A → Prop :=
  StronglySorted (λ x y, less y x = false).

(** The sort used above twelve elements. *)
Class PdqSort := {
  pdqsort : ∀ {A : Type}, (A → A → bool) → list A → list A;
  pdqsort_perm : ∀ {A : Type} (less : A → A → bool) l, pdqsort less l ≡ₚ l;
  pdqsort_sorted : ∀ {A : Type} (less : A → A → bool) l,
    StrictWeak less → sorted_by less (pdqsort less l)
}.

Definition maxInsertion : nat := 12.

Definition sort_Sort `{PdqSort} {A} (less : A → A → bool) (l : list A) : list A :=
  if decide (length l ≤ maxInsertion) then insertionSort less l else pdqsort less l.

(** ** Lemmas *)

Section insertion_lemmas.
Context {A : Type} (less : A → A → bool).

Lemma sift_perm x l : sift less x l ≡ₚ x :: l.
Proof.
  induction l as [|y l IH]; simpl; [done|]. destruct (less x y); [|done].
  rewrite IH. apply Permutation_swap.
Qed.

Lemma insertion_loop_perm prefix l : insertion_loop less prefix l ≡ₚ prefix ++ l.
Proof.
  revert prefix. induction l as [|x l IH]; intros prefix; simpl.
  - by rewrite reverse_Permutation, app_nil_r.
  - rewrite IH, sift_perm. simpl. apply Permutation_middle.
Qed.

Lemma insertionSort_perm l : insertionSort less l ≡ₚ l.
Proof. apply insertion_loop_perm. Qed.

Context `{!StrictWeak less}.

(** The prefix is kept in decreasing order, nearest first. *)
Lemma sift_sorted x l :
  StronglySorted (λ x y, less x y = false) l →
  StronglySorted (λ x y, less x y = false) (sift less x l).
Proof.
  induction 1 as [|y l Hl IH Hy]; simpl; [by repeat constructor|].
  destruct (less x y) eqn:E.
  - constructor; [done|]. rewrite sift_perm. constructor; [by apply less_asym|done].
  - constructor; [by constructor|]. constructor; [done|].
    eapply Forall_impl; [exact Hy|]. simpl. intros z Hz. by eapply less_cotrans.
Qed.

Lemma StronglySorted_reverse (R : relation A) l :
  StronglySorted R l → StronglySorted (flip R) (reverse l).
Proof.
  induction 1 as [|x l Hl IH Hx]; [constructor|]. rewrite reverse_cons.
  apply StronglySorted_app_2; [|done|by repeat constructor].
  intros y z Hy Hz. apply list_elem_of_singleton in Hz as ->.
  rewrite elem_of_reverse in Hy. rewrite Forall_forall in Hx. by apply Hx.
Qed.

Lemma insertionSort_sorted l : sorted_by less (insertionSort less l).
Proof.
  unfold insertionSort. assert (StronglySorted (λ x y, less x y = false) []) as Hp by constructor.
  revert Hp. generalize (@nil A) as prefix.
  induction l as [|x l IH]; intros prefix Hp; simpl.
  - by apply StronglySorted_reverse in Hp.
  - apply IH. by apply sift_sorted.
Qed.
End insertion_lemmas.

(** Insertion sort itself is a sort that keeps the promises. *)
Definition pdqsort_by_insertion : PdqSort := {|
  pdqsort := @insertionSort;
  pdqsort_perm := @insertionSort_perm;
  pdqsort_sorted := λ A less l H, @insertionSort_sorted A less H l
|}.

Section sort.
Context `{PdqSort}.

Lemma sort_Sort_perm {A} (less : A → A → bool) l : sort_Sort less l ≡ₚ l.
Proof.
  unfold sort_Sort. case_decide; [apply insertionSort_perm|apply pdqsort_perm].
Qed.

Lemma sort_Sort_sorted {A} (less : A → A → bool) `{!StrictWeak less} l :
  sorted_by less (sort_Sort less l).
Proof.
  unfold sort_Sort. case_decide; [by apply insertionSort_sorted|by apply pdqsort_sorted].
Qed.

Lemma sort_Sort_length {A} (less : A → A → bool) l : length (sort_Sort less l) = length l.
Proof. by rewrite sort_Sort_perm. Qed.
End sort.

(** Comparing by a string key is a strict weak order. *)
Lemma ltb_leb_negb s t : String.ltb s t = negb (String.leb t s).
Proof.
  unfold String.ltb, String.leb. rewrite (String.compare_antisym t s).
  by destruct (String.compare s t).
Qed.
Lemma ltb_false_le s t : String.ltb s t = false ↔ String.le t s.
Proof.
  rewrite ltb_leb_negb, negb_false_iff. unfold String.le.
  by rewrite <-Is_true_true.
Qed.

Global Instance key_StrictWeak {A} (key : A → string) :
  StrictWeak (λ x y, String.ltb (key x) (key y)).
Proof.
  split.
  - intros x y Hlt. apply ltb_false_le. destruct (total String.le (key x) (key y)); [done|].
    rewrite ltb_leb_negb in Hlt. apply negb_true_iff in Hlt.
    unfold String.le in *. by rewrite Hlt in *.
  - intros x y z. rewrite !ltb_false_le. intros. by transitivity (key y).
Qed.

(** With distinct keys the sorted list is unique: it depends neither on the
    algorithm nor on the order of the input. *)
Lemma sort_by_key_unique (S1 S2 : PdqSort) {A} (key : A → string) l1 l2 :
  NoDup (key <$> l1) → l1 ≡ₚ l2 →
  @sort_Sort S1 _ (λ x y, String.ltb (key x) (key y)) l1 =
  @sort_Sort S2 _ (λ x y, String.ltb (key x) (key y)) l2.
Proof.
  intros Hnd Hperm. set (less := λ x y, String.ltb (key x) (key y)).
  apply (StronglySorted_unique_strong (λ x y, less y x = false)).
  - intros x y Hx Hy. unfold less. rewrite !ltb_false_le. intros H1 H2.
    assert (key x = key y) as Hk by by apply (anti_symm String.le).
    rewrite (@sort_Sort_perm S1) in Hx. rewrite (@sort_Sort_perm S2), <-Hperm in Hy.
    apply list_elem_of_lookup in Hx as [i Hi]. apply list_elem_of_lookup in Hy as [j Hj].
    assert (i = j) as ->; [|congruence].
    eapply (NoDup_lookup (key <$> l1)); [done|by rewrite list_lookup_fmap, Hi|].
    rewrite list_lookup_fmap, Hj. simpl. by rewrite Hk.
  - apply sort_Sort_sorted, key_StrictWeak.
  - apply sort_Sort_sorted, key_StrictWeak.
  - by rewrite (@sort_Sort_perm S1), (@sort_Sort_perm S2).
Qed.
