(* ===== verification/GoTime.v ===== *)
(** * Go's [time.ParseDuration]

    A sequence of decimal numbers, each with an optional fraction and a
    unit suffix, after an optional sign; the result is in nanoseconds. The
    package scales a fraction in floating point; here it is the exact
    quotient rounded towards zero. *)

From Stdlib Require Import Ascii.
From S2P Require Import Prelude GoStrings.

Fixpoint leadingInt (s : string) (v : N) (n : nat) : option (N * nat * string) :=
  match s with
  | "" => Some (v, n, "")
  | String c s' =>
      match Ascii.is_nat c with
      | Some d =>
          if (2 ^ 63 <? v * 10 + N.of_nat d)%N then None
          else leadingInt s' (v * 10 + N.of_nat d) (S n)
      | None => Some (v, n, s)
      end
  end.

(** Digits that would overflow are read and dropped. *)
Fixpoint leadingFraction (s : string) (f scale : N) (n : nat) (overflow : bool)
  : N * N * nat * string :=
  match s with
  | "" => (f, scale, n, "")
  | String c s' =>
      match Ascii.is_nat c with
      | Some d =>
          let f' := (f * 10 + N.of_nat d)%N in
          if overflow || (2 ^ 63 <? f')%N then leadingFraction s' f scale (S n) true
          else leadingFraction s' f' (scale * 10) (S n) false
      | None => (f, scale, n, s)
      end
  end.

(** The unit: everything up to the next digit or point. *)
Fixpoint unit_name (s : string) : string * string :=
  match s with
  | "" => ("", "")
  | String c s' =>
      match Ascii.is_nat c with
      | Some _ => ("", s)
      | None =>
          if decide (c = "."%char) then ("", s)
          else let '(u, r) := unit_name s' in (String c u, r)
      end
  end.
Definition unit_ns (u : string) : option N :=
  if decide (u = "ns") then Some 1%N
  else if decide (u ∈ ["us"; "µs"; "μs"]) then Some 1000%N
  else if decide (u = "ms") then Some 1000000%N
  else if decide (u = "s") then Some 1000000000%N
  else if decide (u = "m") then Some 60000000000%N
  else if decide (u = "h") then Some 3600000000000%N
  else None.

(** Each round consumes at least one byte of the string. *)
Fixpoint duration_loop (fuel : nat) (s : string) (d : N) : option N :=
  match fuel with
  | 0 => None
  | S fuel' =>
      if decide (s = "") then Some d
      else
        '(v, pre, s1) ← leadingInt s 0 0;
        let '(f, scale, post, s2) :=
          match strip "." s1 with
          | Some r => leadingFraction r 0 1 0 false
          | None => (0%N, 1%N, 0, s1)
          end in
        if decide (pre = 0 ∧ post = 0) then None
        else
          let '(u, s3) := unit_name s2 in
          if decide (u = "") then None
          else
            unit ← unit_ns u;
            if (2 ^ 63 / unit <? v)%N then None
            else
              let v' := (v * unit + f * unit / scale)%N in
              if (2 ^ 63 <? v')%N || (2 ^ 63 <? d + v')%N then None
              else duration_loop fuel' s3 (d + v')
  end.

Definition ParseDuration (s : string) : option Z :=
  let '(neg, body) :=
    match s with
    | String c s' =>
        if decide (c = "-"%char) then (true, s')
        else if decide (c = "+"%char) then (false, s') else (false, s)
    | "" => (false, s)
    end in
  if decide (body = "0") then Some 0%Z
  else if decide (body = "") then None
  else
    d ← duration_loop (S (String.length body)) body 0;
    if (neg : bool) then Some (- Z.of_N d)%Z
    else if (2 ^ 63 - 1 <? d)%N then None else Some (Z.of_N d).

Example parse_30s : ParseDuration "30s" = Some 30000000000%Z.
Proof. reflexivity. Qed.
Example parse_mixed : ParseDuration "-1h1.5m" = Some (-3690000000000)%Z.
Proof. reflexivity. Qed.
Example parse_no_unit : ParseDuration "30" = None.
Proof. reflexivity. Qed.

(** ** The fuel is enough *)

Lemma leadingInt_length s x n v pre r :
  leadingInt s x n = Some (v, pre, r) → String.length r ≤ String.length s.
Proof.
  revert x n. induction s as [|c s IH]; intros x n; simpl; [by intros [= _ _ <-]|].
  destruct (Ascii.is_nat c); [|by intros [= _ _ <-]].
  repeat case_match; try done. intros Hr%IH. lia.
Qed.
Lemma leadingFraction_length s f scale n o f' scale' n' r :
  leadingFraction s f scale n o = (f', scale', n', r) → String.length r ≤ String.length s.
Proof.
  revert f scale n o. induction s as [|c s IH]; intros f scale n o; simpl; [by intros [= _ _ _ <-]|].
  destruct (Ascii.is_nat c); [|by intros [= _ _ _ <-]]. case_match; intros Hr%IH; lia.
Qed.
Lemma unit_name_length s u r : unit_name s = (u, r) → String.length u + String.length r = String.length s.
Proof.
  revert u. induction s as [|c s IH]; intros u; simpl; [by intros [= <- <-]|].
  destruct (Ascii.is_nat c); [by intros [= <- <-]|]. destruct (decide _); [by intros [= <- <-]|].
  destruct (unit_name s) as [u' r'] eqn:E. intros [= <- <-]. simpl. by rewrite (IH u').
Qed.

(** A round leaves a shorter string, so fuel above the length of the string
    is never used up. *)
Lemma duration_loop_fuel n m s d :
  String.length s < n → String.length s < m → duration_loop n s d = duration_loop m s d.
Proof.
  revert m s d. induction n as [|n IH]; intros [|m] s d Hn Hm; try lia.
  cbn [duration_loop].
  destruct (decide (s = "")); [done|].
  destruct (leadingInt s 0 0) as [[[v pre] s1]|] eqn:E1; [|done]. cbn [mbind option_bind].
  apply leadingInt_length in E1.
  destruct (match strip "." s1 with Some r => leadingFraction r 0 1 0 false | None => (0%N, 1%N, 0, s1) end)
    as [[[f scale] post] s2] eqn:E2.
  assert (String.length s2 ≤ String.length s1) as H2.
  { revert E2. destruct (strip "." s1) as [r|] eqn:Es; [|by intros [= _ _ _ <-]].
    intros E2%leadingFraction_length. apply strip_Some in Es as ->. rewrite length_str_app. lia. }
  destruct (decide (pre = 0 ∧ post = 0)); [done|].
  destruct (unit_name s2) as [u s3] eqn:E3. apply unit_name_length in E3.
  destruct (decide (u = "")) as [|Hu]; [done|]. destruct (unit_ns u); [|done]. simpl.
  repeat case_match; try done; (destruct u; [done|]); simpl in E3; apply IH; lia.
Qed.
