(* ===== verification/MetalLBTypes.v ===== *)
(** * The data of the [metallb] package

    The structs of [config.go] and [resource.go] with their [Duplicate]
    methods. A slice or map whose nil-ness the code inspects is an option;
    [uint32] and [uint16] fields are integers in range by construction. *)

From S2P Require Import Prelude GoSort.

(** ** Constants ([metallb.go]) *)

Definition serviceNameKey : string := "nomatch.cherryservers.com/service-name".
Definition serviceNameSpaceKey : string := "nomatch.cherryservers.com/service-namespace".
Definition defaultNamespace : string := "metallb-system".

(** ** Data *)

Record SelectorRequirements := {
  Req_Key : string;
  Req_Operator : string;
  Req_Values : option (list string)
}.
Record NodeSelector := {
  MatchLabels : option (gmap string string);
  MatchExpressions : option (list SelectorRequirements)
}.
Record Peer := {
  Peer_MyASN : Z;
  Peer_ASN : Z;
  Peer_Addr : string;
  Peer_Port : Z;
  Peer_SrcAddr : string;
  Peer_HoldTime : string;
  Peer_RouterID : string;
  Peer_NodeSelectors : list NodeSelector;
  Peer_Password : string;
  Peer_EBGPMultiHop : bool;
  Peer_Name : string
}.
Record BgpAdvertisement := {
  AggregationLength : option Z;
  LocalPref : option Z;
  Communities : list string
}.
Record AddressPool := {
  Pool_Protocol : string;
  Pool_Name : string;
  Pool_Addresses : list string;
  Pool_AvoidBuggyIPs : bool;
  Pool_AutoAssign : option bool;
  Pool_BGPAdvertisements : list BgpAdvertisement
}.

(** [resource.go] *)
Record Resource := { Res_Namespace : string; Res_Name : string }.
Global Instance Resource_eq_dec : EqDecision Resource.
Proof. solve_decision. Defined.

(** [Resources.Less]: a smaller namespace, or a smaller name. *)
Definition Resources_Less (a b : Resource) : bool :=
  if String.ltb (Res_Namespace a) (Res_Namespace b) then true
  else if String.ltb (Res_Name a) (Res_Name b) then true
  else false.

(** [NodeSelector.Duplicate]: fresh, non-nil labels and expressions; the
    values of an expression are resliced, so nil stays nil. *)
Definition NodeSelector_Duplicate (ns : NodeSelector) : NodeSelector := {|
  MatchLabels := Some (default ∅ (MatchLabels ns));
  MatchExpressions := Some ((λ s, {| Req_Key := Req_Key s; Req_Operator := Req_Operator s;
                                     Req_Values := Req_Values s |})
                              <$> default [] (MatchExpressions ns))
|}.

(** [Peer.Duplicate] copies eight fields: the source address, the multi-hop
    flag and the name are left at their zero values. *)
Definition Peer_Duplicate (p : Peer) : Peer := {|
  Peer_MyASN := Peer_MyASN p;
  Peer_ASN := Peer_ASN p;
  Peer_Addr := Peer_Addr p;
  Peer_Port := Peer_Port p;
  Peer_SrcAddr := "";
  Peer_HoldTime := Peer_HoldTime p;
  Peer_RouterID := Peer_RouterID p;
  Peer_NodeSelectors := NodeSelector_Duplicate <$> Peer_NodeSelectors p;
  Peer_Password := Peer_Password p;
  Peer_EBGPMultiHop := false;
  Peer_Name := ""
|}.

(** [BgpAdvertisement.Duplicate] and [AddressPool.Duplicate] dereference
    their pointers: a nil one panics. *)
Definition BgpAdvertisement_Duplicate (b : BgpAdvertisement) : res BgpAdvertisement :=
  match AggregationLength b, LocalPref b with
  | Some length, Some pref =>
      Ok {| AggregationLength := Some length; LocalPref := Some pref;
            Communities := Communities b |}
  | _, _ => Panic
  end.
Fixpoint duplicate_advertisements (l : list BgpAdvertisement) : res (list BgpAdvertisement) :=
  match l with
  | [] => Ok []
  | b :: l' =>
      b' ← BgpAdvertisement_Duplicate b;
      l'' ← duplicate_advertisements l';
      mret (b' :: l'')
  end.
Definition AddressPool_Duplicate (a : AddressPool) : res AddressPool :=
  match Pool_AutoAssign a with
  | None => Panic
  | Some aa =>
      bgpads ← duplicate_advertisements (Pool_BGPAdvertisements a);
      mret {| Pool_Protocol := Pool_Protocol a;
              Pool_Name := Pool_Name a;
              Pool_Addresses := Pool_Addresses a;
              Pool_AvoidBuggyIPs := Pool_AvoidBuggyIPs a;
              Pool_AutoAssign := Some aa;
              Pool_BGPAdvertisements := bgpads |}
  end.
