(* ===== verification/MetalLBPeers.v ===== *)
(** * BGP peers from cluster nodes

    [cherry/loadbalancers/metallb/bgp_peers.go]: the peering mode read from
    the configuration URL and the peers each mode derives from the nodes. *)

From Stdlib Require Import Ascii.
From S2P Require Import Prelude GoStrings GoNet GoSort Api LoadBalancer MetalLBTypes.

(** ** Definitions *)

Definition hostnameKey : string := "kubernetes.io/hostname".
Definition regionKey : string := "topology.kubernetes.io/region".
Definition holdTime : string := "30s".

(** [BGPPeerMode] is an [int] with three named values. *)
Definition BGPPeerMode : Type := Z.
Definition BGPPeerModeNone : BGPPeerMode := 0%Z.
Definition BGPPeerModeNative : BGPPeerMode := 1%Z.
Definition BGPPeerModeFRR : BGPPeerMode := 2%Z.

Definition BGPPeerMode_String (m : BGPPeerMode) : string :=
  if decide (m = BGPPeerModeNone) then "none"
  else if decide (m = BGPPeerModeNative) then "native"
  else if decide (m = BGPPeerModeFRR) then "frr"
  else "unknown".

(** The namespace is returned with an error too, but no caller reads it then. *)
Definition ParseConfigURL (config : URL) : res (string * BGPPeerMode) :=
  let namespace := TrimSuffix (TrimPrefix (URL_Path config) "/") "/" in
  let rawMode := Query_Get config "bgp-peer-mode" in
  if decide (rawMode = "native") then Ok (namespace, BGPPeerModeNative)
  else if decide (rawMode = "frr") then Ok (namespace, BGPPeerModeFRR)
  else if decide (rawMode = "none") then Ok (namespace, BGPPeerModeNone)
  else if decide (rawMode = "") then Ok (namespace, BGPPeerModeNative)
  else Err (Errorf "invalid 'bgp-peer-mode' parameter: %q" [rawMode]).

Definition PeersFromNodesNone (_ : list loadbalancers.Node) : list Peer := [].

Definition native_peer (node : loadbalancers.Node) (i : nat) (peer : loadbalancers.Peer) : Peer := {|
  Peer_MyASN := uint32 (loadbalancers.LocalASN node);
  Peer_ASN := uint32 (loadbalancers.PeerASN node);
  Peer_Password := loadbalancers.Password node;
  Peer_Addr := loadbalancers.Address peer;
  Peer_Port := uint16 (loadbalancers.Port peer);
  Peer_SrcAddr := loadbalancers.SourceIP node;
  Peer_HoldTime := holdTime;
  Peer_NodeSelectors :=
    [{| MatchLabels := Some {[ hostnameKey := loadbalancers.Name node ]};
        MatchExpressions := None |}];
  Peer_Name := loadbalancers.Name node +:+ "-" +:+ Itoa (Z.of_nat i);
  Peer_RouterID := "";
  Peer_EBGPMultiHop := false
|}.
Definition PeersFromNodesNative (nodes : list loadbalancers.Node) : list Peer :=
  nodes ≫= λ node, imap (native_peer node) (loadbalancers.Peers node).

Definition convertToMetalLBNodeSelector (ls : LabelSelector) : NodeSelector := {|
  MatchLabels := LS_MatchLabels ls;
  MatchExpressions := Some ((λ req, {| Req_Key := LSR_Key req; Req_Operator := LSR_Operator req;
                                       Req_Values := LSR_Values req |})
                              <$> LS_MatchExpressions ls)
|}.

Definition frr_peer (ns : NodeSelector) (node : loadbalancers.Node) (i : nat)
    (peer : loadbalancers.Peer) : Peer :=
  let nsDup := NodeSelector_Duplicate ns in
  {|
    Peer_MyASN := uint32 (loadbalancers.LocalASN node);
    Peer_ASN := uint32 (loadbalancers.PeerASN node);
    Peer_Addr := loadbalancers.Address peer;
    Peer_Port := uint16 (loadbalancers.Port peer);
    Peer_HoldTime := holdTime;
    Peer_EBGPMultiHop := true;
    Peer_NodeSelectors :=
      [{| MatchLabels := Some (<[regionKey := loadbalancers.Region node]>
                                 (default ∅ (MatchLabels nsDup)));
          MatchExpressions := MatchExpressions nsDup |}];
    Peer_Name := ToLower (loadbalancers.Region node +:+ "-" +:+ Itoa (Z.of_nat i));
    Peer_SrcAddr := "";
    Peer_RouterID := "";
    Peer_Password := ""
  |}.

(** The map of peers by name, filled node by node and peer by peer. *)
Definition frr_candidates (ns : NodeSelector) (nodes : list loadbalancers.Node) : list Peer :=
  nodes ≫= λ node, imap (frr_peer ns node) (loadbalancers.Peers node).
Definition peers_by_name (l : list Peer) : gmap string Peer :=
  foldl (λ m p, <[Peer_Name p := p]> m) ∅ l.

Definition NewPeersFromNodesFRRFunc `{GoRange, PdqSort} (nodeSelector : LabelSelector)
    (nodes : list loadbalancers.Node) : list Peer :=
  let ns := convertToMetalLBNodeSelector nodeSelector in
  let peers := peers_by_name (frr_candidates ns nodes) in
  sort_Sort (λ a b, String.ltb (Peer_Name a) (Peer_Name b)) ((range_map peers).*2).

Definition NewPeersFromNodesFunc `{GoRange, PdqSort} (mode : BGPPeerMode)
    (nodeSelectors : LabelSelector) : list loadbalancers.Node → list Peer :=
  if decide (mode = BGPPeerModeFRR) then NewPeersFromNodesFRRFunc nodeSelectors
  else if decide (mode = BGPPeerModeNative) then PeersFromNodesNative
  else if decide (mode = BGPPeerModeNone) then PeersFromNodesNone
  else PeersFromNodesNative.

(** ** Lemmas *)

Lemma native_elem p nodes :
  p ∈ PeersFromNodesNative nodes ↔
  ∃ node i peer, node ∈ nodes ∧ loadbalancers.Peers node !! i = Some peer ∧
    p = native_peer node i peer.
Proof.
  unfold PeersFromNodesNative. rewrite list_elem_of_bind.
  setoid_rewrite elem_of_lookup_imap. naive_solver.
Qed.

Lemma native_cons n l :
  PeersFromNodesNative (n :: l) =
    imap (native_peer n) (loadbalancers.Peers n) ++ PeersFromNodesNative l.
Proof. done. Qed.

Lemma native_peer_name node i peer node' i' peer' :
  Peer_Name (native_peer node i peer) = Peer_Name (native_peer node' i' peer') →
  loadbalancers.Name node = loadbalancers.Name node' ∧ i = i'.
Proof. apply dash_number_inj. Qed.

Lemma NoDup_imap_names (f : nat → loadbalancers.Peer → Peer) l :
  (∀ i j p q, Peer_Name (f i p) = Peer_Name (f j q) → i = j) →
  NoDup (Peer_Name <$> imap f l).
Proof.
  intros Hinj. apply NoDup_alt. intros i j x.
  rewrite !list_lookup_fmap, !list_lookup_imap.
  destruct (l !! i), (l !! j); simpl; try done. intros [= <-] [= H].
  by apply Hinj in H.
Qed.

Lemma frr_elem p ns nodes :
  p ∈ frr_candidates ns nodes ↔
  ∃ node i peer, node ∈ nodes ∧ loadbalancers.Peers node !! i = Some peer ∧
    p = frr_peer ns node i peer.
Proof.
  unfold frr_candidates. rewrite list_elem_of_bind.
  setoid_rewrite elem_of_lookup_imap. naive_solver.
Qed.

(** The map of peers by name keeps the last peer of each name. *)
Lemma peers_by_name_last l n :
  peers_by_name l !! n = last (filter (λ p, Peer_Name p = n) l).
Proof.
  unfold peers_by_name. induction l as [|p l IH] using rev_ind; [done|].
  rewrite foldl_app, filter_app. simpl. rewrite filter_cons, filter_nil.
  case_decide as Hn.
  - subst n. by rewrite lookup_insert_eq, last_snoc.
  - by rewrite lookup_insert_ne, app_nil_r by done.
Qed.

Lemma peers_by_name_key l n p : peers_by_name l !! n = Some p → Peer_Name p = n ∧ p ∈ l.
Proof.
  rewrite peers_by_name_last. intros H%last_Some_elem_of.
  by apply list_elem_of_filter in H.
Qed.

Lemma NoDup_map_values (m : gmap string Peer) :
  (∀ n p, m !! n = Some p → Peer_Name p = n) → NoDup (Peer_Name <$> (map_to_list m).*2).
Proof.
  intros Hkey. rewrite <-list_fmap_compose.
  replace ((Peer_Name ∘ snd) <$> map_to_list m) with ((map_to_list m).*1);
    [apply NoDup_fst_map_to_list|].
  apply list_fmap_ext. intros i [n p] Hi%list_elem_of_lookup_2.
  apply elem_of_map_to_list in Hi. simpl. by rewrite (Hkey n p).
Qed.

Section frr.
Context `{GoRange, PdqSort}.

Lemma frr_result_perm sel nodes :
  NewPeersFromNodesFRRFunc sel nodes ≡ₚ
  (map_to_list (peers_by_name
     (frr_candidates (convertToMetalLBNodeSelector sel) nodes))).*2.
Proof. unfold NewPeersFromNodesFRRFunc. by rewrite sort_Sort_perm, range_map_perm. Qed.

Lemma frr_result_elem sel nodes p :
  p ∈ NewPeersFromNodesFRRFunc sel nodes ↔
  peers_by_name (frr_candidates (convertToMetalLBNodeSelector sel) nodes) !! Peer_Name p
    = Some p.
Proof.
  rewrite frr_result_perm, list_elem_of_fmap. split.
  - intros ([n p'] & -> & Hin%elem_of_map_to_list). simpl.
    by rewrite (proj1 (peers_by_name_key _ _ _ Hin)).
  - intros Hp. exists (Peer_Name p, p). by rewrite elem_of_map_to_list.
Qed.
End frr.

(** A peer whose numbers fit the fields they are written to. *)
Definition Peer_wf (p : Peer) : Prop :=
  (0 ≤ Peer_MyASN p < 2 ^ 32)%Z ∧ (0 ≤ Peer_ASN p < 2 ^ 32)%Z ∧ (0 ≤ Peer_Port p < 2 ^ 16)%Z.

(** ** Properties *)

(** in native mode there is exactly one peer for every peer of every
    node, bound to that node by its host name label, with its addresses and
    (within 32 and 16 bits) its numbers; and when the nodes have distinct
    names all peers have distinct names, as objects of one kind must. *)
Theorem PeersFromNodesNative_distinct nodes :
  (∀ p, p ∈ PeersFromNodesNative nodes ↔
     ∃ node i peer, node ∈ nodes ∧ loadbalancers.Peers node !! i = Some peer ∧
       p = native_peer node i peer) ∧
  length (PeersFromNodesNative nodes) = sum_list_with (length ∘ loadbalancers.Peers) nodes ∧
  (NoDup (loadbalancers.Name <$> nodes) → NoDup (Peer_Name <$> PeersFromNodesNative nodes)).
Proof.
  split; [intros p; apply native_elem|]. split.
  - induction nodes as [|n l IH]; [done|].
    rewrite native_cons, length_app, length_imap, IH. done.
  - induction nodes as [|n l IH]; [constructor|]. rewrite fmap_cons, NoDup_cons.
    intros [Hn Hl]. rewrite native_cons, fmap_app, NoDup_app. split_and!.
    + apply NoDup_imap_names. intros i j p q Heq. by apply native_peer_name in Heq as [_ ?].
    + intros x (p & -> & Hp)%list_elem_of_fmap (q & Heq & Hq)%list_elem_of_fmap.
      apply elem_of_lookup_imap in Hp as (i & peer & -> & _).
      apply native_elem in Hq as (n' & i' & peer' & Hn' & _ & ->).
      apply native_peer_name in Heq as [Heq _]. apply Hn. rewrite Heq.
      by apply list_elem_of_fmap_2.
    + by apply IH.
Qed.

(** C37: in FRR mode the peers have distinct names and come sorted by name;
    under each name is the last candidate with it, nodes taken in order; the
    result depends neither on the iteration order of the map nor on the
    sorting algorithm. *)
Theorem NewPeersFromNodesFRRFunc_spec (R1 R2 : GoRange) (S1 S2 : PdqSort) sel nodes :
  let candidates := frr_candidates (convertToMetalLBNodeSelector sel) nodes in
  let result := @NewPeersFromNodesFRRFunc R1 S1 sel nodes in
  NoDup (Peer_Name <$> result) ∧
  sorted_by (λ a b, String.ltb (Peer_Name a) (Peer_Name b)) result ∧
  (∀ n p, p ∈ result ∧ Peer_Name p = n ↔
     last (filter (λ p, Peer_Name p = n) candidates) = Some p) ∧
  @NewPeersFromNodesFRRFunc R2 S2 sel nodes = result.
Proof.
  intros candidates result.
  assert (∀ n p, peers_by_name candidates !! n = Some p → Peer_Name p = n) as Hkey.
  { intros n p Hp. by apply peers_by_name_key in Hp as [? _]. }
  split_and!.
  - unfold result. rewrite frr_result_perm. by apply NoDup_map_values.
  - apply sort_Sort_sorted, key_StrictWeak.
  - intros n p. rewrite <-peers_by_name_last. unfold result. rewrite frr_result_elem.
    split; [naive_solver|]. intros Hp. by rewrite (Hkey n p).
  - unfold result, NewPeersFromNodesFRRFunc. fold candidates.
    apply sort_by_key_unique; [|by rewrite (@range_map_perm R1), (@range_map_perm R2)].
    rewrite (@range_map_perm R2). by apply NoDup_map_values.
Qed.

(** every FRR peer is selected by region: its only selector carries the
    configured labels with the region label set to the region of the node
    it was made from, and it has multi-hop enabled. *)
Theorem frr_peer_region `{GoRange, PdqSort} sel nodes p :
  p ∈ NewPeersFromNodesFRRFunc sel nodes →
  ∃ node ns, node ∈ nodes ∧ Peer_NodeSelectors p = [ns] ∧ Peer_EBGPMultiHop p = true ∧
    map_get (MatchLabels ns) regionKey = loadbalancers.Region node ∧
    (∀ k, k ≠ regionKey → map_get (MatchLabels ns) k = map_get (LS_MatchLabels sel) k).
Proof.
  intros Hp%frr_result_elem%peers_by_name_key. destruct Hp as [_ Hp].
  apply frr_elem in Hp as (node & i & peer & Hn & _ & ->).
  exists node. eexists. split; [done|]. split; [done|]. split; [done|]. simpl. split.
  - by rewrite lookup_insert_eq.
  - intros k Hk. rewrite lookup_insert_ne by done. by destruct (LS_MatchLabels sel).
Qed.

(** whatever the mode and whatever the numbers of the nodes, the ASNs of
    every peer fit 32 bits and its port fits 16. *)
Theorem peers_wf `{GoRange, PdqSort} mode sel nodes :
  Forall Peer_wf (NewPeersFromNodesFunc mode sel nodes).
Proof.
  assert (Forall Peer_wf (PeersFromNodesNative nodes)) as Hnative.
  { apply Forall_forall. intros p (n & i & peer & _ & _ & ->)%native_elem.
    unfold Peer_wf. simpl. auto using uint32_range, uint16_range. }
  unfold NewPeersFromNodesFunc.
  repeat case_decide; [|done|constructor|done].
  apply Forall_forall. intros p Hp%frr_result_elem%peers_by_name_key.
  destruct Hp as [_ (n & i & peer & _ & _ & ->)%frr_elem].
  unfold Peer_wf. simpl. auto using uint32_range, uint16_range.
Qed.

(** a configuration path between slashes names the namespace, and the
    peering mode is the one whose printed name the query gives, native when
    the query gives none; nothing else is accepted. *)
Theorem ParseConfigURL_modes ns scheme query host ns' m :
  let url := {| URL_Scheme := scheme; URL_Path := "/" +:+ ns +:+ "/"; URL_Query := query;
    URL_Hostname := host |} in
  let raw := Query_Get url "bgp-peer-mode" in
  ParseConfigURL url = Ok (ns', m) ↔
    ns' = ns ∧
    ((m ∈ [BGPPeerModeNone; BGPPeerModeNative; BGPPeerModeFRR] ∧ raw = BGPPeerMode_String m)
     ∨ (raw = "" ∧ m = BGPPeerModeNative)).
Proof.
  intros url raw. unfold ParseConfigURL. fold raw. simpl.
  rewrite TrimPrefix_app, TrimSuffix_app. generalize raw as r. clear. intros r.
  rewrite !elem_of_cons, elem_of_nil.
  repeat case_decide; subst;
    (split; [try done; intros [= <- <-]; (split; [done|]);
               first [by right | left; (split; [by auto|done])]
            |intros [-> [[[->|[->|[->|[]]]] Hr]|[Hr ->]]]; try done; by vm_compute in Hr]).
Qed.

(** ** Concrete runs *)

Local Existing Instance key_order.
Local Existing Instance pdqsort_by_insertion.
Definition frr_node : loadbalancers.Node := {|
  loadbalancers.Name := "n1"; loadbalancers.SourceIP := "10.1.0.1"; loadbalancers.LocalASN := 65000;
  loadbalancers.PeerASN := 64512; loadbalancers.Password := "";
  loadbalancers.Peers := [{| loadbalancers.Address := "10.0.0.1"; loadbalancers.Port := 179 |}];
  loadbalancers.Region := "LT" |}.
Definition no_selector : LabelSelector := {| LS_MatchLabels := None; LS_MatchExpressions := [] |}.

Lemma frr_peer_region_witness :
  Forall (λ p, ∃ node ns, node ∈ [frr_node] ∧ Peer_NodeSelectors p = [ns] ∧ Peer_EBGPMultiHop p = true ∧
    map_get (MatchLabels ns) regionKey = loadbalancers.Region node ∧
    (∀ k, k ≠ regionKey → map_get (MatchLabels ns) k = map_get (LS_MatchLabels no_selector) k))
    (NewPeersFromNodesFRRFunc no_selector [frr_node]).
Proof. apply Forall_forall. intros p Hp. exact (frr_peer_region no_selector [frr_node] p Hp). Defined.
