(* ===== verification/ServiceSelectors.v ===== *)
(** * Services recorded in node selectors

    A peer remembers the services it works for in node selectors with two
    special match labels, the service's name and its namespace. The code has
    this logic twice, on [Peer] in [config.go] ([AddService],
    [RemoveService], [Services]) and on the custom resource in [crd.go]
    ([peerAddService], [peerRemoveService]); it is written here once, for
    any type of node selector. *)

From S2P Require Import Prelude GoSort MetalLBTypes.

(** ** Definitions *)

(** A node selector type: its match labels, and the selector that has only
    match labels. *)
Class Selector (T : Type) := {
  sel_labels : T → option (gmap string string);
  sel_make : gmap string string → T;
  sel_labels_make : ∀ m, sel_labels (sel_make m) = Some m
}.

Section selectors.
Context {T : Type} `{Selector T, PdqSort}.

(** The [range] over the labels picks out the two keys, in any order. *)
Definition sel_name (ns : T) : string := map_get (sel_labels ns) serviceNameKey.
Definition sel_namespace (ns : T) : string := map_get (sel_labels ns) serviceNameSpaceKey.

Definition service_selector (svc : Resource) : T :=
  sel_make {[ serviceNameSpaceKey := Res_Namespace svc; serviceNameKey := Res_Name svc ]}.

(** The loop of [AddService]: [None] is the early [return false]. *)
Fixpoint add_loop (svc : Resource) (l : list T) (services : list Resource) (selectors : list T)
  : option (list Resource * list T) :=
  match l with
  | [] => Some (services, selectors)
  | ns :: l' =>
      let namespace := sel_namespace ns in
      let name := sel_name ns in
      let selectors' :=
        if decide (name = "" ∧ namespace = "") then selectors ++ [ns] else selectors in
      if decide (name ≠ "" ∧ namespace ≠ "") then
        if decide (Res_Namespace svc = namespace ∧ Res_Name svc = name) then None
        else
          add_loop svc l'
            (services ++ [{| Res_Namespace := namespace; Res_Name := name |}]) selectors'
      else add_loop svc l' services selectors'
  end.
(** Whether the selectors change, and what they become. *)
Definition add_service (svc : Resource) (l : list T) : bool * list T :=
  match add_loop svc l [svc] [] with
  | None => (false, l)
  | Some (services, selectors) =>
      (true, selectors ++ (service_selector <$> sort_Sort Resources_Less services))
  end.

(** The loop of [RemoveService], one [switch] case after the other. *)
Fixpoint remove_loop (svc : Resource) (l : list T) (found : bool) (services : list Resource)
    (selectors : list T) : bool * list Resource * list T :=
  match l with
  | [] => (found, services, selectors)
  | ns :: l' =>
      let name := sel_name ns in
      let namespace := sel_namespace ns in
      if decide (name = "" ∧ namespace = "") then
        remove_loop svc l' found services (selectors ++ [ns])
      else if decide (name = Res_Name svc ∧ namespace = Res_Namespace svc) then
        remove_loop svc l' true services selectors
      else if decide (name ≠ "" ∧ namespace ≠ "" ∧
                      (name ≠ Res_Name svc ∨ namespace ≠ Res_Namespace svc)) then
        remove_loop svc l' found
          (services ++ [{| Res_Namespace := namespace; Res_Name := name |}]) selectors
      else remove_loop svc l' found services selectors
  end.
(** Whether the service was found, how many are left, and the selectors. *)
Definition remove_service (svc : Resource) (l : list T) : bool * nat * list T :=
  let '(found, services, selectors) := remove_loop svc l false [] [] in
  let services := sort_Sort Resources_Less services in
  (found, length services, selectors ++ (service_selector <$> services)).

(** [Peer.Services]. *)
Fixpoint services_of (l : list T) : list Resource :=
  match l with
  | [] => []
  | ns :: l' =>
      if decide (sel_name ns ≠ "" ∧ sel_namespace ns ≠ "") then
        {| Res_Namespace := sel_namespace ns; Res_Name := sel_name ns |} :: services_of l'
      else services_of l'
  end.

(** ** The abstract view

    Selectors with neither label are the plain ones; those with both record
    a service; those with exactly one are dropped whenever the selectors
    are rewritten. A real service has a name and a namespace. *)
Definition plain (ns : T) : Prop := sel_name ns = "" ∧ sel_namespace ns = "".
Global Instance plain_dec ns : Decision (plain ns).
Proof. unfold plain. apply _. Defined.
Definition plain_of (l : list T) : list T := filter plain l.
Definition valid_service (svc : Resource) : Prop := Res_Name svc ≠ "" ∧ Res_Namespace svc ≠ "".

Lemma sel_name_service svc : sel_name (service_selector svc) = Res_Name svc.
Proof.
  unfold sel_name, service_selector. rewrite sel_labels_make. simpl.
  rewrite lookup_insert_ne by done. by rewrite lookup_singleton_eq.
Qed.
Lemma sel_namespace_service svc : sel_namespace (service_selector svc) = Res_Namespace svc.
Proof.
  unfold sel_namespace, service_selector. rewrite sel_labels_make. simpl.
  by rewrite lookup_insert_eq.
Qed.

Lemma services_of_app l1 l2 : services_of (l1 ++ l2) = services_of l1 ++ services_of l2.
Proof. induction l1; simpl; [done|]. case_decide; simpl; by f_equal. Qed.

Lemma services_of_plain l : services_of (plain_of l) = [].
Proof.
  unfold plain_of. induction l as [|ns l IH]; [done|]. rewrite filter_cons.
  case_decide as Hp; [|done]. simpl. rewrite decide_False; [done|].
  destruct Hp. naive_solver.
Qed.

Lemma services_of_valid l : Forall valid_service (services_of l).
Proof. induction l; simpl; [constructor|]. case_decide; [constructor|]; naive_solver. Qed.

Lemma services_of_selectors svcs :
  Forall valid_service svcs → services_of (service_selector <$> svcs) = svcs.
Proof.
  induction 1 as [|svc svcs [Hn Hns] _ IH]; [done|]. rewrite fmap_cons.
  cbn [services_of]. rewrite sel_name_service, sel_namespace_service.
  rewrite decide_True by done. rewrite IH. by destruct svc.
Qed.

Lemma plain_of_selectors svcs :
  Forall valid_service svcs → plain_of (service_selector <$> svcs) = [].
Proof.
  unfold plain_of. induction 1 as [|svc svcs [Hn Hns] _ IH]; [done|].
  rewrite fmap_cons, filter_cons, decide_False; [done|].
  intros [Hn' _]. by rewrite sel_name_service in Hn'.
Qed.

(** What the loops compute. *)
Lemma add_loop_spec svc l services selectors :
  valid_service svc →
  add_loop svc l services selectors =
    if decide (svc ∈ services_of l) then None
    else Some (services ++ services_of l, selectors ++ plain_of l).
Proof.
  intros Hv. revert services selectors. unfold plain_of.
  induction l as [|ns l IH]; intros services selectors; simpl.
  { by rewrite !app_nil_r. }
  rewrite filter_cons.
  destruct (decide (sel_name ns ≠ "" ∧ sel_namespace ns ≠ "")) as [[Hn Hns]|Hno].
  - rewrite (decide_False (P := sel_name ns = "" ∧ _)) by naive_solver.
    rewrite (decide_False (P := plain ns)) by (unfold plain; naive_solver).
    destruct (decide (Res_Namespace svc = _ ∧ _)) as [[E1 E2]|Hne].
    + rewrite decide_True; [done|]. apply elem_of_cons. left. destruct svc; simpl in *; congruence.
    + rewrite IH. destruct (decide (svc ∈ services_of l)) as [Hin|Hin].
      * by rewrite decide_True by (by apply elem_of_cons; right).
      * rewrite decide_False, <-app_assoc; [done|].
        intros [->|?]%elem_of_cons; [by apply Hne|done].
  - rewrite IH. case_decide; [done|].
    destruct (decide (sel_name ns = "" ∧ sel_namespace ns = "")) as [Hp|Hp].
    + rewrite (decide_True (P := plain ns)) by done. by rewrite <-app_assoc.
    + by rewrite (decide_False (P := plain ns)) by done.
Qed.

Lemma remove_loop_spec svc l found services selectors :
  valid_service svc →
  remove_loop svc l found services selectors =
    (found || bool_decide (svc ∈ services_of l),
     services ++ filter (λ r, r ≠ svc) (services_of l), selectors ++ plain_of l).
Proof.
  intros [Hvn Hvns]. revert found services selectors. unfold plain_of.
  induction l as [|ns l IH]; intros found services selectors; simpl.
  { by rewrite orb_false_r, !app_nil_r. }
  rewrite filter_cons.
  destruct (decide (sel_name ns = "" ∧ sel_namespace ns = "")) as [[Hn Hns]|Hp].
  { rewrite (decide_True (P := plain ns)) by done.
    rewrite (decide_False (P := sel_name ns ≠ "" ∧ _)) by naive_solver.
    by rewrite IH, <-app_assoc. }
  rewrite (decide_False (P := plain ns)) by done.
  destruct (decide (sel_name ns = Res_Name svc ∧ sel_namespace ns = Res_Namespace svc))
    as [[E1 E2]|Hne].
  { rewrite decide_True by (by rewrite E1, E2).
    assert ({| Res_Namespace := sel_namespace ns; Res_Name := sel_name ns |} = svc) as ->
      by (destruct svc; simpl in *; congruence).
    rewrite filter_cons, decide_False by naive_solver.
    rewrite IH, (bool_decide_true (svc ∈ svc :: _)) by apply list_elem_of_here.
    by rewrite orb_true_r. }
  destruct (decide (sel_name ns ≠ "" ∧ sel_namespace ns ≠ "")) as [[Hn Hns]|Hh].
  - rewrite decide_True by (destruct (decide (sel_name ns = Res_Name svc)); naive_solver).
    rewrite IH, <-app_assoc, filter_cons, decide_True by (destruct svc; naive_solver).
    do 2 f_equal. f_equal. apply bool_decide_ext. rewrite elem_of_cons.
    destruct svc; naive_solver.
  - rewrite decide_False by naive_solver. apply IH.
Qed.

(** ** The contract of the two operations *)

Lemma add_service_spec svc l :
  valid_service svc →
  add_service svc l =
    if decide (svc ∈ services_of l) then (false, l)
    else (true, plain_of l ++ (service_selector <$>
                  sort_Sort Resources_Less (svc :: services_of l))).
Proof.
  intros Hv. unfold add_service. rewrite add_loop_spec by done. by case_decide.
Qed.

Lemma remove_service_spec svc l :
  valid_service svc →
  remove_service svc l =
    (bool_decide (svc ∈ services_of l),
     length (filter (λ r, r ≠ svc) (services_of l)),
     plain_of l ++ (service_selector <$>
       sort_Sort Resources_Less (filter (λ r, r ≠ svc) (services_of l)))).
Proof.
  intros Hv. unfold remove_service. rewrite remove_loop_spec by done.
  simpl. by rewrite sort_Sort_length.
Qed.

Lemma services_of_rewritten l svcs :
  Forall valid_service svcs →
  services_of (plain_of l ++ (service_selector <$> sort_Sort Resources_Less svcs)) ≡ₚ svcs ∧
  plain_of (plain_of l ++ (service_selector <$> sort_Sort Resources_Less svcs)) = plain_of l.
Proof.
  intros Hv. assert (Forall valid_service (sort_Sort Resources_Less svcs)) as Hv'
    by by rewrite sort_Sort_perm.
  split.
  - rewrite services_of_app, services_of_plain, services_of_selectors by done.
    by rewrite sort_Sort_perm.
  - pose proof (plain_of_selectors _ Hv') as Hs. unfold plain_of in *.
    rewrite filter_app, Hs, app_nil_r, list_filter_filter.
    apply list_filter_iff. naive_solver.
Qed.

Lemma add_service_services svc l b l' :
  valid_service svc → add_service svc l = (b, l') →
  (if b then services_of l' ≡ₚ svc :: services_of l else svc ∈ services_of l ∧ l' = l) ∧
  plain_of l' = plain_of l ∧ svc ∈ services_of l'.
Proof.
  intros Hv. rewrite add_service_spec by done. case_decide as Hin; intros [= <- <-]; [done|].
  destruct (services_of_rewritten l (svc :: services_of l)) as [Hs Hp].
  { constructor; [done|apply services_of_valid]. }
  split_and!; [done..|]. rewrite Hs. apply list_elem_of_here.
Qed.

Lemma remove_service_services svc l b n l' :
  valid_service svc → remove_service svc l = (b, n, l') →
  b = bool_decide (svc ∈ services_of l) ∧
  services_of l' ≡ₚ filter (λ r, r ≠ svc) (services_of l) ∧
  n = length (services_of l') ∧ plain_of l' = plain_of l ∧ svc ∉ services_of l'.
Proof.
  intros Hv. rewrite remove_service_spec by done. intros [= <- <- <-].
  destruct (services_of_rewritten l (filter (λ r, r ≠ svc) (services_of l))) as [Hs Hp].
  { apply Forall_forall. intros r [_ Hr]%list_elem_of_filter.
    by apply (proj1 (Forall_forall _ _) (services_of_valid l)). }
  split_and!; [done|done| |done|].
  - by rewrite Hs.
  - rewrite Hs. rewrite list_elem_of_filter. naive_solver.
Qed.
End selectors.
