(* ===== verification/GoSlices.v ===== *)
(** * [golang.org/x/exp/slices]

    The four functions of the package the program calls, as a class with
    what their documentation says: [Compact] and [Delete] work in place,
    return a shorter slice and zero the elements past its end, which a
    caller that kept the original slice still sees. *)

From S2P Require Import Prelude GoSort.

Class ExpSlices := {
  exp_Contains : list string → string → bool;
  exp_Sort : list string → list string;
  exp_Compact : list string → list string;
  exp_Delete : list string → nat → nat → list string;
  exp_Contains_spec : ∀ l x, exp_Contains l x = true ↔ x ∈ l;
  exp_Sort_perm : ∀ l, exp_Sort l ≡ₚ l;
  exp_Sort_sorted : ∀ l, sorted_by String.ltb (exp_Sort l);
  (* what is kept of each run of equal elements *)
  exp_Compact_nil : exp_Compact [] = [];
  exp_Compact_cons : ∀ x l, exp_Compact (x :: l) =
    if decide (head l = Some x) then exp_Compact l else x :: exp_Compact l;
  exp_Delete_spec : ∀ l i j, i ≤ j → j ≤ length l →
    exp_Delete l i j = take i l ++ drop j l
}.

(** The array behind a slice after an operation in place shortened it: the
    elements past the new end are zeroed. *)
Definition zeroed_tail (old new : list string) : list string :=
  new ++ replicate (length old - length new) "".

(** The functions themselves, for concrete runs. *)
Fixpoint compact (l : list string) : list string :=
  match l with
  | [] => []
  | x :: l' => if decide (head l' = Some x) then compact l' else x :: compact l'
  end.
Program Definition exp_slices : ExpSlices := {|
  exp_Contains := λ l x, bool_decide (x ∈ l);
  exp_Sort := insertionSort String.ltb;
  exp_Compact := compact;
  exp_Delete := λ l i j, take i l ++ drop j l
|}.
Next Obligation. intros l x. apply bool_decide_eq_true. Qed.
Next Obligation. apply insertionSort_perm. Qed.
Next Obligation. intros l. apply insertionSort_sorted, (key_StrictWeak id). Qed.
Next Obligation. done. Qed.
Next Obligation. done. Qed.
Next Obligation. done. Qed.

Section slices.
Context `{ExpSlices}.

Lemma exp_Compact_length l : length (exp_Compact l) ≤ length l.
Proof.
  induction l as [|x l IH]; [by rewrite exp_Compact_nil|].
  rewrite exp_Compact_cons. case_decide; simpl; lia.
Qed.

(** Nothing is lost, in any order. *)
Lemma elem_of_exp_Compact l x : x ∈ exp_Compact l ↔ x ∈ l.
Proof.
  induction l as [|y l IH]; [by rewrite exp_Compact_nil|].
  rewrite exp_Compact_cons. case_decide as Hh; rewrite ?elem_of_cons, IH; [|done].
  split; [by right|]. intros [->|?]; [|done]. destruct l; simplify_eq/=. apply list_elem_of_here.
Qed.

(** One copy of a repeated element is dropped. *)
Lemma exp_Compact_shorter l1 l2 x :
  length (exp_Compact (l1 ++ x :: x :: l2)) < length (l1 ++ x :: x :: l2).
Proof.
  induction l1 as [|y l1 IH].
  - simpl. rewrite exp_Compact_cons, decide_True by done.
    pose proof (exp_Compact_length (x :: l2)). simpl in *. lia.
  - simpl. rewrite exp_Compact_cons. case_decide; simpl in *; lia.
Qed.

Lemma exp_Compact_Delete_length l i : i < length l →
  length (exp_Delete l i (S i)) = pred (length l).
Proof. intros. rewrite exp_Delete_spec, length_app, length_take, length_drop by lia. lia. Qed.

(** A sorted list compacts to one without duplicates; only a list without
    adjacent duplicates keeps its length. *)
Lemma exp_Compact_NoDup l : sorted_by String.ltb l → NoDup (exp_Compact l).
Proof.
  induction 1 as [|x l Hl IH Hx]; [rewrite exp_Compact_nil; constructor|].
  rewrite exp_Compact_cons. case_decide as Hh; [done|]. apply NoDup_cons. split; [|done].
  rewrite elem_of_exp_Compact. intros Hin. apply Hh. destruct Hl as [|y l Hl Hy].
  - by apply not_elem_of_nil in Hin.
  - simpl. f_equal. apply elem_of_cons in Hin as [->|Hin]; [done|].
    rewrite Forall_forall in Hx, Hy. apply (anti_symm String.le).
    + apply ltb_false_le, Hy, Hin.
    + apply ltb_false_le, Hx, list_elem_of_here.
Qed.
Lemma exp_Compact_same l : length (exp_Compact l) = length l → exp_Compact l = l.
Proof.
  induction l as [|x l IH]; [by rewrite exp_Compact_nil|]. rewrite exp_Compact_cons.
  pose proof (exp_Compact_length l). case_decide; simpl; intros; [lia|]. f_equal. apply IH. lia.
Qed.

Lemma elem_of_zeroed_tail old new x : x ∈ zeroed_tail old new → x ∈ new ∨ x = "".
Proof.
  unfold zeroed_tail. rewrite elem_of_app, elem_of_replicate. naive_solver.
Qed.
Lemma zeroed_tail_blank old new : length new < length old → "" ∈ zeroed_tail old new.
Proof.
  intros Hlt. unfold zeroed_tail. rewrite elem_of_app, elem_of_replicate. right. split; [done|lia].
Qed.
End slices.
