(* ===== verification/CrdStore.v ===== *)
(** * Reasoning about the store of custom resources

    What a loop over listed objects does to the store, when each step
    replaces or deletes its own object. *)

From S2P Require Import Prelude Api.

Section store.
Context {W Obj : Type} `{CrdObject Obj, CrdClient W Obj, !CrdLaws W Obj}.

(** Objects with a label selector in a namespace. *)
Definition in_list (sel : gmap string string) (ns : string) (o : Obj) : Prop :=
  obj_Namespace o = ns ∧ labels_match sel (obj_Labels o) = true.
Global Instance in_list_dec sel ns o : Decision (in_list sel ns o).
Proof. unfold in_list. apply _. Defined.

(** The list [l] is a part of the store, each object once. *)
Definition listed (l : list Obj) (w : W) : Prop :=
  NoDup (obj_key <$> l) ∧ Forall (λ o, crd_objs w !! obj_key o = Some o) l.

Lemma crd_List_listed sel ns w l w' :
  crd_List sel ns w = (Ok l, w') →
  w' = w ∧ listed l w ∧
  ∀ o, o ∈ l ↔ crd_objs w !! obj_key o = Some o ∧ in_list sel ns o.
Proof.
  intros (-> & Hnd & Hl)%crd_List_Ok. split_and!; [done| |done]. split.
  - apply NoDup_fmap_2_strong; [|done].
    intros x y [Hx _]%Hl [Hy _]%Hl Hk. congruence.
  - apply Forall_forall. by intros o [? _]%Hl.
Qed.

(** [f] says what becomes of each object of [l]. *)
Definition update_all (f : Obj → option Obj) (l : list Obj) (m : gmap (string * string) Obj)
  : gmap (string * string) Obj :=
  foldl (λ m o, partial_alter (λ _, f o) (obj_key o) m) m l.

Lemma update_all_cons f o l m :
  update_all f (o :: l) m = update_all f l (partial_alter (λ _, f o) (obj_key o) m).
Proof. done. Qed.

Lemma update_all_notin f l m k : k ∉ obj_key <$> l → update_all f l m !! k = m !! k.
Proof.
  revert m. induction l as [|o l IH]; intros m Hk; [done|]. rewrite fmap_cons in Hk.
  apply not_elem_of_cons in Hk as [Hk Hl]. simpl. rewrite IH by done.
  by rewrite lookup_partial_alter_ne.
Qed.

Lemma update_all_in f l m o :
  NoDup (obj_key <$> l) → o ∈ l → update_all f l m !! obj_key o = f o.
Proof.
  revert m. induction l as [|x l IH]; intros m Hnd Hin; [by apply not_elem_of_nil in Hin|].
  rewrite fmap_cons in Hnd. apply NoDup_cons in Hnd as [Hx Hnd]. simpl.
  apply elem_of_cons in Hin as [->|Hin]; [|by apply IH].
  rewrite update_all_notin by done. by rewrite lookup_partial_alter_eq.
Qed.

Lemma update_all_id f l m :
  Forall (λ o, f o = Some o ∧ m !! obj_key o = Some o) l → update_all f l m = m.
Proof.
  induction 1 as [|o l [Hf Ho] _ IH]; [done|]. rewrite update_all_cons, Hf, <-Ho.
  by rewrite partial_alter_self.
Qed.

(** The store after every object listed under [sel] was updated by [f]. *)
Lemma update_all_lookup f sel ns l w k :
  listed l w →
  (∀ o, o ∈ l ↔ crd_objs w !! obj_key o = Some o ∧ in_list sel ns o) →
  update_all f l (crd_objs w) !! k =
    (o ← crd_objs w !! k; if decide (in_list sel ns o) then f o else Some o).
Proof.
  intros [Hnd Hall] Hl. destruct (decide (k ∈ obj_key <$> l)) as [Hk|Hk].
  - apply list_elem_of_fmap in Hk as (o & -> & Ho). rewrite update_all_in by done.
    apply Hl in Ho as [Hlk Hin]. rewrite Hlk. simpl. by rewrite decide_True.
  - rewrite update_all_notin by done. destruct (crd_objs w !! k) as [o|] eqn:E; [|done].
    simpl. rewrite decide_False; [done|]. intros Hin. apply Hk.
    pose proof (crd_keyed _ _ _ E) as <-. apply list_elem_of_fmap_2, Hl. done.
Qed.

(** One step on an object leaves the others of the list where they are. *)
Lemma listed_step f o l w w' :
  listed (o :: l) w → crd_objs w' = partial_alter (λ _, f o) (obj_key o) (crd_objs w) →
  listed l w'.
Proof.
  intros [Hnd Hall] Hw. rewrite fmap_cons in Hnd. apply NoDup_cons in Hnd as [Ho Hnd].
  apply Forall_cons in Hall as [_ Hall].
  split; [done|]. rewrite Forall_forall in *. intros x Hx. rewrite Hw.
  rewrite lookup_partial_alter_ne; [by apply Hall|]. intros Heq. apply Ho.
  rewrite Heq. by apply list_elem_of_fmap_2.
Qed.

Lemma partial_alter_Some (m : gmap (string * string) Obj) k o :
  m !! k = Some o → m = partial_alter (λ _, Some o) k m.
Proof. intros Hk. rewrite <-Hk. symmetry. apply partial_alter_self. Qed.

(** A sequence of successful creations: every key was free. *)
Definition create_all (l : list Obj) (m : gmap (string * string) Obj)
  : gmap (string * string) Obj := foldl (λ m o, <[obj_key o := o]> m) m l.
Definition fresh (l : list Obj) (w : W) : Prop :=
  NoDup (obj_key <$> l) ∧ Forall (λ o, crd_objs w !! obj_key o = None) l.

Lemma create_all_notin l m k : k ∉ obj_key <$> l → create_all l m !! k = m !! k.
Proof.
  revert m. induction l as [|o l IH]; intros m Hk; [done|]. rewrite fmap_cons in Hk.
  apply not_elem_of_cons in Hk as [Hk Hl]. simpl. rewrite IH by done.
  by rewrite lookup_insert_ne.
Qed.
Lemma create_all_in l m o :
  NoDup (obj_key <$> l) → o ∈ l → create_all l m !! obj_key o = Some o.
Proof.
  revert m. induction l as [|x l IH]; intros m Hnd Hin; [by apply not_elem_of_nil in Hin|].
  rewrite fmap_cons in Hnd. apply NoDup_cons in Hnd as [Hx Hnd]. simpl.
  apply elem_of_cons in Hin as [->|Hin]; [|by apply IH].
  rewrite create_all_notin by done. by rewrite lookup_insert_eq.
Qed.

Lemma create_step o l w w1 w' :
  crd_Create o w = (Ok (), w1) → fresh l w1 → crd_objs w' = create_all l (crd_objs w1) →
  fresh (o :: l) w ∧ crd_objs w' = create_all (o :: l) (crd_objs w).
Proof.
  intros [Hnone Hw1]%crd_Create_Ok [Hnd Hall] Hw'. split; [|by rewrite Hw', Hw1].
  assert (Forall (λ x, obj_key x ≠ obj_key o ∧ crd_objs w !! obj_key x = None) l) as Hall'.
  { eapply Forall_impl; [exact Hall|]. simpl. intros x. rewrite Hw1.
    intros [? ?]%lookup_insert_None. done. }
  split.
  - rewrite fmap_cons. apply NoDup_cons. split; [|done].
    intros (x & Hk & Hx)%list_elem_of_fmap. rewrite Forall_forall in Hall'.
    by apply (Hall' x Hx).
  - constructor; [done|]. eapply Forall_impl; [exact Hall'|]. by intros x [_ ?].
Qed.
End store.

(** A view of the world that no call on one kind of object changes. *)
Class KeepsCrd {W B : Type} (view : W → B) (Obj : Type) `{CrdClient W Obj} : Prop :=
  keeps_crd : ∀ w w', crd_call W Obj w w' → view w' = view w.

Global Instance frame_KeepsCrd {W Obj Obj' : Type} `{CrdClient W Obj, CrdObject Obj',
    CrdClient W Obj', !CrdLaws W Obj', !CrdFrame W Obj Obj'} :
  KeepsCrd (crd_objs (W := W) (Obj := Obj')) Obj.
Proof. exact crd_frame. Qed.

Section frame.
Context {W B Obj : Type} (view : W → B) `{CrdClient W Obj, !KeepsCrd view Obj}.

Lemma keeps_List sel ns : keeps view (crd_List (Obj := Obj) sel ns).
Proof. intros w r w' Hr. by eapply keeps_crd, call_List. Qed.
Lemma keeps_Create o : keeps view (crd_Create (Obj := Obj) o).
Proof. intros w r w' Hr. by eapply keeps_crd, call_Create. Qed.
Lemma keeps_Patch old new : keeps view (crd_Patch (Obj := Obj) old new).
Proof. intros w r w' Hr. by eapply keeps_crd, call_Patch. Qed.
Lemma keeps_Delete o : keeps view (crd_Delete (Obj := Obj) o).
Proof. intros w r w' Hr. by eapply keeps_crd, call_Delete. Qed.
End frame.
#[export] Hint Resolve keeps_List keeps_Create keeps_Patch keeps_Delete : keeps.

(** A preorder on worlds that every call on one kind of object respects. *)
Class StaysCrd {W : Type} (R : relation W) (Obj : Type) `{CrdClient W Obj} : Prop :=
  stays_crd : ∀ w w', crd_call W Obj w w' → R w w'.
#[export] Instance keeps_StaysCrd {W B Obj} (view : W → B) `{CrdClient W Obj, !KeepsCrd view Obj} :
  StaysCrd (unchanged view) Obj.
Proof. intros w w' Hc. by eapply keeps_crd. Qed.

Section stays_frame.
Context {W Obj : Type} (R : relation W) `{CrdClient W Obj, !StaysCrd R Obj}.

Lemma stays_List sel ns : stays R (crd_List (Obj := Obj) sel ns).
Proof. intros w r w' Hr. by eapply stays_crd, call_List. Qed.
Lemma stays_Create o : stays R (crd_Create (Obj := Obj) o).
Proof. intros w r w' Hr. by eapply stays_crd, call_Create. Qed.
Lemma stays_Patch old new : stays R (crd_Patch (Obj := Obj) old new).
Proof. intros w r w' Hr. by eapply stays_crd, call_Patch. Qed.
Lemma stays_Delete o : stays R (crd_Delete (Obj := Obj) o).
Proof. intros w r w' Hr. by eapply stays_crd, call_Delete. Qed.
End stays_frame.
#[export] Hint Resolve stays_List stays_Create stays_Patch stays_Delete : stays.
