(* ===== verification/Interleaving.v ===== *)
(** * Interleavings of API calls

    The cloud controller manager works on several services at once and runs
    the endpoint manager beside them, and the API serves one call at a time.
    This file runs the same definitions that the other files run alone in a
    [shared] world, where others act between any two calls: the world a call
    finds is given from outside, and what each call does to it is recorded.
    An [interleaving] of threads is a sequence of calls of all of them in
    which each call starts where the one before, of whatever thread, ended,
    and in which every thread makes the calls its program makes when it gets
    these answers.

    The logic to reason on one thread is that of rely and guarantee, on the
    reservations: [rg R G P c Q] says that as long as the others respect [R],
    every call of [c] respects [G]. [parallel] puts threads together. *)

From S2P Require Import Prelude GoStrings Api World Reservations CrdStore.

(** ** Definitions *)

(** The worlds that the next calls will find, and the calls made, each with
    the world before and after. *)
Record shared (W : Type) := { pending : list W; made : list (W * W) }.
Arguments pending {W} _.
Arguments made {W} _.

Section shared.
Context {W : Type}.

(** A call runs in the world it finds. Without one, the thread is not
    scheduled any more: it makes no further call, whatever it goes on to do
    with this error. *)
Definition unscheduled : error := EExt "not scheduled any more".
Definition call_of {A} (none : A) (c : W → A * W) : shared W → A * shared W := λ s,
  match pending s with
  | [] => (none, s)
  | w :: ws => let '(r, w') := c w in (r, {| pending := ws; made := made s ++ [(w, w')] |})
  end.
Definition shared_call {A} (c : M W A) : M (shared W) A := call_of (Err unscheduled) c.
Definition begin (ws : list W) : shared W := {| pending := ws; made := [] |}.

#[export] Instance shared_cherry `{CherryClient W} : CherryClient (shared W) := {|
  IPAddresses_List := λ p, shared_call (IPAddresses_List p);
  IPAddresses_Create := λ p req, shared_call (IPAddresses_Create p req);
  IPAddresses_Remove := λ id, shared_call (IPAddresses_Remove id);
  IPAddresses_Update := λ id target, shared_call (IPAddresses_Update id target);
  Servers_Get := λ id, call_of (no_server, None, Some unscheduled) (Servers_Get id);
  Servers_List := λ p, shared_call (Servers_List p);
  Servers_Update := λ id req, shared_call (Servers_Update id req);
  Projects_Get := λ p, shared_call (Projects_Get p);
  Projects_Update := λ p req, shared_call (Projects_Update p req)
|}.
#[export] Instance shared_kube `{KubeClient W} : KubeClient (shared W) := {|
  Namespaces_Get := λ n, shared_call (Namespaces_Get n);
  Nodes_List := λ label, shared_call (Nodes_List label);
  Nodes_PatchAnnotations := λ n a, shared_call (Nodes_PatchAnnotations n a);
  Services_Get := λ ns n, shared_call (Services_Get ns n);
  Services_Update := λ ns s, shared_call (Services_Update ns s)
|}.
#[export] Instance shared_http `{HttpClient W} : HttpClient (shared W) := {|
  http_NewRequest := http_NewRequest (W := W);
  http_Do := λ url, shared_call (http_Do url)
|}.
#[export] Instance shared_apply `{ApplyClient W} : ApplyClient (shared W) := {|
  Endpoints_Apply := λ ns e m, shared_call (Endpoints_Apply ns e m);
  Services_Apply := λ ns s m, shared_call (Services_Apply ns s m);
  Services_ApplyStatus := λ ns s m, shared_call (Services_ApplyStatus ns s m)
|}.
#[export] Instance shared_crd {Obj} `{CrdClient W Obj} : CrdClient (shared W) Obj := {|
  crd_List := λ sel ns, shared_call (crd_List sel ns);
  crd_Create := λ o, shared_call (crd_Create o);
  crd_Patch := λ old new, shared_call (crd_Patch old new);
  crd_Delete := λ o, shared_call (crd_Delete o)
|}.

(** A step of the whole system: the thread, the world before and after. *)
Definition api_step : Type := nat * (W * W).
Definition steps_of (i : nat) (tr : list api_step) : list (W * W) := (filter (λ e, e.1 = i) tr).*2.

Fixpoint contiguous (w : W) (tr : list api_step) : Prop :=
  match tr with
  | [] => True
  | (_, (w1, w2)) :: tr' => w1 = w ∧ contiguous w2 tr'
  end.
(** The thread makes exactly these calls when it finds these worlds. *)
Definition runs (c : M (shared W) unit) (steps : list (W * W)) : Prop :=
  made (c (begin steps.*1)).2 = steps.
Definition interleaving (threads : list (M (shared W) unit)) (w : W) (tr : list api_step) : Prop :=
  contiguous w tr ∧ (∀ i c, threads !! i = Some c → runs c (steps_of i tr)) ∧
  Forall (λ e, e.1 < length threads) tr.

(** The interleaving of a schedule: which thread makes each next call. A
    thread that makes none ends it. *)
Fixpoint schedule (threads : list (M (shared W) unit)) (l : list nat) (tr : list api_step) (w : W)
  : list api_step :=
  match l with
  | [] => tr
  | i :: l' =>
      match threads !! i with
      | None => tr
      | Some c =>
          let ws := (steps_of i tr).*1 ++ [w] in
          let calls := made (c (begin ws)).2 in
          match last calls with
          | Some step =>
              if decide (length calls = length ws)
              then schedule threads l' (tr ++ [(i, step)]) step.2 else tr
          | None => tr
          end
      end
  end.
(** The world after a sequence of steps. *)
Definition reached (w : W) (tr : list api_step) : W := default w (last tr.*2.*2).
End shared.
Arguments api_step W : clear implicits.

(** ** Rely and guarantee *)

Section rg.
Context {W : Type} `{CherryClient W, !ReservationLaws W}.
Implicit Types (cur ips : list IPAddress) (R G : relation (list IPAddress)).

(** A thread that makes no call on the reservations: all its calls leave
    them as they find them. *)
Definition calm (s s' : shared W) : Prop :=
  ∃ new, made s' = made s ++ new ∧ pending s = new.*1 ++ pending s' ∧
    Forall (λ x, api_ips x.2 = api_ips x.1) new.
#[export] Instance calm_PreOrder : PreOrder calm.
Proof.
  split.
  - intros s. exists []. by rewrite app_nil_r.
  - intros s1 s2 s3 (n1 & M1 & P1 & F1) (n2 & M2 & P2 & F2). exists (n1 ++ n2).
    rewrite M2, M1, P1, P2, fmap_app, !app_assoc. split_and!; [done..|]. by apply Forall_app.
Qed.
Lemma calm_call {A} (none : A) (c : W → A * W) s r s' :
  (∀ w r w', c w = (r, w') → api_ips w' = api_ips w) → call_of none c s = (r, s') → calm s s'.
Proof.
  intros Hc. unfold call_of. destruct (pending s) as [|w ws] eqn:E; [by intros [= _ <-]|].
  destruct (c w) as [r1 w1] eqn:Hw. intros [= _ <-]. exists [(w, w1)]. simpl. rewrite E.
  split_and!; [done..|]. constructor; [by eapply Hc|done].
Qed.
Lemma stays_calm {A} (c : M W A) : keeps api_ips c → stays calm (shared_call c).
Proof. intros Hc s r s'. by apply calm_call. Qed.

(** As long as [R] holds from what a call left to what the next one finds,
    the calls respect [G]. *)
Fixpoint obeys R G cur (new : list (W * W)) : Prop :=
  match new with
  | [] => True
  | (w, w') :: new' =>
      R cur (api_ips w) → G (api_ips w) (api_ips w') ∧ obeys R G (api_ips w') new'
  end.
Fixpoint arrives R cur (new : list (W * W)) cur' : Prop :=
  match new with
  | [] => cur' = cur
  | (w, w') :: new' => R cur (api_ips w) ∧ arrives R (api_ips w') new' cur'
  end.
(** From reservations with [P], and if it succeeds to reservations with [Q]
    of the result. *)
Definition rg R G (P : list IPAddress → Prop) {A} (c : M (shared W) A)
    (Q : A → list IPAddress → Prop) : Prop :=
  ∀ s r s', c s = (r, s') →
  ∃ new, made s' = made s ++ new ∧ pending s = new.*1 ++ pending s' ∧
    ∀ cur, P cur → obeys R G cur new ∧
      ∀ a cur', r = Ok a → arrives R cur new cur' → Q a cur'.

Lemma obeys_app R G cur l1 l2 : obeys R G cur (l1 ++ l2) → obeys R G cur l1.
Proof.
  revert cur. induction l1 as [|[w w'] l1 IH]; intros cur; simpl; [done|].
  intros Ho HR. destruct (Ho HR) as [? ?]. auto.
Qed.
Lemma obeys_arrives R G cur l1 l2 :
  obeys R G cur l1 → (∀ cur', arrives R cur l1 cur' → obeys R G cur' l2) → obeys R G cur (l1 ++ l2).
Proof.
  revert cur. induction l1 as [|[w w'] l1 IH]; intros cur; simpl; [by auto|].
  intros Ho Harr HR. destruct (Ho HR) as [? ?]. split; [done|]. apply IH; auto.
Qed.
Lemma arrives_app R cur l1 l2 cur' :
  arrives R cur (l1 ++ l2) cur' ↔ ∃ cur1, arrives R cur l1 cur1 ∧ arrives R cur1 l2 cur'.
Proof.
  revert cur. induction l1 as [|[w w'] l1 IH]; intros cur; simpl; [naive_solver|].
  rewrite IH. naive_solver.
Qed.
End rg.

(** *** Rules *)

Section rules.
Context {W : Type} `{CherryClient W, !ReservationLaws W} (R G : relation (list IPAddress))
  `{!Reflexive G}.
Implicit Types (P : list IPAddress → Prop).
Abbreviation rg := (rg (W := W) R G).

(** A computation that makes no call. *)
Lemma rg_pure P {A} (c : M (shared W) A) (Q : A → list IPAddress → Prop) :
  (∀ s, (c s).2 = s) → (∀ s a cur, (c s).1 = Ok a → P cur → Q a cur) → rg P c Q.
Proof.
  intros Hs HQ s r s' Hrun. pose proof (Hs s) as Hss. rewrite Hrun in Hss. simpl in Hss. subst s'.
  exists []. rewrite app_nil_r. split_and!; [done..|]. intros cur HP. split; [done|].
  intros a cur' -> ->. eapply (HQ s); [by rewrite Hrun|done].
Qed.
Lemma rg_ret P {A} (a : A) (Q : A → list IPAddress → Prop) : (∀ cur, P cur → Q a cur) → rg P (mret a) Q.
Proof. intros HQ. apply rg_pure; [done|]. intros s b cur [= <-]. auto. Qed.
Lemma rg_raise P {A} e (Q : A → list IPAddress → Prop) : rg P (raise e) Q.
Proof. by apply rg_pure. Qed.
Lemma rg_panic P {A} (Q : A → list IPAddress → Prop) : rg P panic Q.
Proof. by apply rg_pure. Qed.
Lemma rg_lift P {A} (x : res A) : rg P (lift_res x) (λ _, P).
Proof. by apply rg_pure. Qed.
Lemma rg_bind P {A B} (c : M (shared W) A) (k : A → M (shared W) B) Q Q' :
  rg P c Q → (∀ a, rg (Q a) (k a) Q') → rg P (c ≫= k) Q'.
Proof.
  intros Hc Hk s r s' Hrun. unfold mbind, M_bind in Hrun. destruct (c s) as [x s1] eqn:E.
  destruct (Hc _ _ _ E) as (n1 & M1 & P1 & O1). destruct x as [a|e|].
  - destruct (Hk _ _ _ _ Hrun) as (n2 & M2 & P2 & O2). exists (n1 ++ n2).
    rewrite M2, M1, P1, P2, fmap_app, !app_assoc. split_and!; [done..|]. intros cur HP.
    destruct (O1 cur HP) as [Ho1 Ha1]. split.
    + apply obeys_arrives; [done|]. intros cur' Harr. by apply O2, (Ha1 a).
    + intros b cur' -> (cur1 & Harr1 & Harr2)%arrives_app.
      by apply (O2 cur1 (Ha1 a _ eq_refl Harr1)).
  - injection Hrun as <- <-. exists n1. split_and!; [done..|]. intros cur HP. by destruct (O1 cur HP).
  - injection Hrun as <- <-. exists n1. split_and!; [done..|]. intros cur HP. by destruct (O1 cur HP).
Qed.
(** A value that is there already. *)
Lemma rg_ret_bind P {A B} (a : A) (k : A → M (shared W) B) Q : rg P (k a) Q → rg P (mret a ≫= k) Q.
Proof. done. Qed.
Lemma rg_panic_bind P {A B} (k : A → M (shared W) B) Q : rg P (panic ≫= k) Q.
Proof. by apply rg_pure. Qed.
Lemma rg_wrap_err P {A} f (c : M (shared W) A) Q : rg P c Q → rg P (wrap_err f c) Q.
Proof.
  intros Hc s r s' Hrun. unfold wrap_err in Hrun. destruct (c s) as [x s1] eqn:E.
  destruct (Hc _ _ _ E) as (new & HM & HP & Ho). exists new.
  destruct x; injection Hrun as <- <-; (split_and!; [done..|]); intros cur HPc;
    destruct (Ho cur HPc); by split.
Qed.
(** A proposition that does not speak of the world is not lost on errors. *)
Lemma rg_try (I : Prop) {A} (c : M (shared W) A) :
  rg (λ _, I) c (λ _ _, I) → rg (λ _, I) (try c) (λ _ _, I).
Proof.
  intros Hc s r s' Hrun. unfold try in Hrun. destruct (c s) as [x s1] eqn:E.
  destruct (Hc _ _ _ E) as (new & HM & HP & Ho). exists new.
  destruct x; injection Hrun as <- <-; (split_and!; [done..|]); intros cur HPc;
    destruct (Ho cur HPc); by split.
Qed.
Lemma rg_weaken P P' {A} (c : M (shared W) A) (Q Q' : A → list IPAddress → Prop) :
  rg P c Q → (∀ cur, P' cur → P cur) → (∀ a cur, Q a cur → Q' a cur) → rg P' c Q'.
Proof.
  intros Hc HP HQ s r s' Hrun. destruct (Hc _ _ _ Hrun) as (new & HM & HPe & Ho). exists new.
  split_and!; [done..|]. intros cur Hcur. destruct (Ho cur (HP _ Hcur)) as [? Ha]. split; [done|].
  intros a cur' -> Harr. by apply HQ, Ha.
Qed.

Lemma rg_ext P {A} (c c' : M (shared W) A) Q : (∀ s, c s = c' s) → rg P c' Q → rg P c Q.
Proof. intros Heq Hc s r s' Hrun. rewrite Heq in Hrun. by apply Hc. Qed.

(** One call, in the world that the others left. *)
Lemma rg_call P {A} (c : M W A) (Q : A → list IPAddress → Prop) :
  (∀ cur w r w', P cur → R cur (api_ips w) → c w = (r, w') →
     G (api_ips w) (api_ips w') ∧ ∀ a, r = Ok a → Q a (api_ips w')) →
  rg P (shared_call c) Q.
Proof.
  intros Hc s r s' Hrun. unfold shared_call, call_of in Hrun.
  destruct (pending s) as [|w ws] eqn:E.
  - injection Hrun as <- <-. exists []. rewrite app_nil_r. by split_and!.
  - destruct (c w) as [x w1] eqn:Hw. injection Hrun as <- <-. exists [(w, w1)]. simpl.
    split_and!; [done..|]. intros cur HP. split.
    + intros HR. split; [|done]. by eapply Hc.
    + intros a cur' -> [HR ->]. by eapply (Hc cur w).
Qed.

(** What the others keep, and no call of the thread touches. *)
Lemma rg_calm P {A} (c : M (shared W) A) :
  (∀ cur ips, P cur → R cur ips → P ips) → stays calm c → rg P c (λ _, P).
Proof.
  intros Hst Hc s r s' Hrun. destruct (Hc _ _ _ Hrun) as (new & HM & HP & Hall). exists new.
  split_and!; [done..|]. clear -Hst Hall Reflexive0. induction Hall as [|[w w'] new Hw _ IH]; simpl.
  - intros cur HP. split; [done|]. by intros a cur' _ ->.
  - simpl in Hw. intros cur HP. rewrite Hw. split.
    + intros HR. split; [done|]. by apply IH, (Hst cur).
    + intros a cur' Ha [HR Harr]. by apply (proj2 (IH (api_ips w) (Hst _ _ HP HR)) a).
Qed.
End rules.

(** ** Threads together *)

Section parallel.
Context {W : Type} `{CherryClient W, !ReservationLaws W} {role : Type}.
(** What a thread does, what it relies on of the other threads and what it
    guarantees of its own calls; [ok] holds of the reservations of every
    world. *)
Context (prog : role → M (shared W) unit) (K G : role → relation (list IPAddress))
  `{!∀ p, PreOrder (K p)} (ok : list IPAddress → Prop) (ths : list role).

Definition worlds_ok (w : W) (tr : list (api_step W)) : Prop :=
  ok (api_ips w) ∧ Forall (λ e, ok (api_ips e.2.2)) tr.
Definition guaranteed (e : api_step W) : Prop :=
  ∀ p, ths !! e.1 = Some p → G p (api_ips e.2.1) (api_ips e.2.2).

Lemma steps_of_app i (tr1 tr2 : list (api_step W)) :
  steps_of i (tr1 ++ tr2) = steps_of i tr1 ++ steps_of i tr2.
Proof. unfold steps_of. by rewrite filter_app, fmap_app. Qed.
Lemma contiguous_app (w : W) tr1 tr2 : contiguous w (tr1 ++ tr2) → contiguous w tr1.
Proof.
  revert w. induction tr1 as [|[i [w1 w2]] tr1 IH]; intros w; simpl; [done|].
  intros [? ?]. split; [done|]. by apply IH.
Qed.

Lemma worlds_before w tr :
  contiguous w tr → worlds_ok w tr → Forall (λ e, ok (api_ips e.2.1)) tr.
Proof.
  revert w. induction tr as [|[j [w1 w2]] tr IH]; intros w; [by constructor|].
  intros [-> Hc] [Hw [Hw2 Hok]%Forall_cons]. constructor; [done|]. by apply (IH w2).
Qed.

(** One thread, when the steps of the others respect what it relies on. *)
Lemma thread_guarantee i p tr w cur :
  contiguous w tr → worlds_ok w tr → K p cur (api_ips w) →
  Forall (λ e, e.1 ≠ i → K p (api_ips e.2.1) (api_ips e.2.2)) tr →
  obeys (λ cur ips, ok ips ∧ K p cur ips) (G p) cur (steps_of i tr) →
  Forall (λ e, e.1 = i → G p (api_ips e.2.1) (api_ips e.2.2)) tr.
Proof.
  revert w cur. induction tr as [|[j [w1 w2]] tr IH]; intros w cur; [by constructor|].
  intros [-> Hc] [Hw [Hw2 Hok]%Forall_cons] HK [Hj Ho]%Forall_cons. simpl in *.
  unfold steps_of. rewrite filter_cons. simpl. destruct (decide (j = i)) as [->|Hne].
  - intros Hob. destruct (Hob (conj Hw HK)) as [HG Hob']. constructor; [by intros _|].
    by apply (IH w2 (api_ips w2)).
  - intros Hob. constructor; [done|]. apply (IH w2 cur); [done..| |done|done].
    transitivity (api_ips w); auto.
Qed.

(** Every call of every thread respects the guarantee of its thread, when
    what each thread guarantees is what the others rely on. *)
Lemma parallel w tr :
  (∀ i p, ths !! i = Some p →
     rg (λ cur ips, ok ips ∧ K p cur ips) (G p) (λ _, True) (prog p) (λ _ _, True)) →
  (∀ i j p q, i ≠ j → ths !! i = Some p → ths !! j = Some q → ∀ b a, ok b → G p b a → K q b a) →
  interleaving (prog <$> ths) w tr → worlds_ok w tr → Forall guaranteed tr.
Proof.
  intros Hrg Hcompat (Hc & Hruns & Hlen) Hok.
  assert (∀ pre post, tr = pre ++ post → Forall guaranteed pre) as Hpre;
    [|by apply (Hpre tr []); rewrite app_nil_r].
  intros pre. induction pre as [|x pre IH] using rev_ind; intros post Htr; [by constructor|].
  rewrite <-app_assoc in Htr. pose proof (IH _ Htr) as Hall. clear IH. apply Forall_app. split; [done|].
  apply Forall_singleton. intros p Hp. rewrite app_assoc in Htr. rewrite Htr in Hc, Hok, Hlen.
  assert (worlds_ok w (pre ++ [x])) as Hok' by (destruct Hok as [? [? _]%Forall_app]; by split).
  apply contiguous_app in Hc. apply Forall_app in Hlen as [Hlen _].
  assert (Forall (λ e, e.1 = x.1 → G p (api_ips e.2.1) (api_ips e.2.2)) (pre ++ [x])) as Hme.
  { apply (thread_guarantee x.1 p (pre ++ [x]) w (api_ips w)); [done..| |].
    - apply Forall_app. split; [|by apply Forall_singleton].
      apply worlds_before in Hok'; [|done]. apply Forall_app in Hok' as [Hok' _].
      apply Forall_app in Hlen as [Hlen _]. rewrite Forall_forall in Hall, Hok', Hlen |- *.
      intros e He Hne. specialize (Hlen e He). rewrite length_fmap in Hlen.
      destruct (lookup_lt_is_Some_2 _ _ Hlen) as [q Hq].
      apply (Hcompat e.1 x.1 q p); [done..|by apply Hok'|by apply Hall].
    - specialize (Hruns x.1 (prog p)). rewrite list_lookup_fmap, Hp in Hruns. specialize (Hruns eq_refl).
      unfold runs in Hruns. destruct (prog p _) as [r s'] eqn:Hrun.
      destruct (Hrg _ _ Hp _ _ _ Hrun) as (new & HM & _ & Ho). simpl in *. rewrite Hruns in HM. subst new.
      destruct (Ho (api_ips w) I) as [Hobeys _]. rewrite Htr, steps_of_app in Hobeys. by apply obeys_app in Hobeys. }
  apply Forall_app in Hme as [_ Hme]. apply Forall_cons_1 in Hme as [Hme _]. by apply Hme.
Qed.
End parallel.
