(* ===== verification/Crd.v ===== *)
(** * MetalLB configured through custom resources

    [cherry/loadbalancers/metallb/crd.go]: the peers, address pools and the
    default advertisement of the cluster, read and written through the
    controller-runtime client. [m_namespace] is the namespace of the
    configurer. An object read by [List] is a copy, so the loops work on
    values; what a slice function leaves in a shared array is written out. *)

From S2P Require Import Prelude GoStrings GoSort GoTime GoSlices Api World MetalLBTypes ServiceSelectors.

(** ** Definitions *)

Definition defaultBgpAdvertisement : string := "equinix-metal-bgp-adv".
Definition cpemLabelKey : string := "cloud-provider".
Definition cpemLabelValue : string := "equinix-metal".
Definition svcLabelKeyPrefix : string := "service-".
Definition svcLabelValuePrefix : string := "namespace-".
Definition cpem_labels : gmap string string := {[ cpemLabelKey := cpemLabelValue ]}.

Definition serviceLabelKey (svcName : string) : string := svcLabelKeyPrefix +:+ svcName.
Definition serviceLabelValue (svcNamespace : string) : string := svcLabelValuePrefix +:+ svcNamespace.

Global Program Instance crd_Selector : Selector metalapi.NodeSelector := {|
  sel_labels := λ ns, Some (metalapi.NodeSelector_MatchLabels ns);
  sel_make := λ m, {| metalapi.NodeSelector_MatchLabels := m;
                      metalapi.NodeSelector_MatchExpressions := [] |}
|}.
Next Obligation. done. Qed.

Definition set_NodeSelectors (l : list metalapi.NodeSelector) (p : metalapi.BGPPeer)
  : metalapi.BGPPeer :=
  let s := metalapi.BGPPeer_Spec p in {|
  metalapi.BGPPeer_Name := metalapi.BGPPeer_Name p;
  metalapi.BGPPeer_Namespace := metalapi.BGPPeer_Namespace p;
  metalapi.BGPPeer_Labels := metalapi.BGPPeer_Labels p;
  metalapi.BGPPeer_Spec := {|
    metalapi.Spec_MyASN := metalapi.Spec_MyASN s;
    metalapi.Spec_ASN := metalapi.Spec_ASN s;
    metalapi.Spec_Address := metalapi.Spec_Address s;
    metalapi.Spec_SrcAddress := metalapi.Spec_SrcAddress s;
    metalapi.Spec_Port := metalapi.Spec_Port s;
    metalapi.Spec_HoldTime := metalapi.Spec_HoldTime s;
    metalapi.Spec_RouterID := metalapi.Spec_RouterID s;
    metalapi.Spec_NodeSelectors := l;
    metalapi.Spec_Password := metalapi.Spec_Password s;
    metalapi.Spec_EBGPMultiHop := metalapi.Spec_EBGPMultiHop s |}
|}.
Definition set_Spec (s : metalapi.BGPPeerSpec) (p : metalapi.BGPPeer) : metalapi.BGPPeer := {|
  metalapi.BGPPeer_Name := metalapi.BGPPeer_Name p;
  metalapi.BGPPeer_Namespace := metalapi.BGPPeer_Namespace p;
  metalapi.BGPPeer_Labels := metalapi.BGPPeer_Labels p;
  metalapi.BGPPeer_Spec := s
|}.
Definition peer_selectors (p : metalapi.BGPPeer) : list metalapi.NodeSelector :=
  metalapi.Spec_NodeSelectors (metalapi.BGPPeer_Spec p).

(** Conversions from the configuration structs. *)
Definition convertToMatchExpressions (legacy : list SelectorRequirements)
  : list metalapi.MatchExpression :=
  (λ l, {| metalapi.MatchExpression_Key := Req_Key l;
           metalapi.MatchExpression_Operator := Req_Operator l;
           metalapi.MatchExpression_Values := default [] (Req_Values l) |}) <$> legacy.
Definition convertToNodeSelector (legacy : NodeSelector) : metalapi.NodeSelector := {|
  metalapi.NodeSelector_MatchLabels := default ∅ (MatchLabels legacy);
  metalapi.NodeSelector_MatchExpressions :=
    convertToMatchExpressions (default [] (MatchExpressions legacy))
|}.
Definition convertToNodeSelectors (legacy : list NodeSelector) : list metalapi.NodeSelector :=
  convertToNodeSelector <$> legacy.

(** A hold time that does not parse is the zero duration. *)
Definition convertToBGPPeer (peer : Peer) (namespace svc : string) : metalapi.BGPPeer := {|
  metalapi.BGPPeer_Name := Peer_Name peer;
  metalapi.BGPPeer_Namespace := namespace;
  metalapi.BGPPeer_Labels := Some {[ cpemLabelKey := cpemLabelValue ]};
  metalapi.BGPPeer_Spec := {|
    metalapi.Spec_MyASN := Peer_MyASN peer;
    metalapi.Spec_ASN := Peer_ASN peer;
    metalapi.Spec_Address := Peer_Addr peer;
    metalapi.Spec_SrcAddress := Peer_SrcAddr peer;
    metalapi.Spec_Port := Peer_Port peer;
    metalapi.Spec_HoldTime := default 0%Z (ParseDuration (Peer_HoldTime peer));
    metalapi.Spec_RouterID := "";
    metalapi.Spec_NodeSelectors := convertToNodeSelectors (Peer_NodeSelectors peer);
    metalapi.Spec_Password := Peer_Password peer;
    metalapi.Spec_EBGPMultiHop := Peer_EBGPMultiHop peer |}
|}.
Definition convertToIPAddr (addr : AddressPool) (namespace svcNamespace svcName : string)
  : metalapi.IPAddressPool := {|
  metalapi.Pool_Name := Pool_Name addr;
  metalapi.Pool_Namespace := namespace;
  metalapi.Pool_Labels := Some {[ cpemLabelKey := cpemLabelValue;
                                  serviceLabelKey svcName := serviceLabelValue svcNamespace ]};
  metalapi.Pool_Addresses := Pool_Addresses addr;
  metalapi.Pool_AutoAssign := Pool_AutoAssign addr;
  metalapi.Pool_AvoidBuggyIPs := Pool_AvoidBuggyIPs addr
|}.

(** The comparison leaves out the node selectors, and also the source
    address and the multi-hop flag. *)
Definition peerSpecEqual (p o : metalapi.BGPPeerSpec) : bool :=
  bool_decide (metalapi.Spec_MyASN p = metalapi.Spec_MyASN o ∧
    metalapi.Spec_ASN p = metalapi.Spec_ASN o ∧
    metalapi.Spec_Address p = metalapi.Spec_Address o ∧
    metalapi.Spec_Port p = metalapi.Spec_Port o ∧
    metalapi.Spec_HoldTime p = metalapi.Spec_HoldTime o ∧
    metalapi.Spec_Password p = metalapi.Spec_Password o ∧
    metalapi.Spec_RouterID p = metalapi.Spec_RouterID o).

(** The first peer of the list with the name. *)
Fixpoint find_peer (name : string) (news : list metalapi.BGPPeer) : option metalapi.BGPPeer :=
  match news with
  | [] => None
  | n :: news' =>
      if decide (metalapi.BGPPeer_Name n = name) then Some n else find_peer name news'
  end.

(** The map [toAdd]: a later peer replaces an earlier one of its name. *)
Definition peers_toAdd (news : list metalapi.BGPPeer) : gmap string metalapi.BGPPeer :=
  foldl (λ m n, <[metalapi.BGPPeer_Name n := n]> m) ∅ news.

Section peers.
Context {W : Type} `{PdqSort, GoRange, CrdClient W metalapi.BGPPeer} (m_namespace : string).

Definition peerAddService (p : metalapi.BGPPeer) (svcNamespace svcName : string)
  : bool * metalapi.BGPPeer :=
  let '(changed, l) :=
    add_service {| Res_Namespace := svcNamespace; Res_Name := svcName |} (peer_selectors p) in
  (changed, if (changed : bool) then set_NodeSelectors l p else p).

Definition peerRemoveService (p : metalapi.BGPPeer) (svcNamespace svcName : string)
  : bool * nat * metalapi.BGPPeer :=
  let '(found, size, l) :=
    remove_service {| Res_Namespace := svcNamespace; Res_Name := svcName |} (peer_selectors p) in
  (found, size, set_NodeSelectors l p).

Definition listBGPPeers : M W (list metalapi.BGPPeer) :=
  wrap_err (Errorw "unable to retrieve a list of BGPPeers: %w" [])
    (crd_List cpem_labels m_namespace).

Definition updateOrDeletePeerByService (o : metalapi.BGPPeer) (svcNamespace svcName : string)
  : M W bool :=
  let '(peerChanged, size, o') := peerRemoveService o svcNamespace svcName in
  if (peerChanged : bool) then
    (if decide (0 < size) then
       wrap_err (Errorw "unable to update BGPPeer %s: %w" [metalapi.BGPPeer_Name o])
         (crd_Patch o o')
     else
       wrap_err (Errorw "unable to delete BGPPeer %s: %w" [metalapi.BGPPeer_Name o])
         (crd_Delete o'));;
    mret true
  else mret false.

Fixpoint remove_peers_loop (olds : list metalapi.BGPPeer) (svcNamespace svcName : string)
    (changed : bool) : M W bool :=
  match olds with
  | [] => mret changed
  | o :: olds' =>
      removed ← updateOrDeletePeerByService o svcNamespace svcName;
      remove_peers_loop olds' svcNamespace svcName (if changed then changed else removed)
  end.
(** The flag the loop computes is dropped: the result is always true. *)
Definition RemovePeersByService (svcNamespace svcName : string) : M W bool :=
  olds ← listBGPPeers;
  _ ← remove_peers_loop olds svcNamespace svcName false;
  mret true.

Fixpoint create_peers (news : list metalapi.BGPPeer) : M W unit :=
  match news with
  | [] => mret ()
  | n :: news' =>
      wrap_err (Errorw "unable to add BGPPeer %s: %w" [metalapi.BGPPeer_Name n]) (crd_Create n);;
      create_peers news'
  end.

(** The body of the loop over the existing peers for one that is in the
    configuration: the service is added, then a different spec replaces the
    whole spec. *)
Definition updated_peer (o n : metalapi.BGPPeer) (svcNamespace svcName : string)
  : bool * metalapi.BGPPeer :=
  let '(update, o1) := peerAddService o svcNamespace svcName in
  if peerSpecEqual (metalapi.BGPPeer_Spec o1) (metalapi.BGPPeer_Spec n) then (update, o1)
  else (true, set_Spec (metalapi.BGPPeer_Spec n) o1).

Fixpoint update_peers_loop (olds news : list metalapi.BGPPeer) (svcNamespace svcName : string)
    (toAdd : gmap string metalapi.BGPPeer) (changed : bool)
  : M W (gmap string metalapi.BGPPeer * bool) :=
  match olds with
  | [] => mret (toAdd, changed)
  | o :: olds' =>
      match find_peer (metalapi.BGPPeer_Name o) news with
      | Some n =>
          let toAdd := delete (metalapi.BGPPeer_Name n) toAdd in
          let '(update, o') := updated_peer o n svcNamespace svcName in
          if (update : bool) then
            wrap_err (Errorw "unable to update IPAddressPool %s: %w" [metalapi.BGPPeer_Name o])
              (crd_Patch o o');;
            update_peers_loop olds' news svcNamespace svcName toAdd true
          else update_peers_loop olds' news svcNamespace svcName toAdd changed
      | None =>
          updatedOrRemoved ← updateOrDeletePeerByService o svcNamespace svcName;
          update_peers_loop olds' news svcNamespace svcName toAdd
            (if changed then changed else updatedOrRemoved)
      end
  end.

Fixpoint add_peers_loop (l : list (string * metalapi.BGPPeer)) (svcNamespace svcName : string)
    (changed : bool) : M W bool :=
  match l with
  | [] => mret changed
  | (_, n) :: l' =>
      let '(_, n') := peerAddService n svcNamespace svcName in
      wrap_err (Errorw "unable to add BGPPeer %s: %w" [metalapi.BGPPeer_Name n]) (crd_Create n');;
      add_peers_loop l' svcNamespace svcName true
  end.

Definition UpdatePeersByService (adds : list Peer) (svcNamespace svcName : string) : M W bool :=
  olds ← listBGPPeers;
  let news := (λ add, convertToBGPPeer add m_namespace svcName) <$> adds in
  let toAdd := peers_toAdd news in
  if decide (length olds = 0) then create_peers news;; mret true
  else
    '(toAdd, changed) ← update_peers_loop olds news svcNamespace svcName toAdd false;
    add_peers_loop (range_map toAdd) svcNamespace svcName changed.
End peers.

Definition set_Labels (m : option (gmap string string)) (o : metalapi.IPAddressPool)
  : metalapi.IPAddressPool := {|
  metalapi.Pool_Name := metalapi.Pool_Name o;
  metalapi.Pool_Namespace := metalapi.Pool_Namespace o;
  metalapi.Pool_Labels := m;
  metalapi.Pool_Addresses := metalapi.Pool_Addresses o;
  metalapi.Pool_AutoAssign := metalapi.Pool_AutoAssign o;
  metalapi.Pool_AvoidBuggyIPs := metalapi.Pool_AvoidBuggyIPs o
|}.
Definition set_Addresses (l : list string) (o : metalapi.IPAddressPool) : metalapi.IPAddressPool := {|
  metalapi.Pool_Name := metalapi.Pool_Name o;
  metalapi.Pool_Namespace := metalapi.Pool_Namespace o;
  metalapi.Pool_Labels := metalapi.Pool_Labels o;
  metalapi.Pool_Addresses := l;
  metalapi.Pool_AutoAssign := metalapi.Pool_AutoAssign o;
  metalapi.Pool_AvoidBuggyIPs := metalapi.Pool_AvoidBuggyIPs o
|}.
Definition set_IPAddressPools (l : list string) (a : metalapi.BGPAdvertisement)
  : metalapi.BGPAdvertisement := {|
  metalapi.Adv_Name := metalapi.Adv_Name a;
  metalapi.Adv_Namespace := metalapi.Adv_Namespace a;
  metalapi.Adv_Labels := metalapi.Adv_Labels a;
  metalapi.Adv_IPAddressPools := l
|}.

(** Some label of the pool is the one of the service. *)
Definition label_is_service (svcName k : string) : bool :=
  HasPrefix k svcLabelKeyPrefix && bool_decide (TrimPrefix k svcLabelKeyPrefix = svcName).
Definition pool_has_service (o : metalapi.IPAddressPool) (svcName : string) : bool :=
  existsb (label_is_service svcName) (map_to_list (default ∅ (metalapi.Pool_Labels o))).*1.

Section pools.
Context {W : Type} `{ExpSlices, CrdClient W metalapi.IPAddressPool,
  CrdClient W metalapi.BGPAdvertisement} (m_namespace : string).

Definition listIPAddressPools : M W (list metalapi.IPAddressPool) :=
  wrap_err (Errorw "unable to retrieve a list of IPAddressPools: %w" [])
    (crd_List cpem_labels m_namespace).
Definition listBGPAdvertisements : M W (list metalapi.BGPAdvertisement) :=
  wrap_err (Errorw "unable to retrieve a list of BGPAdvertisements: %w" [])
    (crd_List cpem_labels m_namespace).

(** The compacted slice is overwritten with the array it was made in. *)
Definition merged_addresses (old add : list string) : list string :=
  let addresses := exp_Sort (old ++ add) in
  zeroed_tail addresses (exp_Compact addresses).

(** [None]: no pool matched, and the loop ran to its end. *)
Fixpoint add_pool_loop (olds : list metalapi.IPAddressPool) (addIPAddr : metalapi.IPAddressPool)
    (svcNamespace svcName : string) : M W (option bool) :=
  match olds with
  | [] => mret None
  | o :: olds' =>
      let updateLabels := bool_decide (metalapi.Pool_Name o = metalapi.Pool_Name addIPAddr) in
      if updateLabels && pool_has_service o svcName then mret (Some false)
      else
        let updateAddresses :=
          existsb (exp_Contains (metalapi.Pool_Addresses o)) (metalapi.Pool_Addresses addIPAddr) in
        if updateLabels || updateAddresses then
          o1 ← (if updateLabels then
                  match metalapi.Pool_Labels o with
                  | None => panic
                  | Some m =>
                      mret (set_Labels
                        (Some (<[serviceLabelKey svcName := serviceLabelValue svcNamespace]> m)) o)
                  end
                else mret o);
          let o2 :=
            if updateAddresses then
              set_Addresses
                (merged_addresses (metalapi.Pool_Addresses o1) (metalapi.Pool_Addresses addIPAddr)) o1
            else o1 in
          wrap_err (Errorw "unable to update IPAddressPool %s: %w" [metalapi.Pool_Name o])
            (crd_Patch o o2);;
          mret (Some true)
        else add_pool_loop olds' addIPAddr svcNamespace svcName
  end.

Definition default_adv (pool : string) : metalapi.BGPAdvertisement := {|
  metalapi.Adv_Name := defaultBgpAdvertisement;
  metalapi.Adv_Namespace := m_namespace;
  metalapi.Adv_Labels := Some {[ cpemLabelKey := cpemLabelValue ]};
  metalapi.Adv_IPAddressPools := [pool]
|}.
Fixpoint advertise_loop (advs : list metalapi.BGPAdvertisement) (pool : string) : M W unit :=
  match advs with
  | [] => mret ()
  | adv :: advs' =>
      (if decide (metalapi.Adv_Name adv = defaultBgpAdvertisement) then
         wrap_err (Errorw "unable to update BGPAdvertisement %s: %w" [metalapi.Adv_Name adv])
           (crd_Patch adv (set_IPAddressPools (metalapi.Adv_IPAddressPools adv ++ [pool]) adv))
       else mret ());;
      advertise_loop advs' pool
  end.

(** [None] is a nil pool. *)
Definition AddAddressPool (add : option AddressPool) (svcNamespace svcName : string) : M W bool :=
  match add with
  | None => mret false
  | Some add =>
      olds ← wrap_err (Errorw "retrieve a list of IPAddressPools %s %w" [m_namespace])
               listIPAddressPools;
      let addIPAddr := convertToIPAddr add m_namespace svcNamespace svcName in
      found ← add_pool_loop olds addIPAddr svcNamespace svcName;
      match found with
      | Some changed => mret changed
      | None =>
          wrap_err (Errorw "unable to add IPAddressPool %s: %w" [metalapi.Pool_Name addIPAddr])
            (crd_Create addIPAddr);;
          advs ← listBGPAdvertisements;
          (if decide (length advs = 0) then
             wrap_err (Errorw "unable to add default BGPAdvertisement %s: %w"
                         [defaultBgpAdvertisement])
               (crd_Create (default_adv (metalapi.Pool_Name addIPAddr)))
           else advertise_loop advs (metalapi.Pool_Name addIPAddr));;
          mret true
      end
  end.

Fixpoint delete_pools_loop (olds : list metalapi.IPAddressPool) (pool : string) : M W unit :=
  match olds with
  | [] => mret ()
  | o :: olds' =>
      (if decide (metalapi.Pool_Name o = pool) then
         wrap_err (Errorw "unable to delete pool: %w" []) (crd_Delete o)
       else mret ());;
      delete_pools_loop olds' pool
  end.

(** The loop over the pools of the default advertisement. [arr] is the
    array the loop reads, of which the advertisement's pools are a prefix:
    deleting an element shifts it under the loop. *)
Fixpoint withdraw_loop (pool : string) (adv : metalapi.BGPAdvertisement) (arr : list string)
    (i rest : nat) : M W unit :=
  match rest with
  | 0 => mret ()
  | S rest' =>
      if decide (arr !! i = Some pool) then
        let pools := metalapi.Adv_IPAddressPools adv in
        if decide (1 < length pools) then
          if decide (i + 1 ≤ length pools) then
            let pools' := exp_Delete pools i (i + 1) in
            let adv' := set_IPAddressPools pools' adv in
            wrap_err (Errorw "unable to update BGPAdvertisement %s: %w" [metalapi.Adv_Name adv])
              (crd_Patch adv adv');;
            withdraw_loop pool adv' (zeroed_tail pools pools' ++ drop (length pools) arr) (i + 1) rest'
          else panic
        else
          wrap_err (Errorw "unable to delete BGPPeer %s: %w" [metalapi.Adv_Name adv])
            (crd_Delete adv);;
          withdraw_loop pool adv arr (i + 1) rest'
      else withdraw_loop pool adv arr (i + 1) rest'
  end.
Fixpoint withdraw_from_default (advs : list metalapi.BGPAdvertisement) (pool : string) : M W unit :=
  match advs with
  | [] => mret ()
  | adv :: advs' =>
      if decide (metalapi.Adv_Name adv = defaultBgpAdvertisement) then
        withdraw_loop pool adv (metalapi.Adv_IPAddressPools adv) 0
          (length (metalapi.Adv_IPAddressPools adv))
      else withdraw_from_default advs' pool
  end.

Definition RemoveAddressPool (pool : string) : M W unit :=
  if decide (pool = "") then mret ()
  else
    olds ← listIPAddressPools;
    delete_pools_loop olds pool;;
    advs ← listBGPAdvertisements;
    withdraw_from_default advs pool.

(** The rest of the interface does nothing. *)
Definition Get : M W unit := mret ().
Definition Update : M W unit := mret ().
Definition RemoveAddressPoolByAddress (addrName : string) : M W unit := mret ().
End pools.
