(* ===== verification/CrdPeers.v ===== *)
(** * What the custom resource configurer does to the peers

    The specification of [UpdatePeersByService] and [RemovePeersByService]
    on the API server's store, and what follows from it for the services a
    peer records. *)

From S2P Require Import Prelude GoStrings GoSort GoTime Api World MetalLBTypes ServiceSelectors CrdStore Crd.

(** ** The abstract specification *)

Section spec.
Context `{PdqSort} (svc : Resource).

(** The services a peer records. *)
Definition peer_services (o : metalapi.BGPPeer) : list Resource := services_of (peer_selectors o).

(** A peer without the service: unchanged when it did not record it, gone
    when it recorded nothing else. *)
Definition removed_peer (o : metalapi.BGPPeer) : option metalapi.BGPPeer :=
  let '(found, size, l) := remove_service svc (peer_selectors o) in
  if (found : bool) then if decide (0 < size) then Some (set_NodeSelectors l o) else None
  else Some o.

(** A peer of the configuration: [news] has a peer of its name, or not. *)
Definition reconciled_peer (news : list metalapi.BGPPeer) (o : metalapi.BGPPeer)
  : option metalapi.BGPPeer :=
  match find_peer (metalapi.BGPPeer_Name o) news with
  | Some n => Some (updated_peer o n (Res_Namespace svc) (Res_Name svc)).2
  | None => removed_peer o
  end.
Definition created_peer (n : metalapi.BGPPeer) : metalapi.BGPPeer :=
  (peerAddService n (Res_Namespace svc) (Res_Name svc)).2.

(** A peer as the configuration [news] wants it: one of its peers has the
    spec and records the service, another one does not record it. *)
Definition settled_peer (news : list metalapi.BGPPeer) (o : metalapi.BGPPeer) : Prop :=
  match find_peer (metalapi.BGPPeer_Name o) news with
  | Some n => peerSpecEqual (metalapi.BGPPeer_Spec o) (metalapi.BGPPeer_Spec n) = true ∧
              svc ∈ peer_services o
  | None => svc ∉ peer_services o
  end.
End spec.

(** Peers the configurer lists: its label, in its namespace. *)
Definition managed_peer (m_namespace : string) : metalapi.BGPPeer → Prop :=
  in_list cpem_labels m_namespace.
Global Instance managed_peer_dec ns o : Decision (managed_peer ns o).
Proof. unfold managed_peer. apply _. Defined.

(** ** Lemmas *)

Lemma Resource_eta r : {| Res_Namespace := Res_Namespace r; Res_Name := Res_Name r |} = r.
Proof. by destruct r. Qed.

Section peers_lemmas.
Context {W : Type} `{PdqSort, GoRange, CrdClient W metalapi.BGPPeer, !CrdLaws W metalapi.BGPPeer}
  (m_namespace : string) (svc : Resource).
Implicit Types (o n : metalapi.BGPPeer) (l : list metalapi.BGPPeer) (w : W).

Lemma peerAddService_key n ns name : obj_key (peerAddService n ns name).2 = obj_key n.
Proof. unfold peerAddService. by destruct (add_service _ _) as [[] ?]. Qed.

Lemma updated_peer_key o n ns name : obj_key (updated_peer o n ns name).2 = obj_key o.
Proof.
  unfold updated_peer, peerAddService. destruct (add_service _ _) as [[] ?]; by case_match.
Qed.

Lemma updated_peer_same o n ns name :
  (updated_peer o n ns name).1 = false → (updated_peer o n ns name).2 = o.
Proof.
  unfold updated_peer, peerAddService. destruct (add_service _ _) as [[] ?]; by case_match.
Qed.

Lemma updateOrDelete_Ok o w b w' :
  updateOrDeletePeerByService o (Res_Namespace svc) (Res_Name svc) w = (Ok b, w') →
  crd_objs w !! obj_key o = Some o →
  crd_objs w' = partial_alter (λ _, removed_peer svc o) (obj_key o) (crd_objs w).
Proof.
  unfold updateOrDeletePeerByService, peerRemoveService, removed_peer. rewrite Resource_eta.
  destruct (remove_service _ _) as [[found size] l].
  destruct found; intros Hrun Hlk; inv_ok; [|by apply partial_alter_Some].
  destruct a. case_decide; inv_ok.
  - by eapply crd_Patch_Ok in Hrun0.
  - by eapply crd_Delete_Ok in Hrun0.
Qed.

Lemma remove_peers_loop_Ok l changed w b w' :
  remove_peers_loop l (Res_Namespace svc) (Res_Name svc) changed w = (Ok b, w') →
  listed l w → crd_objs w' = update_all (removed_peer svc) l (crd_objs w).
Proof.
  revert changed w. induction l as [|o l IH]; intros changed w Hrun Hl; simpl in Hrun.
  { by inv_ok. }
  inv_ok. apply updateOrDelete_Ok in Hrun0; [|by apply proj2, Forall_cons_1 in Hl as [? _]].
  simpl. rewrite <-Hrun0. apply IH in Hrun; [done|]. by eapply listed_step.
Qed.

Lemma update_peers_loop_Ok l news toAdd changed w toAdd' b w' :
  update_peers_loop l news (Res_Namespace svc) (Res_Name svc) toAdd changed w
    = (Ok (toAdd', b), w') →
  listed l w →
  crd_objs w' = update_all (reconciled_peer svc news) l (crd_objs w) ∧
  ∀ name, toAdd' !! name =
    if decide (name ∈ metalapi.BGPPeer_Name <$> l ∧ is_Some (find_peer name news)) then None
    else toAdd !! name.
Proof.
  revert toAdd changed w. induction l as [|o l IH]; intros toAdd changed w Hrun Hl; simpl in Hrun.
  { inv_ok. injection H2 as <- <-. split; [done|]. intros name.
    by rewrite decide_False by (by intros [?%not_elem_of_nil _]). }
  assert (crd_objs w !! obj_key o = Some o) as Hlk by (by apply proj2, Forall_cons_1 in Hl as [? _]).
  rewrite update_all_cons, fmap_cons. unfold reconciled_peer at 2.
  destruct (find_peer (metalapi.BGPPeer_Name o) news) as [n|] eqn:Hn.
  - assert (metalapi.BGPPeer_Name n = metalapi.BGPPeer_Name o) as Hname.
    { clear -Hn. induction news; simpl in Hn; [done|]. case_decide; naive_solver. }
    destruct (updated_peer o n _ _) as [update o'] eqn:Hup.
    assert (∃ w1 c, crd_objs w1 = partial_alter (λ _, Some o') (obj_key o) (crd_objs w) ∧
      update_peers_loop l news (Res_Namespace svc) (Res_Name svc)
        (delete (metalapi.BGPPeer_Name n) toAdd) c w1 = (Ok (toAdd', b), w')) as (w1 & c & Hw1 & Hrun1).
    { destruct update; inv_ok.
      - destruct a. eexists _, _. split; [|exact Hrun].
        eapply crd_Patch_Ok in Hrun0; [done| |done].
        pose proof (updated_peer_key o n (Res_Namespace svc) (Res_Name svc)) as Hk. by rewrite Hup in Hk.
      - eexists _, _. split; [|exact Hrun].
        pose proof (updated_peer_same o n (Res_Namespace svc) (Res_Name svc)) as Hs.
        rewrite Hup in Hs. simpl in Hs. rewrite Hs by done. by apply partial_alter_Some. }
    apply IH in Hrun1 as [Hobjs Hadd]; [|by eapply (listed_step (λ _, Some o'))].
    split; [by rewrite Hobjs, Hw1|]. intros name. rewrite Hadd, Hname.
    destruct (decide (name = metalapi.BGPPeer_Name o)) as [->|Hne].
    + rewrite lookup_delete_eq. case_decide; (case_decide as Hin; [done|]); destruct Hin;
        (split; [apply list_elem_of_here|by rewrite Hn]).
    + rewrite lookup_delete_ne by done. apply decide_ext. rewrite elem_of_cons. naive_solver.
  - inv_ok. apply updateOrDelete_Ok in Hrun0; [|done].
    apply IH in Hrun as [Hobjs Hadd]; [|by eapply listed_step].
    split; [by rewrite Hobjs, Hrun0|]. intros name. rewrite Hadd.
    apply decide_ext. rewrite elem_of_cons.
    split; [naive_solver|]. intros [[->|?] Hs]; [|done]. rewrite Hn in Hs. by destruct Hs.
Qed.

Lemma find_peer_Some name l n : find_peer name l = Some n → n ∈ l ∧ metalapi.BGPPeer_Name n = name.
Proof.
  induction l as [|x l IH]; simpl; [done|]. case_decide; rewrite elem_of_cons; naive_solver.
Qed.
Lemma find_peer_None name l : find_peer name l = None ↔ name ∉ metalapi.BGPPeer_Name <$> l.
Proof.
  induction l as [|x l IH]; [split; [intros _; apply not_elem_of_nil|done]|].
  cbn [find_peer]. rewrite fmap_cons, not_elem_of_cons. case_decide; naive_solver.
Qed.

Lemma find_peer_app name l1 l2 :
  find_peer name (l1 ++ l2) =
    match find_peer name l1 with Some n => Some n | None => find_peer name l2 end.
Proof. induction l1 as [|x l1 IH]; simpl; [done|]. by case_decide. Qed.

Lemma peers_toAdd_lookup l name : peers_toAdd l !! name = find_peer name (reverse l).
Proof.
  assert (∀ m : gmap string metalapi.BGPPeer,
    foldl (λ m n, <[metalapi.BGPPeer_Name n := n]> m) m l !! name =
      match find_peer name (reverse l) with Some n => Some n | None => m !! name end) as Hl.
  { induction l as [|n l IH]; intros m; [done|]. simpl. rewrite IH, reverse_cons, find_peer_app.
    simpl. case_match; [done|]. case_decide as Hn; [by rewrite Hn, lookup_insert_eq|].
    by rewrite lookup_insert_ne. }
  unfold peers_toAdd. rewrite Hl, lookup_empty. by case_match.
Qed.
Lemma peers_toAdd_None l name : peers_toAdd l !! name = None ↔ find_peer name l = None.
Proof.
  rewrite peers_toAdd_lookup, !find_peer_None. by rewrite fmap_reverse, elem_of_reverse.
Qed.
(** With distinct names the map holds the peers themselves. *)
Lemma peers_toAdd_distinct l name :
  NoDup (metalapi.BGPPeer_Name <$> l) → peers_toAdd l !! name = find_peer name l.
Proof.
  intros Hnd. destruct (find_peer name l) as [n|] eqn:Hn; [|by apply peers_toAdd_None].
  destruct (peers_toAdd l !! name) as [n'|] eqn:Hn'.
  2:{ apply peers_toAdd_None in Hn'. congruence. }
  rewrite peers_toAdd_lookup in Hn'. apply find_peer_Some in Hn as [Hin <-], Hn' as [Hin' Heq].
  rewrite elem_of_reverse in Hin'. f_equal.
  apply list_elem_of_lookup in Hin as [i Hi], Hin' as [j Hj].
  assert (i = j) as ->; [|congruence].
  eapply (NoDup_lookup _ _ _ (metalapi.BGPPeer_Name n) Hnd); rewrite list_lookup_fmap;
    [by rewrite Hi|by rewrite Hj; simpl; rewrite Heq].
Qed.

(** The two loops that create peers. *)
Lemma create_peers_Ok l w u w' :
  create_peers l w = (Ok u, w') → fresh l w ∧ crd_objs w' = create_all l (crd_objs w).
Proof.
  revert w. induction l as [|n l IH]; intros w Hrun; simpl in Hrun.
  { inv_ok. split; [split; constructor|done]. }
  inv_ok. destruct a. apply IH in Hrun as [Hf Hw']. by eapply create_step.
Qed.
Lemma add_peers_loop_Ok (l : list (string * metalapi.BGPPeer)) changed w b w' :
  add_peers_loop l (Res_Namespace svc) (Res_Name svc) changed w = (Ok b, w') →
  fresh (created_peer svc <$> l.*2) w ∧
  crd_objs w' = create_all (created_peer svc <$> l.*2) (crd_objs w).
Proof.
  revert changed w. induction l as [|[k n] l IH]; intros changed w Hrun; cbn in Hrun.
  { inv_ok. split; [split; constructor|done]. }
  rewrite !fmap_cons. cbn [snd]. destruct (peerAddService n _ _) as [c n'] eqn:E.
  assert (created_peer svc n = n') as -> by (unfold created_peer; by rewrite E).
  inv_ok. destruct a.
  apply IH in Hrun as [Hf Hw']. by eapply create_step.
Qed.

(** Looking for a created peer by key is looking for it by name. *)
Lemma find_peer_create_all l m k :
  NoDup (obj_key <$> l) → Forall (λ n, metalapi.BGPPeer_Namespace n = m_namespace) l →
  create_all l m !! k =
    if decide (k.1 = m_namespace) then
      match find_peer k.2 l with Some n => Some n | None => m !! k end
    else m !! k.
Proof.
  intros Hnd Hns. rewrite Forall_forall in Hns. destruct (decide (k ∈ obj_key <$> l)) as [Hk|Hk].
  - apply list_elem_of_fmap in Hk as (n & -> & Hn). rewrite create_all_in by done.
    rewrite decide_True by (by apply Hns). unfold obj_key. cbn [snd].
    destruct (find_peer (obj_Name n) l) as [n'|] eqn:E.
    + apply find_peer_Some in E as [Hn' Heq]. f_equal.
      assert (obj_key n' = obj_key n) as Hk
        by (unfold obj_key; f_equal; [simpl; by rewrite !Hns|done]).
      apply list_elem_of_lookup in Hn as [i Hi], Hn' as [j Hj].
      assert (i = j) as ->; [|congruence].
      eapply (NoDup_lookup _ _ _ (obj_key n) Hnd); rewrite list_lookup_fmap; [by rewrite Hi|].
      rewrite Hj. simpl. by rewrite Hk.
    + apply find_peer_None in E. destruct E. by apply list_elem_of_fmap_2.
  - rewrite create_all_notin by done. case_decide as Hk1; [|done].
    destruct (find_peer k.2 l) as [n|] eqn:E; [|done]. destruct Hk.
    apply find_peer_Some in E as [Hn Heq]. apply list_elem_of_fmap. exists n. split; [|done].
    destruct k as [k1 k2]. unfold obj_key. simpl in *. by rewrite (Hns n Hn), Heq, Hk1.
Qed.

Lemma created_key l k n :
  find_peer k.2 l = Some n → Forall (λ n, metalapi.BGPPeer_Namespace n = m_namespace) l →
  k.1 = m_namespace → n ∈ l ∧ obj_key n = k.
Proof.
  intros [Hn Heq]%find_peer_Some Hall Hk. rewrite Forall_forall in Hall. split; [done|].
  destruct k. unfold obj_key. simpl in *. by rewrite (Hall n Hn), Heq, Hk.
Qed.

Definition news_of (adds : list Peer) : list metalapi.BGPPeer :=
  (λ add, convertToBGPPeer add m_namespace (Res_Name svc)) <$> adds.

Lemma news_namespace adds : Forall (λ n, metalapi.BGPPeer_Namespace n = m_namespace) (news_of adds).
Proof. apply Forall_fmap, Forall_forall. done. Qed.

(** The peers created from the map are those of its final content. *)
Lemma toAdd_created (m : gmap string metalapi.BGPPeer) name :
  (∀ k n, m !! k = Some n → metalapi.BGPPeer_Name n = k) →
  find_peer name (created_peer svc <$> (range_map m).*2) = created_peer svc <$> (m !! name).
Proof.
  intros Hm. destruct (find_peer name _) as [n|] eqn:E.
  - apply find_peer_Some in E as [Hn Heq]. apply list_elem_of_fmap in Hn as (n0 & -> & Hn0).
    apply list_elem_of_fmap in Hn0 as ([k n1] & -> & Hin). apply range_map_lookup in Hin.
    simpl in *. assert (k = name) as ->; [|by rewrite Hin].
    rewrite <-(Hm _ _ Hin), <-Heq. symmetry. exact (f_equal snd (peerAddService_key n1 _ _)).
  - apply find_peer_None in E. destruct (m !! name) as [n|] eqn:Hn; [|done]. destruct E.
    apply list_elem_of_fmap. exists (created_peer svc n).
    split; [by rewrite <-(Hm _ _ Hn); symmetry; exact (f_equal snd (peerAddService_key n _ _))|].
    apply list_elem_of_fmap_2. apply list_elem_of_fmap. exists (name, n).
    split; [done|]. by apply range_map_lookup.
Qed.

(** No peer before: the new ones are created as they are. *)
Lemma create_news_lookup adds w u w' k :
  create_peers (news_of adds) w = (Ok u, w') →
  (∀ o, crd_objs w !! k = Some o → ¬ managed_peer m_namespace o) →
  crd_objs w' !! k =
    match crd_objs w !! k with
    | Some o => Some o
    | None => if decide (k.1 = m_namespace) then find_peer k.2 (news_of adds) else None
    end.
Proof.
  intros [[Hnd Hf] ->]%create_peers_Ok Hno.
  rewrite (find_peer_create_all _ _ _ Hnd) by apply news_namespace.
  destruct (crd_objs w !! k) as [o|] eqn:Hk; [|by repeat case_match].
  case_decide as Hns; [|done]. destruct (find_peer _ _) as [n|] eqn:E; [|done].
  apply created_key in E as [Hnew Hkey]; [|apply news_namespace|done].
  rewrite Forall_forall in Hf. apply Hf in Hnew. rewrite Hkey in Hnew. congruence.
Qed.

(** Some peers before: those left in the map are created with the service. *)
Lemma toAdd_names adds (toAdd : gmap string metalapi.BGPPeer) :
  (∀ name n, toAdd !! name = Some n → peers_toAdd (news_of adds) !! name = Some n) →
  (∀ k n, toAdd !! k = Some n → metalapi.BGPPeer_Name n = k) ∧
  Forall (λ n, metalapi.BGPPeer_Namespace n = m_namespace) (created_peer svc <$> (range_map toAdd).*2).
Proof.
  intros Hsub. assert (∀ k n, toAdd !! k = Some n → n ∈ news_of adds ∧ metalapi.BGPPeer_Name n = k) as Hk.
  { intros k n Hn%Hsub. rewrite peers_toAdd_lookup in Hn.
    apply find_peer_Some in Hn as [Hn ?]. by rewrite elem_of_reverse in Hn. }
  split; [by intros k n [_ ?]%Hk|]. apply Forall_forall.
  intros x (n & -> & Hn)%list_elem_of_fmap. apply list_elem_of_fmap in Hn as ([k n'] & -> & Hn).
  apply range_map_lookup, Hk in Hn as [Hn _]. simpl.
  pose proof (news_namespace adds) as Hall. rewrite Forall_forall in Hall.
  rewrite <-(Hall _ Hn). exact (f_equal fst (peerAddService_key n' _ _)).
Qed.

Lemma add_toAdd_lookup adds toAdd changed w b w' k :
  add_peers_loop (range_map toAdd) (Res_Namespace svc) (Res_Name svc) changed w = (Ok b, w') →
  (∀ name n, toAdd !! name = Some n → peers_toAdd (news_of adds) !! name = Some n) →
  (is_Some (toAdd !! k.2) → k.1 = m_namespace → crd_objs w !! k = None) ∧
  crd_objs w' !! k =
    if decide (k.1 = m_namespace) then
      match toAdd !! k.2 with Some n => Some (created_peer svc n) | None => crd_objs w !! k end
    else crd_objs w !! k.
Proof.
  intros [[Hnd Hf] ->]%add_peers_loop_Ok [Hnames Hns]%toAdd_names. split.
  - intros [n Hn] Hk. assert (find_peer k.2 (created_peer svc <$> (range_map toAdd).*2)
      = Some (created_peer svc n)) as Hfind by (by rewrite toAdd_created, Hn).
    apply created_key in Hfind as [Hin Hkey]; [|done..].
    rewrite Forall_forall in Hf. rewrite <-Hkey. by apply Hf.
  - rewrite find_peer_create_all, toAdd_created by done. by destruct (toAdd !! k.2).
Qed.
End peers_lemmas.

(** What removing and adding does to the services of one peer. *)
Section one_peer.
Context `{PdqSort} (svc : Resource) (Hvalid : valid_service svc).

Lemma removed_peer_services o o' :
  removed_peer svc o = Some o' →
  obj_Namespace o' = obj_Namespace o ∧ obj_Labels o' = obj_Labels o ∧
  ∀ r, r ∈ peer_services o' ↔ r ∈ peer_services o ∧ r ≠ svc.
Proof.
  unfold removed_peer. destruct (remove_service svc (peer_selectors o)) as [[found size] l] eqn:E.
  apply remove_service_services in E as (-> & Hperm & _ & _ & _); [|done].
  case_bool_decide as Hin.
  - case_decide; [|done]. intros [= <-]. split_and!; [done..|]. intros r.
    unfold peer_services at 1. simpl. rewrite Hperm, list_elem_of_filter. naive_solver.
  - intros [= <-]. split_and!; [done..|]. intros r.
    split; [|naive_solver]. intros Hr. split; [done|]. by intros ->.
Qed.
Lemma removed_peer_None o :
  removed_peer svc o = None → ∀ r, r ∈ peer_services o → r = svc.
Proof.
  unfold removed_peer. destruct (remove_service svc (peer_selectors o)) as [[found size] l] eqn:E.
  apply remove_service_services in E as (-> & Hperm & Hsize & _ & _); [|done].
  case_bool_decide as Hin; [|done]. case_decide as Hs; [done|]. intros _ r Hr.
  destruct (decide (r = svc)) as [|Hne]; [done|].
  assert (r ∈ services_of l) as Hrl by (rewrite Hperm; by apply list_elem_of_filter).
  destruct (services_of l); [by apply not_elem_of_nil in Hrl|simpl in Hsize; lia].
Qed.
Lemma removed_peer_absent o : svc ∉ peer_services o → removed_peer svc o = Some o.
Proof.
  intros Hn. unfold removed_peer. rewrite remove_service_spec by done.
  by rewrite bool_decide_false.
Qed.

Lemma created_peer_services n :
  svc ∈ peer_services (created_peer svc n) ∧
  obj_Namespace (created_peer svc n) = obj_Namespace n ∧
  obj_Labels (created_peer svc n) = obj_Labels n.
Proof.
  unfold created_peer, peerAddService. rewrite Resource_eta.
  destruct (add_service svc (peer_selectors n)) as [b l] eqn:E.
  apply add_service_services in E as (Hb & _ & Hin); [|done].
  destruct b; [by split_and!|]. destruct Hb as [Hb ->]. by split_and!.
Qed.
Lemma peerSpecEqual_selectors o l s :
  peerSpecEqual (metalapi.BGPPeer_Spec (set_NodeSelectors l o)) s =
  peerSpecEqual (metalapi.BGPPeer_Spec o) s.
Proof. done. Qed.

(** An updated peer: with an equal spec the service is added, with another
    spec everything recorded is replaced. *)
Lemma updated_peer_equal o n :
  peerSpecEqual (metalapi.BGPPeer_Spec o) (metalapi.BGPPeer_Spec n) = true →
  (updated_peer o n (Res_Namespace svc) (Res_Name svc)).2 = created_peer svc o ∧
  ((updated_peer o n (Res_Namespace svc) (Res_Name svc)).1 = false ↔ svc ∈ peer_services o).
Proof.
  intros Heq. unfold updated_peer, created_peer, peerAddService. rewrite Resource_eta.
  unfold peer_services. rewrite add_service_spec by done.
  destruct (decide (svc ∈ services_of _)); cbn -[peerSpecEqual set_NodeSelectors];
    by rewrite ?peerSpecEqual_selectors, Heq.
Qed.
Lemma updated_peer_respec o n :
  peerSpecEqual (metalapi.BGPPeer_Spec o) (metalapi.BGPPeer_Spec n) = false →
  metalapi.BGPPeer_Spec (updated_peer o n (Res_Namespace svc) (Res_Name svc)).2
    = metalapi.BGPPeer_Spec n.
Proof.
  intros Heq. unfold updated_peer, peerAddService. destruct (add_service _ _) as [[] l];
    by rewrite ?peerSpecEqual_selectors, Heq.
Qed.
Lemma updated_peer_meta o n ns name :
  obj_Namespace (updated_peer o n ns name).2 = obj_Namespace o ∧
  obj_Labels (updated_peer o n ns name).2 = obj_Labels o.
Proof. unfold updated_peer, peerAddService. destruct (add_service _ _) as [[] l]; by case_match. Qed.
End one_peer.

(** What every call on peers respects, both operations respect. *)
Section peers_frame.
Context {W : Type} (R : relation W) `{!PreOrder R, PdqSort, GoRange, CrdClient W metalapi.BGPPeer,
  !StaysCrd R metalapi.BGPPeer} (m_namespace ns name : string).

Lemma stays_updateOrDelete o : stays R (updateOrDeletePeerByService o ns name).
Proof. unfold updateOrDeletePeerByService. solve_stays. Qed.
Hint Resolve stays_updateOrDelete : stays.

Lemma stays_RemovePeersByService : stays R (RemovePeersByService m_namespace ns name).
Proof.
  assert (∀ l b, stays R (remove_peers_loop l ns name b)) as Hloop.
  { induction l as [|o l IH]; intros b; simpl; solve_stays. }
  unfold RemovePeersByService, listBGPPeers. solve_stays.
Qed.
Lemma stays_UpdatePeersByService adds : stays R (UpdatePeersByService m_namespace adds ns name).
Proof.
  assert (∀ l, stays R (create_peers l)) as Hcreate.
  { induction l as [|o l IH]; simpl; solve_stays. }
  assert (∀ l b, stays R (add_peers_loop l ns name b)) as Hadd.
  { induction l as [|[k n] l IH]; intros b; cbn [add_peers_loop]; solve_stays. }
  assert (∀ l news m b, stays R (update_peers_loop l news ns name m b)) as Hupdate.
  { induction l as [|o l IH]; intros news m b; simpl; solve_stays. }
  unfold UpdatePeersByService, listBGPPeers. solve_stays.
Qed.
End peers_frame.
#[export] Hint Resolve stays_RemovePeersByService stays_UpdatePeersByService : stays.

(** A view that no call on peers changes is left alone by both operations. *)
Section peers_view.
Context {W B : Type} (view : W → B) `{PdqSort, GoRange, CrdClient W metalapi.BGPPeer,
  !KeepsCrd view metalapi.BGPPeer} (m_namespace ns name : string).

Lemma keeps_RemovePeersByService : keeps view (RemovePeersByService m_namespace ns name).
Proof. exact (stays_RemovePeersByService (unchanged view) m_namespace ns name). Qed.
Lemma keeps_UpdatePeersByService adds : keeps view (UpdatePeersByService m_namespace adds ns name).
Proof. exact (stays_UpdatePeersByService (unchanged view) m_namespace ns name adds). Qed.
End peers_view.
#[export] Hint Resolve keeps_RemovePeersByService keeps_UpdatePeersByService : keeps.

(** ** Theorems *)

Section peers_theorems.
Context {W : Type} `{PdqSort, GoRange, CrdClient W metalapi.BGPPeer, !CrdLaws W metalapi.BGPPeer}
  (m_namespace : string) (svc : Resource).

Lemma stable_loop news l toAdd w :
  valid_service svc → Forall (settled_peer svc news) l →
  ∃ toAdd', update_peers_loop l news (Res_Namespace svc) (Res_Name svc) toAdd false w
              = (Ok (toAdd', false), w) ∧
    ∀ name, toAdd' !! name =
      if decide (name ∈ metalapi.BGPPeer_Name <$> l ∧ is_Some (find_peer name news)) then None
      else toAdd !! name.
Proof.
  intros Hv Hl. revert toAdd. induction Hl as [|o l Ho _ IH]; intros toAdd.
  { exists toAdd. split; [done|]. intros name. by rewrite decide_False by (by intros [?%not_elem_of_nil _]). }
  cbn [update_peers_loop]. unfold settled_peer in Ho.
  destruct (find_peer (metalapi.BGPPeer_Name o) news) as [n|] eqn:Hn.
  - destruct Ho as [Heq Hin]. destruct (IH (delete (metalapi.BGPPeer_Name n) toAdd)) as (toAdd' & Hrun & Hadd).
    exists toAdd'. split.
    + apply (updated_peer_equal svc Hv) in Heq as [_ Hup].
      apply Hup in Hin. by destruct (updated_peer o n _ _) as [[] o'].
    + intros name. rewrite Hadd, fmap_cons. apply find_peer_Some in Hn as Hname.
      destruct Hname as [_ ->]. destruct (decide (name = metalapi.BGPPeer_Name o)) as [->|Hne].
      * rewrite lookup_delete_eq, (decide_True (P := _ ∈ _ :: _ ∧ _)); [by case_decide|].
        split; [apply list_elem_of_here|by rewrite Hn].
      * rewrite lookup_delete_ne by done. apply decide_ext. rewrite elem_of_cons. naive_solver.
  - destruct (IH toAdd) as (toAdd' & Hrun & Hadd). exists toAdd'. split.
    + unfold updateOrDeletePeerByService, peerRemoveService. rewrite Resource_eta.
      rewrite remove_service_spec, bool_decide_false by done. exact Hrun.
    + intros name. rewrite Hadd, fmap_cons. apply decide_ext. rewrite elem_of_cons.
      split; [naive_solver|]. intros [[->|?] Hs]; [|done]. rewrite Hn in Hs. by destruct Hs.
Qed.

(** What is settled is left alone. *)
Lemma update_settled adds w l :
  valid_service svc →
  crd_List cpem_labels m_namespace w = (Ok l, w) →
  l ≠ [] →
  Forall (settled_peer svc (news_of m_namespace svc adds)) l →
  Forall (λ n, metalapi.BGPPeer_Name n ∈ metalapi.BGPPeer_Name <$> l) (news_of m_namespace svc adds) →
  UpdatePeersByService m_namespace adds (Res_Namespace svc) (Res_Name svc) w = (Ok false, w).
Proof.
  intros Hv Hlist Hne Hold Hnew. unfold UpdatePeersByService, listBGPPeers.
  fold (news_of m_namespace svc adds). erewrite bind_run by (by apply wrap_err_Ok).
  rewrite decide_False by by destruct l.
  pose proof (stable_loop _ l (peers_toAdd (news_of m_namespace svc adds)) w Hv Hold) as (toAdd & Hrun & Hadd).
  erewrite bind_run by exact Hrun. cbn beta iota.
  assert (toAdd = ∅) as ->.
  { apply map_eq. intros name. rewrite lookup_empty.
    destruct (toAdd !! name) as [x|] eqn:Hx; [|done]. rewrite Hadd in Hx. case_decide as Hd; [done|].
    destruct Hd. assert (is_Some (find_peer name (news_of m_namespace svc adds))) as Hs.
    { apply not_eq_None_Some. intros ?%peers_toAdd_None. congruence. }
    split; [|done]. destruct Hs as [n [Hin <-]%find_peer_Some]. rewrite Forall_forall in Hnew. by apply Hnew. }
  by rewrite range_map_empty.
Qed.

Lemma remove_peers_objs w b w' :
  RemovePeersByService m_namespace (Res_Namespace svc) (Res_Name svc) w = (Ok b, w') →
  b = true ∧ ∀ k, crd_objs w' !! k =
    (o ← crd_objs w !! k;
     if decide (managed_peer m_namespace o) then removed_peer svc o else Some o).
Proof.
  unfold RemovePeersByService, listBGPPeers. intros Hrun. inv_ok. split; [done|].
  apply crd_List_listed in Hrun0 as (-> & Hl & Hin). intros k.
  rewrite (remove_peers_loop_Ok _ _ _ _ _ _ Hrun1 Hl). by apply update_all_lookup.
Qed.

(** RemovePeersByService, when it returns without an error, has removed
    the service from every peer of the configurer, deleted those peers it
    was the last service of, left every other object of the store alone,
    and returned true whether or not anything changed. *)
Theorem RemovePeersByService_spec w b w' :
  RemovePeersByService m_namespace (Res_Namespace svc) (Res_Name svc) w = (Ok b, w') →
  b = true ∧ ∀ k, crd_objs w' !! k =
    (o ← crd_objs w !! k;
     if decide (managed_peer m_namespace o) then removed_peer svc o else Some o).
Proof. apply remove_peers_objs. Qed.

Lemma update_peers_objs adds w b w' :
  UpdatePeersByService m_namespace adds (Res_Namespace svc) (Res_Name svc) w = (Ok b, w') →
  ∀ k, crd_objs w' !! k =
    match crd_objs w !! k with
    | Some o =>
        if decide (managed_peer m_namespace o) then reconciled_peer svc (news_of m_namespace svc adds) o
        else Some o
    | None =>
        if decide (k.1 = m_namespace) then
          if decide (map_Forall (λ _ o, ¬ managed_peer m_namespace o) (crd_objs w)) then
            find_peer k.2 (news_of m_namespace svc adds)
          else created_peer svc <$> (peers_toAdd (news_of m_namespace svc adds) !! k.2)
        else None
    end.
Proof.
  unfold UpdatePeersByService, listBGPPeers. fold (news_of m_namespace svc adds).
  set (news := news_of m_namespace svc adds).
  intros Hrun k. inv_ok. rename a into olds.
  apply crd_List_listed in Hrun0 as (-> & Hl & Hin).
  destruct (decide (length olds = 0)) as [Hlen|Hlen].
  - inv_ok. destruct olds; [|done].
    assert (∀ k o, crd_objs w !! k = Some o → ¬ managed_peer m_namespace o) as Hno.
    { intros k' o Hk' Hm. pose proof (crd_keyed _ _ _ Hk') as <-.
      by apply (not_elem_of_nil o), Hin. }
    rewrite (decide_True (P := map_Forall _ _)) by exact Hno.
    rewrite (create_news_lookup _ _ _ _ _ _ _ Hrun0) by apply Hno.
    destruct (crd_objs w !! k) eqn:Hk; [|done]. by rewrite decide_False by (by eapply Hno).
  - inv_ok. destruct a as [toAdd changed].
    rewrite (decide_False (P := map_Forall _ _)).
    2:{ intros Hall. destruct olds as [|o olds]; [done|].
        destruct (proj1 (Hin o) (list_elem_of_here _ _)) as [Hk Hm]. by apply (Hall _ _ Hk). }
    apply update_peers_loop_Ok in Hrun0 as [Hw0 Hadd]; [|done].
    destruct (add_toAdd_lookup m_namespace svc adds toAdd _ _ _ _ k Hrun) as [Hfree ->].
    { intros name n. rewrite Hadd. by case_decide. }
    revert Hfree. rewrite Hw0, (update_all_lookup _ _ _ _ _ k Hl Hin). intros Hfree.
    destruct (crd_objs w !! k) as [o|] eqn:Hk; simpl in Hfree |- *.
    + assert (managed_peer m_namespace o → toAdd !! k.2 = None) as Hnone.
      { clear Hfree. intros Hm. pose proof (crd_keyed _ _ _ Hk) as <-. rewrite Hadd.
        case_decide as Hd; [done|]. apply peers_toAdd_None, eq_None_not_Some. intros Hs.
        apply Hd. split; [|done]. exact (list_elem_of_fmap_2 _ _ _ (proj2 (Hin o) (conj Hk Hm))). }
      unfold managed_peer in *. destruct (decide (k.1 = m_namespace)) as [Hns|]; [|done].
      destruct (decide (in_list cpem_labels m_namespace o)) as [Hm|Hm]; [by rewrite Hnone|].
      destruct (toAdd !! k.2); [|done]. by discriminate Hfree.
    + clear Hfree. case_decide as Hns; [|done]. rewrite Hadd. case_decide as Hd; [|by destruct (_ !! k.2)].
      destruct Hd as [(o & Ho & Hino)%list_elem_of_fmap _]. apply Hin in Hino as [Ho' [Hons _]].
      assert (obj_key o = k) as Hkey by (destruct k as [k1 k2]; unfold obj_key; simpl in Hns, Hons, Ho |- *; congruence).
      congruence.
Qed.

(** C11: UpdatePeersByService, when it returns without an error, leaves in
    the store, for each key: a peer of the configurer reconciled with the
    peer of its name, or without the service when there is none; any other
    object as it was; and, where there was nothing, the new peer of that
    name, with the service recorded only if some peer existed before. *)
Theorem UpdatePeersByService_spec adds w b w' :
  UpdatePeersByService m_namespace adds (Res_Namespace svc) (Res_Name svc) w = (Ok b, w') →
  ∀ k, crd_objs w' !! k =
    match crd_objs w !! k with
    | Some o =>
        if decide (managed_peer m_namespace o) then reconciled_peer svc (news_of m_namespace svc adds) o
        else Some o
    | None =>
        if decide (k.1 = m_namespace) then
          if decide (map_Forall (λ _ o, ¬ managed_peer m_namespace o) (crd_objs w)) then
            find_peer k.2 (news_of m_namespace svc adds)
          else created_peer svc <$> (peers_toAdd (news_of m_namespace svc adds) !! k.2)
        else None
    end.
Proof. apply update_peers_objs. Qed.

Lemma removed_services w b w' :
  valid_service svc →
  RemovePeersByService m_namespace (Res_Namespace svc) (Res_Name svc) w = (Ok b, w') →
  ∀ k r,
    (∃ o, crd_objs w' !! k = Some o ∧ managed_peer m_namespace o ∧ r ∈ peer_services o) ↔
    r ≠ svc ∧ ∃ o, crd_objs w !! k = Some o ∧ managed_peer m_namespace o ∧ r ∈ peer_services o.
Proof.
  intros Hv Hrun k r. destruct (remove_peers_objs _ _ _ Hrun) as [_ Hk]. rewrite Hk. clear Hk.
  destruct (crd_objs w !! k) as [o|]; simpl; [|naive_solver].
  destruct (decide (managed_peer m_namespace o)) as [Hm|Hm]; [|naive_solver].
  destruct (removed_peer svc o) as [o'|] eqn:E.
  - apply removed_peer_services in E as (Hns & Hlabels & Hr); [|done].
    assert (managed_peer m_namespace o') as Hm'.
    { destruct Hm. split; by rewrite ?Hns, ?Hlabels. }
    split; [intros (? & [= <-] & _ & ?%Hr); naive_solver|].
    intros (? & ? & [= <-] & _ & ?). exists o'. split_and!; [done..|]. by apply Hr.
  - pose proof (removed_peer_None _ Hv _ E). naive_solver.
Qed.

(** C33: RemovePeersByService takes exactly this service out of the record:
    afterwards the peers of the configurer record the same services as
    before, under the same keys, but for the one removed. *)
Theorem RemovePeersByService_services w b w' :
  valid_service svc →
  RemovePeersByService m_namespace (Res_Namespace svc) (Res_Name svc) w = (Ok b, w') →
  ∀ k r,
    (∃ o, crd_objs w' !! k = Some o ∧ managed_peer m_namespace o ∧ r ∈ peer_services o) ↔
    r ≠ svc ∧ ∃ o, crd_objs w !! k = Some o ∧ managed_peer m_namespace o ∧ r ∈ peer_services o.
Proof. apply removed_services. Qed.

(** After UpdatePeersByService no peer that is missing from the
    configuration records the service, and every peer it created next to
    existing ones does. *)
Theorem UpdatePeersByService_services adds w b w' :
  valid_service svc →
  UpdatePeersByService m_namespace adds (Res_Namespace svc) (Res_Name svc) w = (Ok b, w') →
  (∃ k o, crd_objs w !! k = Some o ∧ managed_peer m_namespace o) →
  ∀ k o', crd_objs w' !! k = Some o' → managed_peer m_namespace o' →
    (find_peer k.2 (news_of m_namespace svc adds) = None → svc ∉ peer_services o') ∧
    (crd_objs w !! k = None → svc ∈ peer_services o').
Proof.
  intros Hv Hrun (k0 & o0 & Hk0 & Hm0) k o' Hk' Hm'.
  rewrite (update_peers_objs _ _ _ _ Hrun) in Hk'. destruct (crd_objs w !! k) as [o|] eqn:Hk.
  - split; [|done]. intros Hnone. pose proof (crd_keyed _ _ _ Hk) as <-.
    case_decide as Hm; [|by simplify_eq]. unfold reconciled_peer in Hk'.
    unfold obj_key in Hnone. simpl in Hnone. rewrite Hnone in Hk'.
    apply removed_peer_services in Hk' as (_ & _ & Hr); [|done].
    rewrite Hr. naive_solver.
  - case_decide; [|done]. rewrite decide_False in Hk' by (intros Hall; by apply (Hall _ _ Hk0)).
    destruct (peers_toAdd _ !! k.2) as [n|] eqn:Hn; [|done]. injection Hk' as <-.
    split; [|intros _; by apply created_peer_services].
    intros Hnone%peers_toAdd_None. congruence.
Qed.

(** When an existing peer of the configuration has another spec, the
    new spec replaces the old one whole: the services the peer recorded are
    forgotten, and the one being updated is not recorded either. *)
Theorem UpdatePeersByService_respec adds w b w' k o n :
  UpdatePeersByService m_namespace adds (Res_Namespace svc) (Res_Name svc) w = (Ok b, w') →
  crd_objs w !! k = Some o → managed_peer m_namespace o →
  find_peer k.2 (news_of m_namespace svc adds) = Some n →
  peerSpecEqual (metalapi.BGPPeer_Spec o) (metalapi.BGPPeer_Spec n) = false →
  ∃ o', crd_objs w' !! k = Some o' ∧ managed_peer m_namespace o' ∧
        peer_services o' = peer_services n.
Proof.
  intros Hrun Hk Hm Hn Heq. pose proof (crd_keyed _ _ _ Hk) as <-.
  unfold obj_key in Hn. simpl in Hn. eexists. split_and!.
  - rewrite (update_peers_objs _ _ _ _ Hrun), Hk, decide_True by done.
    unfold reconciled_peer. by rewrite Hn.
  - destruct (updated_peer_meta o n (Res_Namespace svc) (Res_Name svc)) as [Hns Hl].
    destruct Hm. split; by rewrite ?Hns, ?Hl.
  - unfold peer_services, peer_selectors. by rewrite updated_peer_respec.
Qed.

(** The peers created when none existed do not record the service, so
    removing the service afterwards removes none of them. *)
Theorem UpdatePeersByService_first_leaks adds w b w1 b' w2 :
  valid_service svc →
  (∀ k o, crd_objs w !! k = Some o → ¬ managed_peer m_namespace o) →
  Forall (λ n, peer_services n = []) (news_of m_namespace svc adds) →
  UpdatePeersByService m_namespace adds (Res_Namespace svc) (Res_Name svc) w = (Ok b, w1) →
  RemovePeersByService m_namespace (Res_Namespace svc) (Res_Name svc) w1 = (Ok b', w2) →
  crd_objs w2 = crd_objs w1.
Proof.
  intros Hv Hno Hnews Hup Hrm. apply map_eq. intros k.
  rewrite (proj2 (remove_peers_objs _ _ _ Hrm)).
  destruct (crd_objs w1 !! k) as [o|] eqn:Hk; [|done]. simpl.
  case_decide as Hm; [|done]. apply removed_peer_absent; [done|].
  rewrite (update_peers_objs _ _ _ _ Hup) in Hk. destruct (crd_objs w !! k) as [o0|] eqn:Hk0.
  - rewrite decide_False in Hk by by eapply Hno. simplify_eq. by apply Hno in Hk0.
  - case_decide; [|done]. rewrite decide_True in Hk by exact Hno.
    apply find_peer_Some in Hk as [Hin _]. rewrite Forall_forall in Hnews.
    rewrite (Hnews _ Hin). apply not_elem_of_nil.
Qed.

(** Updating a configuration that is already in place changes nothing
    and says so. *)
Theorem UpdatePeersByService_stable adds w l :
  valid_service svc →
  crd_List cpem_labels m_namespace w = (Ok l, w) →
  l ≠ [] →
  Forall (λ o, ∃ n, find_peer (metalapi.BGPPeer_Name o) (news_of m_namespace svc adds) = Some n ∧
    peerSpecEqual (metalapi.BGPPeer_Spec o) (metalapi.BGPPeer_Spec n) = true ∧
    svc ∈ peer_services o) l →
  Forall (λ n, metalapi.BGPPeer_Name n ∈ metalapi.BGPPeer_Name <$> l) (news_of m_namespace svc adds) →
  UpdatePeersByService m_namespace adds (Res_Namespace svc) (Res_Name svc) w = (Ok false, w).
Proof.
  intros Hv Hlist Hne Hold Hnew. apply (update_settled adds w l); try done.
  eapply Forall_impl; [exact Hold|]. intros o (n & Hn & Ho). unfold settled_peer. by rewrite Hn.
Qed.
End peers_theorems.

(** ** Concrete runs *)

Local Existing Instance key_order.
Local Existing Instance pdqsort_by_insertion.

Definition demo_peer (name addr : string) : Peer := {|
  Peer_MyASN := 65000; Peer_ASN := 64512; Peer_Addr := addr; Peer_Port := 179;
  Peer_SrcAddr := ""; Peer_HoldTime := "30s"; Peer_RouterID := "";
  Peer_NodeSelectors := [{| MatchLabels := Some {[ "kubernetes.io/hostname" := "n1" ]};
                            MatchExpressions := None |}];
  Peer_Password := ""; Peer_EBGPMultiHop := false; Peer_Name := name |}.
Definition demo_svc : Resource := {| Res_Namespace := "default"; Res_Name := "web" |}.
Definition demo_other : Resource := {| Res_Namespace := "default"; Res_Name := "db" |}.

Lemma demo_valid : valid_service demo_svc.
Proof. done. Qed.

(** One peer exists; the configuration keeps it and adds another. *)
Local Abbreviation demo_update svc adds :=
  (UpdatePeersByService (W := World) "metallb-system" adds (Res_Namespace svc) (Res_Name svc)).
Local Abbreviation demo_remove svc :=
  (RemovePeersByService (W := World) "metallb-system" (Res_Namespace svc) (Res_Name svc)).
Definition world_one : World := final (demo_update demo_svc [demo_peer "n1-0" "10.0.0.1"]) empty_world.
Definition two_peers : list Peer := [demo_peer "n1-0" "10.0.0.1"; demo_peer "n1-1" "10.0.0.2"].
Definition world_two : World := final (demo_update demo_svc two_peers) world_one.

(** The peer of that name, when the world has one. *)
Definition peer_in (w : World) (name : string) : metalapi.BGPPeer :=
  default (convertToBGPPeer (demo_peer "" "") "" "") (crd_objs w !! ("metallb-system", name)).
Definition records_in (svc : Resource) (w : World) (name : string) : bool :=
  bool_decide (svc ∈ peer_services (peer_in w name)).
Definition new_peer (name addr : string) : metalapi.BGPPeer :=
  convertToBGPPeer (demo_peer name addr) "metallb-system" "web".

Lemma RemovePeersByService_spec_witness :
  true = true ∧ ∀ k, crd_objs (final (demo_remove demo_svc) world_two) !! k =
    (o ← crd_objs world_two !! k;
     if decide (managed_peer "metallb-system" o) then removed_peer demo_svc o else Some o).
Proof. apply (RemovePeersByService_spec "metallb-system" demo_svc). vm_refl. Defined.

Lemma RemovePeersByService_services_witness :
  records_in demo_svc world_two "n1-1" = true ∧
  ¬ (∃ o, crd_objs (final (demo_remove demo_svc) world_two) !! ("metallb-system", "n1-1") = Some o ∧
          managed_peer "metallb-system" o ∧ demo_svc ∈ peer_services o).
Proof.
  split; [vm_refl|].
  assert (demo_remove demo_svc world_two = (Ok true, final (demo_remove demo_svc) world_two)) as Hrun
    by vm_refl.
  intros Hin. exact (proj1 (proj1 (RemovePeersByService_services "metallb-system" demo_svc world_two true
    _ demo_valid Hrun _ _) Hin) eq_refl).
Defined.

Lemma UpdatePeersByService_spec_witness :
  crd_objs world_two !! ("metallb-system", "n1-1") = Some (created_peer demo_svc (new_peer "n1-1" "10.0.0.2")).
Proof.
  assert (demo_update demo_svc two_peers world_one = (Ok true, world_two)) as Hrun by vm_refl.
  rewrite (UpdatePeersByService_spec "metallb-system" demo_svc two_peers world_one true world_two Hrun).
  vm_refl.
Defined.

Lemma world_one_managed :
  ∃ k o, crd_objs world_one !! k = Some o ∧ managed_peer "metallb-system" o.
Proof.
  exists ("metallb-system", "n1-0"), (peer_in world_one "n1-0").
  split; [apply Some_default; vm_refl|split; vm_refl].
Qed.
Lemma UpdatePeersByService_services_witness : demo_svc ∈ peer_services (peer_in world_two "n1-1").
Proof.
  assert (demo_update demo_svc two_peers world_one = (Ok true, world_two)) as Hrun by vm_refl.
  assert (crd_objs world_one !! ("metallb-system", "n1-1") = @None metalapi.BGPPeer) as Hnone by vm_refl.
  assert (crd_objs world_two !! ("metallb-system", "n1-1") = Some (peer_in world_two "n1-1")) as Ho
    by (apply Some_default; vm_refl).
  assert (managed_peer "metallb-system" (peer_in world_two "n1-1")) as Hm by (split; vm_refl).
  exact (proj2 (UpdatePeersByService_services "metallb-system" demo_svc two_peers world_one true
    world_two demo_valid Hrun world_one_managed _ _ Ho Hm) Hnone).
Defined.

(** The address of the first peer changes: it forgets both services. *)
Definition moved_peers : list Peer := [demo_peer "n1-0" "10.0.0.9"; demo_peer "n1-1" "10.0.0.2"].
Definition world_shared : World := final (demo_update demo_other two_peers) world_two.
Lemma UpdatePeersByService_respec_witness :
  (records_in demo_svc world_shared "n1-0" = true ∧ records_in demo_other world_shared "n1-0" = true) ∧
  ∃ o', crd_objs (final (demo_update demo_svc moved_peers) world_shared) !! ("metallb-system", "n1-0")
          = Some o' ∧ managed_peer "metallb-system" o' ∧
        peer_services o' = peer_services (new_peer "n1-0" "10.0.0.9").
Proof.
  split; [split; vm_refl|].
  assert (demo_update demo_svc moved_peers world_shared =
    (Ok true, final (demo_update demo_svc moved_peers) world_shared)) as Hrun by vm_refl.
  refine (UpdatePeersByService_respec "metallb-system" demo_svc moved_peers world_shared true _
    _ (peer_in world_shared "n1-0") (new_peer "n1-0" "10.0.0.9") Hrun _ _ _ _).
  - apply Some_default. vm_refl.
  - split; vm_refl.
  - vm_refl.
  - vm_refl.
Defined.

Lemma no_peers k (o : metalapi.BGPPeer) :
  crd_objs empty_world !! k = Some o → ¬ managed_peer "metallb-system" o.
Proof.
  assert (crd_objs (Obj := metalapi.BGPPeer) empty_world = ∅) as -> by vm_refl.
  by rewrite lookup_empty.
Qed.
Lemma UpdatePeersByService_first_leaks_witness :
  crd_objs (Obj := metalapi.BGPPeer) (final (demo_remove demo_svc) world_one) = crd_objs world_one ∧
  records_in demo_svc world_one "n1-0" = false.
Proof.
  split; [|vm_refl].
  assert (demo_update demo_svc [demo_peer "n1-0" "10.0.0.1"] empty_world = (Ok true, world_one)) as Hup
    by vm_refl.
  assert (demo_remove demo_svc world_one = (Ok true, final (demo_remove demo_svc) world_one)) as Hrm
    by vm_refl.
  refine (UpdatePeersByService_first_leaks "metallb-system" demo_svc [demo_peer "n1-0" "10.0.0.1"]
    empty_world true world_one true _ demo_valid no_peers _ Hup Hrm). repeat constructor.
Defined.

Definition listed_shared : list metalapi.BGPPeer := [peer_in world_shared "n1-1"; peer_in world_shared "n1-0"].
Lemma UpdatePeersByService_stable_witness :
  demo_update demo_svc two_peers world_shared = (Ok false, world_shared).
Proof.
  refine (UpdatePeersByService_stable "metallb-system" demo_svc two_peers world_shared listed_shared
    demo_valid _ _ _ _).
  - vm_refl.
  - discriminate.
  - repeat constructor.
    + exists (new_peer "n1-1" "10.0.0.2"). split_and!; [vm_refl..|]. refine (bool_decide_eq_true_1 _ _); vm_refl.
    + exists (new_peer "n1-0" "10.0.0.1"). split_and!; [vm_refl..|]. refine (bool_decide_eq_true_1 _ _); vm_refl.
  - repeat constructor; refine (bool_decide_eq_true_1 _ _); vm_refl.
Defined.
