(* ===== verification/CrdConverge.v ===== *)
(** * The peers of a service settle

    [UpdatePeersByService] of [cherry/loadbalancers/metallb/crd.go] is run
    again at every reconciliation. The first run can leave a peer without
    the service: the ones it creates when there are none, and the ones whose
    spec it replaces. This file shows that one more run always repairs it,
    and that from then on nothing is written. *)

From S2P Require Import Prelude GoStrings GoSort GoTime Api World MetalLBTypes ServiceSelectors CrdStore Crd CrdPeers.

(** ** Definitions *)

Section settled.
Context {W : Type} `{PdqSort, GoRange, CrdClient W metalapi.BGPPeer, !CrdLaws W metalapi.BGPPeer}
  (m_namespace : string) (svc : Resource) (news : list metalapi.BGPPeer).

(** A peer of the store as the configuration wants it, but for the services
    it records. *)
Definition well_specified (o : metalapi.BGPPeer) : Prop :=
  match find_peer (metalapi.BGPPeer_Name o) news with
  | Some n => peerSpecEqual (metalapi.BGPPeer_Spec o) (metalapi.BGPPeer_Spec n) = true
  | None => svc ∉ peer_services o
  end.
Definition all_managed (P : metalapi.BGPPeer → Prop) (w : W) : Prop :=
  ∀ k o, crd_objs w !! k = Some o → managed_peer m_namespace o → P o.
(** Every peer of the configuration is there. *)
Definition present (w : W) : Prop :=
  ∀ n, n ∈ news →
    ∃ o, crd_objs w !! (m_namespace, metalapi.BGPPeer_Name n) = Some o ∧ managed_peer m_namespace o.
End settled.

(** ** Lemmas *)

Section lemmas.
Context {W : Type} `{PdqSort, GoRange, CrdClient W metalapi.BGPPeer, !CrdLaws W metalapi.BGPPeer}
  (m_namespace : string) (svc : Resource).
Implicit Types (o n : metalapi.BGPPeer) (w : W).

Lemma peerSpecEqual_refl s : peerSpecEqual s s = true.
Proof. by apply bool_decide_eq_true. Qed.

Lemma news_managed adds : Forall (managed_peer m_namespace) (news_of m_namespace svc adds).
Proof.
  apply Forall_forall. intros n (add & -> & _)%list_elem_of_fmap. split; [done|].
  by apply bool_decide_eq_true.
Qed.

Lemma managed_peer_same o o' :
  obj_Namespace o' = obj_Namespace o → obj_Labels o' = obj_Labels o →
  managed_peer m_namespace o → managed_peer m_namespace o'.
Proof. intros Hns Hl [? ?]. split; by rewrite ?Hns, ?Hl. Qed.

(** The object of a key has the name of the key. *)
Lemma managed_key w k o :
  crd_objs w !! k = Some o → managed_peer m_namespace o → k = (m_namespace, metalapi.BGPPeer_Name o).
Proof. intros Hk [Hns _]. rewrite <-(crd_keyed _ _ _ Hk). unfold obj_key. by rewrite Hns. Qed.

Lemma update_peers_loop_unmanaged l news toAdd changed w toAdd' b w' k o :
  update_peers_loop l news (Res_Namespace svc) (Res_Name svc) toAdd changed w = (Ok (toAdd', b), w') →
  listed l w → k ∉ obj_key <$> l → crd_objs w !! k = Some o → crd_objs w' !! k = Some o.
Proof.
  intros Hrun Hl Hk Ho. apply update_peers_loop_Ok in Hrun as [-> _]; [|done].
  by rewrite update_all_notin.
Qed.

(** A successful update finds no foreign object under a name it wants. *)
Lemma update_peers_no_clash adds w b w' n o :
  UpdatePeersByService m_namespace adds (Res_Namespace svc) (Res_Name svc) w = (Ok b, w') →
  n ∈ news_of m_namespace svc adds →
  crd_objs w !! (m_namespace, metalapi.BGPPeer_Name n) = Some o → managed_peer m_namespace o.
Proof.
  unfold UpdatePeersByService, listBGPPeers. fold (news_of m_namespace svc adds).
  intros Hrun Hn Ho. inv_ok. rename a into olds.
  apply crd_List_listed in Hrun0 as (-> & Hl & Hin).
  destruct (decide (managed_peer m_namespace o)) as [|Hm]; [done|exfalso].
  pose proof (crd_keyed _ _ _ Ho) as Hkey.
  pose proof (news_namespace m_namespace svc adds) as Hns. rewrite Forall_forall in Hns.
  destruct (decide (length olds = 0)) as [Hlen|Hlen].
  - inv_ok. apply create_peers_Ok in Hrun0 as [[_ Hf] _]. rewrite Forall_forall in Hf.
    specialize (Hf n Hn). unfold obj_key in Hf. simpl in Hf. rewrite (Hns n Hn) in Hf. congruence.
  - inv_ok. destruct a as [toAdd changed].
    assert ((m_namespace, metalapi.BGPPeer_Name n) ∉ obj_key <$> olds) as Hnot.
    { intros (x & Hx & Hxin)%list_elem_of_fmap. apply Hin in Hxin as [Hxk Hxm].
      rewrite <-Hx in Hxk. rewrite Ho in Hxk. by injection Hxk as <-. }
    pose proof (update_peers_loop_unmanaged _ _ _ _ _ _ _ _ _ _ Hrun0 Hl Hnot Ho) as Ho0.
    apply update_peers_loop_Ok in Hrun0 as [_ Hadd]; [|done].
    destruct (add_toAdd_lookup m_namespace svc adds toAdd _ _ _ _
      (m_namespace, metalapi.BGPPeer_Name n) Hrun) as [Hfree _].
    { intros name x. rewrite Hadd. by case_decide. }
    rewrite Hfree in Ho0; [done| |done]. simpl. rewrite Hadd, decide_False.
    + apply not_eq_None_Some. intros Hx%peers_toAdd_None%find_peer_None.
      apply Hx. by apply list_elem_of_fmap_2.
    + intros [(x & Hx & Hxin)%list_elem_of_fmap _]. apply Hnot.
      apply list_elem_of_fmap. exists x. split; [|done].
      apply Hin in Hxin as [_ [Hxns _]]. unfold obj_key. by rewrite Hxns, Hx.
Qed.

(** Where a peer of the configurer comes from. *)
Lemma updated_from adds w b w' k o' :
  NoDup (metalapi.BGPPeer_Name <$> news_of m_namespace svc adds) →
  UpdatePeersByService m_namespace adds (Res_Namespace svc) (Res_Name svc) w = (Ok b, w') →
  crd_objs w' !! k = Some o' → managed_peer m_namespace o' →
  (∃ o, crd_objs w !! k = Some o ∧ managed_peer m_namespace o ∧
        reconciled_peer svc (news_of m_namespace svc adds) o = Some o') ∨
  (crd_objs w !! k = None ∧ ∃ n, find_peer k.2 (news_of m_namespace svc adds) = Some n ∧
        (o' = n ∨ o' = created_peer svc n)).
Proof.
  intros Hnd Hrun Hk Hm. rewrite (update_peers_objs _ _ _ _ _ _ Hrun) in Hk.
  destruct (crd_objs w !! k) as [o|].
  - left. exists o. case_decide; [done|]. by simplify_eq.
  - right. split; [done|]. repeat case_decide; [|..|done].
    + exists o'. auto.
    + rewrite peers_toAdd_distinct in Hk by done. apply fmap_Some in Hk as (n & Hn & ->). eauto.
Qed.

Lemma updated_peer_name o n :
  metalapi.BGPPeer_Name (updated_peer o n (Res_Namespace svc) (Res_Name svc)).2
    = metalapi.BGPPeer_Name o.
Proof. exact (f_equal snd (updated_peer_key o n (Res_Namespace svc) (Res_Name svc))). Qed.
Lemma created_peer_name n : metalapi.BGPPeer_Name (created_peer svc n) = metalapi.BGPPeer_Name n.
Proof. exact (f_equal snd (peerAddService_key n (Res_Namespace svc) (Res_Name svc))). Qed.
Lemma removed_peer_name o o' :
  removed_peer svc o = Some o' → metalapi.BGPPeer_Name o' = metalapi.BGPPeer_Name o.
Proof.
  unfold removed_peer. destruct (remove_service _ _) as [[[] size] l]; repeat case_decide; naive_solver.
Qed.
Lemma created_peer_spec n s :
  peerSpecEqual (metalapi.BGPPeer_Spec (created_peer svc n)) s =
  peerSpecEqual (metalapi.BGPPeer_Spec n) s.
Proof. unfold created_peer, peerAddService. by destruct (add_service _ _) as [[] l]. Qed.

Context (Hvalid : valid_service svc) (adds : list Peer).
Let news := news_of m_namespace svc adds.
Context (Hdistinct : NoDup (metalapi.BGPPeer_Name <$> news)).

(** One update makes every peer of the configurer well specified. *)
Lemma reconciled_well_specified o o' :
  reconciled_peer svc news o = Some o' → well_specified svc news o'.
Proof.
  unfold reconciled_peer, well_specified. intros Hr.
  destruct (find_peer (metalapi.BGPPeer_Name o) news) as [n|] eqn:Hn.
  - injection Hr as <-. rewrite updated_peer_name, Hn.
    destruct (peerSpecEqual (metalapi.BGPPeer_Spec o) (metalapi.BGPPeer_Spec n)) eqn:Heq.
    + destruct (updated_peer_equal svc Hvalid o n Heq) as [-> _]. by rewrite created_peer_spec.
    + rewrite (updated_peer_respec svc o n Heq). apply peerSpecEqual_refl.
  - rewrite (removed_peer_name _ _ Hr), Hn. apply removed_peer_services in Hr as (_ & _ & Hr); [|done].
    rewrite Hr. naive_solver.
Qed.
Lemma updated_well_specified w b w' :
  UpdatePeersByService m_namespace adds (Res_Namespace svc) (Res_Name svc) w = (Ok b, w') →
  all_managed m_namespace (well_specified svc news) w'.
Proof.
  intros Hrun k o' Hk Hm.
  destruct (updated_from _ _ _ _ _ _ Hdistinct Hrun Hk Hm) as [(o & _ & _ & Hr)|(_ & n & Hn & Ho')].
  - by eapply reconciled_well_specified.
  - rewrite (managed_key _ _ _ Hk Hm) in Hn. unfold well_specified. fold news in Hn. simpl in Hn.
    rewrite Hn. destruct Ho' as [-> | ->]; rewrite ?created_peer_spec; apply peerSpecEqual_refl.
Qed.

(** And leaves the whole configuration in place. *)
Lemma updated_present w b w' :
  UpdatePeersByService m_namespace adds (Res_Namespace svc) (Res_Name svc) w = (Ok b, w') →
  present m_namespace news w'.
Proof.
  intros Hrun n Hn. assert (is_Some (find_peer (metalapi.BGPPeer_Name n) news)) as [n' Hn'].
  { apply not_eq_None_Some. rewrite find_peer_None. intros Hx. apply Hx. by apply list_elem_of_fmap_2. }
  rewrite (update_peers_objs _ _ _ _ _ _ Hrun). fold news.
  pose proof (news_managed adds) as Hnm. fold news in Hnm. rewrite Forall_forall in Hnm.
  apply find_peer_Some in Hn' as Hin. destruct Hin as [Hin _].
  destruct (crd_objs w !! _) as [o|] eqn:Ho.
  - pose proof (update_peers_no_clash _ _ _ _ _ _ Hrun Hn Ho) as Hm. rewrite decide_True by done.
    assert (metalapi.BGPPeer_Name o = metalapi.BGPPeer_Name n) as Hname.
    { pose proof (managed_key _ _ _ Ho Hm) as Hk. by injection Hk as ->. }
    unfold reconciled_peer. rewrite Hname, Hn'. eexists. split; [done|].
    eapply managed_peer_same; [..|exact Hm]; apply updated_peer_meta.
  - simpl. rewrite decide_True by done. case_decide; [exists n'; auto|].
    rewrite peers_toAdd_distinct, Hn' by done. simpl. eexists. split; [done|].
    eapply managed_peer_same; [..|by apply Hnm]; by apply created_peer_services.
Qed.

(** From there, one more update settles every peer. *)
Lemma well_specified_settled o o' :
  well_specified svc news o → reconciled_peer svc news o = Some o' → settled_peer svc news o'.
Proof.
  unfold reconciled_peer, well_specified, settled_peer. intros Hw Hr.
  destruct (find_peer (metalapi.BGPPeer_Name o) news) as [n|] eqn:Hn.
  - injection Hr as <-. rewrite updated_peer_name, Hn.
    destruct (updated_peer_equal svc Hvalid o n Hw) as [-> _]. rewrite created_peer_spec.
    split; [done|]. by apply created_peer_services.
  - rewrite removed_peer_absent in Hr by done. injection Hr as <-. by rewrite Hn.
Qed.
Lemma updated_settled w b w' :
  all_managed m_namespace (well_specified svc news) w → present m_namespace news w →
  UpdatePeersByService m_namespace adds (Res_Namespace svc) (Res_Name svc) w = (Ok b, w') →
  all_managed m_namespace (settled_peer svc news) w'.
Proof.
  intros Hw Hpres Hrun k o' Hk Hm.
  destruct (updated_from _ _ _ _ _ _ Hdistinct Hrun Hk Hm) as [(o & Ho & Hmo & Hr)|(Hnone & n & Hn & _)].
  - eapply well_specified_settled; [|done]. by eapply Hw.
  - exfalso. apply find_peer_Some in Hn as [Hin Hname]. destruct (Hpres n Hin) as (o & Ho & _).
    rewrite (managed_key _ _ _ Hk Hm) in Hnone, Hname. simpl in Hname. congruence.
Qed.

(** The list of what is settled is what a stable update needs. *)
Lemma settled_stable w l w' :
  news ≠ [] → all_managed m_namespace (settled_peer svc news) w → present m_namespace news w →
  crd_List cpem_labels m_namespace w = (Ok l, w') →
  UpdatePeersByService m_namespace adds (Res_Namespace svc) (Res_Name svc) w = (Ok false, w).
Proof.
  intros Hne Hall Hpres Hlist.
  destruct (crd_List_listed _ _ _ _ _ Hlist) as (-> & _ & Hin).
  assert (∀ n, n ∈ news → metalapi.BGPPeer_Name n ∈ metalapi.BGPPeer_Name <$> l) as Hnew.
  { intros n Hn. destruct (Hpres n Hn) as (o & Ho & Hm). apply list_elem_of_fmap. exists o.
    pose proof (managed_key _ _ _ Ho Hm) as Hk. injection Hk as Hk. split; [done|].
    apply Hin. split; [|exact Hm]. by rewrite (crd_keyed _ _ _ Ho). }
  apply (update_settled m_namespace svc adds w l); try done.
  - intros ->. destruct news as [|n ns]; [done|].
    by apply (not_elem_of_nil (metalapi.BGPPeer_Name n)), (Hnew n), list_elem_of_here.
  - apply Forall_forall. intros o [Ho Hm]%Hin. by eapply Hall.
  - by apply Forall_forall.
Qed.
End lemmas.

(** Two updates settle, and a third has nothing to do. *)
Lemma two_updates_settle
    {W : Type} `{PdqSort, GoRange, CrdClient W metalapi.BGPPeer, !CrdLaws W metalapi.BGPPeer}
    (m_namespace : string) (svc : Resource) (adds : list Peer) (w : W) b1 w1 b2 w2 l w3 :
  valid_service svc → adds ≠ [] → NoDup (Peer_Name <$> adds) →
  UpdatePeersByService m_namespace adds (Res_Namespace svc) (Res_Name svc) w = (Ok b1, w1) →
  UpdatePeersByService m_namespace adds (Res_Namespace svc) (Res_Name svc) w1 = (Ok b2, w2) →
  crd_List cpem_labels m_namespace w2 = (Ok l, w3) →
  all_managed m_namespace (settled_peer svc (news_of m_namespace svc adds)) w2 ∧
  present m_namespace (news_of m_namespace svc adds) w2 ∧
  UpdatePeersByService m_namespace adds (Res_Namespace svc) (Res_Name svc) w2 = (Ok false, w2).
Proof.
  intros Hv Hne Hnd H1' H2' Hlist.
  assert (NoDup (metalapi.BGPPeer_Name <$> news_of m_namespace svc adds)) as Hnd'
    by (unfold news_of; by rewrite <-list_fmap_compose).
  pose proof (updated_well_specified m_namespace svc Hv adds Hnd' _ _ _ H1') as Hw.
  pose proof (updated_present m_namespace svc Hv adds Hnd' _ _ _ H1') as Hp1.
  pose proof (updated_settled m_namespace svc Hv adds Hnd' _ _ _ Hw Hp1 H2') as Hs.
  pose proof (updated_present m_namespace svc Hv adds Hnd' _ _ _ H2') as Hp2.
  split_and!; [done..|]. eapply settled_stable; try done. by destruct adds.
Qed.

Lemma update_lists {W : Type} `{PdqSort, GoRange, CrdClient W metalapi.BGPPeer, !CrdLaws W metalapi.BGPPeer}
    (m_namespace : string) adds ns name (w : W) b w' :
  UpdatePeersByService m_namespace adds ns name w = (Ok b, w') →
  ∃ l, crd_List cpem_labels m_namespace w = (Ok l : res (list metalapi.BGPPeer), w).
Proof.
  unfold UpdatePeersByService, listBGPPeers. intros Hrun. inv_ok.
  destruct (crd_List_Ok _ _ _ _ _ Hrun0) as (-> & _). by eexists.
Qed.

(** ** The theorem *)

(** C31: whatever peers the cluster has, two successful updates with the same
    non-empty configuration, whose peers have names of their own, bring them
    where the configuration wants them: each peer of the configuration is there with
    its spec and records the service, no other peer of the configurer
    records it. A third update then writes nothing and answers that nothing
    changed. *)
Theorem UpdatePeersByService_converges
    {W : Type} `{PdqSort, GoRange, CrdClient W metalapi.BGPPeer, !CrdLaws W metalapi.BGPPeer}
    (m_namespace : string) (svc : Resource) (adds : list Peer) (w : W) b1 w1 b2 w2 l w3 :
  valid_service svc → adds ≠ [] → NoDup (Peer_Name <$> adds) →
  UpdatePeersByService m_namespace adds (Res_Namespace svc) (Res_Name svc) w = (Ok b1, w1) →
  UpdatePeersByService m_namespace adds (Res_Namespace svc) (Res_Name svc) w1 = (Ok b2, w2) →
  crd_List cpem_labels m_namespace w2 = (Ok l, w3) →
  all_managed m_namespace (settled_peer svc (news_of m_namespace svc adds)) w2 ∧
  present m_namespace (news_of m_namespace svc adds) w2 ∧
  UpdatePeersByService m_namespace adds (Res_Namespace svc) (Res_Name svc) w2 = (Ok false, w2).
Proof. apply two_updates_settle. Qed.

(** ** Concrete runs *)

Local Existing Instance key_order.
Local Existing Instance pdqsort_by_insertion.

Local Abbreviation demo_update w :=
  (UpdatePeersByService (W := World) "metallb-system" two_peers (Res_Namespace demo_svc) (Res_Name demo_svc) w).
Definition world_first : World := (demo_update empty_world).2.
Definition world_second : World := (demo_update world_first).2.
Lemma UpdatePeersByService_converges_witness :
  records_in demo_svc world_first "n1-0" = false ∧ records_in demo_svc world_second "n1-0" = true ∧
  demo_update world_second = (Ok false, world_second).
Proof.
  split; [vm_refl|]. split; [vm_refl|].
  refine (proj2 (proj2 (UpdatePeersByService_converges "metallb-system" demo_svc two_peers empty_world
    true world_first true world_second [peer_in world_second "n1-1"; peer_in world_second "n1-0"]
    world_second demo_valid _ _ _ _ _))).
  - discriminate.
  - refine (bool_decide_eq_true_1 _ _); vm_refl.
  - vm_refl.
  - vm_refl.
  - vm_refl.
Defined.
