(* ===== verification/CrdPools.v ===== *)
(** * What the custom resource configurer does to pools and advertisements

    The specification of [AddAddressPool] and [RemoveAddressPool] on the
    API server's store: every branch, the invariant of the default
    advertisement, and that removing a pool undoes adding it. *)

From S2P Require Import Prelude GoStrings GoSort GoSlices Api World MetalLBTypes CrdStore Crd.

(** ** The abstract specification *)

(** Objects the configurer lists, and the one advertisement it writes. *)
Definition managed {Obj} `{CrdObject Obj} (m_namespace : string) : Obj → Prop :=
  in_list cpem_labels m_namespace.
Global Instance managed_dec {Obj} `{CrdObject Obj} ns (o : Obj) : Decision (managed ns o).
Proof. unfold managed. apply _. Defined.
Definition is_default_adv (m_namespace : string) (a : metalapi.BGPAdvertisement) : Prop :=
  managed m_namespace a ∧ metalapi.Adv_Name a = defaultBgpAdvertisement.
Global Instance is_default_adv_dec ns a : Decision (is_default_adv ns a).
Proof. unfold is_default_adv. apply _. Defined.

Section spec.
Context `{ExpSlices}.

(** A pool that shares an address with another. *)
Definition shares (o new : metalapi.IPAddressPool) : Prop :=
  ∃ a, a ∈ metalapi.Pool_Addresses o ∧ a ∈ metalapi.Pool_Addresses new.

(** An existing pool after a new one was merged into it. *)
Definition merged_pool (o new : metalapi.IPAddressPool) (svcNamespace svcName : string)
  : metalapi.IPAddressPool :=
  let o1 := if decide (metalapi.Pool_Name o = metalapi.Pool_Name new) then
      set_Labels (Some (<[serviceLabelKey svcName := serviceLabelValue svcNamespace]>
                   (default ∅ (metalapi.Pool_Labels o)))) o
    else o in
  if existsb (exp_Contains (metalapi.Pool_Addresses o)) (metalapi.Pool_Addresses new) then
    set_Addresses (merged_addresses (metalapi.Pool_Addresses o1) (metalapi.Pool_Addresses new)) o1
  else o1.
End spec.

(** The advertisements after a pool was created. *)
Definition advertised (m_namespace pool : string)
    (m : gmap (string * string) metalapi.BGPAdvertisement)
  : gmap (string * string) metalapi.BGPAdvertisement :=
  if decide (map_Forall (λ _ a, ¬ managed m_namespace a) m) then
    <[(m_namespace, defaultBgpAdvertisement) := default_adv m_namespace pool]> m
  else
    (λ a, if decide (is_default_adv m_namespace a) then
            set_IPAddressPools (metalapi.Adv_IPAddressPools a ++ [pool]) a
          else a) <$> m.

(** The default advertisement after a pool was withdrawn. *)
Definition withdrawn (pool : string) (a : metalapi.BGPAdvertisement) : option metalapi.BGPAdvertisement :=
  if decide (pool ∈ metalapi.Adv_IPAddressPools a) then
    if decide (1 < length (metalapi.Adv_IPAddressPools a)) then
      Some (set_IPAddressPools (filter (λ p, p ≠ pool) (metalapi.Adv_IPAddressPools a)) a)
    else None
  else Some a.

(** What the loop leaves of a list it shortens while it runs over it: after a
    name was deleted the next one has moved to its place and is not looked
    at. *)
Fixpoint take_out (pool : string) (l : list string) : list string :=
  match l with
  | [] => []
  | x :: l' =>
      if decide (x = pool) then
        match l' with
        | [] => []
        | y :: l'' => y :: take_out pool l''
        end
      else x :: take_out pool l'
  end.
(** The default advertisement after the loop, whatever it named. *)
Definition withdrawn_by_loop (pool : string) (a : metalapi.BGPAdvertisement)
  : option metalapi.BGPAdvertisement :=
  if decide (metalapi.Adv_IPAddressPools a = [pool]) then None
  else Some (set_IPAddressPools (take_out pool (metalapi.Adv_IPAddressPools a)) a).

(** ** Lemmas *)

Lemma take_out_notin pool l : pool ∉ l → take_out pool l = l.
Proof.
  induction l as [|x l IH]; [done|]. rewrite not_elem_of_cons. intros [Hx Hl]. simpl.
  rewrite decide_False by done. by rewrite IH.
Qed.
(** With no name twice in a row every one of them goes, so without
    duplicates in particular. *)
Lemma take_out_NoDup pool l : NoDup l → take_out pool l = filter (λ p, p ≠ pool) l.
Proof.
  induction 1 as [|x l Hx Hnd IH]; [done|]. simpl. rewrite filter_cons.
  destruct (decide (x = pool)) as [->|Hne].
  - rewrite (decide_False (P := pool ≠ pool)) by tauto. rewrite filter_others by done.
    destruct l as [|y l]; [done|]. rewrite take_out_notin; [done|]. intros ?. apply Hx. by right.
  - rewrite (decide_True (P := x ≠ pool)) by done. by rewrite IH.
Qed.
Lemma withdrawn_by_loop_NoDup pool a :
  NoDup (metalapi.Adv_IPAddressPools a) → withdrawn_by_loop pool a = withdrawn pool a.
Proof.
  intros Hnd. unfold withdrawn_by_loop, withdrawn. rewrite take_out_NoDup by done.
  destruct (decide (pool ∈ metalapi.Adv_IPAddressPools a)) as [Hin|Hin].
  - destruct (decide (_ = [pool])) as [Heq|Hne]; [by rewrite Heq|]. rewrite decide_True; [done|].
    destruct (metalapi.Adv_IPAddressPools a) as [|x [|y l]]; simpl; [|..|lia].
    + by apply not_elem_of_nil in Hin.
    + apply list_elem_of_singleton in Hin as ->. done.
  - rewrite decide_False, filter_others; [by destruct a|done|].
    intros Heq. apply Hin. rewrite Heq. apply list_elem_of_here.
Qed.

Section pools_lemmas.
Context {W : Type} `{ExpSlices,
  CrdClient W metalapi.IPAddressPool, !CrdLaws W metalapi.IPAddressPool,
  CrdClient W metalapi.BGPAdvertisement, !CrdLaws W metalapi.BGPAdvertisement,
  !CrdFrame W metalapi.IPAddressPool metalapi.BGPAdvertisement,
  !CrdFrame W metalapi.BGPAdvertisement metalapi.IPAddressPool}
  (m_namespace : string).
Implicit Types (o new : metalapi.IPAddressPool) (a : metalapi.BGPAdvertisement) (w : W).

Lemma existsb_shares o new :
  existsb (exp_Contains (metalapi.Pool_Addresses o)) (metalapi.Pool_Addresses new) = true ↔
  shares o new.
Proof.
  rewrite existsb_exists. unfold shares. setoid_rewrite exp_Contains_spec.
  setoid_rewrite <-list_elem_of_In. naive_solver.
Qed.

Lemma merged_addresses_elem old add x :
  x ≠ "" → x ∈ merged_addresses old add ↔ x ∈ old ∨ x ∈ add.
Proof.
  intros Hx. rewrite <-elem_of_app, <-(exp_Sort_perm (old ++ add)).
  rewrite <-(elem_of_exp_Compact (exp_Sort (old ++ add))). unfold merged_addresses.
  split; [by intros [?| ->]%elem_of_zeroed_tail|]. intros Hin. by apply elem_of_app; left.
Qed.
Lemma merged_addresses_blank old add x :
  x ∈ old → x ∈ add → "" ∈ merged_addresses old add.
Proof.
  intros Ho Ha. apply zeroed_tail_blank. pose proof (exp_Compact_length (exp_Sort (old ++ add))) as Hle.
  destruct (decide (length (exp_Compact (exp_Sort (old ++ add))) = length (exp_Sort (old ++ add))))
    as [Heq|]; [|lia].
  exfalso. apply exp_Compact_same in Heq.
  pose proof (exp_Compact_NoDup _ (exp_Sort_sorted (old ++ add))) as Hnd.
  rewrite Heq, exp_Sort_perm in Hnd. apply NoDup_app in Hnd as (_ & Hdis & _). by apply (Hdis x).
Qed.

(** The loop over the existing pools: one of three outcomes. *)
Lemma add_pool_loop_Ok l new ns name w r w' :
  add_pool_loop l new ns name w = (Ok r, w') → listed l w →
  match r with
  | None => w' = w ∧ Forall (λ o, metalapi.Pool_Name o ≠ metalapi.Pool_Name new ∧ ¬ shares o new) l
  | Some false => w' = w ∧ ∃ o, o ∈ l ∧ metalapi.Pool_Name o = metalapi.Pool_Name new ∧
                                pool_has_service o name = true
  | Some true => ∃ o, o ∈ l ∧
      (metalapi.Pool_Name o = metalapi.Pool_Name new ∧ pool_has_service o name = false ∨ shares o new) ∧
      crd_objs w' = <[obj_key o := merged_pool o new ns name]> (crd_objs w)
  end.
Proof.
  intros Hrun Hl. assert (Forall (λ o, crd_objs w !! obj_key o = Some o) l) as Hall by apply Hl.
  clear Hl. induction Hall as [|o l Ho _ IH]; cbn [add_pool_loop] in Hrun.
  { by inv_ok. }
  destruct (bool_decide _ && pool_has_service o name) eqn:Hsame.
  { inv_ok. apply andb_true_iff in Hsame as [Heq%bool_decide_eq_true Hsvc]. split; [done|].
    exists o. split_and!; [apply list_elem_of_here|done..]. }
  destruct (bool_decide _ || existsb _ _) eqn:Hmatch; inv_ok.
  - exists o. split; [apply list_elem_of_here|]. split.
    + apply orb_true_iff in Hmatch as [Heq|Hsh]; [left|right; by apply existsb_shares].
      rewrite Heq in Hsame. by apply bool_decide_eq_true in Heq.
    + destruct a0. assert (w0 = w ∧ a = if decide (metalapi.Pool_Name o = metalapi.Pool_Name new) then
          set_Labels (Some (<[serviceLabelKey name := serviceLabelValue ns]>
                              (default ∅ (metalapi.Pool_Labels o)))) o else o) as [-> ->].
      { destruct (decide (metalapi.Pool_Name o = metalapi.Pool_Name new)).
        - rewrite bool_decide_true in Hrun0 by done. destruct (metalapi.Pool_Labels o); by inv_ok.
        - rewrite bool_decide_false in Hrun0 by done. by inv_ok. }
      eapply crd_Patch_Ok in Hrun1; [exact Hrun1| |done]. by repeat case_match.
  - apply orb_false_iff in Hmatch as [Hname%bool_decide_eq_false Hsh].
    apply IH in Hrun. destruct r as [[]|].
    + destruct Hrun as (o' & ? & ?). exists o'. split; [by right|done].
    + destruct Hrun as (-> & o' & ? & ?). split; [done|]. exists o'. split; [by right|done].
    + destruct Hrun as [-> Hall]. split; [done|]. constructor; [|done]. split; [done|].
      rewrite <-existsb_shares. by rewrite Hsh.
Qed.

Definition pools_of (w : W) : gmap (string * string) metalapi.IPAddressPool := crd_objs w.
Definition advs_of (w : W) : gmap (string * string) metalapi.BGPAdvertisement := crd_objs w.

Lemma pool_call_frame w w' : crd_call W metalapi.IPAddressPool w w' → advs_of w' = advs_of w.
Proof. apply crd_frame. Qed.
Lemma adv_call_frame w w' : crd_call W metalapi.BGPAdvertisement w w' → pools_of w' = pools_of w.
Proof. apply crd_frame. Qed.

Lemma add_pool_loop_frame l new ns name w r w' :
  add_pool_loop l new ns name w = (Ok r, w') → advs_of w' = advs_of w.
Proof.
  induction l as [|o l IH]; cbn [add_pool_loop]; intros Hrun; [by inv_ok|].
  case_match; [by inv_ok|]. case_match; [|by apply IH]. inv_ok.
  transitivity (advs_of w0); [by eapply pool_call_frame, call_Patch|].
  f_equal. clear Hrun1. destruct (bool_decide _); [destruct (metalapi.Pool_Labels o)|]; by inv_ok.
Qed.

(** The loops over the advertisements and over the pools to delete. *)
Lemma advertise_loop_Ok l pool w u w' :
  advertise_loop l pool w = (Ok u, w') → listed l w →
  pools_of w' = pools_of w ∧
  advs_of w' = update_all (λ a, Some (if decide (metalapi.Adv_Name a = defaultBgpAdvertisement) then
    set_IPAddressPools (metalapi.Adv_IPAddressPools a ++ [pool]) a else a)) l (advs_of w).
Proof.
  revert w. induction l as [|a l IH]; intros w Hrun Hl; cbn [advertise_loop] in Hrun.
  { by inv_ok. }
  inv_ok. assert (crd_objs w !! obj_key a = Some a) as Ha by (by apply proj2, Forall_cons_1 in Hl as [? _]).
  rewrite update_all_cons. case_decide as Hname; inv_ok.
  - destruct a0. pose proof (adv_call_frame _ _ (call_Patch _ _ _ _ _ Hrun0)) as Hf.
    eapply crd_Patch_Ok in Hrun0; [|done..]. apply IH in Hrun as [Hp Ha'].
    + split; [congruence|]. rewrite Ha'. exact (f_equal (update_all _ l) Hrun0).
    + by eapply (listed_step (λ _, Some _)).
  - apply IH in Hrun as [Hp Ha'].
    + split; [done|]. rewrite Ha'. f_equal. by apply partial_alter_Some.
    + eapply (listed_step (λ _, Some a)); [done|]. by apply partial_alter_Some.
Qed.
Lemma delete_pools_loop_Ok l pool w u w' :
  delete_pools_loop l pool w = (Ok u, w') → listed l w →
  advs_of w' = advs_of w ∧
  pools_of w' = update_all (λ o, if decide (metalapi.Pool_Name o = pool) then None else Some o) l (pools_of w).
Proof.
  revert w. induction l as [|o l IH]; intros w Hrun Hl; cbn [delete_pools_loop] in Hrun.
  { by inv_ok. }
  inv_ok. assert (crd_objs w !! obj_key o = Some o) as Ho by (by apply proj2, Forall_cons_1 in Hl as [? _]).
  rewrite update_all_cons. case_decide as Hname; inv_ok.
  - destruct a. pose proof (pool_call_frame _ _ (call_Delete _ _ _ _ Hrun0)) as Hf.
    eapply crd_Delete_Ok in Hrun0. apply IH in Hrun as [Ha Hp].
    + split; [congruence|]. rewrite Hp. exact (f_equal (update_all _ l) Hrun0).
    + by eapply (listed_step (λ _, None)).
  - apply IH in Hrun as [Ha Hp].
    + split; [done|]. rewrite Hp. f_equal. by apply partial_alter_Some.
    + eapply (listed_step (λ _, Some o)); [done|]. by apply partial_alter_Some.
Qed.

(** The loop that withdraws a pool from the default advertisement. *)
Lemma withdraw_skip pool a arr i n k :
  (∀ j, i ≤ j < i + n → arr !! j ≠ Some pool) →
  withdraw_loop (W := W) pool a arr i (n + k) = withdraw_loop pool a arr (i + n) k.
Proof.
  revert i. induction n as [|n IH]; intros i Hskip.
  - by rewrite Nat.add_0_r.
  - simpl. rewrite decide_False by (apply Hskip; lia).
    rewrite IH by (intros; apply Hskip; lia). f_equal. lia.
Qed.
Lemma withdraw_end pool a arr i n :
  (∀ j, i ≤ j < i + n → arr !! j ≠ Some pool) →
  withdraw_loop (W := W) pool a arr i n = mret ().
Proof. intros Hskip. pose proof (withdraw_skip pool a arr i n 0 Hskip) as Hs.
  by rewrite Nat.add_0_r in Hs. Qed.

Lemma filter_other (pool : string) l1 l2 :
  pool ∉ l1 → pool ∉ l2 → filter (λ p, p ≠ pool) (l1 ++ pool :: l2) = l1 ++ l2.
Proof.
  intros H1' H2'. rewrite filter_app, filter_cons_False by naive_solver. by rewrite !filter_others.
Qed.
Lemma exp_Delete_middle pool l1 l2 :
  exp_Delete (l1 ++ pool :: l2) (length l1) (length l1 + 1) = l1 ++ l2.
Proof.
  rewrite exp_Delete_spec by (rewrite ?length_app; simpl; lia).
  rewrite take_app_length, drop_app_ge by lia. f_equal.
  by replace (length l1 + 1 - length l1) with 1 by lia.
Qed.

(** The array after one name of the list was deleted. *)
Lemma withdraw_array pool l1 l2 k :
  zeroed_tail (l1 ++ pool :: l2) (l1 ++ l2) ++
    drop (length (l1 ++ pool :: l2)) (l1 ++ pool :: l2 ++ replicate k "") =
  (l1 ++ l2) ++ replicate (S k) "".
Proof.
  unfold zeroed_tail. rewrite !length_app. simpl length.
  replace (length l1 + S (length l2) - (length l1 + length l2)) with 1 by lia.
  rewrite <-app_assoc. f_equal. change (replicate (S k) "") with ([""] ++ replicate k ""). f_equal.
  rewrite app_comm_cons, app_assoc, drop_app_ge by (rewrite length_app; simpl; lia).
  rewrite length_app. simpl. by rewrite Nat.sub_diag.
Qed.
(** The loop at index [length l1]: what is left of the list is [l1 ++ l2],
    and [k] places of the array are zeroed. *)
Lemma withdraw_loop_run pool n : ∀ a l1 l2 k w u w',
  pool ≠ "" → length l2 ≤ n → (l1 = [] → l2 ≠ [pool]) →
  metalapi.Adv_IPAddressPools a = l1 ++ l2 → crd_objs w !! obj_key a = Some a →
  withdraw_loop pool a ((l1 ++ l2) ++ replicate k "") (length l1) (length l2 + k) w = (Ok u, w') →
  pools_of w' = pools_of w ∧
  advs_of w' = <[obj_key a := set_IPAddressPools (l1 ++ take_out pool l2) a]> (advs_of w).
Proof.
  induction n as [n IH] using lt_wf_ind. intros a l1 l2 k w u w' Hne Hn Hl1 Ha Hk Hrun.
  destruct l2 as [|x l2].
  { rewrite withdraw_end in Hrun.
    - inv_ok. split; [done|]. simpl. rewrite <-Ha. symmetry. apply insert_id. by destruct a.
    - intros j Hj. rewrite app_nil_r, lookup_app_r by lia. by intros [? _]%lookup_replicate. }
  cbn [length Nat.add withdraw_loop take_out] in Hrun |- *.
  rewrite <-app_assoc, <-app_comm_cons, list_lookup_middle in Hrun by done.
  destruct (decide (x = pool)) as [->|Hx].
  2:{ rewrite decide_False in Hrun by congruence. rewrite (cons_middle x l1), (app_assoc l1) in Ha.
      rewrite (cons_middle x l1), (app_assoc l1).
      apply (IH (length l2)) with (k := k) (u := u); [simpl in *; lia|done|lia|by destruct l1|done..|].
      rewrite <-Hrun. f_equal; [|rewrite length_app; simpl; lia].
      rewrite <-!app_assoc. done. }
  rewrite decide_True, Ha in Hrun by done.
  rewrite decide_True in Hrun by (rewrite length_app; destruct l1, l2; simpl; try lia; by destruct Hl1).
  rewrite decide_True in Hrun by (rewrite length_app; simpl; lia).
  rewrite exp_Delete_middle in Hrun. inv_ok. destruct a0.
  pose proof (adv_call_frame _ _ (call_Patch _ _ _ _ _ Hrun0)) as Hf.
  eapply crd_Patch_Ok in Hrun0; [|done..]. rewrite <-Hf. fold (advs_of w0) (advs_of w) in Hrun0.
  set (a1 := set_IPAddressPools (l1 ++ l2) a) in *.
  rewrite withdraw_array in Hrun. assert (crd_objs w0 !! obj_key a1 = Some a1) as Hk1.
  { fold (advs_of w0). rewrite Hrun0. apply lookup_insert_eq. }
  destruct l2 as [|y l2].
  - rewrite withdraw_end in Hrun.
    + inv_ok. split; [done|]. rewrite Hrun0. unfold a1. by rewrite app_nil_r.
    + intros j Hj. rewrite app_nil_r, lookup_app_r by lia. by intros [? _]%lookup_replicate.
  - rewrite <-(insert_insert_eq (advs_of w) (obj_key a) _ a1), <-Hrun0.
    rewrite (cons_middle y l1), (app_assoc l1).
    apply (IH (length l2)) with (a := a1) (k := S k) (u := u); [simpl in *; lia|done|lia|by destruct l1|..|done|].
    + unfold a1. simpl. by rewrite <-app_assoc.
    + rewrite <-Hrun. f_equal; [by rewrite <-!app_assoc|rewrite length_app; simpl; lia|simpl; lia].
Qed.

Lemma withdraw_loop_Ok pool a w u w' :
  pool ≠ "" → crd_objs w !! obj_key a = Some a →
  withdraw_loop pool a (metalapi.Adv_IPAddressPools a) 0 (length (metalapi.Adv_IPAddressPools a)) w
    = (Ok u, w') →
  pools_of w' = pools_of w ∧
  advs_of w' = partial_alter (λ _, withdrawn_by_loop pool a) (obj_key a) (advs_of w).
Proof.
  intros Hne Ha Hrun. unfold withdrawn_by_loop.
  destruct (decide (metalapi.Adv_IPAddressPools a = [pool])) as [Hl|Hl].
  - rewrite Hl in Hrun. cbn [length withdraw_loop] in Hrun.
    rewrite decide_True, Hl in Hrun by done. rewrite decide_False in Hrun by (simpl; lia).
    inv_ok. destruct a0. split; [by eapply adv_call_frame, call_Delete|]. by eapply crd_Delete_Ok in Hrun0.
  - eapply (withdraw_loop_run pool _ a [] (metalapi.Adv_IPAddressPools a) 0);
      [done|done|done|done|done|]. rewrite app_nil_r, Nat.add_0_r. exact Hrun.
Qed.

Lemma withdraw_from_default_Ok l pool w u w' :
  pool ≠ "" → listed l w →
  Forall (λ a, metalapi.Adv_Namespace a = m_namespace) l →
  withdraw_from_default l pool w = (Ok u, w') →
  pools_of w' = pools_of w ∧
  advs_of w' = update_all (λ a, if decide (metalapi.Adv_Name a = defaultBgpAdvertisement)
                                then withdrawn_by_loop pool a else Some a) l (advs_of w).
Proof.
  intros Hne Hl Hns. revert w Hl. induction l as [|a l IH]; intros w Hl Hrun;
    cbn [withdraw_from_default] in Hrun; [by inv_ok|].
  apply Forall_cons in Hns as [Hnsa Hns].
  assert (crd_objs w !! obj_key a = Some a) as Ha by (by apply proj2, Forall_cons_1 in Hl as [? _]).
  rewrite update_all_cons. case_decide as Hname.
  - apply withdraw_loop_Ok in Hrun as [Hp Hadv]; [|by auto..]. split; [done|]. rewrite Hadv.
    (* the name is unique in the namespace: the rest of the list is as it was *)
    symmetry. apply update_all_id, Forall_forall. intros b Hb.
    assert (obj_key b ≠ obj_key a) as Hkey.
    { destruct Hl as [Hnodup _]. rewrite fmap_cons in Hnodup. apply NoDup_cons in Hnodup as [Hn _].
      intros Heq. apply Hn. rewrite <-Heq. by apply list_elem_of_fmap_2. }
    rewrite decide_False.
    2:{ intros Hb'. apply Hkey. rewrite Forall_forall in Hns. unfold obj_key. simpl.
        by rewrite Hb', Hname, Hnsa, Hns. }
    rewrite lookup_partial_alter_ne by done. split; [done|].
    destruct Hl as [_ Hall]. rewrite Forall_forall in Hall. apply Hall. by right.
  - rewrite <-(partial_alter_Some (advs_of w)) by done. apply IH; [done..| |done].
    eapply (listed_step (λ _, Some a)); [done|]. by apply partial_alter_Some.
Qed.
End pools_lemmas.

(** What every call on pools and advertisements respects. *)
Section pools_frame.
Context {W : Type} (R : relation W) `{!PreOrder R, ExpSlices, CrdClient W metalapi.IPAddressPool,
  CrdClient W metalapi.BGPAdvertisement, !StaysCrd R metalapi.IPAddressPool,
  !StaysCrd R metalapi.BGPAdvertisement} (m_namespace : string).

Lemma stays_AddAddressPool add ns name : stays R (AddAddressPool m_namespace add ns name).
Proof.
  assert (∀ l new, stays R (add_pool_loop l new ns name)) as Hadd.
  { induction l as [|o l IH]; intros new; simpl; solve_stays. }
  assert (∀ l pool, stays R (advertise_loop l pool)) as Hadv.
  { induction l as [|o l IH]; intros pool; simpl; solve_stays. }
  unfold AddAddressPool, listIPAddressPools, listBGPAdvertisements. solve_stays.
Qed.
Lemma stays_RemoveAddressPool pool : stays R (RemoveAddressPool m_namespace pool).
Proof.
  assert (∀ l, stays R (delete_pools_loop l pool)) as Hdel.
  { induction l as [|o l IH]; simpl; solve_stays. }
  assert (∀ n a arr i, stays R (withdraw_loop pool a arr i n)) as Hwd.
  { induction n as [|n IH]; intros a arr i; simpl; solve_stays. }
  assert (∀ l, stays R (withdraw_from_default l pool)) as Hfrom.
  { induction l as [|o l IH]; simpl; solve_stays. }
  unfold RemoveAddressPool, listIPAddressPools, listBGPAdvertisements. solve_stays.
Qed.
End pools_frame.
#[export] Hint Resolve stays_AddAddressPool stays_RemoveAddressPool : stays.

(** A view that no call on pools or advertisements changes. *)
Section pools_view.
Context {W B : Type} (view : W → B) `{ExpSlices, CrdClient W metalapi.IPAddressPool,
  CrdClient W metalapi.BGPAdvertisement, !KeepsCrd view metalapi.IPAddressPool,
  !KeepsCrd view metalapi.BGPAdvertisement} (m_namespace : string).

Lemma keeps_AddAddressPool add ns name : keeps view (AddAddressPool m_namespace add ns name).
Proof. exact (stays_AddAddressPool (unchanged view) m_namespace add ns name). Qed.
Lemma keeps_RemoveAddressPool pool : keeps view (RemoveAddressPool m_namespace pool).
Proof. exact (stays_RemoveAddressPool (unchanged view) m_namespace pool). Qed.
End pools_view.
#[export] Hint Resolve keeps_AddAddressPool keeps_RemoveAddressPool : keeps.

(** The default advertisement names each of its pools once, and only pools
    that exist. *)
Definition adv_wf {W : Type}
    `{CrdClient W metalapi.IPAddressPool, !CrdLaws W metalapi.IPAddressPool,
      CrdClient W metalapi.BGPAdvertisement, !CrdLaws W metalapi.BGPAdvertisement}
    (m_namespace : string) (w : W) : Prop :=
  ∀ k a, advs_of w !! k = Some a → is_default_adv m_namespace a →
    NoDup (metalapi.Adv_IPAddressPools a) ∧
    Forall (λ p, is_Some (pools_of w !! (m_namespace, p))) (metalapi.Adv_IPAddressPools a).

(** With no advertisement of its own, the configurer can create one only
    when the default name is free. *)
Definition default_free {W : Type} `{CrdClient W metalapi.BGPAdvertisement,
    !CrdLaws W metalapi.BGPAdvertisement} (m_namespace : string) (w : W) : Prop :=
  map_Forall (λ _ a, ¬ managed m_namespace a) (advs_of w) →
  advs_of w !! (m_namespace, defaultBgpAdvertisement) = None.

Section pools_results.
Context {W : Type} `{ExpSlices,
  CrdClient W metalapi.IPAddressPool, !CrdLaws W metalapi.IPAddressPool,
  CrdClient W metalapi.BGPAdvertisement, !CrdLaws W metalapi.BGPAdvertisement,
  !CrdFrame W metalapi.IPAddressPool metalapi.BGPAdvertisement,
  !CrdFrame W metalapi.BGPAdvertisement metalapi.IPAddressPool}
  (m_namespace : string).
Implicit Types (o new : metalapi.IPAddressPool) (a : metalapi.BGPAdvertisement) (w : W).

(** Creating or extending the default advertisement. *)
Lemma advertise_Ok pool advs w u w' :
  listed advs w →
  (∀ a, a ∈ advs ↔ crd_objs w !! obj_key a = Some a ∧ in_list cpem_labels m_namespace a) →
  (if decide (length advs = 0) then
     wrap_err (Errorw "unable to add default BGPAdvertisement %s: %w" [defaultBgpAdvertisement])
       (crd_Create (default_adv m_namespace pool))
   else advertise_loop advs pool) w = (Ok u, w') →
  pools_of w' = pools_of w ∧ advs_of w' = advertised m_namespace pool (advs_of w) ∧
  default_free m_namespace w.
Proof.
  intros Hl Hin Hrun. unfold advertised. destruct (decide (length advs = 0)) as [Hlen|Hlen].
  - inv_ok. destruct u. rewrite decide_True.
    + split; [by eapply adv_call_frame, call_Create|]. apply crd_Create_Ok in Hrun as [Hnone Hw].
      split; [exact Hw|by intros _].
    + intros k a Ha Hm. pose proof (crd_keyed _ _ _ Ha) as <-. destruct advs; [|done].
      by apply (not_elem_of_nil a), Hin.
  - apply advertise_loop_Ok in Hrun as [Hp ->]; [|done]. split; [done|].
    assert (¬ map_Forall (λ _ a, ¬ managed m_namespace a) (advs_of w)) as Hsome.
    { intros Hall. destruct advs as [|a advs]; [done|].
      destruct (proj1 (Hin a) (list_elem_of_here _ _)) as [Hk Hm]. by apply (Hall _ _ Hk). }
    rewrite decide_False by done. split; [|by intros ?].
    + apply map_eq. intros k. unfold advs_of. rewrite (update_all_lookup _ _ _ _ _ k Hl Hin), lookup_fmap.
      destruct (crd_objs w !! k) as [a|]; [|done]. simpl.
      unfold is_default_adv. repeat case_decide; naive_solver.
Qed.

Lemma add_pool_objs add ns name w b w' :
  AddAddressPool m_namespace (Some add) ns name w = (Ok b, w') →
  let new := convertToIPAddr add m_namespace ns name in
  (b = false ∧ w' = w ∧ ∃ o, pools_of w !! obj_key new = Some o ∧
     managed m_namespace o ∧ pool_has_service o name = true) ∨
  (b = true ∧ advs_of w' = advs_of w ∧ ∃ o,
     pools_of w !! obj_key o = Some o ∧ managed m_namespace o ∧
     (metalapi.Pool_Name o = Pool_Name add ∧ pool_has_service o name = false ∨ shares o new) ∧
     pools_of w' = <[obj_key o := merged_pool o new ns name]> (pools_of w)) ∨
  (b = true ∧ pools_of w !! obj_key new = None ∧
     (∀ k o, pools_of w !! k = Some o → managed m_namespace o → ¬ shares o new) ∧
     pools_of w' = <[obj_key new := new]> (pools_of w) ∧
     advs_of w' = advertised m_namespace (Pool_Name add) (advs_of w) ∧
     default_free m_namespace w).
Proof.
  intros Hrun new. unfold AddAddressPool, listIPAddressPools, listBGPAdvertisements in Hrun.
  fold new in Hrun. inv_ok. rename a into olds. apply crd_List_listed in Hrun0 as (-> & Hl & Hin).
  pose proof (add_pool_loop_frame _ _ _ _ _ _ _ Hrun1) as Hframe.
  apply add_pool_loop_Ok in Hrun1; [|done]. destruct a0 as [[]|]; inv_ok.
  - right. left. destruct Hrun1 as (o & Ho & Hcase & Hw). apply Hin in Ho as [Hk Hm].
    split_and!; [done..|]. by exists o.
  - left. destruct Hrun1 as (-> & o & Ho & Hname & Hsvc). apply Hin in Ho as [Hk Hm].
    split_and!; [done..|]. exists o. split_and!; [|done..]. rewrite <-Hk. f_equal.
    unfold obj_key. f_equal; [|done]. by destruct Hm.
  - right. right. destruct Hrun1 as [-> Hall].
    apply crd_List_listed in Hrun2 as (-> & Hla & Hina). destruct a.
    pose proof (pool_call_frame _ _ (call_Create _ _ _ _ Hrun0)) as Hf.
    apply crd_Create_Ok in Hrun0 as [Hnone Hw].
    apply advertise_Ok in Hrun3 as (Hp & Ha & Hfree); [|done..].
    unfold default_free in *. rewrite Hf in *. split_and!; [done|done| |by rewrite Hp|done|done].
    intros k o Hk Hm Hsh. rewrite Forall_forall in Hall. pose proof (crd_keyed _ _ _ Hk) as <-.
    by destruct (Hall o) as [_ ?]; [apply Hin|].
Qed.

(** C34: AddAddressPool, when it returns without an error, did one of three
    things: nothing, because a pool of the name already carries the label
    of the service; one patch, of a pool of the same name or with a common
    address; or it created the pool, with no other pool sharing an address,
    and advertised it. It returns false in the first case only. *)
Theorem AddAddressPool_spec add ns name w b w' :
  AddAddressPool m_namespace (Some add) ns name w = (Ok b, w') →
  let new := convertToIPAddr add m_namespace ns name in
  (b = false ∧ w' = w ∧ ∃ o, pools_of w !! obj_key new = Some o ∧
     managed m_namespace o ∧ pool_has_service o name = true) ∨
  (b = true ∧ advs_of w' = advs_of w ∧ ∃ o,
     pools_of w !! obj_key o = Some o ∧ managed m_namespace o ∧
     (metalapi.Pool_Name o = Pool_Name add ∧ pool_has_service o name = false ∨ shares o new) ∧
     pools_of w' = <[obj_key o := merged_pool o new ns name]> (pools_of w)) ∨
  (b = true ∧ pools_of w !! obj_key new = None ∧
     (∀ k o, pools_of w !! k = Some o → managed m_namespace o → ¬ shares o new) ∧
     pools_of w' = <[obj_key new := new]> (pools_of w) ∧
     advs_of w' = advertised m_namespace (Pool_Name add) (advs_of w) ∧
     default_free m_namespace w).
Proof. apply add_pool_objs. Qed.

(** Whenever the new pool shares an address with an existing one, the
    patched pool has an empty string among its addresses: the compacted
    list is thrown away for the array it was compacted in. No address is
    lost. *)
Theorem AddAddressPool_shared_blank add ns name w b w' k o0 :
  AddAddressPool m_namespace (Some add) ns name w = (Ok b, w') →
  pools_of w !! k = Some o0 → managed m_namespace o0 →
  shares o0 (convertToIPAddr add m_namespace ns name) →
  (∀ k o, pools_of w !! k = Some o → managed m_namespace o → metalapi.Pool_Name o ≠ Pool_Name add) →
  b = true ∧ ∃ o o', pools_of w !! obj_key o = Some o ∧ pools_of w' !! obj_key o = Some o' ∧
    "" ∈ metalapi.Pool_Addresses o' ∧
    ∀ x, x ≠ "" → x ∈ metalapi.Pool_Addresses o' ↔
      x ∈ metalapi.Pool_Addresses o ∨ x ∈ Pool_Addresses add.
Proof.
  intros Hrun Hk Hm Hsh Hno. apply add_pool_objs in Hrun as
    [(_ & _ & o & Ho & Hmo & _)|[(-> & _ & o & Ho & Hmo & Hcase & Hw)|(_ & _ & Hall & _)]].
  - exfalso. apply (Hno _ _ Ho Hmo). pose proof (crd_keyed _ _ _ Ho) as Hkey.
    exact (f_equal snd Hkey).
  - split; [done|]. destruct Hcase as [[Hname _]|Hso]; [by destruct (Hno _ _ Ho Hmo)|].
    exists o. eexists. split; [done|]. split; [by rewrite Hw, lookup_insert_eq|].
    unfold merged_pool. rewrite (decide_False (P := _ = _)) by (by eapply Hno).
    pose proof Hso as Hso'. apply existsb_shares in Hso' as ->. simpl. split.
    + destruct Hso as (a & Ha & Ha'). by eapply merged_addresses_blank.
    + intros a Ha. by apply merged_addresses_elem.
  - by destruct (Hall _ _ Hk Hm).
Qed.

(** Removing a pool, whatever the default advertisement names. *)
Lemma remove_pool_loop_objs pool w u w' :
  pool ≠ "" → RemoveAddressPool m_namespace pool w = (Ok u, w') →
  (∀ k, pools_of w' !! k =
     (o ← pools_of w !! k;
      if decide (managed m_namespace o ∧ metalapi.Pool_Name o = pool) then None else Some o)) ∧
  (∀ k, advs_of w' !! k =
     (a ← advs_of w !! k;
      if decide (is_default_adv m_namespace a) then withdrawn_by_loop pool a else Some a)).
Proof.
  intros Hne Hrun. unfold RemoveAddressPool, listIPAddressPools, listBGPAdvertisements in Hrun.
  rewrite decide_False in Hrun by done. inv_ok. rename a into olds, a1 into advs.
  apply crd_List_listed in Hrun0 as (-> & Hl & Hin).
  apply delete_pools_loop_Ok in Hrun1 as [Hf Hp]; [|done].
  apply crd_List_listed in Hrun2 as (-> & Hla & Hina).
  assert (Forall (λ a, metalapi.Adv_Namespace a = m_namespace) advs) as Hns.
  { apply Forall_forall. by intros a [_ [? _]]%Hina. }
  apply (withdraw_from_default_Ok m_namespace) in Hrun as [Hp' Ha]; [|done..].
  - split; intros k.
    + rewrite Hp', Hp. unfold pools_of. rewrite (update_all_lookup _ _ _ _ _ k Hl Hin).
      destruct (crd_objs w !! k) as [o|]; [|done]. simpl. unfold managed.
      repeat case_decide; naive_solver.
    + rewrite Ha. unfold advs_of at 1. rewrite (update_all_lookup _ _ _ _ _ k Hla Hina).
      fold (advs_of w1). rewrite Hf. destruct (advs_of w !! k) as [a|]; [|done]. simpl.
      unfold is_default_adv, managed. repeat case_decide; naive_solver.
Qed.
(** The well-formedness of the default advertisement gives the loop under
    the deletion its plain meaning. *)
Lemma remove_pool_objs pool w u w' :
  pool ≠ "" → adv_wf m_namespace w →
  RemoveAddressPool m_namespace pool w = (Ok u, w') →
  (∀ k, pools_of w' !! k =
     (o ← pools_of w !! k;
      if decide (managed m_namespace o ∧ metalapi.Pool_Name o = pool) then None else Some o)) ∧
  (∀ k, advs_of w' !! k =
     (a ← advs_of w !! k;
      if decide (is_default_adv m_namespace a) then withdrawn pool a else Some a)).
Proof.
  intros Hne Hwf Hrun. apply remove_pool_loop_objs in Hrun as [Hp Ha]; [|done].
  split; [exact Hp|]. intros k. rewrite Ha. destruct (advs_of w !! k) as [a|] eqn:Hk; [|done]. simpl.
  destruct (decide (is_default_adv m_namespace a)) as [Hd|]; [|done].
  destruct (Hwf _ _ Hk Hd) as [Hnd _]. by apply withdrawn_by_loop_NoDup.
Qed.

(** C35: RemoveAddressPool, when it returns without an error, has deleted the
    pool of that name if the configurer manages it, and has run its loop over
    the default advertisement: one that names only this pool is deleted, and
    otherwise the name is taken out, except where it stands right after a
    place it was taken out of, because the list is shortened while the loop
    runs over it. Where the advertisement names every pool once, this is to
    take the name out and to delete the advertisement with its last pool.
    Every other object stays. *)
Theorem RemoveAddressPool_spec pool w u w' :
  pool ≠ "" → RemoveAddressPool m_namespace pool w = (Ok u, w') →
  (∀ k, pools_of w' !! k =
     (o ← pools_of w !! k;
      if decide (managed m_namespace o ∧ metalapi.Pool_Name o = pool) then None else Some o)) ∧
  (∀ k, advs_of w' !! k =
     (a ← advs_of w !! k;
      if decide (is_default_adv m_namespace a) then withdrawn_by_loop pool a else Some a)) ∧
  (∀ a, NoDup (metalapi.Adv_IPAddressPools a) → withdrawn_by_loop pool a = withdrawn pool a).
Proof.
  intros Hne Hrun. destruct (remove_pool_loop_objs pool w u w' Hne Hrun) as [Hp Ha].
  split; [exact Hp|]. split; [exact Ha|]. intros a. apply withdrawn_by_loop_NoDup.
Qed.

(** The default advertisement after [advertised]. *)
Lemma advertised_default pool m k a :
  (∀ k a, m !! k = Some a → obj_key a = k) →
  advertised m_namespace pool m !! k = Some a → is_default_adv m_namespace a →
  metalapi.Adv_IPAddressPools a = [pool] ∨
  ∃ a0, m !! k = Some a0 ∧ is_default_adv m_namespace a0 ∧
    metalapi.Adv_IPAddressPools a = metalapi.Adv_IPAddressPools a0 ++ [pool].
Proof.
  intros Hkeyed Hk Hd. unfold advertised in Hk. destruct (decide (map_Forall _ m)) as [Hno|_].
  - apply lookup_insert_Some in Hk as [[_ <-]|[_ Hk]]; [by left|].
    destruct Hd as [Hm _]. by destruct (Hno _ _ Hk).
  - right. rewrite lookup_fmap in Hk. destruct (m !! k) as [a0|]; [|done]. injection Hk as Hk.
    exists a0. split; [done|]. case_decide as Hd0; subst a; [done|]. by destruct Hd0.
Qed.

Lemma created_adv_wf add ns name w b w' :
  AddAddressPool m_namespace (Some add) ns name w = (Ok b, w') →
  adv_wf m_namespace w → adv_wf m_namespace w'.
Proof.
  intros Hrun Hwf. apply add_pool_objs in Hrun as
    [(_ & -> & _)|[(_ & Ha & o & Ho & _ & _ & Hp)|(_ & Hnone & _ & Hp & Ha & _)]]; [done| |].
  - intros k a Hk Hd. rewrite Ha in Hk. destruct (Hwf _ _ Hk Hd) as [Hnd Hall]. split; [done|].
    eapply Forall_impl; [exact Hall|]. simpl. intros p Hs. rewrite Hp.
    apply lookup_insert_is_Some'. by right.
  - intros k a Hk Hd. rewrite Ha in Hk. rewrite Hp.
    apply advertised_default in Hk; [|apply crd_keyed|done].
    assert (is_Some (<[obj_key (convertToIPAddr add m_namespace ns name) :=
      convertToIPAddr add m_namespace ns name]> (pools_of w) !! (m_namespace, Pool_Name add))) as Hnew.
    { by rewrite lookup_insert_eq. }
    destruct Hk as [->|(a0 & Hk & Hd0 & ->)].
    { split; [apply NoDup_singleton|by repeat constructor]. }
    destruct (Hwf _ _ Hk Hd0) as [Hnd Hall]. split.
    + apply NoDup_app. split_and!; [done| |apply NoDup_singleton].
      intros p Hpin ->%list_elem_of_singleton. rewrite Forall_forall in Hall.
      destruct (Hall _ Hpin) as [x Hx]. unfold obj_key in Hnone. simpl in Hnone. congruence.
    + apply Forall_app. split; [|by repeat constructor].
      eapply Forall_impl; [exact Hall|]. simpl. intros p Hs. apply lookup_insert_is_Some'. by right.
Qed.

(** AddAddressPool keeps the default advertisement well formed: it
    names each of its pools once and only pools that exist. *)
Theorem AddAddressPool_adv_wf add ns name w b w' :
  AddAddressPool m_namespace (Some add) ns name w = (Ok b, w') →
  adv_wf m_namespace w → adv_wf m_namespace w'.
Proof. apply created_adv_wf. Qed.

Lemma removed_adv_wf pool w u w' :
  RemoveAddressPool m_namespace pool w = (Ok u, w') →
  adv_wf m_namespace w → adv_wf m_namespace w'.
Proof.
  intros Hrun Hwf. destruct (decide (pool = "")) as [->|Hne].
  { unfold RemoveAddressPool in Hrun. rewrite decide_True in Hrun by done. by inv_ok. }
  apply remove_pool_objs in Hrun as [Hp Ha]; [|done..]. intros k a Hk Hd. rewrite Ha in Hk.
  destruct (advs_of w !! k) as [a0|] eqn:Hk0; [|done]. simpl in Hk.
  assert (∃ a0, advs_of w !! k = Some a0 ∧ is_default_adv m_namespace a0 ∧
    metalapi.Adv_IPAddressPools a = filter (λ p, p ≠ pool) (metalapi.Adv_IPAddressPools a0))
    as (a1 & Hk1 & Hd1 & ->).
  { exists a0. split; [done|]. case_decide as Hd0; [|simplify_eq; by destruct Hd0]. split; [done|].
    unfold withdrawn in Hk. case_decide as Hin; [case_decide; by simplify_eq|]. injection Hk as <-.
    symmetry. by apply filter_others. }
  destruct (Hwf _ _ Hk1 Hd1) as [Hnd Hall]. split; [by apply NoDup_filter|].
  apply Forall_forall. intros p [Hpp Hpin]%list_elem_of_filter. rewrite Forall_forall in Hall.
  destruct (Hall _ Hpin) as [o Ho]. rewrite Hp, Ho. simpl. rewrite decide_False; [by eexists|].
  intros [_ Hname]. pose proof (crd_keyed _ _ _ Ho) as Hkey. apply Hpp. rewrite <-Hname.
  exact (f_equal snd (eq_sym Hkey)).
Qed.

(** RemoveAddressPool keeps the default advertisement well formed. *)
Theorem RemoveAddressPool_adv_wf pool w u w' :
  RemoveAddressPool m_namespace pool w = (Ok u, w') →
  adv_wf m_namespace w → adv_wf m_namespace w'.
Proof. apply removed_adv_wf. Qed.

Lemma converted_managed add ns name :
  managed m_namespace (convertToIPAddr add m_namespace ns name).
Proof.
  split; [done|]. apply bool_decide_eq_true. apply map_subseteq_spec. intros k v.
  unfold cpem_labels. intros [<- <-]%lookup_singleton_Some. apply lookup_insert_eq.
Qed.
Lemma default_adv_managed pool : is_default_adv m_namespace (default_adv m_namespace pool).
Proof. done. Qed.

(** Withdrawing what was advertised. *)
Lemma advertised_withdrawn pool m k :
  (map_Forall (λ _ a, ¬ managed m_namespace a) m → m !! (m_namespace, defaultBgpAdvertisement) = None) →
  (∀ a, m !! k = Some a → is_default_adv m_namespace a →
     metalapi.Adv_IPAddressPools a ≠ [] ∧ pool ∉ metalapi.Adv_IPAddressPools a) →
  (a ← advertised m_namespace pool m !! k;
   if decide (is_default_adv m_namespace a) then withdrawn pool a else Some a) = m !! k.
Proof.
  intros Hfree Hdef. unfold advertised. destruct (decide (map_Forall _ m)) as [Hno|_].
  - destruct (decide (k = (m_namespace, defaultBgpAdvertisement))) as [->|Hk].
    + rewrite lookup_insert_eq. simpl. rewrite decide_True by apply default_adv_managed.
      unfold withdrawn. rewrite decide_True by apply list_elem_of_here. simpl.
      by rewrite Hfree.
    + rewrite lookup_insert_ne by done. destruct (m !! k) as [a|] eqn:Ha; [|done]. simpl.
      rewrite decide_False; [done|]. intros [Hm _]. by apply (Hno _ _ Ha).
  - rewrite lookup_fmap. destruct (m !! k) as [a|] eqn:Ha; [|done]. simpl.
    destruct (decide (is_default_adv m_namespace a)) as [Hd|Hd]; [|by rewrite decide_False].
    destruct (Hdef _ eq_refl Hd) as [Hfull Hnot]. rewrite decide_True by done.
    unfold withdrawn. simpl. rewrite decide_True by (rewrite elem_of_app, list_elem_of_singleton; by right).
    rewrite length_app. simpl. rewrite decide_True by (destruct (metalapi.Adv_IPAddressPools a); [done|simpl; lia]).
    rewrite filter_other by (done || apply not_elem_of_nil). rewrite app_nil_r. by destruct a.
Qed.

(** C12: Removing a pool that was just created, under a new name and without
    an address of another pool, restores the pools and the advertisements,
    provided the default advertisement names existing pools once each
    ([adv_wf]) and is not left over with an empty list. *)
Theorem RemoveAddressPool_AddAddressPool add ns name w b w1 u w2 :
  Pool_Name add ≠ "" → adv_wf m_namespace w →
  (∀ k a, advs_of w !! k = Some a → is_default_adv m_namespace a → metalapi.Adv_IPAddressPools a ≠ []) →
  pools_of w !! (m_namespace, Pool_Name add) = None →
  (∀ k o, pools_of w !! k = Some o → managed m_namespace o →
     ¬ shares o (convertToIPAddr add m_namespace ns name)) →
  AddAddressPool m_namespace (Some add) ns name w = (Ok b, w1) →
  RemoveAddressPool m_namespace (Pool_Name add) w1 = (Ok u, w2) →
  pools_of w2 = pools_of w ∧ advs_of w2 = advs_of w.
Proof.
  intros Hne Hwf Hfull Hnone Hno Hadd Hrm. pose proof Hadd as Hwf1.
  apply created_adv_wf in Hwf1; [|done]. apply remove_pool_objs in Hrm as [Hp2 Ha2]; [|done..].
  apply add_pool_objs in Hadd as [(_ & _ & o & Ho & _)|[(_ & _ & o & Ho & Hm & Hcase & _)|(_ & _ & _ & Hp & Ha & Hfree)]].
  - unfold obj_key in Ho. simpl in Ho. congruence.
  - exfalso. destruct Hcase as [[Hname _]|Hsh]; [|by eapply Hno].
    unfold obj_key in Ho. simpl in Ho. destruct Hm as [Hmns _]. simpl in Hmns. congruence.
  - split; apply map_eq; intros k.
    + rewrite Hp2, Hp. destruct (decide (k = (m_namespace, Pool_Name add))) as [->|Hk].
      * rewrite lookup_insert_eq, Hnone. simpl. rewrite decide_True; [done|]. split; [|done].
        apply converted_managed.
      * rewrite lookup_insert_ne by done. destruct (pools_of w !! k) as [o|] eqn:Ho; [|done]. simpl.
        rewrite decide_False; [done|]. intros [[Hns _] Hname]. apply Hk.
        rewrite <-(crd_keyed _ _ _ Ho). unfold obj_key. by rewrite Hns, <-Hname.
    + rewrite Ha2, Ha. apply advertised_withdrawn; [exact Hfree|].
      intros a Hk Hd. split; [by eapply Hfull|]. destruct (Hwf _ _ Hk Hd) as [_ Hall].
      intros Hin. rewrite Forall_forall in Hall. destruct (Hall _ Hin) as [x Hx]. congruence.
Qed.
End pools_results.

(** ** Concrete runs *)

Local Existing Instance exp_slices.

Definition demo_pool (name addr : string) : AddressPool := {|
  Pool_Protocol := "bgp"; Pool_Name := name; Pool_Addresses := [addr];
  Pool_AvoidBuggyIPs := false; Pool_AutoAssign := Some false; Pool_BGPAdvertisements := [] |}.
Local Abbreviation demo_add pool svc :=
  (AddAddressPool (W := World) "metallb-system" (Some pool) "default" svc).
Local Abbreviation demo_del pool := (RemoveAddressPool (W := World) "metallb-system" pool).

Definition pool_a : AddressPool := demo_pool "default-a" "203.0.113.1/32".
Definition pool_b : AddressPool := demo_pool "default-b" "203.0.113.1/32".
Definition world_a : World := final (demo_add pool_a "a") empty_world.
Definition world_ab : World := final (demo_add pool_b "b") world_a.

Lemma empty_adv_wf : adv_wf "metallb-system" empty_world.
Proof. intros k a Hk. vm_compute in Hk. discriminate Hk. Qed.
Lemma world_a_wf : adv_wf "metallb-system" world_a.
Proof.
  eapply (created_adv_wf "metallb-system" pool_a "default" "a" empty_world true).
  - vm_refl.
  - exact empty_adv_wf.
Qed.

Lemma world_a_pools : pools_of world_a =
  {[ ("metallb-system", "default-a") := convertToIPAddr pool_a "metallb-system" "default" "a" ]}.
Proof. vm_refl. Qed.
Lemma world_a_advs : advs_of world_a =
  {[ ("metallb-system", defaultBgpAdvertisement) := default_adv "metallb-system" "default-a" ]}.
Proof. vm_refl. Qed.

Lemma AddAddressPool_spec_witness :
  pools_of empty_world !! ("metallb-system", "default-a") = None ∧
  pools_of world_a !! ("metallb-system", "default-a") =
    Some (convertToIPAddr pool_a "metallb-system" "default" "a").
Proof.
  split; [vm_refl|].
  assert (demo_add pool_a "a" empty_world = (Ok true, world_a)) as Hrun by (vm_refl).
  destruct (AddAddressPool_spec "metallb-system" pool_a "default" "a" empty_world true world_a Hrun)
    as [(Hb & _)|[(_ & _ & o & Ho & _)|(_ & _ & _ & Hp & _)]].
  - discriminate Hb.
  - vm_compute in Ho. discriminate Ho.
  - rewrite Hp. exact (lookup_insert_eq _ _ _).
Defined.

Lemma AddAddressPool_shared_blank_witness :
  ∃ o o', pools_of world_a !! obj_key o = Some o ∧ pools_of world_ab !! obj_key o = Some o' ∧
    "" ∈ metalapi.Pool_Addresses o'.
Proof.
  assert (demo_add pool_b "b" world_a = (Ok true, world_ab)) as Hrun by (vm_refl).
  destruct (AddAddressPool_shared_blank "metallb-system" pool_b "default" "b" world_a true world_ab
    ("metallb-system", "default-a") (convertToIPAddr pool_a "metallb-system" "default" "a") Hrun)
    as (_ & o & o' & Ho & Ho' & Hblank & _).
  - vm_refl.
  - split; vm_refl.
  - exists "203.0.113.1/32". split; vm_compute; left.
  - intros k o Ho _. rewrite world_a_pools in Ho.
    apply lookup_singleton_Some in Ho as [_ <-]. discriminate.
  - exact (ex_intro _ o (ex_intro _ o' (conj Ho (conj Ho' Hblank)))).
Defined.

Lemma RemoveAddressPool_spec_witness :
  pools_of (final (demo_del "default-a") world_a) !! ("metallb-system", "default-a") = None.
Proof.
  assert (demo_del "default-a" world_a = (Ok (), final (demo_del "default-a") world_a)) as Hrun
    by (vm_refl).
  assert ("default-a" ≠ "") as Hne by discriminate.
  destruct (RemoveAddressPool_spec "metallb-system" "default-a" world_a () _ Hne Hrun)
    as [Hp _].
  rewrite Hp. vm_refl.
Defined.

Lemma AddAddressPool_adv_wf_witness : adv_wf "metallb-system" world_ab.
Proof.
  assert (demo_add pool_b "b" world_a = (Ok true, world_ab)) as Hrun by (vm_refl).
  exact (AddAddressPool_adv_wf "metallb-system" pool_b "default" "b" world_a true world_ab Hrun world_a_wf).
Defined.

Lemma RemoveAddressPool_adv_wf_witness :
  adv_wf "metallb-system" (final (demo_del "default-a") world_a).
Proof.
  assert (demo_del "default-a" world_a = (Ok (), final (demo_del "default-a") world_a)) as Hrun
    by (vm_refl).
  exact (RemoveAddressPool_adv_wf "metallb-system" "default-a" world_a () _ Hrun world_a_wf).
Defined.

(** A second pool, with an address of its own, comes and goes. *)
Definition pool_c : AddressPool := demo_pool "default-c" "203.0.113.3/32".
Definition world_ac : World := final (demo_add pool_c "c") world_a.
Lemma RemoveAddressPool_AddAddressPool_witness :
  pools_of (final (demo_del "default-c") world_ac) = pools_of world_a ∧
  advs_of (final (demo_del "default-c") world_ac) = advs_of world_a.
Proof.
  assert (demo_add pool_c "c" world_a = (Ok true, world_ac)) as Hadd by (vm_refl).
  assert (demo_del "default-c" world_ac = (Ok (), final (demo_del "default-c") world_ac)) as Hdel
    by (vm_refl).
  refine (RemoveAddressPool_AddAddressPool "metallb-system" pool_c "default" "c" world_a true world_ac
    () _ _ world_a_wf _ _ _ Hadd Hdel).
  - discriminate.
  - intros k a Ha _. rewrite world_a_advs in Ha. apply lookup_singleton_Some in Ha as [_ <-].
    discriminate.
  - vm_refl.
  - intros k o Ho _ (x & Hx & Hx'). rewrite world_a_pools in Ho.
    apply lookup_singleton_Some in Ho as [_ <-].
    apply list_elem_of_singleton in Hx, Hx'. simplify_eq.
Defined.

(** The patch of the advertisement failed after its pool was deleted, and the
    pool was made again: it is now named twice in a row. Removing it leaves
    one of the two names, of a pool that is not there. *)
Definition world_stale : World := final (crd_Delete (convertToIPAddr pool_c "metallb-system" "default" "c")) world_ac.
Definition world_twice : World := final (demo_add pool_c "c") world_stale.
Lemma RemoveAddressPool_leaves_a_name :
  let w := final (demo_del "default-c") world_twice in
  demo_del "default-c" world_twice = (Ok (), w) ∧
  pools_of w !! ("metallb-system", "default-c") = None ∧
  (metalapi.Adv_IPAddressPools <$> advs_of w !! ("metallb-system", defaultBgpAdvertisement)) =
    Some ["default-a"; "default-c"].
Proof. split; [vm_refl|split; vm_refl]. Qed.
