(* ===== verification/MetalLB.v ===== *)
(** * The MetalLB implementation of the load balancer

    [cherry/loadbalancers/metallb/metallb.go]: the configurer interface, the
    operations of the load balancer in terms of it, and what the custom
    resource configurer promises through it. *)

From Stdlib Require Import Ascii.
From S2P Require Import Prelude GoStrings GoSort GoSlices Api World LoadBalancer MetalLBTypes MetalLBPeers ServiceSelectors CrdStore Crd CrdPeers CrdPools.

(** ** Definitions *)

(** The [Configurer] interface. *)
Record Configurer (W : Type) := {
  cfg_UpdatePeersByService : list Peer → string → string → M W bool;
  cfg_RemovePeersByService : string → string → M W bool;
  cfg_AddAddressPool : option AddressPool → string → string → M W bool;
  cfg_RemoveAddressPool : string → M W unit;
  cfg_RemoveAddressPoolByAddress : string → M W unit;
  cfg_Get : M W unit;
  cfg_Update : M W unit
}.
Arguments cfg_UpdatePeersByService {W} _.
Arguments cfg_RemovePeersByService {W} _.
Arguments cfg_AddAddressPool {W} _.
Arguments cfg_RemoveAddressPool {W} _.
Arguments cfg_RemoveAddressPoolByAddress {W} _.
Arguments cfg_Get {W} _.
Arguments cfg_Update {W} _.

Definition CRDConfigurer {W} `{PdqSort, GoRange, ExpSlices, CrdClient W metalapi.BGPPeer,
    CrdClient W metalapi.IPAddressPool, CrdClient W metalapi.BGPAdvertisement}
    (namespace : string) : Configurer W := {|
  cfg_UpdatePeersByService := UpdatePeersByService namespace;
  cfg_RemovePeersByService := RemovePeersByService namespace;
  cfg_AddAddressPool := AddAddressPool namespace;
  cfg_RemoveAddressPool := RemoveAddressPool namespace;
  cfg_RemoveAddressPoolByAddress := RemoveAddressPoolByAddress;
  cfg_Get := Crd.Get;
  cfg_Update := Crd.Update
|}.

(** Deleting the matches of [[^a-zA-Z0-9-]+] keeps the other bytes. *)
Definition pool_char (c : ascii) : bool :=
  let n := nat_of_ascii c in
  ((97 <=? n) && (n <=? 122)) || ((65 <=? n) && (n <=? 90)) || ((48 <=? n) && (n <=? 57)) || (n =? 45).
Fixpoint keep_pool_chars (s : string) : string :=
  match s with
  | "" => ""
  | String c s' => if pool_char c then String c (keep_pool_chars s') else keep_pool_chars s'
  end.
Definition poolName (svcNamespace svcName : string) : string :=
  keep_pool_chars svcNamespace +:+ "." +:+ keep_pool_chars svcName.

Record LB (W : Type) := {
  configurer : Configurer W;
  peersFromNodes : list loadbalancers.Node → list Peer
}.
Arguments configurer {W} _.
Arguments peersFromNodes {W} _.

(** The balancer [NewLB] returns. *)
Definition crdLB {W} `{PdqSort, GoRange, ExpSlices, CrdClient W metalapi.BGPPeer,
    CrdClient W metalapi.IPAddressPool, CrdClient W metalapi.BGPAdvertisement}
    (namespace : string) (peersFromNodes : list loadbalancers.Node → list Peer) : LB W :=
  let namespace := if decide (namespace = "") then defaultNamespace else namespace in
  {| configurer := CRDConfigurer namespace; peersFromNodes := peersFromNodes |}.
(** [client.New(clientconfig.GetConfigOrDie(), ...)]: whether a client of the
    cluster can be made, which is asked for here and nowhere else. Without a
    configuration the process exits, and without a client [NewLB] panics. *)
Class CrdRuntime := client_New : option error.
Definition NewLB {W} `{CrdRuntime, PdqSort, GoRange, ExpSlices, CrdClient W metalapi.BGPPeer,
    CrdClient W metalapi.IPAddressPool, CrdClient W metalapi.BGPAdvertisement}
    (namespace : string) (peersFromNodes : list loadbalancers.Node → list Peer) : res (LB W) :=
  match client_New with
  | Some _ => Panic
  | None => Ok (crdLB namespace peersFromNodes)
  end.

Section operations.
Context {W : Type}.

(** A nil configurer is [None]. *)
Definition updateMapIP (config : option (Configurer W)) (addr svcNamespace svcName : string) (add : bool)
  : M W unit :=
  match config with
  | None => mret ()
  | Some config =>
      let name := poolName svcNamespace svcName in
      changed ← (if add then
                   wrap_err (Errorw "failed to add IP: %w" [])
                     (cfg_AddAddressPool config
                        (Some {| Pool_Protocol := "bgp"; Pool_Name := name; Pool_Addresses := [addr];
                                 Pool_AvoidBuggyIPs := false; Pool_AutoAssign := Some false;
                                 Pool_BGPAdvertisements := [] |}) svcNamespace svcName)
                 else
                   wrap_err (Errorw "error removing IPAddressPool: %w" [])
                     (cfg_RemoveAddressPool config name);;
                   mret true);
      if (changed : bool) then wrap_err (Errorw "error updating: %w" []) (cfg_Update config)
      else mret ()
  end.
Definition mapIP (config : Configurer W) (addr svcNamespace svcName : string) : M W unit :=
  updateMapIP (Some config) addr svcNamespace svcName true.
Definition unmapIP (config : Configurer W) (addr svcNamespace svcName : string) : M W unit :=
  updateMapIP (Some config) addr svcNamespace svcName false.

Context (l : LB W).
Let config := configurer l.

Definition addNodes (svcNamespace svcName : string) (nodes : list loadbalancers.Node) : M W unit :=
  wrap_err (Errorw "unable to get metallb config: %w" []) (cfg_Get config);;
  let peersToUpdate := peersFromNodes l nodes in
  changed ← wrap_err (Errorw "unable to update nodes: %w" [])
              (cfg_UpdatePeersByService config peersToUpdate svcNamespace svcName);
  if (changed : bool) then cfg_Update config else mret ().

Definition AddService (svcNamespace svcName ip : string) (nodes : list loadbalancers.Node) : M W unit :=
  wrap_err (Errorw "unable to add retrieve metallb config: %w" []) (cfg_Get config);;
  wrap_err (Errorw "unable to map IP to service: %w" []) (mapIP config ip svcNamespace svcName);;
  wrap_err (Errorw "failed to add nodes: %w" []) (addNodes svcNamespace svcName nodes).

Definition RemoveService (svcNamespace svcName ip : string) : M W unit :=
  wrap_err (Errorw "unable to retrieve metallb config: %w" []) (cfg_Get config);;
  wrap_err (Errorw "failed to remove IP: %w" []) (unmapIP config ip svcNamespace svcName);;
  removed ← wrap_err (Errorw "unable to remove service: %w" [])
              (cfg_RemovePeersByService config svcNamespace svcName);
  if (removed : bool) then wrap_err (Errorw "unable to remove service: %w" []) (cfg_Update config)
  else mret ().

Definition UpdateService (svcNamespace svcName : string) (nodes : list loadbalancers.Node) : M W unit :=
  wrap_err (Errorw "failed to add nodes: %w" []) (addNodes svcNamespace svcName nodes).

(** [LB] behind the load balancer interface. *)
Definition impl : loadbalancers.LB W := {|
  loadbalancers.AddService := AddService;
  loadbalancers.RemoveService := RemoveService;
  loadbalancers.UpdateService := UpdateService;
  loadbalancers.ServiceIP := metallb_ip.ServiceIP;
  loadbalancers.SetServiceIP := metallb_ip.SetServiceIP
|}.
End operations.

Global Instance metallb_LBAnnotations {W} (l : LB W) : LBAnnotations (impl l).
Proof. solve_annotations metallb_ip.ServiceIP. Qed.

(** ** What a configurer promises

    The load balancer needs three views of the configuration: an invariant
    of it, the pools by name and the services its peers record. *)
(** A peer whose own node selectors do not look like the record of a
    service. *)
Definition serviceless (p : Peer) : Prop :=
  services_of (convertToNodeSelectors (Peer_NodeSelectors p)) = [].

Class ConfigurerLaws {W} (c : Configurer W) := {
  cfg_inv : W → Prop;
  cfg_pool : W → string → Prop;
  cfg_records : W → Resource → Prop;
  cfg_Get_Ok : ∀ w u w', cfg_Get c w = (Ok u, w') → cfg_inv w → cfg_inv w' ∧
    (∀ p, cfg_pool w' p ↔ cfg_pool w p) ∧ (∀ r, cfg_records w' r ↔ cfg_records w r);
  cfg_Update_Ok : ∀ w u w', cfg_Update c w = (Ok u, w') → cfg_inv w → cfg_inv w' ∧
    (∀ p, cfg_pool w' p ↔ cfg_pool w p) ∧ (∀ r, cfg_records w' r ↔ cfg_records w r);
  cfg_AddAddressPool_Ok : ∀ pool ns name w b w',
    cfg_AddAddressPool c (Some pool) ns name w = (Ok b, w') → cfg_inv w → cfg_inv w' ∧
    (∀ p, cfg_pool w p → cfg_pool w' p) ∧ (∀ p, cfg_pool w' p → cfg_pool w p ∨ p = Pool_Name pool) ∧
    (∀ r, cfg_records w' r ↔ cfg_records w r);
  cfg_RemoveAddressPool_Ok : ∀ pool w u w', pool ≠ "" →
    cfg_RemoveAddressPool c pool w = (Ok u, w') → cfg_inv w → cfg_inv w' ∧
    (∀ p, cfg_pool w' p ↔ p ≠ pool ∧ cfg_pool w p) ∧ (∀ r, cfg_records w' r ↔ cfg_records w r);
  cfg_RemovePeersByService_Ok : ∀ svc w b w', valid_service svc →
    cfg_RemovePeersByService c (Res_Namespace svc) (Res_Name svc) w = (Ok b, w') →
    cfg_inv w → cfg_inv w' ∧
    (∀ p, cfg_pool w' p ↔ cfg_pool w p) ∧ (∀ r, cfg_records w' r ↔ r ≠ svc ∧ cfg_records w r);
  cfg_UpdatePeersByService_Ok : ∀ adds svc w b w', valid_service svc → Forall serviceless adds →
    cfg_UpdatePeersByService c adds (Res_Namespace svc) (Res_Name svc) w = (Ok b, w') →
    cfg_inv w → cfg_inv w' ∧
    (∀ p, cfg_pool w' p ↔ cfg_pool w p) ∧ (∀ r, cfg_records w' r → cfg_records w r ∨ r = svc)
}.

(** ** The custom resource configurer keeps the promises *)

Section crd.
Context {W : Type} `{PdqSort, GoRange, ExpSlices,
  CrdClient W metalapi.BGPPeer, !CrdLaws W metalapi.BGPPeer,
  CrdClient W metalapi.IPAddressPool, !CrdLaws W metalapi.IPAddressPool,
  CrdClient W metalapi.BGPAdvertisement, !CrdLaws W metalapi.BGPAdvertisement,
  !CrdFrame W metalapi.IPAddressPool metalapi.BGPAdvertisement,
  !CrdFrame W metalapi.BGPAdvertisement metalapi.IPAddressPool,
  !CrdFrame W metalapi.BGPPeer metalapi.IPAddressPool,
  !CrdFrame W metalapi.BGPPeer metalapi.BGPAdvertisement,
  !CrdFrame W metalapi.IPAddressPool metalapi.BGPPeer,
  !CrdFrame W metalapi.BGPAdvertisement metalapi.BGPPeer}.
Variable m_namespace : string.

Definition peers_of (w : W) : gmap (string * string) metalapi.BGPPeer := crd_objs w.

Global Instance peers_of_pools : KeepsCrd peers_of metalapi.IPAddressPool.
Proof. exact frame_KeepsCrd. Qed.
Global Instance peers_of_advs : KeepsCrd peers_of metalapi.BGPAdvertisement.
Proof. exact frame_KeepsCrd. Qed.
Global Instance pools_of_peers : KeepsCrd (pools_of (W := W)) metalapi.BGPPeer.
Proof. exact frame_KeepsCrd. Qed.
Global Instance advs_of_peers : KeepsCrd (advs_of (W := W)) metalapi.BGPPeer.
Proof. exact frame_KeepsCrd. Qed.

(** The pools of the configurer, and the services its peers record. *)
Definition crd_pool (w : W) (p : string) : Prop :=
  ∃ o, pools_of w !! (m_namespace, p) = Some o ∧ managed m_namespace o.
Definition crd_records (w : W) (r : Resource) : Prop :=
  ∃ k o, peers_of w !! k = Some o ∧ managed_peer m_namespace o ∧ r ∈ peer_services o.

Lemma crd_pool_key w p o :
  pools_of w !! (m_namespace, p) = Some o → metalapi.Pool_Name o = p.
Proof. intros Ho. pose proof (crd_keyed _ _ _ Ho) as Hk. exact (f_equal snd Hk). Qed.

Lemma merged_pool_meta o new ns name :
  obj_key (merged_pool o new ns name) = obj_key o ∧
  (managed m_namespace o → managed m_namespace (merged_pool o new ns name)).
Proof.
  split; unfold merged_pool.
  - by repeat case_match.
  - intros [Hns Hl]. assert (labels_match cpem_labels (Some
      (<[serviceLabelKey name := serviceLabelValue ns]> (default ∅ (metalapi.Pool_Labels o)))) = true).
    { apply bool_decide_eq_true in Hl.
      apply bool_decide_eq_true, map_subseteq_spec. simpl. intros k v Hk.
      rewrite lookup_insert_ne; [exact (lookup_weaken _ _ _ _ Hk Hl)|]. unfold cpem_labels in Hk.
      apply lookup_singleton_Some in Hk as [<- _]. discriminate. }
    by repeat case_match.
Qed.

Lemma crd_pool_same w w' : pools_of w' = pools_of w → ∀ p, crd_pool w' p ↔ crd_pool w p.
Proof. intros Heq p. unfold crd_pool. by rewrite Heq. Qed.
Lemma crd_records_same w w' : peers_of w' = peers_of w → ∀ r, crd_records w' r ↔ crd_records w r.
Proof. intros Heq r. unfold crd_records. by rewrite Heq. Qed.
Lemma adv_wf_same w w' :
  pools_of w' = pools_of w → advs_of w' = advs_of w → adv_wf m_namespace w → adv_wf m_namespace w'.
Proof. intros Hp Ha Hwf k a. rewrite Hp, Ha. apply Hwf. Qed.

Lemma crd_add_pool pool ns name w b w' :
  AddAddressPool m_namespace (Some pool) ns name w = (Ok b, w') →
  (∀ p, crd_pool w p → crd_pool w' p) ∧ (∀ p, crd_pool w' p → crd_pool w p ∨ p = Pool_Name pool).
Proof.
  intros [(_ & -> & _)|[(_ & _ & o & Ho & Hm & _ & Hw)|(_ & Hnone & _ & Hw & _)]]%add_pool_objs.
  - naive_solver.
  - destruct (merged_pool_meta o (convertToIPAddr pool m_namespace ns name) ns name) as [Hk Hm'].
    assert (∀ p, obj_key o = (m_namespace, p) → crd_pool w p) as Hold.
    { intros p Hp. exists o. by rewrite <-Hp. }
    split; intros p (x & Hx & Hmx).
    + unfold crd_pool. rewrite Hw. destruct (decide (obj_key o = (m_namespace, p))) as [Hp|Hp].
      * rewrite Hp, lookup_insert_eq. eexists. split; [done|]. by apply Hm'.
      * rewrite lookup_insert_ne by done. by exists x.
    + rewrite Hw in Hx. apply lookup_insert_Some in Hx as [[Hp _]|[_ Hx]]; left;
        [by apply Hold|by exists x].
  - split; intros p (x & Hx & Hmx).
    + exists x. rewrite Hw, lookup_insert_ne; [done|]. intros Heq. rewrite Heq in Hnone. congruence.
    + rewrite Hw in Hx. apply lookup_insert_Some in Hx as [[Hp _]|[_ Hx]]; [right|left; by exists x].
      exact (f_equal snd (eq_sym Hp)).
Qed.

Lemma crd_remove_pool pool w u w' :
  pool ≠ "" → adv_wf m_namespace w → RemoveAddressPool m_namespace pool w = (Ok u, w') →
  ∀ p, crd_pool w' p ↔ p ≠ pool ∧ crd_pool w p.
Proof.
  intros Hne Hwf Hrun p. apply remove_pool_objs in Hrun as [Hp _]; [|done..].
  unfold crd_pool. rewrite Hp. destruct (pools_of w !! (m_namespace, p)) as [o|] eqn:Ho; [|naive_solver].
  apply crd_pool_key in Ho as Hname. simpl. rewrite Hname. case_decide; naive_solver.
Qed.

(** An update only ever records the service it is for. *)
Lemma created_records svc n r :
  valid_service svc → r ∈ peer_services (created_peer svc n) → r ∈ peer_services n ∨ r = svc.
Proof.
  intros Hv. unfold created_peer, peerAddService, peer_services. rewrite Resource_eta.
  destruct (add_service svc (peer_selectors n)) as [b l] eqn:E.
  apply add_service_services in E as (Hb & _ & _); [|done]. destruct b; [|by left].
  simpl. change (services_of (peer_selectors (set_NodeSelectors l n))) with (services_of l).
  rewrite Hb, elem_of_cons. naive_solver.
Qed.
Lemma news_serviceless svc adds n :
  Forall serviceless adds → n ∈ news_of m_namespace svc adds → peer_services n = [].
Proof. rewrite Forall_forall. intros Hs (p & -> & Hp)%list_elem_of_fmap. by apply Hs. Qed.
Lemma updated_records svc adds w b w' r :
  valid_service svc → Forall serviceless adds →
  UpdatePeersByService m_namespace adds (Res_Namespace svc) (Res_Name svc) w = (Ok b, w') →
  crd_records w' r → crd_records w r ∨ r = svc.
Proof.
  intros Hv Hs Hrun (k & o' & Hk & Hm & Hr). unfold peers_of in Hk.
  rewrite (update_peers_objs _ _ _ _ _ _ Hrun) in Hk.
  assert (∀ n, n ∈ news_of m_namespace svc adds → r ∈ peer_services n → r = svc) as Hnew.
  { intros n Hn Hrn. rewrite (news_serviceless _ _ _ Hs Hn) in Hrn. by apply not_elem_of_nil in Hrn. }
  destruct (crd_objs w !! k) as [o|] eqn:Ho.
  - case_decide as Hmo; [|by simplify_eq].
    assert (r ∈ peer_services o → crd_records w r) as Hold by (intros ?; by exists k, o).
    unfold reconciled_peer in Hk. destruct (find_peer _ _) as [n|] eqn:Hn.
    + injection Hk as <-. destruct (peerSpecEqual (metalapi.BGPPeer_Spec o) (metalapi.BGPPeer_Spec n)) eqn:Heq.
      * destruct (updated_peer_equal svc Hv o n Heq) as [Heq' _]. rewrite Heq' in Hr.
        apply created_records in Hr as [?| ->]; auto.
      * apply find_peer_Some in Hn as [Hn _]. right. apply (Hnew n Hn). revert Hr.
        unfold peer_services, peer_selectors. by rewrite (updated_peer_respec svc o n Heq).
    + apply removed_peer_services in Hk as (_ & _ & Hrs); [|done]. apply Hrs in Hr as [? _]. auto.
  - right. repeat case_decide; [| |done].
    + apply find_peer_Some in Hk as [Hn _]. by apply (Hnew o').
    + apply fmap_Some in Hk as (n & Hn & ->). rewrite peers_toAdd_lookup in Hn.
      apply find_peer_Some in Hn as [Hn _]. rewrite elem_of_reverse in Hn.
      apply created_records in Hr as [?|?]; [by apply (Hnew n)|done..].
Qed.

Global Program Instance CRDConfigurer_laws : ConfigurerLaws (CRDConfigurer m_namespace) := {|
  cfg_inv := adv_wf m_namespace;
  cfg_pool := crd_pool;
  cfg_records := crd_records
|}.
Next Obligation. intros w u w' Hrun Hwf. injection Hrun as _ <-. done. Qed.
Next Obligation. intros w u w' Hrun Hwf. injection Hrun as _ <-. done. Qed.
Next Obligation.
  cbn [CRDConfigurer cfg_AddAddressPool cfg_RemoveAddressPool cfg_RemovePeersByService]. intros pool ns name w b w' Hrun Hwf. split; [exact (created_adv_wf _ _ _ _ _ _ _ Hrun Hwf)|].
  destruct (crd_add_pool _ _ _ _ _ _ Hrun) as [H1' H2']. split_and!; [done..|].
  apply crd_records_same. exact (keeps_AddAddressPool peers_of _ _ _ _ _ _ _ Hrun).
Qed.
Next Obligation.
  cbn [CRDConfigurer cfg_AddAddressPool cfg_RemoveAddressPool cfg_RemovePeersByService]. intros pool w u w' Hne Hrun Hwf. split; [exact (removed_adv_wf _ _ _ _ _ Hrun Hwf)|].
  split; [exact (crd_remove_pool _ _ _ _ Hne Hwf Hrun)|].
  apply crd_records_same. exact (keeps_RemoveAddressPool peers_of _ _ _ _ _ Hrun).
Qed.
Next Obligation.
  cbn [CRDConfigurer cfg_AddAddressPool cfg_RemoveAddressPool cfg_RemovePeersByService]. intros svc w b w' Hv Hrun Hwf.
  assert (pools_of w' = pools_of w) as Hp by exact (keeps_RemovePeersByService pools_of _ _ _ _ _ _ Hrun).
  assert (advs_of w' = advs_of w) as Ha by exact (keeps_RemovePeersByService advs_of _ _ _ _ _ _ Hrun).
  split; [by eapply adv_wf_same|]. split; [by apply crd_pool_same|].
  intros r. unfold crd_records. pose proof (removed_services _ _ _ _ _ Hv Hrun) as Hr.
  split.
  - intros (k & Hk). apply (Hr k r) in Hk as [Hne Hk]. split; [done|]. by exists k.
  - intros (Hne & k & Hk). exists k. by apply Hr.
Qed.
Next Obligation.
  cbn [CRDConfigurer cfg_UpdatePeersByService]. intros adds svc w b w' Hv Hs Hrun Hwf.
  assert (pools_of w' = pools_of w) as Hp by exact (keeps_UpdatePeersByService pools_of _ _ _ _ _ _ _ Hrun).
  assert (advs_of w' = advs_of w) as Ha by exact (keeps_UpdatePeersByService advs_of _ _ _ _ _ _ _ Hrun).
  split; [by eapply adv_wf_same|]. split; [by apply crd_pool_same|].
  intros r. by apply (updated_records svc adds w b w').
Qed.
End crd.

(** ** The load balancer on any configurer that keeps the promises *)

Section load_balancer.
Context {W : Type} (l : LB W) `{!ConfigurerLaws (configurer l)}.

Lemma poolName_ne ns name : poolName ns name ≠ "".
Proof. unfold poolName. by destruct (keep_pool_chars ns). Qed.

Lemma unmapIP_Ok addr ns name w u w' :
  unmapIP (configurer l) addr ns name w = (Ok u, w') → cfg_inv w →
  cfg_inv w' ∧ (∀ p, cfg_pool w' p ↔ p ≠ poolName ns name ∧ cfg_pool w p) ∧
  (∀ r, cfg_records w' r ↔ cfg_records w r).
Proof.
  unfold unmapIP, updateMapIP. intros Hrun Hinv. inv_ok.
  match goal with H : cfg_RemoveAddressPool _ _ _ = _ |- _ =>
    apply cfg_RemoveAddressPool_Ok in H as (Hi1 & Hp1 & Hr1); [|apply poolName_ne|done] end.
  match goal with H : cfg_Update _ _ = _ |- _ =>
    apply cfg_Update_Ok in H as (Hi2 & Hp2 & Hr2); [|done] end.
  split; [done|]. split; intros; by rewrite ?Hp2, ?Hr2.
Qed.

Lemma mapIP_Ok addr ns name w u w' :
  mapIP (configurer l) addr ns name w = (Ok u, w') → cfg_inv w →
  cfg_inv w' ∧ (∀ p, cfg_pool w p → cfg_pool w' p) ∧
  (∀ p, cfg_pool w' p → cfg_pool w p ∨ p = poolName ns name) ∧
  (∀ r, cfg_records w' r ↔ cfg_records w r).
Proof.
  unfold mapIP, updateMapIP. intros Hrun Hinv. inv_ok.
  match goal with H : cfg_AddAddressPool _ _ _ _ _ = _ |- _ =>
    apply cfg_AddAddressPool_Ok in H as (Hi1 & Hp1 & Hp1' & Hr1); [|done] end.
  destruct a; inv_ok; [|done].
  match goal with H : cfg_Update _ _ = _ |- _ =>
    apply cfg_Update_Ok in H as (Hi2 & Hp2 & Hr2); [|done] end.
  split; [done|]. split; [intros p Hp; by apply Hp2, Hp1|].
  split; [intros p Hp; by apply Hp1', Hp2|]. intros r. by rewrite Hr2.
Qed.

(** What removing and adding a service do to the three views. *)
Lemma RemoveService_Ok svc ip w u w' :
  valid_service svc → cfg_inv w →
  RemoveService l (Res_Namespace svc) (Res_Name svc) ip w = (Ok u, w') →
  cfg_inv w' ∧
  (∀ p, cfg_pool w' p ↔ p ≠ poolName (Res_Namespace svc) (Res_Name svc) ∧ cfg_pool w p) ∧
  (∀ r, cfg_records w' r ↔ r ≠ svc ∧ cfg_records w r).
Proof.
  unfold RemoveService. intros Hv Hinv Hrun. inv_ok.
  apply cfg_Get_Ok in Hrun0 as (Hi1 & Hp1 & Hr1); [|done].
  apply unmapIP_Ok in Hrun1 as (Hi2 & Hp2 & Hr2); [|done].
  apply cfg_RemovePeersByService_Ok in Hrun2 as (Hi3 & Hp3 & Hr3); [|done..].
  assert (cfg_inv w' ∧ (∀ p, cfg_pool w' p ↔ cfg_pool w2 p) ∧ (∀ r, cfg_records w' r ↔ cfg_records w2 r))
    as (Hi4 & Hp4 & Hr4).
  { destruct a1; inv_ok; [|done]. by eapply cfg_Update_Ok. }
  split; [done|]. split; intros; by rewrite ?Hp4, ?Hp3, ?Hp2, ?Hp1, ?Hr4, ?Hr3, ?Hr2, ?Hr1.
Qed.

Lemma addNodes_Ok svc nodes w u w' :
  valid_service svc → Forall serviceless (peersFromNodes l nodes) →
  addNodes l (Res_Namespace svc) (Res_Name svc) nodes w = (Ok u, w') → cfg_inv w →
  cfg_inv w' ∧ (∀ p, cfg_pool w' p ↔ cfg_pool w p) ∧
  (∀ r, cfg_records w' r → cfg_records w r ∨ r = svc).
Proof.
  unfold addNodes. intros Hv Hs Hrun Hinv. inv_ok.
  apply cfg_Get_Ok in Hrun0 as (Hi1 & Hp1 & Hr1); [|done].
  apply cfg_UpdatePeersByService_Ok in Hrun1 as (Hi2 & Hp2 & Hr2); [|done..].
  assert (cfg_inv w' ∧ (∀ p, cfg_pool w' p ↔ cfg_pool w1 p) ∧ (∀ r, cfg_records w' r ↔ cfg_records w1 r))
    as (Hi3 & Hp3 & Hr3).
  { destruct a0; inv_ok; [|done]. by eapply cfg_Update_Ok. }
  split; [done|]. split; [intros p; by rewrite Hp3, Hp2, Hp1|].
  intros r [Hr| ->]%Hr3%Hr2; [left; by apply Hr1|by right].
Qed.

Lemma AddService_Ok svc addr nodes w u w' :
  valid_service svc → Forall serviceless (peersFromNodes l nodes) →
  AddService l (Res_Namespace svc) (Res_Name svc) addr nodes w = (Ok u, w') → cfg_inv w →
  cfg_inv w' ∧ (∀ p, cfg_pool w p → cfg_pool w' p) ∧
  (∀ p, cfg_pool w' p → cfg_pool w p ∨ p = poolName (Res_Namespace svc) (Res_Name svc)) ∧
  (∀ r, cfg_records w' r → cfg_records w r ∨ r = svc).
Proof.
  unfold AddService. intros Hv Hs Hrun Hinv. inv_ok.
  apply cfg_Get_Ok in Hrun0 as (Hi1 & Hp1 & Hr1); [|done].
  apply mapIP_Ok in Hrun1 as (Hi2 & Hp2 & Hp2' & Hr2); [|done].
  apply addNodes_Ok in Hrun as (Hi3 & Hp3 & Hr3); [|done..].
  split_and!; [done| | |].
  - intros p Hp. by apply Hp3, Hp2, Hp1.
  - intros p [Hp| ->]%Hp3%Hp2'; [left; by apply Hp1|by right].
  - intros r [Hr| ->]%Hr3; [left; by apply Hr1, Hr2|by right].
Qed.

(** C27: A service removed from the load balancer leaves nothing behind and
    nothing else goes: its pool and its records are gone, every other pool
    and the records of every other service are as they were. *)
Theorem RemoveService_exact svc ip w u w' :
  valid_service svc → cfg_inv w →
  RemoveService l (Res_Namespace svc) (Res_Name svc) ip w = (Ok u, w') →
  cfg_inv w' ∧
  (∀ p, cfg_pool w' p ↔ p ≠ poolName (Res_Namespace svc) (Res_Name svc) ∧ cfg_pool w p) ∧
  (∀ r, cfg_records w' r ↔ r ≠ svc ∧ cfg_records w r).
Proof. apply RemoveService_Ok. Qed.
End load_balancer.

(** ** Pool names *)

(** Names made of the characters a pool name keeps, as the names of
    namespaces and services of a cluster are. *)
Definition label_name (s : string) : Prop := keep_pool_chars s = s.

Lemma keep_pool_chars_no_dot s : no_char "."%char (keep_pool_chars s).
Proof.
  induction s as [|c s IH]; simpl; [done|]. destruct (pool_char c) eqn:Hc; [|done].
  split; [|done]. by intros ->.
Qed.

(** The pool name determines what is kept of the namespace and of the
    name, so two services whose names are labels never share a pool name. *)
Theorem poolName_inj ns1 name1 ns2 name2 :
  poolName ns1 name1 = poolName ns2 name2 →
  keep_pool_chars ns1 = keep_pool_chars ns2 ∧ keep_pool_chars name1 = keep_pool_chars name2 ∧
  (label_name ns1 → label_name ns2 → label_name name1 → label_name name2 →
   ns1 = ns2 ∧ name1 = name2).
Proof.
  unfold poolName. intros Heq.
  pose proof (Cut_first "."%char "" _ (keep_pool_chars name1) (keep_pool_chars_no_dot ns1)) as H1.
  pose proof (Cut_first "."%char "" _ (keep_pool_chars name2) (keep_pool_chars_no_dot ns2)) as H2.
  rewrite Heq, H2 in H1. injection H1 as Hns Hname.
  unfold label_name. split_and!; [done..|]. intros. split; congruence.
Qed.

(** ** Concrete runs *)

Local Existing Instance key_order.
Local Existing Instance pdqsort_by_insertion.
Local Existing Instance exp_slices.

Lemma poolName_inj_witness :
  poolName "default" "we_b" = poolName "default" "web" ∧
  keep_pool_chars "we_b" = keep_pool_chars "web".
Proof.
  split; [reflexivity|].
  exact (proj1 (proj2 (poolName_inj "default" "we_b" "default" "web" eq_refl))).
Defined.

Definition demo_node : loadbalancers.Node := {|
  loadbalancers.Name := "n1"; loadbalancers.SourceIP := "10.1.0.1"; loadbalancers.LocalASN := 65000;
  loadbalancers.PeerASN := 64512; loadbalancers.Password := "";
  loadbalancers.Peers := [{| loadbalancers.Address := "10.0.0.1"; loadbalancers.Port := 179 |}];
  loadbalancers.Region := "LT" |}.
Definition demo_lb : LB World := crdLB "" PeersFromNodesNative.
Definition world_lb : World :=
  final (AddService demo_lb "default" "web" "203.0.113.1/32" [demo_node]) empty_world.

Lemma world_lb_wf : cfg_inv (c := configurer demo_lb) world_lb.
Proof.
  assert (advs_of world_lb = {[ ("metallb-system", defaultBgpAdvertisement) :=
    default_adv "metallb-system" "default.web" ]}) as Hadvs by (vm_refl).
  intros k a Hk _. rewrite Hadvs in Hk. apply lookup_singleton_Some in Hk as [_ <-].
  split; [apply NoDup_singleton|]. apply Forall_singleton.
  refine (bool_decide_eq_true_1 _ _). vm_refl.
Qed.

Lemma RemoveService_exact_witness :
  is_Some (pools_of world_lb !! ("metallb-system", "default.web")) ∧
  ¬ cfg_pool (c := configurer demo_lb)
      (final (RemoveService demo_lb "default" "web" "203.0.113.1/32") world_lb) "default.web".
Proof.
  split; [refine (bool_decide_eq_true_1 _ _); vm_refl|].
  assert (RemoveService demo_lb "default" "web" "203.0.113.1/32" world_lb =
    (Ok (), final (RemoveService demo_lb "default" "web" "203.0.113.1/32") world_lb)) as Hrun
    by (vm_refl).
  destruct (RemoveService_exact demo_lb demo_svc "203.0.113.1/32" world_lb () _
    demo_valid world_lb_wf Hrun) as (_ & Hp & _).
  intros Hin. apply Hp in Hin as [Hne _]. exact (Hne eq_refl).
Defined.
