(* ===== verification/MetalLBConverge.v ===== *)
(** * Adding a service again and again

    The cloud controller calls [AddService] of
    [cherry/loadbalancers/metallb/metallb.go] at every reconciliation of a
    service. On the custom resource configurer this file composes what
    [AddAddressPool] and [UpdatePeersByService] do: after two successful
    calls for the same address and nodes, a third writes nothing. *)

From S2P Require Import Prelude GoStrings GoSort GoSlices Api World LoadBalancer MetalLBTypes MetalLBPeers ServiceSelectors CrdStore Crd CrdPeers CrdConverge CrdPools MetalLB.

(** ** The pool of a service *)

Section pool.
Context {W : Type} `{ExpSlices,
  CrdClient W metalapi.IPAddressPool, !CrdLaws W metalapi.IPAddressPool,
  CrdClient W metalapi.BGPAdvertisement, !CrdLaws W metalapi.BGPAdvertisement,
  !CrdFrame W metalapi.IPAddressPool metalapi.BGPAdvertisement,
  !CrdFrame W metalapi.BGPAdvertisement metalapi.IPAddressPool}
  (m_namespace : string) (pool : AddressPool) (ns name : string).
Implicit Types (o : metalapi.IPAddressPool) (w : W).

(** No other pool of the configurer has an address of this one. *)
Definition own_addresses (w : W) : Prop :=
  ∀ k o, pools_of w !! k = Some o → managed m_namespace o →
    metalapi.Pool_Name o ≠ Pool_Name pool → ¬ shares o (convertToIPAddr pool m_namespace ns name).
(** The pool is there, with the label of the service. *)
Definition labelled_pool (w : W) : Prop :=
  ∃ o, pools_of w !! (m_namespace, Pool_Name pool) = Some o ∧ managed m_namespace o ∧
    pool_has_service o name = true.

Lemma has_service_label o m :
  metalapi.Pool_Labels o = Some m → is_Some (m !! serviceLabelKey name) → pool_has_service o name = true.
Proof.
  intros Ho [v Hv]. unfold pool_has_service. rewrite Ho. apply existsb_exists.
  exists (serviceLabelKey name). split.
  - apply list_elem_of_In, list_elem_of_fmap. exists (serviceLabelKey name, v). split; [done|].
    by apply elem_of_map_to_list.
  - unfold label_is_service, serviceLabelKey, HasPrefix, TrimPrefix. rewrite strip_app.
    by rewrite bool_decide_true.
Qed.

Lemma merged_has_service o new :
  metalapi.Pool_Name o = metalapi.Pool_Name new → pool_has_service (merged_pool o new ns name) name = true.
Proof.
  intros Hname.
  assert (metalapi.Pool_Labels (merged_pool o new ns name) =
    Some (<[serviceLabelKey name := serviceLabelValue ns]> (default ∅ (metalapi.Pool_Labels o)))) as Hl.
  { unfold merged_pool. rewrite decide_True by done. by case_match. }
  eapply has_service_label; [exact Hl|]. by rewrite lookup_insert_eq.
Qed.

(** The first call: whatever it did, the pool has the label after it. *)
Lemma add_pool_labels w b w' :
  own_addresses w → AddAddressPool m_namespace (Some pool) ns name w = (Ok b, w') →
  own_addresses w' ∧ labelled_pool w'.
Proof.
  intros Hown. set (new := convertToIPAddr pool m_namespace ns name).
  intros [(_ & -> & Hold)|[(_ & _ & o & Ho & Hm & Hcase & Hw)|(_ & _ & _ & Hw & _)]]%add_pool_objs.
  - done.
  - assert (metalapi.Pool_Name o = Pool_Name pool) as Hname.
    { destruct (decide (metalapi.Pool_Name o = Pool_Name pool)) as [|Hne]; [done|].
      destruct Hcase as [[? _]|Hsh]; [done|]. by destruct (Hown _ _ Ho Hm Hne). }
    destruct (merged_pool_meta m_namespace o new ns name) as [Hkey Hman]. split.
    + intros k x Hx Hmx Hne. rewrite Hw in Hx. apply lookup_insert_Some in Hx as [[_ <-]|[_ Hx]];
        [|by eapply Hown]. destruct Hne. rewrite <-Hname. exact (f_equal snd Hkey).
    + assert (obj_key o = (m_namespace, Pool_Name pool)) as Hok.
      { destruct Hm as [Hns _]. unfold obj_key. by rewrite Hns, <-Hname. }
      exists (merged_pool o new ns name). rewrite Hw, Hok, lookup_insert_eq.
      split_and!; [done|by apply Hman|by apply merged_has_service].
  - split.
    + intros k x Hx Hmx Hne. rewrite Hw in Hx.
      apply lookup_insert_Some in Hx as [[_ <-]|[_ Hx]]; [done|by eapply Hown].
    + exists new. rewrite Hw. split_and!; [apply lookup_insert_eq|by apply converted_managed|].
      eapply has_service_label; [done|].
      destruct (decide (cpemLabelKey = serviceLabelKey name)) as [->|Hne];
        [by rewrite lookup_insert_eq|].
      by rewrite lookup_insert_ne, lookup_singleton_eq.
Qed.

(** A pool that is labelled is left alone. *)
Lemma labelled_loop new l w :
  Forall (λ o, if decide (metalapi.Pool_Name o = metalapi.Pool_Name new)
               then pool_has_service o name = true else ¬ shares o new) l →
  Exists (λ o, metalapi.Pool_Name o = metalapi.Pool_Name new) l →
  add_pool_loop l new ns name w = (Ok (Some false), w).
Proof.
  intros Hall Hex. induction Hall as [|o l Ho _ IH]; [by apply Exists_nil in Hex|].
  cbn [add_pool_loop]. case_decide as Hname.
  - by rewrite bool_decide_true, Ho.
  - rewrite bool_decide_false by done.
    destruct (existsb _ _) eqn:Hsh; [by apply existsb_shares in Hsh|].
    apply IH. by apply Exists_cons in Hex as [?|?].
Qed.
Lemma add_pool_again w b w' :
  own_addresses w → labelled_pool w →
  AddAddressPool m_namespace (Some pool) ns name w = (Ok b, w') → b = false ∧ w' = w.
Proof.
  intros Hown (o & Ho & Hm & Hsvc) Hrun.
  unfold AddAddressPool, listIPAddressPools in Hrun. inv_ok. rename a into olds.
  apply crd_List_listed in Hrun0 as (-> & Hl & Hin).
  pose proof (crd_keyed _ _ _ Ho) as Hkey.
  assert (metalapi.Pool_Name o = Pool_Name pool) as Hname by exact (f_equal snd Hkey).
  rewrite labelled_loop in Hrun1; [by injection Hrun1 as <- <-; inv_ok| |].
  - apply Forall_forall. intros x [Hx Hmx]%Hin. case_decide as Hxn; [|by eapply Hown].
    assert (obj_key x = (m_namespace, Pool_Name pool)) as Hxk.
    { destruct Hmx as [Hns _]. unfold obj_key. rewrite Hns. exact (f_equal (pair _) Hxn). }
    rewrite Hxk in Hx. unfold pools_of in Ho. congruence.
  - apply Exists_exists. exists o. split; [|done]. apply Hin. rewrite Hkey. by split.
Qed.

(** Without that the call never settles: as long as the pool is not there
    and another one has an address of it, every call patches such a pool, its
    list grows by all the addresses asked for, and the pool is not made. *)
Definition taken_elsewhere (w : W) : Prop :=
  (∃ k o, pools_of w !! k = Some o ∧ managed m_namespace o ∧
     shares o (convertToIPAddr pool m_namespace ns name)) ∧
  ∀ k o, pools_of w !! k = Some o → managed m_namespace o → metalapi.Pool_Name o ≠ Pool_Name pool.

Lemma merged_addresses_length old add :
  length (merged_addresses old add) = length old + length add.
Proof.
  unfold merged_addresses, zeroed_tail. rewrite length_app, length_replicate.
  pose proof (exp_Compact_length (exp_Sort (old ++ add))) as Hle.
  rewrite (Permutation_length (exp_Sort_perm (old ++ add))) in *. rewrite length_app in *. lia.
Qed.
Lemma merged_addresses_keep old add x : x ∈ old → x ∈ merged_addresses old add.
Proof.
  intros Hx. apply elem_of_app. left. apply elem_of_exp_Compact. rewrite exp_Sort_perm.
  apply elem_of_app. by left.
Qed.

Lemma add_pool_never_settles w b w' :
  taken_elsewhere w → AddAddressPool m_namespace (Some pool) ns name w = (Ok b, w') →
  b = true ∧ taken_elsewhere w' ∧
  ∃ o o', pools_of w !! obj_key o = Some o ∧ pools_of w' !! obj_key o = Some o' ∧
    length (metalapi.Pool_Addresses o') = length (metalapi.Pool_Addresses o) + length (Pool_Addresses pool).
Proof.
  intros [(k & x & Hx & Hmx & Hshx) Hno].
  set (new := convertToIPAddr pool m_namespace ns name) in *.
  intros [(_ & _ & o & Ho & Hm & _)|[(-> & _ & o & Ho & Hm & Hcase & Hw)|(_ & _ & Hall & _)]]%add_pool_objs.
  - destruct (Hno _ _ Ho Hm). exact (f_equal snd (crd_keyed _ _ _ Ho)).
  - pose proof (Hno _ _ Ho Hm) as Hne. destruct Hcase as [[Hname _]|Hsh]; [done|].
    destruct (merged_pool_meta m_namespace o new ns name) as [Hkey Hman].
    assert (merged_pool o new ns name =
      set_Addresses (merged_addresses (metalapi.Pool_Addresses o) (Pool_Addresses pool)) o) as Hmerged.
    { unfold merged_pool. rewrite (decide_False (P := _ = _)) by done.
      by rewrite (proj2 (existsb_shares o new) Hsh). }
    fold new in Hw. split; [done|]. split; [split|].
    + exists (obj_key o), (merged_pool o new ns name). rewrite Hw, lookup_insert_eq.
      split; [done|]. split; [by apply Hman|]. rewrite Hmerged.
      destruct Hsh as (a & Ha & Ha'). exists a. split; [by apply merged_addresses_keep|done].
    + intros k' y Hy Hmy. rewrite Hw in Hy. apply lookup_insert_Some in Hy as [[_ <-]|[_ Hy]];
        [|by eapply Hno]. by rewrite Hmerged.
    + exists o, (merged_pool o new ns name). rewrite Hw, lookup_insert_eq.
      split_and!; [done..|]. rewrite Hmerged. apply merged_addresses_length.
  - by destruct (Hall _ _ Hx Hmx).
Qed.
End pool.

(** ** The whole service *)

Section service.
Context {W : Type} `{PdqSort, GoRange, ExpSlices,
  CrdClient W metalapi.BGPPeer, !CrdLaws W metalapi.BGPPeer,
  CrdClient W metalapi.IPAddressPool, !CrdLaws W metalapi.IPAddressPool,
  CrdClient W metalapi.BGPAdvertisement, !CrdLaws W metalapi.BGPAdvertisement,
  !CrdFrame W metalapi.IPAddressPool metalapi.BGPAdvertisement,
  !CrdFrame W metalapi.BGPAdvertisement metalapi.IPAddressPool,
  !CrdFrame W metalapi.BGPPeer metalapi.IPAddressPool,
  !CrdFrame W metalapi.BGPPeer metalapi.BGPAdvertisement,
  !CrdFrame W metalapi.IPAddressPool metalapi.BGPPeer,
  !CrdFrame W metalapi.BGPAdvertisement metalapi.BGPPeer}.
Variables (m_namespace : string) (fromNodes : list loadbalancers.Node → list Peer).
Let lb : LB W := {| configurer := CRDConfigurer m_namespace; peersFromNodes := fromNodes |}.

(** The pool [updateMapIP] asks for. *)
Definition service_pool (ns name addr : string) : AddressPool := {|
  Pool_Protocol := "bgp"; Pool_Name := poolName ns name; Pool_Addresses := [addr];
  Pool_AvoidBuggyIPs := false; Pool_AutoAssign := Some false; Pool_BGPAdvertisements := [] |}.

(** A successful [AddService] is the two configurer calls. *)
Lemma AddService_calls ns name addr nodes w u w' :
  AddService lb ns name addr nodes w = (Ok u, w') →
  ∃ b1 wm b2, AddAddressPool m_namespace (Some (service_pool ns name addr)) ns name w = (Ok b1, wm) ∧
    UpdatePeersByService m_namespace (fromNodes nodes) ns name wm = (Ok b2, w').
Proof.
  unfold AddService, mapIP, updateMapIP, addNodes. cbn [lb configurer peersFromNodes CRDConfigurer
    cfg_Get cfg_Update cfg_AddAddressPool cfg_UpdatePeersByService]. unfold Crd.Get, Crd.Update.
  intros Hrun. inv_ok. exists a1, w1, a2. destruct a1, a2; inv_ok; done.
Qed.

Lemma pools_kept m peers ns name w b w' :
  UpdatePeersByService m peers ns name w = (Ok b, w') → pools_of w' = pools_of w.
Proof. exact (keeps_UpdatePeersByService pools_of m ns name peers w (Ok b) w'). Qed.
Lemma own_addresses_same m pool ns name w w' :
  pools_of w' = pools_of w → own_addresses m pool ns name w → own_addresses m pool ns name w'.
Proof. intros Heq Hown k o. rewrite Heq. apply Hown. Qed.
Lemma labelled_same m pool name w w' :
  pools_of w' = pools_of w → labelled_pool m pool name w → labelled_pool m pool name w'.
Proof. unfold labelled_pool. by intros ->. Qed.

(** C4: on custom resources, adding a service reaches a fixed point if no
    pool of another name that the configurer manages has its address
    ([own_addresses]; [add_pool_never_settles] shows that it is needed) and
    the nodes give at least one peer, each with a name of its own. Then two
    successful calls for the same address and nodes leave the pool of the
    service labelled with it, every peer of the nodes in place with its spec
    and the service, and the service on no other peer; the next successful
    call finds nothing to change. This is so whatever peers the cluster
    started with, and whether or not the pool of the service was there. *)
Theorem AddService_converges svc addr nodes w u1 w1 u2 w2 u3 w3 :
  let pool := service_pool (Res_Namespace svc) (Res_Name svc) addr in
  let add := AddService lb (Res_Namespace svc) (Res_Name svc) addr nodes in
  let news := news_of m_namespace svc (fromNodes nodes) in
  valid_service svc → fromNodes nodes ≠ [] → NoDup (Peer_Name <$> fromNodes nodes) →
  own_addresses m_namespace pool (Res_Namespace svc) (Res_Name svc) w →
  add w = (Ok u1, w1) → add w1 = (Ok u2, w2) → add w2 = (Ok u3, w3) →
  w3 = w2 ∧ labelled_pool m_namespace pool (Res_Name svc) w2 ∧
  all_managed m_namespace (settled_peer svc news) w2 ∧ present m_namespace news w2.
Proof.
  intros pool add news Hv Hne Hnd Hown.
  intros (b1 & a1 & c1 & Hadd1 & Hup1)%AddService_calls.
  intros (b2 & a2 & c2 & Hadd2 & Hup2)%AddService_calls.
  intros (b3 & a3 & c3 & Hadd3 & Hup3)%AddService_calls.
  apply add_pool_labels in Hadd1 as [Hown1 Hlab1]; [|done].
  pose proof (pools_kept _ _ _ _ _ _ _ Hup1) as Hk1.
  apply (own_addresses_same _ _ _ _ _ _ Hk1) in Hown1. apply (labelled_same _ _ _ _ _ Hk1) in Hlab1.
  apply add_pool_again in Hadd2 as [_ ->]; [|done..].
  pose proof (pools_kept _ _ _ _ _ _ _ Hup2) as Hk2.
  apply (own_addresses_same _ _ _ _ _ _ Hk2) in Hown1. apply (labelled_same _ _ _ _ _ Hk2) in Hlab1.
  apply add_pool_again in Hadd3 as [_ ->]; [|done..].
  destruct (update_lists _ _ _ _ _ _ _ Hup3) as [l Hl].
  destruct (two_updates_settle _ _ _ _ _ _ _ _ _ _ Hv Hne Hnd Hup1 Hup2 Hl) as (Hs & Hp & Hstable).
  rewrite Hstable in Hup3. by injection Hup3 as _ <-.
Qed.
End service.

(** ** Concrete runs *)

Local Existing Instance key_order.
Local Existing Instance pdqsort_by_insertion.
Local Existing Instance exp_slices.

Local Abbreviation demo_add w := (AddService demo_lb "default" "web" "203.0.113.1/32" [demo_node] w).
Definition world_lb2 : World := (demo_add world_lb).2.
Lemma AddService_converges_witness :
  world_lb2 ≠ world_lb ∧ demo_add world_lb2 = (Ok (), world_lb2).
Proof.
  assert (demo_add world_lb2 = (Ok (), (demo_add world_lb2).2)) as H3 by vm_refl.
  split.
  - intros Heq. assert (records_in demo_svc world_lb2 "n1-0" = true) as Ht by vm_refl.
    rewrite Heq in Ht. vm_compute in Ht. discriminate Ht.
  - refine (eq_trans H3 (f_equal (pair (Ok ())) _)).
    refine (proj1 (AddService_converges "metallb-system" PeersFromNodesNative demo_svc "203.0.113.1/32"
      [demo_node] empty_world () world_lb () world_lb2 () _ demo_valid _ _ _ _ _ _)).
    + discriminate.
    + refine (bool_decide_eq_true_1 _ _); vm_refl.
    + intros k o Ho. vm_compute in Ho. discriminate Ho.
    + vm_refl.
    + vm_refl.
    + exact H3.
Defined.
