(* ===== verification/GoSortEff.v ===== *)
(** * [sort.Sort] with a [Less] that writes

    Some comparisons of the program sort slices inside the elements they
    compare, in place, and some panic. [Less] then gives the result and what
    it leaves of the two elements. The insertion sort is that of [GoSort];
    above twelve elements a class again says what the documentation promises. *)

From S2P Require Import Prelude GoSort.

(** ** Definitions *)

(** A comparison that may panic, and what it leaves of its operands. *)
Abbreviation cmp A := (A → A → res (bool * A * A)).

Section insertion.
Context {A : Type} (less : cmp A).

Fixpoint sift_eff (x : A) (prefix : list A) : res (list A) :=
  match prefix with
  | [] => Ok [x]
  | y :: prefix' =>
      '(b, x, y) ← less x y;
      if (b : bool) then l ← sift_eff x prefix'; Ok (y :: l) else Ok (x :: y :: prefix')
  end.
Fixpoint insertion_loop_eff (prefix l : list A) : res (list A) :=
  match l with
  | [] => Ok (reverse prefix)
  | x :: l' => prefix ← sift_eff x prefix; insertion_loop_eff prefix l'
  end.
Definition insertionSort_eff (l : list A) : res (list A) := insertion_loop_eff [] l.
End insertion.

(** On elements with [P] the comparison answers as [lt] and leaves elements
    that are the same up to [R]; [lt] does not see the difference. *)
Record answers {A} (less : cmp A) (P : A → Prop) (R : relation A) (lt : A → A → bool) : Prop := {
  answers_run : ∀ x y, P x → P y →
    ∃ x' y', less x y = Ok (lt x y, x', y') ∧ R x x' ∧ R y y' ∧ P x' ∧ P y';
  answers_refl : Reflexive R;
  answers_trans : Transitive R;
  answers_proper : ∀ x x' y y', R x x' → R y y' → lt x y = lt x' y'
}.

(** [l'] is a rearrangement of [l], up to [R]. *)
Definition perm_upto {A} (R : relation A) (l l' : list A) : Prop := ∃ l0, l0 ≡ₚ l ∧ Forall2 R l0 l'.

Class PdqSortEff := {
  pdqsort_eff : ∀ {A : Type}, cmp A → list A → res (list A);
  pdqsort_eff_spec : ∀ {A : Type} (less : cmp A) P R lt l,
    answers less P R lt → Forall P l →
    ∃ l', pdqsort_eff less l = Ok l' ∧ perm_upto R l l' ∧ Forall P l' ∧
      (StrictWeak lt → sorted_by lt l')
}.
Definition sort_Sort_eff `{PdqSortEff} {A} (less : cmp A) (l : list A) : res (list A) :=
  if decide (length l ≤ maxInsertion) then insertionSort_eff less l else pdqsort_eff less l.

(** [for i, p := range l { if !p.Equal(&o[i]) { return false } }]: a missing
    [o[i]] panics. *)
Fixpoint equal_loop {A} (eq : cmp A) (l o : list A) : res (bool * list A * list A) :=
  match l, o with
  | [], _ => Ok (true, [], o)
  | x :: l', y :: o' =>
      '(b, x, y) ← eq x y;
      if (b : bool) then '(b, l', o') ← equal_loop eq l' o'; Ok (b, x :: l', y :: o')
      else Ok (false, x :: l', y :: o')
  | _ :: _, [] => Panic
  end.

(** ** Lemmas *)

Lemma perm_upto_length {A} (R : relation A) l l' : perm_upto R l l' → length l' = length l.
Proof. intros (l0 & Hp & Hf). by rewrite <-(Forall2_length _ _ _ Hf), Hp. Qed.

Section lemmas.
Context {A : Type} (less : cmp A) (P : A → Prop) (R : relation A) (lt : A → A → bool).
Hypothesis Hless : answers less P R lt.
#[local] Instance R_refl : Reflexive R := answers_refl _ _ _ _ Hless.
#[local] Instance R_trans : Transitive R := answers_trans _ _ _ _ Hless.

(** The pure insertion gives the same list, up to [R]. *)
Lemma sift_eff_spec x l x0 l0 :
  P x → Forall P l → R x0 x → Forall2 R l0 l →
  ∃ l', sift_eff less x l = Ok l' ∧ Forall2 R (sift lt x0 l0) l' ∧ Forall P l'.
Proof.
  intros Hx Hl Hx0 Hl0. revert x x0 Hx Hx0. induction Hl0 as [|y0 y l0 l Hy0 Hl0 IH];
    intros x x0 Hx Hx0; simpl.
  - exists [x]. split; [done|]. by repeat constructor.
  - apply Forall_cons in Hl as [Hy Hl].
    destruct (answers_run _ _ _ _ Hless x y Hx Hy) as (x' & y' & Hrun & Hxx & Hyy & Hx' & Hy').
    unfold mbind, res_bind. rewrite Hrun, (answers_proper _ _ _ _ Hless _ _ _ _ Hx0 Hy0).
    assert (R x0 x') by (by transitivity x). assert (R y0 y') by (by transitivity y).
    destruct (lt x y).
    + destruct (IH Hl x' x0) as (l' & Hl' & Hf & HP); [done..|]. unfold mbind, res_bind in Hl'.
      rewrite Hl'. exists (y' :: l'). split; [done|]. by repeat constructor.
    + exists (x' :: y' :: l). split; [done|]. by repeat constructor.
Qed.

Lemma insertion_loop_eff_spec prefix l prefix0 :
  Forall P prefix → Forall P l → Forall2 R prefix0 prefix →
  ∃ l', insertion_loop_eff less prefix l = Ok l' ∧
    Forall2 R (insertion_loop lt prefix0 l) l' ∧ Forall P l'.
Proof.
  intros Hp Hl. revert prefix prefix0 Hp. induction Hl as [|x l Hx Hl IH]; intros prefix prefix0 Hp Hf; simpl.
  - eexists. split; [done|]. rewrite Forall_reverse. split; [by apply Forall2_reverse|done].
  - destruct (sift_eff_spec x prefix x prefix0) as (prefix' & Hs & Hf' & Hp'); [done..|].
    unfold mbind, res_bind. rewrite Hs. by apply IH.
Qed.

Lemma insertionSort_eff_spec l :
  Forall P l →
  ∃ l', insertionSort_eff less l = Ok l' ∧ Forall2 R (insertionSort lt l) l' ∧ Forall P l'.
Proof. intros Hl. by apply insertion_loop_eff_spec. Qed.

Lemma sorted_by_upto l l' : Forall2 R l l' → sorted_by lt l → sorted_by lt l'.
Proof.
  induction 1 as [|x x' l l' Hx Hl IH]; intros Hs; [constructor|].
  apply StronglySorted_inv in Hs as [Hs Hall]. constructor; [by apply IH|].
  clear IH Hs. induction Hl as [|y y' l l' Hy Hl IH]; [constructor|].
  apply Forall_cons in Hall as [Hxy Hall]. constructor; [|by apply IH].
  by rewrite <-(answers_proper _ _ _ _ Hless _ _ _ _ Hy Hx).
Qed.
End lemmas.

Section sort.
Context `{PdqSortEff} {A : Type} (less : cmp A) (P : A → Prop) (R : relation A) (lt : A → A → bool).

Lemma sort_Sort_eff_spec l :
  answers less P R lt → Forall P l →
  ∃ l', sort_Sort_eff less l = Ok l' ∧ perm_upto R l l' ∧ Forall P l' ∧
    (StrictWeak lt → sorted_by lt l').
Proof.
  intros Hless Hl. unfold sort_Sort_eff. case_decide; [|by eapply pdqsort_eff_spec].
  destruct (insertionSort_eff_spec less P R lt Hless l Hl) as (l' & Hrun & Hf & HP).
  exists l'. split; [done|]. split; [exists (insertionSort lt l); split; [apply insertionSort_perm|done]|].
  split; [done|]. intros Hsw. eapply sorted_by_upto; [done..|]. by apply insertionSort_sorted.
Qed.

(** Comparing position by position. *)
Lemma equal_loop_spec (eq : cmp A) (test : A → A → bool) l o :
  (∀ x y, P x → P y → ∃ x' y', eq x y = Ok (test x y, x', y') ∧ R x x' ∧ R y y' ∧ P x' ∧ P y') →
  Reflexive R → Forall P l → Forall P o → length l = length o →
  ∃ l' o', equal_loop eq l o = Ok (forallb (λ xy, test xy.1 xy.2) (zip l o), l', o') ∧
    Forall2 R l l' ∧ Forall2 R o o' ∧ Forall P l' ∧ Forall P o'.
Proof.
  intros Heq HR Hl. revert o. induction Hl as [|x l Hx Hl IH]; intros [|y o] Ho Hlen; simplify_eq/=.
  - exists [], []. by repeat constructor.
  - apply Forall_cons in Ho as [Hy Ho].
    destruct (Heq x y Hx Hy) as (x' & y' & Hrun & Hxx & Hyy & Hx' & Hy').
    unfold mbind, res_bind. rewrite Hrun. destruct (test x y); simpl.
    + destruct (IH o Ho Hlen) as (l' & o' & Hrun' & ? & ? & ? & ?). unfold mbind, res_bind in Hrun'.
      rewrite Hrun'. exists (x' :: l'), (y' :: o'). by repeat constructor.
    + exists (x' :: l), (y' :: o). by repeat constructor.
Qed.
End sort.

(** The sort of the concrete runs. *)
Program Definition pdqsort_eff_by_insertion : PdqSortEff := {|
  pdqsort_eff := @insertionSort_eff
|}.
Next Obligation.
  intros A less P R lt l Hless Hl.
  destruct (insertionSort_eff_spec less P R lt Hless l Hl) as (l' & Hrun & Hf & HP).
  exists l'. split; [done|]. split; [exists (insertionSort lt l); split; [apply insertionSort_perm|done]|].
  split; [done|]. intros Hsw. eapply sorted_by_upto; [done..|]. by apply insertionSort_sorted.
Qed.
