(* ===== verification/MetalLBEqual.v ===== *)
(** * Comparing the parts of a MetalLB configuration file

    The [Less], [Compare] and [Equal] methods of [config.go]. They sort the
    slices they compare; [s[:]] does not copy the array, so the sorting stays
    in both operands, and each method here also returns what is left of them.
    The two operands are taken to have arrays of their own. A nil argument,
    which every method answers with [false], is passed by no caller. *)

From S2P Require Import Prelude GoStrings GoSort GoSortEff MetalLBTypes.

(** ** Definitions *)

(** [len] of a slice or map that may be nil, and a slice after its array was
    written: nil stays nil. *)
Definition slice_len {A} (l : option (list A)) : nat := length (default [] l).
Definition map_len (m : option (gmap string string)) : nat := size (default ∅ m).
Definition rewrite_slice {A} (old : option (list A)) (new : list A) : option (list A) :=
  match old with Some _ => Some new | None => None end.

(** *** Requirements *)

Definition set_Values (v : option (list string)) (s : SelectorRequirements) : SelectorRequirements :=
  {| Req_Key := Req_Key s; Req_Operator := Req_Operator s; Req_Values := v |}.
Definition sort_Values (s : SelectorRequirements) : SelectorRequirements :=
  set_Values (sort_Strings <$> Req_Values s) s.

(** The first difference of two slices of the same length. *)
Fixpoint first_difference (l o : list string) : comparison :=
  match l, o with
  | x :: l', y :: o' => if decide (x = y) then first_difference l' o' else String.compare x y
  | _, _ => Eq
  end.

(** A negative, zero or positive [int] is [Lt], [Eq] or [Gt]. *)
Definition SelectorRequirements_Compare (s o : SelectorRequirements)
  : comparison * SelectorRequirements * SelectorRequirements :=
  if decide (Req_Key s ≠ Req_Key o) then (String.compare (Req_Key s) (Req_Key o), s, o)
  else if decide (Req_Operator s ≠ Req_Operator o) then
    (String.compare (Req_Operator s) (Req_Operator o), s, o)
  else
    match Req_Values s, Req_Values o with
    | None, None => (Eq, s, o)
    | None, Some _ => (Lt, s, o)
    | Some _, None => (Gt, s, o)
    | Some sValues, Some oValues =>
        if decide (length sValues < length oValues) then (Lt, s, o)
        else if decide (length oValues < length sValues) then (Gt, s, o)
        else (first_difference (sort_Strings sValues) (sort_Strings oValues), sort_Values s, sort_Values o)
    end.
Definition SelectorRequirements_Equal : cmp SelectorRequirements := λ s o,
  let '(c, s, o) := SelectorRequirements_Compare s o in Ok (bool_decide (c = Eq), s, o).

Fixpoint strings_less (l o : list string) : bool :=
  match l, o with
  | x :: l', y :: o' => if decide (x = y) then strings_less l' o' else str_lt x y
  | _, _ => false
  end.
Definition SelectorRequirementsSlice_Less : cmp SelectorRequirements := λ s o,
  if decide (Req_Key s ≠ Req_Key o) then Ok (str_lt (Req_Key s) (Req_Key o), s, o)
  else if decide (Req_Operator s ≠ Req_Operator o) then
    Ok (str_lt (Req_Operator s) (Req_Operator o), s, o)
  else if decide (slice_len (Req_Values s) ≠ slice_len (Req_Values o)) then
    Ok (slice_len (Req_Values s) <? slice_len (Req_Values o), s, o)
  else
    let s := sort_Values s in
    let o := sort_Values o in
    Ok (strings_less (default [] (Req_Values s)) (default [] (Req_Values o)), s, o).

Section equal.
Context `{PdqSortEff}.

Definition SelectorRequirementsSlice_Equal : cmp (option (list SelectorRequirements)) := λ s o,
  if decide (slice_len s ≠ slice_len o) then Ok (false, s, o)
  else
    s1 ← sort_Sort_eff SelectorRequirementsSlice_Less (default [] s);
    o1 ← sort_Sort_eff SelectorRequirementsSlice_Less (default [] o);
    '(b, s1, o1) ← equal_loop SelectorRequirements_Equal s1 o1;
    Ok (b, rewrite_slice s s1, rewrite_slice o o1).

(** *** Node selectors *)

Definition set_MatchExpressions (e : option (list SelectorRequirements)) (ns : NodeSelector)
  : NodeSelector := {| MatchLabels := MatchLabels ns; MatchExpressions := e |}.

(** [None]: no difference so far. *)
Fixpoint keys_less (a b : gmap string string) (ikeys jkeys : list string) : option bool :=
  match ikeys, jkeys with
  | k :: ikeys', k' :: jkeys' =>
      if decide (k ≠ k') then Some (str_lt k k')
      else if decide (map_get (Some a) k ≠ map_get (Some b) k)
      then Some (str_lt (map_get (Some a) k) (map_get (Some b) k))
      else keys_less a b ikeys' jkeys'
  | _, _ => None
  end.
(** The keys are collected in some order and sorted. *)
Definition sorted_keys (m : gmap string string) : list string := sort_Strings (map_to_list m).*1.
Definition labels_less (a b : option (gmap string string)) : option bool :=
  match a, b with
  | None, Some _ => Some true
  | Some _, None => Some false
  | _, _ =>
      if decide (map_len a ≠ map_len b) then Some (map_len a <? map_len b)
      else keys_less (default ∅ a) (default ∅ b) (sorted_keys (default ∅ a)) (sorted_keys (default ∅ b))
  end.

(** One smaller requirement is enough, whatever the earlier ones say. *)
Fixpoint requirements_less (ime jme : list SelectorRequirements)
  : bool * list SelectorRequirements * list SelectorRequirements :=
  match ime, jme with
  | v :: ime', v' :: jme' =>
      let '(c, v, v') := SelectorRequirements_Compare v v' in
      if decide (c = Lt) then (true, v :: ime', v' :: jme')
      else let '(b, ime', jme') := requirements_less ime' jme' in (b, v :: ime', v' :: jme')
  | _, _ => (false, ime, jme)
  end.
Definition NodeSelectors_Less : cmp NodeSelector := λ ni nj,
  match labels_less (MatchLabels ni) (MatchLabels nj) with
  | Some b => Ok (b, ni, nj)
  | None =>
      let ei := MatchExpressions ni in
      let ej := MatchExpressions nj in
      match ei, ej with
      | None, Some _ => Ok (true, ni, nj)
      | Some _, None => Ok (false, ni, nj)
      | _, _ =>
          if decide (slice_len ei ≠ slice_len ej) then Ok (slice_len ei <? slice_len ej, ni, nj)
          else
            ime ← sort_Sort_eff SelectorRequirementsSlice_Less (default [] ei);
            jme ← sort_Sort_eff SelectorRequirementsSlice_Less (default [] ej);
            let '(b, ime, jme) := requirements_less ime jme in
            Ok (b, set_MatchExpressions (rewrite_slice ei ime) ni,
                set_MatchExpressions (rewrite_slice ej jme) nj)
      end
  end.

(** A label the other selector does not have reads as the empty string. *)
Definition NodeSelector_Equal : cmp NodeSelector := λ ns o,
  if decide (map_len (MatchLabels ns) ≠ map_len (MatchLabels o) ∨
             slice_len (MatchExpressions ns) ≠ slice_len (MatchExpressions o)) then Ok (false, ns, o)
  else if decide (map_Forall (λ k v, map_get (MatchLabels o) k = v) (default ∅ (MatchLabels ns))) then
    '(b, e, e') ← SelectorRequirementsSlice_Equal (MatchExpressions ns) (MatchExpressions o);
    Ok (b, set_MatchExpressions e ns, set_MatchExpressions e' o)
  else Ok (false, ns, o).

Definition NodeSelectors_Equal : cmp (list NodeSelector) := λ n o,
  if decide (length n ≠ length o) then Ok (false, n, o)
  else
    n1 ← sort_Sort_eff NodeSelectors_Less n;
    o1 ← sort_Sort_eff NodeSelectors_Less o;
    equal_loop NodeSelector_Equal n1 o1.

(** A selector that records a service and nothing else is left out. The rest
    is copied to a new slice; its elements still share the arrays of their
    requirements, so what is sorted there goes back to where it came from. *)
Definition ignored (ns : NodeSelector) : bool :=
  bool_decide (map_len (MatchLabels ns) ≤ 2 ∧ slice_len (MatchExpressions ns) = 0 ∧
    (map_get (MatchLabels ns) serviceNameKey ≠ "" ∨ map_get (MatchLabels ns) serviceNameSpaceKey ≠ "")).
Definition tagged {A} (f : cmp A) : cmp (nat * A) := λ x y,
  '(b, x', y') ← f x.2 y.2; Ok (b, (x.1, x'), (y.1, y')).
Definition kept (n : list NodeSelector) : list (nat * NodeSelector) :=
  filter (λ x, ignored x.2 = false) (imap pair n).
Definition write_back {A} (l : list (nat * A)) (n : list A) : list A :=
  foldr (λ x n, <[x.1 := x.2]> n) n l.
Definition NodeSelectors_EqualIgnoreService : cmp (list NodeSelector) := λ n o,
  let ns1 := kept n in
  let os1 := kept o in
  if decide (length ns1 ≠ length os1) then Ok (false, n, o)
  else
    n1 ← sort_Sort_eff (tagged NodeSelectors_Less) ns1;
    o1 ← sort_Sort_eff (tagged NodeSelectors_Less) os1;
    '(b, n1, o1) ← equal_loop (tagged NodeSelector_Equal) n1 o1;
    Ok (b, write_back n1 n, write_back o1 o).

(** *** Peers *)

Definition set_NodeSelectors (l : list NodeSelector) (p : Peer) : Peer := {|
  Peer_MyASN := Peer_MyASN p; Peer_ASN := Peer_ASN p; Peer_Addr := Peer_Addr p;
  Peer_Port := Peer_Port p; Peer_SrcAddr := Peer_SrcAddr p; Peer_HoldTime := Peer_HoldTime p;
  Peer_RouterID := Peer_RouterID p; Peer_NodeSelectors := l; Peer_Password := Peer_Password p;
  Peer_EBGPMultiHop := Peer_EBGPMultiHop p; Peer_Name := Peer_Name p |}.

(** The fields both comparisons of peers look at. *)
Definition same_session (p o : Peer) : Prop :=
  Peer_MyASN p = Peer_MyASN o ∧ Peer_ASN p = Peer_ASN o ∧ Peer_Addr p = Peer_Addr o ∧
  Peer_Port p = Peer_Port o ∧ Peer_HoldTime p = Peer_HoldTime o ∧
  Peer_Password p = Peer_Password o ∧ Peer_RouterID p = Peer_RouterID o.
Global Instance same_session_dec p o : Decision (same_session p o).
Proof. unfold same_session. apply _. Defined.

Definition Peer_Equal : cmp Peer := λ p o,
  if decide (same_session p o) then
    '(b, pns, ons) ← NodeSelectors_Equal (Peer_NodeSelectors p) (Peer_NodeSelectors o);
    Ok (b, set_NodeSelectors pns p, set_NodeSelectors ons o)
  else Ok (false, p, o).
Definition Peer_EqualIgnoreService : cmp Peer := λ p o,
  if decide (same_session p o) then
    '(b, pns, ons) ← NodeSelectors_EqualIgnoreService (Peer_NodeSelectors p) (Peer_NodeSelectors o);
    Ok (b, set_NodeSelectors pns p, set_NodeSelectors ons o)
  else Ok (false, p, o).

Fixpoint match_selector (l : list NodeSelector) (s : NodeSelector)
  : res (bool * list NodeSelector * NodeSelector) :=
  match l with
  | [] => Ok (false, [], s)
  | selector :: l' =>
      '(b, selector, s) ← NodeSelector_Equal selector s;
      if (b : bool) then Ok (true, selector :: l', s)
      else '(b, l', s) ← match_selector l' s; Ok (b, selector :: l', s)
  end.
Definition MatchSelector (p : Peer) (s : NodeSelector) : res (bool * Peer * NodeSelector) :=
  '(b, l, s) ← match_selector (Peer_NodeSelectors p) s;
  Ok (b, set_NodeSelectors l p, s).

(** *** Address pools *)

Definition set_Communities (l : list string) (b : BgpAdvertisement) : BgpAdvertisement :=
  {| AggregationLength := AggregationLength b; LocalPref := LocalPref b; Communities := l |}.
Definition sort_Communities (b : BgpAdvertisement) : BgpAdvertisement :=
  set_Communities (sort_Strings (Communities b)) b.

(** Both loops run over the first slice: a shorter second one panics. *)
Fixpoint communities_less (l o : list string) : res bool :=
  match l, o with
  | [], _ => Ok false
  | v :: l', v' :: o' => if str_lt v v' then Ok true else communities_less l' o'
  | _ :: _, [] => Panic
  end.
Fixpoint communities_equal (l o : list string) : res bool :=
  match l, o with
  | [], _ => Ok true
  | v :: l', v' :: o' => if decide (v ≠ v') then Ok false else communities_equal l' o'
  | _ :: _, [] => Panic
  end.
(** [*p]. *)
Definition ptr {A} (p : option A) : res A := match p with Some x => Ok x | None => Panic end.

Definition BgpAdvertisements_Less : cmp BgpAdvertisement := λ bi bj,
  li ← ptr (AggregationLength bi);
  lj ← ptr (AggregationLength bj);
  if (li <? lj)%Z then Ok (true, bi, bj)
  else
    pi ← ptr (LocalPref bi);
    pj ← ptr (LocalPref bj);
    if (pi <? pj)%Z then Ok (true, bi, bj)
    else if decide (length (Communities bi) < length (Communities bj)) then Ok (true, bi, bj)
    else
      let bi := sort_Communities bi in
      let bj := sort_Communities bj in
      b ← communities_less (Communities bi) (Communities bj);
      Ok (b, bi, bj).
Definition BgpAdvertisement_Equal : cmp BgpAdvertisement := λ b o,
  lb ← ptr (AggregationLength b);
  lo ← ptr (AggregationLength o);
  if decide (lb ≠ lo) then Ok (false, b, o)
  else
    pb ← ptr (LocalPref b);
    po ← ptr (LocalPref o);
    if decide (pb ≠ po) then Ok (false, b, o)
    else
      let b := sort_Communities b in
      let o := sort_Communities o in
      e ← communities_equal (Communities b) (Communities o);
      Ok (e, b, o).

Definition set_Addresses (l : list string) (a : AddressPool) : AddressPool := {|
  Pool_Protocol := Pool_Protocol a; Pool_Name := Pool_Name a; Pool_Addresses := l;
  Pool_AvoidBuggyIPs := Pool_AvoidBuggyIPs a; Pool_AutoAssign := Pool_AutoAssign a;
  Pool_BGPAdvertisements := Pool_BGPAdvertisements a |}.
Definition set_BGPAdvertisements (l : list BgpAdvertisement) (a : AddressPool) : AddressPool := {|
  Pool_Protocol := Pool_Protocol a; Pool_Name := Pool_Name a; Pool_Addresses := Pool_Addresses a;
  Pool_AvoidBuggyIPs := Pool_AvoidBuggyIPs a; Pool_AutoAssign := Pool_AutoAssign a;
  Pool_BGPAdvertisements := l |}.

Definition AddressPool_EqualIgnoreName : cmp AddressPool := λ a o,
  if decide (Pool_Protocol a ≠ Pool_Protocol o ∨ Pool_AvoidBuggyIPs a ≠ Pool_AvoidBuggyIPs o) then
    Ok (false, a, o)
  else
    aa ← ptr (Pool_AutoAssign a);
    oa ← ptr (Pool_AutoAssign o);
    if decide (aa ≠ oa ∨ length (Pool_Addresses a) ≠ length (Pool_Addresses o)) then Ok (false, a, o)
    else
      let a := set_Addresses (sort_Strings (Pool_Addresses a)) a in
      let o := set_Addresses (sort_Strings (Pool_Addresses o)) o in
      if decide (Pool_Addresses a ≠ Pool_Addresses o ∨
                 length (Pool_BGPAdvertisements a) ≠ length (Pool_BGPAdvertisements o))
      then Ok (false, a, o)
      else
        abgp ← sort_Sort_eff BgpAdvertisements_Less (Pool_BGPAdvertisements a);
        obgp ← sort_Sort_eff BgpAdvertisements_Less (Pool_BGPAdvertisements o);
        '(b, abgp, obgp) ← equal_loop BgpAdvertisement_Equal abgp obgp;
        Ok (b, set_BGPAdvertisements abgp a, set_BGPAdvertisements obgp o).
Definition AddressPool_Equal : cmp AddressPool := λ a o,
  '(b, a, o) ← AddressPool_EqualIgnoreName a o;
  Ok (b && bool_decide (Pool_Name a = Pool_Name o), a, o).
End equal.
