(* ===== verification/ConfigFile.v ===== *)
(** * The MetalLB configuration file and the config map that holds it

    [ConfigFile] of [config.go] with the methods that change it, and
    [CMConfigurer] of [configmap.go], the configurer that keeps the file in a
    config map. The comparisons write to the arrays of their operands
    ([MetalLBEqual]), so each loop also passes on what it leaves of the peer
    or pool it was given. The YAML codec and the client are classes. *)

From S2P Require Import Prelude GoStrings GoSort GoSortEff MetalLBTypes ServiceSelectors MetalLB MetalLBEqual.

(** ** The configuration file *)

Record ConfigFile := {
  Peers : list Peer;
  BGPCommunities : option (gmap string string);
  Pools : list AddressPool
}.
Definition set_Peers (l : list Peer) (c : ConfigFile) : ConfigFile :=
  {| Peers := l; BGPCommunities := BGPCommunities c; Pools := Pools c |}.
Definition set_Pools (l : list AddressPool) (c : ConfigFile) : ConfigFile :=
  {| Peers := Peers c; BGPCommunities := BGPCommunities c; Pools := l |}.

(** [sigs.k8s.io/yaml]. *)
Class YamlCodec := {
  yaml_Unmarshal : string → res ConfigFile;
  yaml_Marshal : option ConfigFile → res string
}.
Definition ParseConfig `{YamlCodec} (bs : string) : res ConfigFile :=
  res_wrap (Errorw "could not parse config: %w" []) (yaml_Unmarshal bs).
Definition Bytes `{YamlCodec} (cfg : option ConfigFile) : res string := yaml_Marshal cfg.

Global Program Instance config_Selector : Selector NodeSelector := {|
  sel_labels := MatchLabels;
  sel_make := λ m, {| MatchLabels := Some m; MatchExpressions := None |}
|}.
Next Obligation. done. Qed.

Section peer_services.
Context `{PdqSort}.
Definition Services (p : Peer) : list Resource := services_of (Peer_NodeSelectors p).
Definition Peer_AddService (svc : Resource) (p : Peer) : bool * Peer :=
  let '(b, l) := add_service svc (Peer_NodeSelectors p) in (b, set_NodeSelectors l p).
Definition Peer_RemoveService (svc : Resource) (p : Peer) : bool * nat * Peer :=
  let '(b, size, l) := remove_service svc (Peer_NodeSelectors p) in (b, size, set_NodeSelectors l p).
End peer_services.

Definition nameJoiner : string := ",".

Section config.
Context `{PdqSort, PdqSortEff}.

Fixpoint add_peer_loop (l : list Peer) (add : Peer) : res (bool * list Peer * Peer) :=
  match l with
  | [] => Ok (false, [], add)
  | peer :: l' =>
      '(b, peer, add) ← Peer_Equal peer add;
      if (b : bool) then Ok (true, peer :: l', add)
      else '(b, l', add) ← add_peer_loop l' add; Ok (b, peer :: l', add)
  end.
Definition AddPeer (add : option Peer) (cfg : ConfigFile) : res (bool * option Peer * ConfigFile) :=
  match add with
  | None => Ok (false, None, cfg)
  | Some add =>
      '(found, peers, add) ← add_peer_loop (Peers cfg) add;
      if (found : bool) then Ok (false, Some add, set_Peers peers cfg)
      else Ok (true, Some add, set_Peers (peers ++ [add]) cfg)
  end.

(** Every matching peer gets the service. *)
Fixpoint by_service_loop (svc : Resource) (l : list Peer) (add : Peer) : res (bool * list Peer * Peer) :=
  match l with
  | [] => Ok (false, [], add)
  | peer :: l' =>
      '(b, peer, add) ← Peer_EqualIgnoreService peer add;
      let peer := if (b : bool) then (Peer_AddService svc peer).2 else peer in
      '(found, l', add) ← by_service_loop svc l' add;
      Ok (b || found, peer :: l', add)
  end.
Definition AddPeerByService (add : option Peer) (svcNamespace svcName : string) (cfg : ConfigFile)
  : res (bool * option Peer * ConfigFile) :=
  let svc := {| Res_Namespace := svcNamespace; Res_Name := svcName |} in
  match add with
  | None => Ok (false, None, cfg)
  | Some add =>
      '(found, peers, add) ← by_service_loop svc (Peers cfg) add;
      if (found : bool) then Ok (true, Some add, set_Peers peers cfg)
      else
        let add := (Peer_AddService svc add).2 in
        Ok (true, Some add, set_Peers (peers ++ [add]) cfg)
  end.

Fixpoint remove_peer_loop (l : list Peer) (remove : Peer) : res (list Peer * Peer) :=
  match l with
  | [] => Ok ([], remove)
  | peer :: l' =>
      '(b, peer, remove) ← Peer_Equal peer remove;
      '(l', remove) ← remove_peer_loop l' remove;
      Ok (if (b : bool) then l' else peer :: l', remove)
  end.
Definition RemovePeer (remove : option Peer) (cfg : ConfigFile) : res (option Peer * ConfigFile) :=
  match remove with
  | None => Ok (None, cfg)
  | Some remove =>
      '(peers, remove) ← remove_peer_loop (Peers cfg) remove;
      Ok (Some remove, set_Peers peers cfg)
  end.

(** The loop of both [RemovePeersByService]: a peer without any service
    left counts as a change, also when it had none and is kept. *)
Fixpoint remove_by_service_loop (svc : Resource) (l : list Peer) (changed : bool) (peers : list Peer)
  : bool * list Peer :=
  match l with
  | [] => (changed, peers)
  | peer :: l' =>
      let '(peerChanged, size, peer) := Peer_RemoveService svc peer in
      let peers := if decide (peerChanged = false ∨ 1 ≤ size) then peers ++ [peer] else peers in
      let changed := if decide (peerChanged = true ∨ size ≤ 0) then true else changed in
      remove_by_service_loop svc l' changed peers
  end.
Definition RemovePeersByService (svcNamespace svcName : string) (cfg : ConfigFile) : bool * ConfigFile :=
  let svc := {| Res_Namespace := svcNamespace; Res_Name := svcName |} in
  let '(changed, peers) := remove_by_service_loop svc (Peers cfg) false [] in
  (changed, set_Peers peers cfg).

Fixpoint remove_by_selector_loop (l : list Peer) (remove : NodeSelector)
  : res (list Peer * NodeSelector) :=
  match l with
  | [] => Ok ([], remove)
  | peer :: l' =>
      '(b, peer, remove) ← MatchSelector peer remove;
      '(l', remove) ← remove_by_selector_loop l' remove;
      Ok (if (b : bool) then l' else peer :: l', remove)
  end.
Definition RemovePeersBySelector (remove : option NodeSelector) (cfg : ConfigFile)
  : res (bool * option NodeSelector * ConfigFile) :=
  match remove with
  | None => Ok (false, None, cfg)
  | Some remove =>
      '(peers, remove) ← remove_by_selector_loop (Peers cfg) remove;
      Ok (bool_decide (length peers ≠ length (Peers cfg)), Some remove, set_Peers peers cfg)
  end.

Definition set_Pool_Name (name : string) (a : AddressPool) : AddressPool := {|
  Pool_Protocol := Pool_Protocol a; Pool_Name := name; Pool_Addresses := Pool_Addresses a;
  Pool_AvoidBuggyIPs := Pool_AvoidBuggyIPs a; Pool_AutoAssign := Pool_AutoAssign a;
  Pool_BGPAdvertisements := Pool_BGPAdvertisements a |}.

(** The loop of both [AddAddressPool]: what it returns, if it does. *)
Fixpoint add_pool_loop (l : list AddressPool) (add : AddressPool)
  : res (option bool * list AddressPool * AddressPool) :=
  match l with
  | [] => Ok (None, [], add)
  | pool :: l' =>
      '(b, pool, add) ← AddressPool_Equal pool add;
      if (b : bool) then Ok (Some false, pool :: l', add)
      else
        '(b, pool, add) ← AddressPool_EqualIgnoreName pool add;
        if (b : bool) then
          let existing := Split (Pool_Name pool) nameJoiner in
          if decide (Pool_Name add ∈ existing) then Ok (Some false, pool :: l', add)
          else
            let name := Join (sort_Strings (existing ++ [Pool_Name add])) nameJoiner in
            Ok (Some true, set_Pool_Name name pool :: l', add)
        else
          '(r, l', add) ← add_pool_loop l' add;
          Ok (r, pool :: l', add)
  end.
Definition AddAddressPool (add : option AddressPool) (cfg : ConfigFile)
  : res (bool * option AddressPool * ConfigFile) :=
  match add with
  | None => Ok (false, None, cfg)
  | Some add =>
      '(r, pools, add) ← add_pool_loop (Pools cfg) add;
      match r with
      | Some b => Ok (b, Some add, set_Pools pools cfg)
      | None => Ok (true, Some add, set_Pools (pools ++ [add]) cfg)
      end
  end.

Fixpoint remove_pool_loop (l : list AddressPool) (remove : AddressPool)
  : res (list AddressPool * AddressPool) :=
  match l with
  | [] => Ok ([], remove)
  | pool :: l' =>
      '(b, pool, remove) ← AddressPool_Equal pool remove;
      if (b : bool) then remove_pool_loop l' remove
      else
        '(b, pool, remove) ← AddressPool_EqualIgnoreName pool remove;
        let pool :=
          if (b : bool) then
            let newNames := filter (λ name, name ≠ Pool_Name remove) (Split (Pool_Name pool) nameJoiner) in
            set_Pool_Name (Join (sort_Strings newNames) nameJoiner) pool
          else pool in
        '(l', remove) ← remove_pool_loop l' remove;
        Ok (pool :: l', remove)
  end.
Definition RemoveAddressPool (remove : option AddressPool) (cfg : ConfigFile)
  : res (option AddressPool * ConfigFile) :=
  match remove with
  | None => Ok (None, cfg)
  | Some remove =>
      '(pools, remove) ← remove_pool_loop (Pools cfg) remove;
      Ok (Some remove, set_Pools pools cfg)
  end.
Definition RemoveAddressPoolByAddress (addr : string) (cfg : ConfigFile) : ConfigFile :=
  if decide (addr = "") then cfg
  else set_Pools (filter (λ pool, addr ∉ Pool_Addresses pool) (Pools cfg)) cfg.
End config.

(** ** The configurer of the config map *)

(** The client of the config maps of the namespace: the data of one, and a
    merge patch of its entry [config]. *)
Class ConfigMapClient (W : Type) := {
  cmi_Get : string → M W (option (gmap string string));
  cmi_Patch : string → string → M W unit
}.

Module CMConfigurer.
Section operations.
Context {W : Type} `{PdqSort, PdqSortEff, YamlCodec, ConfigMapClient W}.
(** Its namespace is that of the client. *)
Variable configMapName : string.

(** The file last read, nil before, and the outside. *)
Definition state : Type := option ConfigFile * W.

Definition outside {A} (c : M W A) : M state A := λ s,
  let '(r, w) := c s.2 in (r, (s.1, w)).
Definition assign (config : option ConfigFile) : M state unit := λ s, (Ok (), (config, s.2)).
(** [m.config.f]: a nil pointer panics. *)
Definition config : M state ConfigFile := λ s,
  (match s.1 with Some c => Ok c | None => Panic end, s).
Definition update {A} (f : ConfigFile → res (A * ConfigFile)) : M state A :=
  c ← config;
  '(a, c) ← lift_res (f c);
  assign (Some c);;
  mret a.

Definition getConfigMap : M state ConfigFile :=
  cm ← wrap_err (Errorw "unable to get metallb configmap %s: %w" [configMapName])
         (outside (cmi_Get configMapName));
  lift_res (ParseConfig (map_get cm "config")).
(** After an error the file is nil. *)
Definition Get : M state unit :=
  r ← try getConfigMap;
  match r with
  | inr c => assign (Some c)
  | inl e => assign None;; raise e
  end.
Definition Update : M state unit := λ s,
  (b ← wrap_err (Errorw "error converting configfile data to bytes: %w" []) (lift_res (Bytes s.1));
   outside (cmi_Patch configMapName b)) s.

(** The peer added by one turn is seen by the next. *)
Fixpoint update_peers (svc : Resource) (adds : list Peer) (peers : list Peer) (changed : bool)
  : res (bool * list Peer) :=
  match adds with
  | [] => Ok (changed, peers)
  | add :: adds' =>
      '(found, peers, add) ← by_service_loop svc peers add;
      let peers := if (found : bool) then peers else peers ++ [(Peer_AddService svc add).2] in
      let found := true in
      update_peers svc adds' peers (if (changed : bool) then changed else found)
  end.
Definition UpdatePeersByService (adds : list Peer) (svcNamespace svcName : string) : M state bool :=
  let svc := {| Res_Namespace := svcNamespace; Res_Name := svcName |} in
  match adds with
  | [] => mret false
  | _ => update (λ c, '(changed, peers) ← update_peers svc adds (Peers c) false;
                      Ok (changed, set_Peers peers c))
  end.
Definition RemovePeersByService (svcNamespace svcName : string) : M state bool :=
  update (λ c, Ok (ConfigFile.RemovePeersByService svcNamespace svcName c)).
Definition AddAddressPool (add : option AddressPool) (svcNamespace svcName : string) : M state bool :=
  match add with
  | None => mret false
  | Some add => update (λ c, '(changed, _, c) ← ConfigFile.AddAddressPool (Some add) c; Ok (changed, c))
  end.
Definition RemoveAddressPoolByAddress (addr : string) : M state unit :=
  if decide (addr = "") then mret ()
  else update (λ c, Ok ((), ConfigFile.RemoveAddressPoolByAddress addr c)).
(** Nothing: the pool stays. *)
Definition RemoveAddressPool (pool : string) : M state unit := mret ().

Definition configurer : Configurer state := {|
  cfg_UpdatePeersByService := UpdatePeersByService;
  cfg_RemovePeersByService := RemovePeersByService;
  cfg_AddAddressPool := AddAddressPool;
  cfg_RemoveAddressPool := RemoveAddressPool;
  cfg_RemoveAddressPoolByAddress := RemoveAddressPoolByAddress;
  cfg_Get := Get;
  cfg_Update := Update
|}.
End operations.
End CMConfigurer.
