(* ===== verification/SelectorOrder.v ===== *)
(** * The order of node selectors

    [NodeSelectors.Less] compares labels, then requirements. Written as a
    comparison of lists of tokens it is a total order on the selectors with at
    most one requirement; sorting by it makes [NodeSelectors.Equal] a test of
    equality up to order. *)

From S2P Require Import Prelude GoStrings GoSort GoSortEff MetalLBTypes MetalLBEqual.

(** ** Lexicographic comparison *)

Definition token : Type := nat * string.
Definition token_lt (x y : token) : bool :=
  if decide (x.1 = y.1) then str_lt x.2 y.2 else x.1 <? y.1.
Fixpoint lex (l o : list token) : bool :=
  match l, o with
  | x :: l', y :: o' => if decide (x = y) then lex l' o' else token_lt x y
  | [], _ :: _ => true
  | _, [] => false
  end.

#[local] Instance str_lt_weak : StrictWeak str_lt := key_StrictWeak id.
Lemma str_lt_total s t : str_lt s t = false → str_lt t s = false → s = t.
Proof. unfold str_lt. rewrite !ltb_false_le. intros. by apply (anti_symm String.le). Qed.
Lemma str_lt_irrefl s : str_lt s s = false.
Proof. unfold str_lt. by rewrite ltb_false_le. Qed.
Lemma str_lt_compare s t : String.compare s t = Lt ↔ str_lt s t = true.
Proof. unfold str_lt, String.ltb. by destruct (String.compare s t). Qed.

Lemma token_lt_total x y : token_lt x y = false → token_lt y x = false → x = y.
Proof.
  unfold token_lt. destruct x as [n s], y as [m t]. simpl.
  destruct (decide (n = m)) as [->|Hne].
  - rewrite decide_True by done. intros H1 H2. by rewrite (str_lt_total s t).
  - rewrite decide_False by done. rewrite !Nat.ltb_ge. lia.
Qed.
Global Instance token_lt_weak : StrictWeak token_lt.
Proof.
  unfold token_lt. split.
  - intros [n s] [m t]. simpl. destruct (decide (n = m)) as [->|Hne].
    + rewrite decide_True by done. apply less_asym.
    + rewrite decide_False by done. rewrite Nat.ltb_ge, Nat.ltb_lt. lia.
  - intros [n s] [m t] [k u]. simpl.
    destruct (decide (m = n)) as [->|Hnm], (decide (k = n)) as [->|Hkn].
    + apply less_cotrans.
    + done.
    + rewrite decide_False by congruence. rewrite !Nat.ltb_ge. lia.
    + destruct (decide (k = m)) as [->|Hkm]; [done|]. rewrite !Nat.ltb_ge. lia.
Qed.

Global Instance lex_weak : StrictWeak lex.
Proof.
  split.
  - intros l. induction l as [|x l IH]; intros [|y o]; simpl; [done..|].
    destruct (decide (x = y)) as [->|Hne]; [rewrite decide_True by done; apply IH|].
    rewrite decide_False by done. apply less_asym.
  - intros l. induction l as [|x l IH]; intros [|y o] [|z p]; simpl; try done.
    destruct (decide (y = x)) as [->|Hyx]; [|destruct (decide (z = y)) as [->|Hzy]].
    + destruct (decide (z = x)); [apply IH|done].
    + by rewrite decide_False by done.
    + intros H1 H2. destruct (decide (z = x)) as [->|_].
      * by destruct Hyx; apply token_lt_total.
      * by eapply less_cotrans.
Qed.
Lemma lex_total l o : lex l o = false → lex o l = false → l = o.
Proof.
  revert o. induction l as [|x l IH]; intros [|y o]; simpl; [done..|].
  destruct (decide (x = y)) as [->|Hne].
  - rewrite decide_True by done. intros. f_equal. by apply IH.
  - rewrite decide_False by done. intros. by destruct Hne; apply token_lt_total.
Qed.
Lemma lex_refl l : lex l l = false.
Proof. induction l; simpl; [done|]. by rewrite decide_True by done. Qed.
Lemma lex_app l1 l2 r1 r2 :
  length l1 = length l2 →
  lex (l1 ++ r1) (l2 ++ r2) = if decide (l1 = l2) then lex r1 r2 else lex l1 l2.
Proof.
  revert l2. induction l1 as [|x l1 IH]; intros [|y l2]; simpl; intros Hlen; simplify_eq/=; [done|].
  destruct (decide (x = y)) as [->|Hne].
  - rewrite IH by done. destruct (decide (l1 = l2)) as [->|Hne].
    + by rewrite decide_True by done.
    + rewrite decide_False by congruence. done.
  - rewrite decide_False by congruence. done.
Qed.

(** ** Selectors as tokens *)

Definition is_nil {A} (o : option A) : token := (if o is Some _ then 1 else 0, "").
Definition text (s : string) : token := (0, s).
Definition number (n : nat) : token := (n, "").

Definition req_tokens (s : SelectorRequirements) : list token :=
  [text (Req_Key s); text (Req_Operator s); is_nil (Req_Values s); number (slice_len (Req_Values s))]
  ++ (text <$> sort_Strings (default [] (Req_Values s))).
Definition pair_tokens (m : gmap string string) (k : string) : list token :=
  [text k; text (map_get (Some m) k)].
Definition labels_tokens (m : option (gmap string string)) : list token :=
  is_nil m :: number (map_len m) ::
  (sorted_keys (default ∅ m) ≫= pair_tokens (default ∅ m)).
Definition requirements_tokens (e : option (list SelectorRequirements)) : list token :=
  is_nil e :: number (slice_len e) :: (default [] e ≫= req_tokens).
Definition tokens (ns : NodeSelector) : list token :=
  labels_tokens (MatchLabels ns) ++ requirements_tokens (MatchExpressions ns).

Lemma lex_text s t l o :
  lex (text s :: l) (text t :: o) = if decide (s = t) then lex l o else str_lt s t.
Proof.
  simpl. unfold token_lt. destruct (decide (s = t)) as [->|Hne].
  - by rewrite decide_True by done.
  - by rewrite decide_False by (intros [= ?]; done).
Qed.
Lemma lex_number n m l o :
  lex (number n :: l) (number m :: o) = if decide (n = m) then lex l o else n <? m.
Proof.
  simpl. unfold token_lt. destruct (decide (n = m)) as [->|Hne].
  - by rewrite decide_True by done.
  - rewrite decide_False by (intros [= ?]; done). simpl. by rewrite decide_False by done.
Qed.

Lemma sorted_keys_length m : length (sorted_keys m) = size m.
Proof. unfold sorted_keys. by rewrite sort_Strings_length, length_fmap, length_map_to_list. Qed.
Lemma elem_of_sorted_keys m k : k ∈ sorted_keys m ↔ is_Some (m !! k).
Proof.
  unfold sorted_keys. rewrite sort_Strings_perm, list_elem_of_fmap. split.
  - intros ([k' v] & -> & Hin%elem_of_map_to_list). by exists v.
  - intros [v Hv]. exists (k, v). split; [done|by apply elem_of_map_to_list].
Qed.

(** The two readings of a comparison of labels. *)
Lemma keys_less_tokens a b ik jk r1 r2 :
  length ik = length jk →
  lex ((ik ≫= pair_tokens a) ++ r1) ((jk ≫= pair_tokens b) ++ r2) =
    match keys_less a b ik jk with Some c => c | None => lex r1 r2 end.
Proof.
  revert jk. induction ik as [|k ik IH]; intros [|k' jk]; intros Hlen; simplify_eq/=; [done|].
  lazymatch goal with |- _ = ?rhs =>
    change (lex (text k :: text (map_get (Some a) k) :: (ik ≫= pair_tokens a) ++ r1)
      (text k' :: text (map_get (Some b) k') :: (jk ≫= pair_tokens b) ++ r2) = rhs) end.
  rewrite !lex_text. destruct (decide (k = k')) as [->|Hne].
  - rewrite (decide_False (P := k' ≠ k')) by (intros Hne; by apply Hne). simpl.
    destruct (decide (default "" (a !! k') = default "" (b !! k'))) as [->|Hne'].
    + rewrite (decide_False (P := _ ≠ _)) by (intros Hne; by apply Hne). by apply IH.
    + by rewrite (decide_True (P := _ ≠ _)) by done.
  - by rewrite (decide_True (P := k ≠ k')) by done.
Qed.
Lemma keys_less_None a b ik jk :
  length ik = length jk →
  keys_less a b ik jk = None ↔ (ik ≫= pair_tokens a) = (jk ≫= pair_tokens b).
Proof.
  revert jk. induction ik as [|k ik IH]; intros [|k' jk]; intros Hlen; simplify_eq/=; [done|].
  destruct (decide (k ≠ k')) as [Hne|Heq%dec_stable].
  { split; [done|]. intros [= ?]. done. }
  subst k'. destruct (decide (default "" (a !! k) ≠ default "" (b !! k))) as [Hne|Heq%dec_stable].
  { split; [done|]. intros [= ? ?]. done. }
  rewrite IH by done. unfold pair_tokens. simpl. rewrite Heq. split; [by intros ->|].
  intros [= ?]. done.
Qed.

Lemma labels_less_tokens a b r1 r2 :
  lex (labels_tokens a ++ r1) (labels_tokens b ++ r2) =
    match labels_less a b with Some c => c | None => lex r1 r2 end.
Proof.
  unfold labels_tokens, labels_less. cbn [app].
  destruct a as [a|], b as [b|]; try reflexivity.
  cbn [lex]. rewrite decide_True by done.
  lazymatch goal with |- _ = ?rhs =>
    change (lex (number (map_len (Some a)) :: (sorted_keys a ≫= pair_tokens a) ++ r1)
      (number (map_len (Some b)) :: (sorted_keys b ≫= pair_tokens b) ++ r2) = rhs) end.
  rewrite lex_number.
  destruct (decide (map_len (Some a) = map_len (Some b))) as [Heq|Hne].
  - rewrite (decide_False (P := _ ≠ _)) by tauto. apply keys_less_tokens.
    by rewrite !sorted_keys_length.
  - by rewrite (decide_True (P := _ ≠ _)) by done.
Qed.
Lemma labels_less_None a b : labels_less a b = None ↔ labels_tokens a = labels_tokens b.
Proof.
  unfold labels_tokens, labels_less. destruct a as [a|], b as [b|]; try done.
  destruct (decide (map_len (Some a) ≠ map_len (Some b))) as [Hne|Heq%dec_stable].
  - split; [done|]. intros [= ? _]. done.
  - simpl. rewrite Heq, keys_less_None by (rewrite !sorted_keys_length; exact Heq).
    split; [by intros ->|]. by intros [= ?].
Qed.

(** The tokens tell the labels apart. *)
Lemma pair_tokens_inj a b ik jk :
  length ik = length jk → (ik ≫= pair_tokens a) = (jk ≫= pair_tokens b) →
  ik = jk ∧ ∀ k, k ∈ ik → map_get (Some a) k = map_get (Some b) k.
Proof.
  revert jk. induction ik as [|k ik IH]; intros [|k' jk] Hlen Heq; simplify_eq/=.
  { split; [done|]. by intros k ?%elem_of_nil. }
  destruct (IH jk) as [-> Hv]; [done..|]. split; [done|].
  intros k [->|Hk]%elem_of_cons; [done|]. by apply Hv.
Qed.
Lemma labels_tokens_inj a b : labels_tokens a = labels_tokens b ↔ a = b.
Proof.
  split; [|by intros ->]. unfold labels_tokens. destruct a as [a|], b as [b|]; try done.
  intros [= Hsize Heq]. f_equal. apply pair_tokens_inj in Heq as [Hk Hv];
    [|rewrite !sorted_keys_length; exact Hsize].
  apply map_eq. intros k. pose proof (elem_of_sorted_keys a k) as Ha.
  pose proof (elem_of_sorted_keys b k) as Hb. rewrite <-Hk in Hb.
  destruct (a !! k) as [v|] eqn:E.
  - assert (k ∈ sorted_keys a) as Hin by (by apply Ha).
    pose proof (proj1 Hb Hin) as [v' Hv']. specialize (Hv _ Hin). simpl in Hv.
    rewrite E, Hv' in *. simpl in Hv. by subst.
  - destruct (b !! k) as [v|] eqn:E'; [|done].
    exfalso. destruct (proj1 Ha (proj2 Hb ltac:(by eexists))). done.
Qed.

(** Sorting the values of a requirement keeps its tokens. *)
Lemma sort_Strings_idemp l : sort_Strings (sort_Strings l) = sort_Strings l.
Proof. apply sort_Strings_eq, sort_Strings_perm. Qed.
Lemma sort_Values_tokens s : req_tokens (sort_Values s) = req_tokens s.
Proof.
  unfold req_tokens, sort_Values. destruct s as [k o [v|]]; simpl; [|done].
  unfold slice_len. simpl. by rewrite sort_Strings_length, sort_Strings_idemp.
Qed.

Lemma text_inj (l o : list string) : text <$> l = text <$> o → l = o.
Proof. revert o. induction l as [|x l IH]; intros [|y o]; intros [=]; [done|]. f_equal; auto. Qed.
Lemma first_difference_tokens l o :
  length l = length o →
  (first_difference l o = Lt ↔ lex (text <$> l) (text <$> o) = true) ∧
  (first_difference l o = Eq ↔ l = o).
Proof.
  revert o. induction l as [|x l IH]; intros [|y o]; intros Hlen; simplify_eq/=; [done|].
  destruct (IH o Hlen) as [IH1 IH2]. unfold token_lt.
  destruct (decide (x = y)) as [->|Hne].
  - rewrite (decide_True (P := text y = text y)) by done. split; [done|]. rewrite IH2.
    split; [by intros ->|by intros [= ->]].
  - rewrite (decide_False (P := text x = text y)) by (intros [= ?]; done). simpl. split.
    + apply str_lt_compare.
    + split; [|by intros [= ?]]. intros Heq. by apply String.compare_eq_iff in Heq.
Qed.

Lemma Compare_tokens s o c s' o' :
  SelectorRequirements_Compare s o = (c, s', o') →
  (c = Lt ↔ lex (req_tokens s) (req_tokens o) = true) ∧
  (c = Eq ↔ req_tokens s = req_tokens o) ∧
  req_tokens s' = req_tokens s ∧ req_tokens o' = req_tokens o.
Proof.
  unfold SelectorRequirements_Compare, req_tokens. cbn [app].
  rewrite !lex_text.
  destruct (decide (Req_Key s = Req_Key o)) as [Hk|Hk].
  2:{ rewrite (decide_True (P := Req_Key s ≠ _)) by done. intros [= <- <- <-].
      split; [apply str_lt_compare|]. split; [|done]. split; [|by intros [= ?]].
      intros Heq. by apply String.compare_eq_iff in Heq. }
  rewrite (decide_False (P := Req_Key s ≠ _)) by tauto.
  destruct (decide (Req_Operator s = Req_Operator o)) as [Ho|Ho].
  2:{ rewrite (decide_True (P := Req_Operator s ≠ _)) by done. intros [= <- <- <-].
      split; [apply str_lt_compare|]. split; [|done]. split; [|by intros [= ?]].
      intros Heq. by apply String.compare_eq_iff in Heq. }
  rewrite (decide_False (P := Req_Operator s ≠ _)) by tauto.
  destruct (Req_Values s) as [sv|] eqn:Es, (Req_Values o) as [ov|] eqn:Eo;
    try (intros [= <- <- <-]; rewrite Es, Eo, Hk, Ho; split_and!; done).
  unfold slice_len, is_nil. cbn [default from_option id].
  change (lex ((1, "") :: number (length sv) :: (text <$> sort_Strings sv))
              ((1, "") :: number (length ov) :: (text <$> sort_Strings ov)))
    with (lex (number (length sv) :: (text <$> sort_Strings sv))
              (number (length ov) :: (text <$> sort_Strings ov))).
  rewrite lex_number.
  destruct (decide (length sv < length ov)) as [Hlt|Hlt];
    [|destruct (decide (length ov < length sv)) as [Hgt|Hgt]].
  - intros [= <- <- <-]. rewrite decide_False, Es, Eo by lia. cbn [default from_option id].
    split; [split; [intros _; by apply Nat.ltb_lt|done]|]. split; [|done].
    split; [done|]. intros [= _ _ Hn _]. lia.
  - intros [= <- <- <-]. rewrite decide_False, Es, Eo by lia. cbn [default from_option id].
    split; [split; [done|intros ?%Nat.ltb_lt; lia]|]. split; [|done].
    split; [done|]. intros [= _ _ Hn _]. lia.
  - intros [= <- <- <-]. assert (length sv = length ov) as Hlen by lia. rewrite decide_True by done.
    destruct (first_difference_tokens (sort_Strings sv) (sort_Strings ov)) as [H1 H2];
      [by rewrite !sort_Strings_length|].
    split; [done|]. split.
    + rewrite H2, Hk, Ho, Hlen. split; [by intros ->|]. intros [= Heq]. by apply text_inj.
    + pose proof (sort_Values_tokens s) as Hs. pose proof (sort_Values_tokens o) as Ho'.
      unfold req_tokens, slice_len, is_nil in Hs, Ho'. cbn [app] in Hs, Ho'. rewrite Es in Hs. rewrite Eo in Ho'.
      done.
Qed.

Lemma pairs_length m l : length (l ≫= pair_tokens m) = 2 * length l.
Proof. induction l as [|x l IH]; [done|]. rewrite bind_cons, length_app, IH. simpl. lia. Qed.
Lemma labels_tokens_length m : length (labels_tokens m) = 2 + 2 * map_len m.
Proof. unfold labels_tokens, map_len. cbn [length]. by rewrite pairs_length, sorted_keys_length. Qed.
Lemma tokens_split x y :
  tokens x = tokens y ↔
  MatchLabels x = MatchLabels y ∧
  requirements_tokens (MatchExpressions x) = requirements_tokens (MatchExpressions y).
Proof.
  unfold tokens. split; [|by intros [-> ->]]. intros Heq.
  assert (map_len (MatchLabels x) = map_len (MatchLabels y)) as Hlen by by injection Heq.
  apply app_inj_1 in Heq as [Hl Hr]; [|by rewrite !labels_tokens_length, Hlen].
  by apply labels_tokens_inj in Hl.
Qed.

(** ** Selectors with at most one requirement *)

(** Labels that are there and not empty, and at most one requirement; those
    without one are all nil or, with [k], all empty slices. *)
Definition tidy (k : bool) (ns : NodeSelector) : Prop :=
  (∃ m, MatchLabels ns = Some m ∧ map_Forall (λ _ v, v ≠ "") m) ∧
  match MatchExpressions ns with
  | None => k = false
  | Some [] => k = true
  | Some [_] => True
  | Some _ => False
  end.
(** The same selector, up to the order of the values of a requirement. *)
Definition same_tokens : relation NodeSelector := λ x y, tokens x = tokens y.

Section tidy.
Context `{PdqSortEff} (k : bool).

Lemma sort_one {A} (less : cmp A) x : sort_Sort_eff less [x] = Ok [x].
Proof. done. Qed.
Lemma sort_none {A} (less : cmp A) : sort_Sort_eff less [] = Ok [].
Proof. done. Qed.

Lemma requirements_tokens_one e :
  requirements_tokens (Some [e]) = (1, "") :: number 1 :: req_tokens e.
Proof. unfold requirements_tokens. simpl. by rewrite app_nil_r. Qed.
Lemma rewritten e e' x :
  MatchExpressions x = Some [e] → req_tokens e' = req_tokens e → tidy k x →
  same_tokens x (set_MatchExpressions (Some [e']) x) ∧ tidy k (set_MatchExpressions (Some [e']) x).
Proof.
  intros Hx He [Hl _]. split; [|done]. unfold same_tokens, tokens.
  cbn [MatchExpressions set_MatchExpressions MatchLabels]. by rewrite Hx, !requirements_tokens_one, He.
Qed.
Lemma same_refl x : tidy k x → same_tokens x x ∧ tidy k x.
Proof. done. Qed.

Lemma Less_tidy x y :
  tidy k x → tidy k y →
  ∃ x' y', NodeSelectors_Less x y = Ok (lex (tokens x) (tokens y), x', y') ∧
    (same_tokens x x' ∧ tidy k x') ∧ (same_tokens y y' ∧ tidy k y').
Proof.
  destruct x as [lx ex], y as [ly ey]. intros Hx Hy.
  unfold NodeSelectors_Less, tokens. rewrite labels_less_tokens. cbn [MatchLabels MatchExpressions].
  destruct (labels_less _ _) as [b|]; [by eexists _, _|].
  pose proof Hx as [_ Ex]. pose proof Hy as [_ Ey]. cbn [MatchExpressions] in Ex, Ey.
  destruct ex as [[|e [|]]|], ey as [[|f [|]]|]; try done; try congruence; try (by eexists _, _).
  unfold slice_len, mbind, res_bind. cbn [default from_option id length].
  rewrite decide_False, !sort_one by (intros Hne; by apply Hne).
  destruct (SelectorRequirements_Compare e f) as [[c e'] f'] eqn:Hc. cbn [requirements_less]. rewrite Hc.
  apply Compare_tokens in Hc as (Hlt & _ & He & Hf).
  assert (lex (requirements_tokens (Some [e])) (requirements_tokens (Some [f])) =
          bool_decide (c = Lt)) as ->.
  { rewrite !requirements_tokens_one. apply eq_bool_prop_intro.
    by rewrite bool_decide_spec, Hlt, Is_true_true. }
  destruct (decide (c = Lt)) as [->|Hne]; eexists _, _;
    (split; [rewrite ?(bool_decide_false (c = Lt)) by done; done|]); split; by eapply rewritten.
Qed.

(** With no empty value in it, a map of the same size whose values can be
    read in the other map is that map. *)
Lemma labels_match_eq (m m' : gmap string string) :
  map_Forall (λ _ v, v ≠ "") m → size m = size m' →
  map_Forall (λ key v, map_get (Some m') key = v) m ↔ m = m'.
Proof.
  intros Hne Hsize. split.
  - intros Hget. apply map_subseteq_size_eq; [|lia]. apply map_subseteq_spec. intros key v Hv.
    pose proof (Hget _ _ Hv) as Hv'. specialize (Hne _ _ Hv). simpl in Hv'.
    destruct (m' !! key); simpl in Hv'; by subst.
  - intros <- key v Hv. simpl. by rewrite Hv.
Qed.

Lemma Equal_tidy x y :
  tidy k x → tidy k y →
  ∃ x' y', NodeSelector_Equal x y = Ok (bool_decide (tokens x = tokens y), x', y') ∧
    (same_tokens x x' ∧ tidy k x') ∧ (same_tokens y y' ∧ tidy k y').
Proof.
  intros Hx Hy. pose proof Hx as [(m & Hm & Hne) Ex]. pose proof Hy as [(m' & Hm' & Hne') Ey].
  assert (∀ b, b = bool_decide (tokens x = tokens y) → NodeSelector_Equal x y = Ok (b, x, y) →
    ∃ x' y', NodeSelector_Equal x y = Ok (bool_decide (tokens x = tokens y), x', y') ∧
      (same_tokens x x' ∧ tidy k x') ∧ (same_tokens y y' ∧ tidy k y')) as Hsame.
  { intros b -> Hrun. by exists x, y. }
  assert (tokens x = tokens y → map_len (MatchLabels x) = map_len (MatchLabels y) ∧
    slice_len (MatchExpressions x) = slice_len (MatchExpressions y)) as Hlens.
  { intros [-> Hr]%tokens_split. split; [done|]. by injection Hr. }
  destruct (decide (map_len (MatchLabels x) ≠ map_len (MatchLabels y) ∨
    slice_len (MatchExpressions x) ≠ slice_len (MatchExpressions y))) as [Hl|Hl].
  { apply (Hsame false); [|unfold NodeSelector_Equal; by rewrite decide_True].
    rewrite bool_decide_false; [done|]. intros Heq%Hlens. tauto. }
  rewrite Hm, Hm' in Hl. unfold map_len in Hl. cbn [default from_option id] in Hl.
  destruct (decide (m = m')) as [<-|Hmm].
  2:{ apply (Hsame false); [rewrite bool_decide_false; [done|]; intros [Heq _]%tokens_split; congruence|].
      unfold NodeSelector_Equal, map_len. rewrite Hm, Hm'. cbn [default from_option id].
      rewrite decide_False, decide_False; [done| |done].
      rewrite labels_match_eq; [done..|]. destruct (decide (size m = size m')); [done|tauto]. }
  destruct x as [lx ex], y as [ly ey]. cbn [MatchLabels MatchExpressions] in *. subst lx ly.
  unfold NodeSelector_Equal, map_len. cbn [MatchLabels MatchExpressions default from_option id].
  rewrite decide_False by done. rewrite decide_True by (by apply labels_match_eq).
  destruct ex as [[|e [|]]|], ey as [[|f [|]]|]; try done; try congruence;
    try (exfalso; apply Hl; right; done);
    try (eexists _, _; split; [rewrite bool_decide_true by done; done|done]).
  unfold SelectorRequirementsSlice_Equal, slice_len, mbind, res_bind. cbn [default from_option id length].
  rewrite decide_False, !sort_one by (intros Hn; by apply Hn).
  cbn [equal_loop]. unfold SelectorRequirements_Equal, mbind, res_bind.
  destruct (SelectorRequirements_Compare e f) as [[c e'] f'] eqn:Hc.
  apply Compare_tokens in Hc as (_ & Heq & He & Hf).
  assert (bool_decide (tokens {| MatchLabels := Some m; MatchExpressions := Some [e] |} =
    tokens {| MatchLabels := Some m; MatchExpressions := Some [f] |}) = bool_decide (c = Eq)) as ->.
  { apply bool_decide_ext. rewrite tokens_split, Heq. cbn [MatchLabels MatchExpressions].
    rewrite !requirements_tokens_one. split; [|by intros ->].
    intros [_ Ht]. exact (f_equal (drop 2) Ht). }
  destruct (decide (c = Eq)) as [->|Hne2]; eexists _, _;
    (split; [rewrite ?(bool_decide_false (c = Eq)) by done; done|]); split; by eapply rewritten.
Qed.

End tidy.

(** ** Sorting two slices and comparing them *)

Section sorted_equal.
Context `{PdqSortEff} {A : Type} (f : A → list token).
Definition tokens_lt (x y : A) : bool := lex (f x) (f y).
Global Instance tokens_lt_weak : StrictWeak tokens_lt.
Proof. split; intros *; unfold tokens_lt; [apply less_asym|apply less_cotrans]. Qed.

Lemma sorted_tokens n : sorted_by tokens_lt n → StronglySorted (λ l o, lex o l = false) (f <$> n).
Proof.
  induction 1 as [|x n Hn IH Hx]; [constructor|]. rewrite fmap_cons. constructor; [done|].
  apply Forall_fmap. exact Hx.
Qed.
Lemma sorted_tokens_eq n o :
  sorted_by tokens_lt n → sorted_by tokens_lt o → f <$> n ≡ₚ f <$> o ↔ f <$> n = f <$> o.
Proof.
  intros Hn Ho. split; [|by intros ->]. intros Hp.
  apply (StronglySorted_unique_strong (λ l o, lex o l = false)); auto using sorted_tokens.
  intros. by apply lex_total.
Qed.
Lemma zip_tokens n o :
  length n = length o →
  forallb (λ xy, bool_decide (f xy.1 = f xy.2)) (zip n o) = true ↔ f <$> n = f <$> o.
Proof.
  revert o. induction n as [|x n IH]; intros [|y o] Hlen; try done.
  injection Hlen as Hlen. rewrite !fmap_cons. change (zip (x :: n) (y :: o)) with ((x, y) :: zip n o).
  cbn [forallb fst snd]. rewrite andb_true_iff, bool_decide_eq_true, IH by done.
  split; [intros [Hx Hl]; by f_equal|apply cons_eq_inj].
Qed.

Context (less eq : cmp A) (P : A → Prop) (R : relation A).
Hypothesis HR : ∀ x y, R x y → f x = f y.
Hypothesis Heq : ∀ x y, P x → P y →
  ∃ x' y', eq x y = Ok (bool_decide (f x = f y), x', y') ∧ R x x' ∧ R y y' ∧ P x' ∧ P y'.

Lemma perm_upto_tokens n n' : perm_upto R n n' → f <$> n' ≡ₚ f <$> n.
Proof.
  intros (n0 & Hp & Hf). rewrite <-Hp. clear Hp.
  induction Hf as [|x y n0 n' Hxy _ IH]; [done|]. rewrite !fmap_cons, IH. by rewrite (HR _ _ Hxy).
Qed.
Lemma perm_upto_trans n n1 n' : Transitive R → perm_upto R n n1 → Forall2 R n1 n' → perm_upto R n n'.
Proof. intros HT (n0 & Hp & Hf) Hf'. exists n0. split; [done|]. by transitivity n1. Qed.

(** What the comparison of two slices of the same length answers. Each slice
    may have elements that can be sorted among themselves only. *)
Lemma sorted_equal_each P1 P2 n o :
  answers less P1 R tokens_lt → answers less P2 R tokens_lt →
  (∀ x, P1 x → P x) → (∀ x, P2 x → P x) → Forall P1 n → Forall P2 o → length n = length o →
  ∃ b n1 o1 n' o', sort_Sort_eff less n = Ok n1 ∧ sort_Sort_eff less o = Ok o1 ∧
    equal_loop eq n1 o1 = Ok (b, n', o') ∧ (b = true ↔ f <$> n ≡ₚ f <$> o) ∧
    perm_upto R n n' ∧ perm_upto R o o' ∧ Forall P n' ∧ Forall P o'.
Proof.
  intros Hless1 Hless2 H1 H2 Hn Ho Hlen.
  destruct (sort_Sort_eff_spec _ _ _ _ n Hless1 Hn) as (n1 & Hn1 & Hp1 & Ht1 & Hs1).
  destruct (sort_Sort_eff_spec _ _ _ _ o Hless2 Ho) as (o1 & Ho1 & Hp2 & Ht2 & Hs2).
  assert (length n1 = length o1) as Hl1
    by by rewrite (perm_upto_length _ _ _ Hp1), (perm_upto_length _ _ _ Hp2).
  destruct (equal_loop_spec P R eq (λ x y, bool_decide (f x = f y)) n1 o1 Heq
    (answers_refl _ _ _ _ Hless1) (Forall_impl _ _ _ Ht1 H1) (Forall_impl _ _ _ Ht2 H2) Hl1)
    as (n' & o' & Hrun & Hf1 & Hf2 & ? & ?).
  pose proof (answers_trans _ _ _ _ Hless1) as HT.
  eexists _, n1, o1, n', o'. split_and!; [done|done|exact Hrun| | | |done|done].
  - rewrite zip_tokens, <-sorted_tokens_eq by auto using tokens_lt_weak.
    by rewrite (perm_upto_tokens _ _ Hp1), (perm_upto_tokens _ _ Hp2).
  - by eapply perm_upto_trans.
  - by eapply perm_upto_trans.
Qed.
Lemma sorted_equal n o :
  answers less P R tokens_lt → Forall P n → Forall P o → length n = length o →
  ∃ b n1 o1 n' o', sort_Sort_eff less n = Ok n1 ∧ sort_Sort_eff less o = Ok o1 ∧
    equal_loop eq n1 o1 = Ok (b, n', o') ∧ (b = true ↔ f <$> n ≡ₚ f <$> o) ∧
    perm_upto R n n' ∧ perm_upto R o o' ∧ Forall P n' ∧ Forall P o'.
Proof. intros Hless. by apply (sorted_equal_each P P). Qed.
End sorted_equal.

(** ** Sets of selectors *)

Section selectors.
Context `{PdqSortEff} (k : bool).

Lemma Less_answers : answers NodeSelectors_Less (tidy k) same_tokens (tokens_lt tokens).
Proof.
  split.
  - intros x y Hx Hy. destruct (Less_tidy k x y Hx Hy) as (x' & y' & Hrun & [? ?] & [? ?]).
    by exists x', y'.
  - done.
  - intros x y z. unfold same_tokens. congruence.
  - intros x x' y y' Hx Hy. unfold tokens_lt. by rewrite Hx, Hy.
Qed.
Lemma Equal_answers x y :
  tidy k x → tidy k y →
  ∃ x' y', NodeSelector_Equal x y = Ok (bool_decide (tokens x = tokens y), x', y') ∧
    same_tokens x x' ∧ same_tokens y y' ∧ tidy k x' ∧ tidy k y'.
Proof.
  intros Hx Hy. destruct (Equal_tidy k x y Hx Hy) as (x' & y' & Hrun & [? ?] & [? ?]).
  by exists x', y'.
Qed.

Lemma NodeSelectors_Equal_tokens n o :
  Forall (tidy k) n → Forall (tidy k) o →
  ∃ b n' o', NodeSelectors_Equal n o = Ok (b, n', o') ∧
    (b = true ↔ tokens <$> n ≡ₚ tokens <$> o) ∧
    tokens <$> n' ≡ₚ tokens <$> n ∧ tokens <$> o' ≡ₚ tokens <$> o ∧
    Forall (tidy k) n' ∧ Forall (tidy k) o'.
Proof.
  intros Hn Ho. unfold NodeSelectors_Equal. destruct (decide (length n ≠ length o)) as [Hl|Hl%dec_stable].
  { exists false, n, o. split; [done|]. split; [|done]. split; [done|]. intros Hp%Permutation_length.
    by rewrite !length_fmap in Hp. }
  destruct (sorted_equal tokens _ _ _ same_tokens (λ _ _, id) Equal_answers n o Less_answers Hn Ho Hl)
    as (b & n1 & o1 & n' & o' & Hn1 & Ho1 & Hrun & Hb & Hp1 & Hp2 & ? & ?).
  exists b, n', o'. unfold mbind, res_bind. rewrite Hn1, Ho1.
  split_and!; [done|done|by eapply (perm_upto_tokens tokens same_tokens (λ _ _, id))..|done|done].
Qed.

(** *** Without the service selectors *)

Definition tag_ok (x : nat * NodeSelector) : Prop := tidy k x.2.
Definition tag_same : relation (nat * NodeSelector) := λ x y, x.1 = y.1 ∧ same_tokens x.2 y.2.
Definition tag_tokens (x : nat * NodeSelector) : list token := tokens x.2.

Lemma tagged_answers : answers (tagged NodeSelectors_Less) tag_ok tag_same (tokens_lt tag_tokens).
Proof.
  split.
  - intros [i x] [j y] Hx Hy. destruct (Less_tidy k x y Hx Hy) as (x' & y' & Hrun & [? ?] & [? ?]).
    exists (i, x'), (j, y'). unfold tagged, mbind, res_bind. simpl. by rewrite Hrun.
  - done.
  - intros x y z [H1 H2] [H3 H4]. unfold tag_same, same_tokens in *. split; congruence.
  - intros x x' y y' [_ Hx] [_ Hy]. unfold tokens_lt, tag_tokens. by rewrite Hx, Hy.
Qed.
Lemma tagged_Equal x y :
  tag_ok x → tag_ok y →
  ∃ x' y', tagged NodeSelector_Equal x y = Ok (bool_decide (tag_tokens x = tag_tokens y), x', y') ∧
    tag_same x x' ∧ tag_same y y' ∧ tag_ok x' ∧ tag_ok y'.
Proof.
  destruct x as [i x], y as [j y]. intros Hx Hy.
  destruct (Equal_answers x y Hx Hy) as (x' & y' & Hrun & ? & ? & ? & ?).
  exists (i, x'), (j, y'). unfold tagged, mbind, res_bind. simpl. by rewrite Hrun.
Qed.

(** The selectors that are compared. *)
Definition compared (n : list NodeSelector) : list NodeSelector := filter (λ x, ignored x = false) n.
Lemma kept_snd n : (kept n).*2 = compared n.
Proof.
  unfold kept, compared. change (imap pair n) with (imap (λ i x, (id i, x)) n).
  generalize (@id nat) as g. induction n as [|x n IH]; intros g; [done|].
  rewrite imap_cons. rewrite !filter_cons. simpl.
  destruct (decide (ignored x = false)); [|apply (IH (g ∘ S))].
  rewrite fmap_cons. f_equal. apply (IH (g ∘ S)).
Qed.
Lemma kept_lookup n x : x ∈ kept n → n !! x.1 = Some x.2.
Proof.
  unfold kept. intros [_ Hx]%list_elem_of_filter. apply elem_of_lookup_imap in Hx as (i & y & -> & Hy). done.
Qed.
Lemma kept_tidy n : Forall (tidy k) n → Forall tag_ok (kept n).
Proof.
  intros Hn. apply Forall_forall. intros x Hx%kept_lookup. by eapply Forall_lookup_1 in Hn.
Qed.
Lemma kept_tokens n : tag_tokens <$> kept n = tokens <$> compared n.
Proof. rewrite <-kept_snd. by rewrite <-list_fmap_compose. Qed.

(** Putting the elements back where they came from. *)
Definition same_tidy : relation NodeSelector := λ x y, same_tokens x y ∧ tidy k y.
Lemma write_back_same n l :
  Forall (tidy k) n →
  (∀ x, x ∈ l → ∃ y, n !! x.1 = Some y ∧ same_tidy y x.2) → Forall2 same_tidy n (write_back l n).
Proof.
  intros Hn. induction l as [|x l IH]; intros Hl; simpl.
  - clear Hl. induction Hn; by constructor.
  - assert (Forall2 same_tidy n (write_back l n)) as Hf by (apply IH; intros y Hy; apply Hl; by right).
    destruct (Hl x) as (y & Hy & Hxy); [apply list_elem_of_here|].
    apply Forall2_same_length_lookup. split; [by rewrite length_insert, (Forall2_length _ _ _ Hf)|].
    intros i a b Ha. rewrite list_lookup_insert_Some. intros [(<- & <- & _)|[_ Hb]]; [congruence|].
    by eapply Forall2_lookup_lr.
Qed.
Lemma perm_kept n n' :
  Forall (tidy k) n → perm_upto tag_same (kept n) n' → Forall tag_ok n' → Forall2 same_tidy n (write_back n' n).
Proof.
  intros Hn (n0 & Hp & Hf) Hok. apply write_back_same; [done|]. intros x Hx.
  apply list_elem_of_lookup in Hx as [i Hi]. destruct (Forall2_lookup_r _ _ _ _ _ Hf Hi) as (y & Hy & Hxy & Hxt).
  apply list_elem_of_lookup_2 in Hy. rewrite Hp in Hy. apply kept_lookup in Hy.
  exists y.2. rewrite <-Hxy. split; [done|]. split; [done|]. by eapply Forall_lookup_1 in Hok.
Qed.
Lemma same_tidy_refl n : Forall (tidy k) n → Forall2 same_tidy n n.
Proof. induction 1; by constructor. Qed.

Lemma EqualIgnoreService_tokens n o :
  Forall (tidy k) n → Forall (tidy k) o →
  ∃ b n' o', NodeSelectors_EqualIgnoreService n o = Ok (b, n', o') ∧
    (b = true ↔ tokens <$> compared n ≡ₚ tokens <$> compared o) ∧
    Forall2 same_tidy n n' ∧ Forall2 same_tidy o o'.
Proof.
  intros Hn Ho. unfold NodeSelectors_EqualIgnoreService.
  destruct (decide (length (kept n) ≠ length (kept o))) as [Hl|Hl%dec_stable].
  { exists false, n, o. split; [done|]. split; [|by split; apply same_tidy_refl].
    split; [done|]. rewrite <-!kept_tokens. intros Hp%Permutation_length. by rewrite !length_fmap in Hp. }
  destruct (sorted_equal tag_tokens _ _ tag_ok tag_same (λ _ _ H, proj2 H) tagged_Equal
    (kept n) (kept o) tagged_answers (kept_tidy _ Hn) (kept_tidy _ Ho) Hl)
    as (b & n1 & o1 & n' & o' & Hn1 & Ho1 & Hrun & Hb & Hp1 & Hp2 & ? & ?).
  exists b, (write_back n' n), (write_back o' o). unfold mbind, res_bind. rewrite Hn1, Ho1, Hrun.
  rewrite <-!kept_tokens. split_and!; [done|done|by apply perm_kept..].
Qed.
End selectors.
