(* ===== verification/PoolOrder.v ===== *)
(** * The order of advertisements and the comparison of pools

    [AddressPool.EqualIgnoreName] of [config.go] sorts the addresses and the
    BGP advertisements of both pools and compares them one by one.
    [BgpAdvertisements.Less] asks whether any field is smaller, so it is an
    order only among advertisements of which one is at most the other in
    every field. Among such advertisements the comparison of two pools is
    equality up to order, and its sorting in place loses nothing. *)

From S2P Require Import Prelude GoStrings GoSort GoSortEff MetalLBTypes MetalLBEqual SelectorOrder.

(** ** Advertisements *)

(** The pointers are there and not negative, and there are [k] communities:
    the loops of [Less] and [Equal] read past the end of a shorter list. *)
Definition adv_ok (k : nat) (b : BgpAdvertisement) : Prop :=
  (∃ n, AggregationLength b = Some n ∧ (0 ≤ n)%Z) ∧ (∃ p, LocalPref b = Some p ∧ (0 ≤ p)%Z) ∧
  length (Communities b) = k.
(** At most the other in every field. *)
Definition below (x y : BgpAdvertisement) : Prop :=
  (default 0 (AggregationLength x) ≤ default 0 (AggregationLength y))%Z ∧
  (default 0 (LocalPref x) ≤ default 0 (LocalPref y))%Z ∧
  Forall2 (λ s t, str_lt t s = false) (sort_Strings (Communities x)) (sort_Strings (Communities y)).
Definition aligned (x y : BgpAdvertisement) : Prop := below x y ∨ below y x.
Definition chain (l : list BgpAdvertisement) : Prop := Forall (λ x, Forall (aligned x) l) l.
Global Instance chain_dec l : Decision (chain l).
Proof. unfold chain, aligned, below. apply _. Defined.
(** The same advertisement, up to the order of its communities. *)
Definition same_adv (x y : BgpAdvertisement) : Prop := sort_Communities x = sort_Communities y.
Definition tidy_advs (k : nat) (l : list BgpAdvertisement) : Prop := Forall (adv_ok k) l ∧ chain l.

#[export] Instance same_adv_Equivalence : Equivalence same_adv.
Proof. unfold same_adv. split; [done|by intros ??|intros ???; congruence]. Qed.
Lemma same_adv_fields x y :
  same_adv x y ↔ AggregationLength x = AggregationLength y ∧ LocalPref x = LocalPref y ∧
    sort_Strings (Communities x) = sort_Strings (Communities y).
Proof.
  destruct x as [a p c], y as [a' p' c']. unfold same_adv, sort_Communities, set_Communities. simpl.
  split; [by intros [= -> -> ->]|by intros (-> & -> & ->)].
Qed.
Lemma sort_Communities_same b : same_adv b (sort_Communities b).
Proof. apply same_adv_fields. simpl. by rewrite sort_Strings_idemp. Qed.
Lemma adv_ok_same k x y : same_adv x y → adv_ok k x → adv_ok k y.
Proof.
  intros (Ha & Hp & Hc)%same_adv_fields. unfold adv_ok. rewrite Ha, Hp.
  apply (f_equal length) in Hc. rewrite !sort_Strings_length in Hc. by rewrite Hc.
Qed.
Lemma aligned_same x x' y y' : same_adv x x' → same_adv y y' → aligned x y → aligned x' y'.
Proof.
  intros (Hax & Hpx & Hcx)%same_adv_fields (Hay & Hpy & Hcy)%same_adv_fields.
  unfold aligned, below. by rewrite Hax, Hpx, Hcx, Hay, Hpy, Hcy.
Qed.

Definition adv_tokens (b : BgpAdvertisement) : list token :=
  number (Z.to_nat (default 0%Z (AggregationLength b))) ::
  number (Z.to_nat (default 0%Z (LocalPref b))) :: (text <$> sort_Strings (Communities b)).
Lemma adv_tokens_same k x y :
  adv_ok k x → adv_ok k y → adv_tokens x = adv_tokens y ↔ same_adv x y.
Proof.
  intros ((n & Hn & Hn0) & (p & Hp & Hp0) & _) ((n' & Hn' & Hn0') & (p' & Hp' & Hp0') & _).
  rewrite same_adv_fields. unfold adv_tokens, number. rewrite Hn, Hp, Hn', Hp'. simpl. split.
  - intros [= Ha Hl Hc]. apply text_inj in Hc. split_and!; [f_equal; lia|f_equal; lia|done].
  - by intros ([= ->] & [= ->] & ->).
Qed.

(** The loop over the communities of sorted lists. *)
Lemma communities_less_above l o :
  Forall2 (λ s t, str_lt t s = false) l o →
  communities_less l o = Ok (lex (text <$> l) (text <$> o)).
Proof.
  induction 1 as [|v w l o Hvw _ IH]; [done|]. cbn [communities_less]. rewrite !fmap_cons, lex_text, IH.
  destruct (str_lt v w) eqn:E.
  - rewrite decide_False; [done|]. intros ->. by rewrite str_lt_irrefl in E.
  - rewrite decide_True; [done|]. by apply str_lt_total.
Qed.
Lemma communities_less_below l o :
  Forall2 (λ s t, str_lt t s = false) o l →
  communities_less l o = Ok false ∧ lex (text <$> l) (text <$> o) = false.
Proof.
  induction 1 as [|v w o l Hvw _ [IH1 IH2]]; [done|]. cbn [communities_less].
  rewrite !fmap_cons, lex_text, Hvw. by destruct (decide _).
Qed.
Lemma communities_equal_run l o :
  length l = length o → communities_equal l o = Ok (bool_decide (l = o)).
Proof.
  revert o. induction l as [|v l IH]; intros [|w o] Hlen; try done. injection Hlen as Hlen.
  cbn [communities_equal]. destruct (decide (v ≠ w)) as [Hne | ->%dec_stable].
  - by rewrite bool_decide_false by congruence.
  - rewrite IH by done. f_equal. apply bool_decide_ext. split; [by intros ->|by intros [= ->]].
Qed.

(** [Less] among aligned advertisements, and [Equal]. *)
Lemma Less_aligned k x y :
  adv_ok k x → adv_ok k y → aligned x y →
  ∃ x' y', BgpAdvertisements_Less x y = Ok (lex (adv_tokens x) (adv_tokens y), x', y') ∧
    same_adv x x' ∧ same_adv y y'.
Proof.
  intros ((n & Hn & Hn0) & (p & Hp & Hp0) & Hk) ((n' & Hn' & Hn0') & (p' & Hp' & Hp0') & Hk') Hal.
  unfold BgpAdvertisements_Less, adv_tokens, aligned, below in *. rewrite Hn, Hp, Hn', Hp' in *.
  cbn [ptr mbind res_bind default from_option id] in *. rewrite !lex_number.
  destruct (n <? n')%Z eqn:En.
  { exists x, y. split; [|done]. by rewrite decide_False, (proj2 (Nat.ltb_lt _ _)) by lia. }
  destruct (p <? p')%Z eqn:Ep.
  { exists x, y. split; [|done]. destruct Hal as [(? & ? & _)|(? & ? & _)]; [|lia].
    by rewrite decide_True, decide_False, (proj2 (Nat.ltb_lt _ _)) by lia. }
  rewrite decide_False by lia. cbn [Communities sort_Communities set_Communities].
  exists (sort_Communities x), (sort_Communities y).
  split; [|split; apply sort_Communities_same].
  destruct Hal as [(? & ? & Hc)|(? & ? & Hc)].
  - rewrite !decide_True by lia. by rewrite (communities_less_above _ _ Hc).
  - destruct (communities_less_below _ _ Hc) as [-> Hl]. cbn [mbind res_bind]. do 3 f_equal.
    destruct (decide _); [|symmetry; apply Nat.ltb_ge; lia].
    destruct (decide _); [done|symmetry; apply Nat.ltb_ge; lia].
Qed.
Lemma Equal_adv k x y :
  adv_ok k x → adv_ok k y →
  ∃ x' y', BgpAdvertisement_Equal x y = Ok (bool_decide (adv_tokens x = adv_tokens y), x', y') ∧
    same_adv x x' ∧ same_adv y y' ∧ adv_ok k x' ∧ adv_ok k y'.
Proof.
  intros Hx Hy. pose proof (adv_tokens_same k x y Hx Hy) as Ht. rewrite same_adv_fields in Ht.
  pose proof Hx as ((n & Hn & Hn0) & (p & Hp & Hp0) & Hk).
  pose proof Hy as ((n' & Hn' & Hn0') & (p' & Hp' & Hp0') & Hk').
  rewrite (bool_decide_ext _ _ Ht), Hn, Hp, Hn', Hp'. clear Ht.
  unfold BgpAdvertisement_Equal. rewrite Hn, Hp, Hn', Hp'. cbn [ptr mbind res_bind].
  destruct (decide (n ≠ n')) as [Hne | <-%dec_stable].
  { exists x, y. by rewrite bool_decide_false by naive_solver. }
  destruct (decide (p ≠ p')) as [Hne | <-%dec_stable].
  { exists x, y. by rewrite bool_decide_false by naive_solver. }
  cbn [Communities sort_Communities set_Communities].
  rewrite communities_equal_run by (by rewrite !sort_Strings_length, Hk, Hk'). cbn [mbind res_bind].
  exists (sort_Communities x), (sort_Communities y). split.
  - do 3 f_equal. apply bool_decide_ext. naive_solver.
  - split_and!; [apply sort_Communities_same..| |];
      (eapply adv_ok_same; [apply sort_Communities_same|done]).
Qed.

(** *** Lists of advertisements *)

(** An advertisement of the list, up to the order of its communities. *)
Definition member (l : list BgpAdvertisement) (x : BgpAdvertisement) : Prop :=
  ∃ x0, x0 ∈ l ∧ same_adv x0 x.

Lemma chain_elem l x y : chain l → x ∈ l → y ∈ l → aligned x y.
Proof.
  unfold chain. rewrite Forall_forall. intros Hl Hx Hy. specialize (Hl x Hx).
  rewrite Forall_forall in Hl. by apply Hl.
Qed.
Lemma member_ok k l x : Forall (adv_ok k) l → member l x → adv_ok k x.
Proof. rewrite Forall_forall. intros Hl (x0 & Hx0 & Hx). by eapply adv_ok_same; [|apply Hl]. Qed.
Lemma member_aligned l x y : chain l → member l x → member l y → aligned x y.
Proof.
  intros Hl (x0 & Hx0 & Hx) (y0 & Hy0 & Hy). eapply aligned_same; [done..|]. by eapply chain_elem.
Qed.
Lemma Forall_member l : Forall (member l) l.
Proof. apply Forall_forall. intros x Hx. by exists x. Qed.

Lemma adv_Less_answers k l :
  tidy_advs k l → answers BgpAdvertisements_Less (member l) same_adv (tokens_lt adv_tokens).
Proof.
  intros [Hok Hl]. split.
  - intros x y Hx Hy.
    destruct (Less_aligned k x y) as (x' & y' & Hrun & Hxx & Hyy);
      [by eapply member_ok..|by eapply member_aligned|].
    exists x', y'. split_and!; [done..| |].
    + destruct Hx as (x0 & ? & ?). exists x0. split; [done|by transitivity x].
    + destruct Hy as (y0 & ? & ?). exists y0. split; [done|by transitivity y].
  - apply _.
  - apply _.
  - intros x x' y y' (Ha & Hp & Hc)%same_adv_fields (Ha' & Hp' & Hc')%same_adv_fields.
    unfold tokens_lt, adv_tokens. by rewrite Ha, Hp, Hc, Ha', Hp', Hc'.
Qed.

Lemma perm_upto_advs l l' :
  perm_upto same_adv l l' → sort_Communities <$> l ≡ₚ sort_Communities <$> l'.
Proof.
  intros (l0 & <- & Hf). induction Hf as [|x y l0 l' Hxy _ IH]; [done|].
  rewrite !fmap_cons, IH. by rewrite Hxy.
Qed.
Lemma tidy_advs_same k l l' :
  sort_Communities <$> l ≡ₚ sort_Communities <$> l' → tidy_advs k l → tidy_advs k l'.
Proof.
  intros Hp [Hok Hl].
  assert (∀ y, y ∈ l' → member l y) as Hm.
  { intros y Hy. assert (sort_Communities y ∈ sort_Communities <$> l) as Hin
      by (rewrite Hp; by apply list_elem_of_fmap_2).
    apply list_elem_of_fmap in Hin as (x & Hxy & Hx). by exists x. }
  split; [apply Forall_forall; intros y Hy; eapply member_ok; eauto|].
  apply Forall_forall. intros x Hx. apply Forall_forall. intros y Hy. eapply member_aligned; eauto.
Qed.
Lemma adv_tokens_perm k n o :
  Forall (adv_ok k) n → Forall (adv_ok k) o →
  adv_tokens <$> n ≡ₚ adv_tokens <$> o ↔ sort_Communities <$> n ≡ₚ sort_Communities <$> o.
Proof.
  intros Hn Ho. split.
  - intros Hp. symmetry in Hp. apply Permutation_map_inv in Hp as (n0 & Heq & Hp). rewrite Hp in Hn |- *.
    clear Hp. revert o Ho Heq. induction Hn as [|x n0 Hx Hn IH]; intros [|y o] Ho Heq; try done.
    apply cons_eq_inj in Heq as [Hxy Heq]. apply Forall_cons in Ho as [Hy Ho].
    rewrite !fmap_cons, (IH o) by done. by rewrite (proj1 (adv_tokens_same k y x Hy Hx) Hxy).
  - intros Hp. assert (∀ l : list BgpAdvertisement, adv_tokens <$> l = adv_tokens <$> (sort_Communities <$> l)) as Hidem.
    { intros l. rewrite <-list_fmap_compose. apply list_fmap_ext. intros i x _. simpl.
      unfold adv_tokens. simpl. by rewrite sort_Strings_idemp. }
    by rewrite (Hidem n), (Hidem o), Hp.
Qed.

(** ** Pools *)

(** Equal but for the name: addresses in any order, and advertisements in any
    order with their communities in any order. *)
Definition twins (a o : AddressPool) : Prop :=
  Pool_Protocol a = Pool_Protocol o ∧ Pool_AvoidBuggyIPs a = Pool_AvoidBuggyIPs o ∧
  Pool_AutoAssign a = Pool_AutoAssign o ∧ Pool_Addresses a ≡ₚ Pool_Addresses o ∧
  sort_Communities <$> Pool_BGPAdvertisements a ≡ₚ sort_Communities <$> Pool_BGPAdvertisements o.
Definition same_pool (a a' : AddressPool) : Prop := twins a a' ∧ Pool_Name a = Pool_Name a'.
(** A pool the comparison can deal with: [AutoAssign] is there, and the
    advertisements can be sorted. *)
Definition orderly (k : nat) (a : AddressPool) : Prop :=
  is_Some (Pool_AutoAssign a) ∧ tidy_advs k (Pool_BGPAdvertisements a).

#[export] Instance twins_Equivalence : Equivalence twins.
Proof.
  split.
  - done.
  - intros a o (? & ? & ? & ? & ?). by split_and!.
  - unfold twins. intros a b c (-> & -> & -> & -> & ->) (? & ? & ? & ? & ?). by split_and!.
Qed.
#[export] Instance same_pool_Equivalence : Equivalence same_pool.
Proof.
  split; unfold same_pool.
  - done.
  - intros a o [? ?]. by split.
  - intros a b c [H1 ->] [H2 ->]. split; [by transitivity b|done].
Qed.
#[export] Instance twins_Proper : Proper (same_pool ==> same_pool ==> iff) twins.
Proof.
  intros a a' [Ha _] o o' [Ho _]. split; intros Ht.
  - transitivity a; [done|]. by transitivity o.
  - transitivity a'; [done|]. by transitivity o'.
Qed.
Lemma orderly_twins k a o : twins a o → orderly k a → orderly k o.
Proof.
  intros (_ & _ & Haa & _ & Hadv) [Ha Hl]. split; [by rewrite <-Haa|]. by eapply tidy_advs_same.
Qed.
#[export] Instance orderly_Proper k : Proper (same_pool ==> iff) (orderly k).
Proof. intros a o [Ht _]. split; by apply orderly_twins. Qed.

Section pools.
Context `{PdqSortEff}.

Lemma advertisements_equal k n o :
  tidy_advs k n → tidy_advs k o → length n = length o →
  ∃ b n1 o1 n' o', sort_Sort_eff BgpAdvertisements_Less n = Ok n1 ∧
    sort_Sort_eff BgpAdvertisements_Less o = Ok o1 ∧
    equal_loop BgpAdvertisement_Equal n1 o1 = Ok (b, n', o') ∧
    (b = true ↔ sort_Communities <$> n ≡ₚ sort_Communities <$> o) ∧
    sort_Communities <$> n ≡ₚ sort_Communities <$> n' ∧
    sort_Communities <$> o ≡ₚ sort_Communities <$> o'.
Proof.
  intros Hn Ho Hlen.
  destruct (sorted_equal_each adv_tokens BgpAdvertisements_Less BgpAdvertisement_Equal (adv_ok k) same_adv)
    with (P1 := member n) (P2 := member o) (n := n) (o := o)
    as (b & n1 & o1 & n' & o' & Hn1 & Ho1 & Hrun & Hb & Hp1 & Hp2 & _ & _).
  - intros x y (Ha & Hp & Hc)%same_adv_fields. unfold adv_tokens. by rewrite Ha, Hp, Hc.
  - apply Equal_adv.
  - by eapply adv_Less_answers.
  - by eapply adv_Less_answers.
  - intros x. by apply member_ok, Hn.
  - intros x. by apply member_ok, Ho.
  - apply Forall_member.
  - apply Forall_member.
  - done.
  - exists b, n1, o1, n', o'. do 3 (split; [done|]). rewrite Hb, (adv_tokens_perm k) by (apply Hn || apply Ho).
    split; [done|]. split; by apply perm_upto_advs.
Qed.

(** What a comparison answers, and what it leaves of the two pools. *)
Lemma EqualIgnoreName_twins k a o :
  orderly k a → orderly k o →
  ∃ b a' o', AddressPool_EqualIgnoreName a o = Ok (b, a', o') ∧ (b = true ↔ twins a o) ∧
    same_pool a a' ∧ same_pool o o'.
Proof.
  intros [[aa Haa] Ha] [[oa Hoa] Ho]. unfold AddressPool_EqualIgnoreName.
  assert (∀ a' o', same_pool a a' → same_pool o o' → ¬ twins a o →
    ∃ b a1 o1, Ok (false, a', o') = Ok (b, a1, o1) ∧ (b = true ↔ twins a o) ∧
      same_pool a a1 ∧ same_pool o o1) as Hno.
  { intros a' o' ? ? Hnot. by exists false, a', o'. }
  destruct (decide (Pool_Protocol a ≠ _ ∨ _)) as [Hne|He1]; [apply Hno; [done..|]; unfold twins; tauto|].
  rewrite Haa, Hoa. cbn [ptr mbind res_bind].
  destruct (decide (aa ≠ oa ∨ _)) as [Hne|He2].
  { apply Hno; [done..|]. intros (_ & _ & Hau & Hp%Permutation_length & _). rewrite Haa, Hoa in Hau. naive_solver. }
  assert (∀ x : AddressPool, same_pool x (set_Addresses (sort_Strings (Pool_Addresses x)) x)) as Hsort.
  { intros x. split; [|done]. split_and!; try done. simpl. by rewrite sort_Strings_perm. }
  cbn [Pool_Addresses Pool_BGPAdvertisements set_Addresses].
  destruct (decide (sort_Strings _ ≠ _ ∨ _)) as [Hne|He3].
  { apply Hno; [apply Hsort..|]. intros (_ & _ & _ & Hp%sort_Strings_eq & Hl%Permutation_length).
    rewrite !length_fmap in Hl. tauto. }
  assert (length (Pool_BGPAdvertisements a) = length (Pool_BGPAdvertisements o)) as Hlen
    by (destruct (decide (length (Pool_BGPAdvertisements a) = length (Pool_BGPAdvertisements o))); tauto).
  destruct (advertisements_equal k _ _ Ha Ho Hlen) as (b & n1 & o1 & n' & o' & -> & -> & Hrun & Hb & Hn' & Ho').
  cbn [mbind res_bind]. rewrite Hrun. eexists b, _, _. split; [done|]. split.
  - rewrite Hb. unfold twins. rewrite Haa, Hoa. split; [|tauto]. intros Hp.
    destruct (decide (Pool_Protocol a = Pool_Protocol o)); [|tauto].
    destruct (decide (Pool_AvoidBuggyIPs a = Pool_AvoidBuggyIPs o)); [|tauto].
    destruct (decide (aa = oa)) as [->|]; [|tauto]. split_and!; try done.
    apply sort_Strings_eq. apply dec_stable. tauto.
  - split; (split; [|done]); split_and!; try done; simpl; by rewrite sort_Strings_perm.
Qed.
Lemma Equal_twins k a o :
  orderly k a → orderly k o →
  ∃ b a' o', AddressPool_Equal a o = Ok (b, a', o') ∧
    (b = true ↔ twins a o ∧ Pool_Name a = Pool_Name o) ∧ same_pool a a' ∧ same_pool o o'.
Proof.
  intros Ha Ho. destruct (EqualIgnoreName_twins k a o Ha Ho) as (b & a' & o' & Hrun & Hb & Haa & Hoo).
  unfold AddressPool_Equal. rewrite Hrun. cbn [mbind res_bind].
  eexists _, a', o'. split; [done|]. split; [|done].
  rewrite andb_true_iff, Hb, bool_decide_eq_true. by rewrite (proj2 Haa), (proj2 Hoo).
Qed.
End pools.
