(* ===== verification/ConfigFileProps.v ===== *)
(** * Properties of the MetalLB configuration file

    Comparing node selectors, adding and removing pools and services, and
    what the config map configurer does not do. *)

From Stdlib Require Import Ascii.
From S2P Require Import Prelude GoStrings GoSort GoSortEff Api LoadBalancer MetalLBTypes MetalLBPeers ServiceSelectors MetalLB MetalLBEqual SelectorOrder PoolOrder ConfigFile.

(** ** Comparing node selectors *)

Definition same_requirement (e f : SelectorRequirements) : Prop :=
  Req_Key e = Req_Key f ∧ Req_Operator e = Req_Operator f ∧
  option_Forall2 (≡ₚ) (Req_Values e) (Req_Values f).
(** Equal labels, and equal requirements but for the order of the values. *)
Definition same_selector (x y : NodeSelector) : Prop :=
  MatchLabels x = MatchLabels y ∧
  option_Forall2 (Forall2 same_requirement) (MatchExpressions x) (MatchExpressions y).

Lemma req_tokens_same e f : req_tokens e = req_tokens f ↔ same_requirement e f.
Proof.
  unfold req_tokens, same_requirement. destruct e as [ke oe ve], f as [kf pf vf]. simpl. split.
  - intros Heq. pose proof (f_equal head Heq) as [= Hk].
    pose proof (f_equal (λ l, l !! 1) Heq) as [= Ho]. pose proof (f_equal (λ l, l !! 2) Heq) as [= Hn].
    pose proof (f_equal (drop 4) Heq) as Hv. simpl in Hv. apply text_inj, sort_Strings_eq in Hv.
    split_and!; [done..|]. destruct ve, vf; try done; by constructor.
  - intros (-> & -> & Hv). destruct Hv as [v w Hv|]; [|done]. unfold slice_len. simpl.
    by rewrite (Permutation_length Hv), (proj2 (sort_Strings_eq v w) Hv).
Qed.
Lemma tokens_same k x y : tidy k x → tidy k y → tokens x = tokens y ↔ same_selector x y.
Proof.
  intros [_ Hx] [_ Hy]. rewrite tokens_split. unfold same_selector.
  enough (requirements_tokens (MatchExpressions x) = requirements_tokens (MatchExpressions y) ↔
    option_Forall2 (Forall2 same_requirement) (MatchExpressions x) (MatchExpressions y)) as -> by done.
  destruct (MatchExpressions x) as [[|e [|]]|], (MatchExpressions y) as [[|f [|]]|]; try done;
    try congruence; try (split; [done|]; intros Hf; inv Hf; by
      match goal with H : Forall2 _ _ _ |- _ => inv H end);
    try (split; [done|]; intros Hf; by inv Hf); try (split; [by repeat constructor|done]).
  rewrite !requirements_tokens_one. split.
  - intros Ht. constructor. constructor; [|constructor]. apply req_tokens_same.
    exact (f_equal (drop 2) Ht).
  - intros Hf. inv Hf. match goal with H : Forall2 _ _ _ |- _ => inv H end.
    f_equal. f_equal. by apply req_tokens_same.
Qed.

Lemma tokens_perm_same k n o :
  Forall (tidy k) n → Forall (tidy k) o →
  tokens <$> n ≡ₚ tokens <$> o ↔ perm_upto same_selector n o.
Proof.
  intros Hn Ho. split.
  - intros Hp. symmetry in Hp. apply Permutation_map_inv in Hp as (n0 & Heq & Hp).
    exists n0. split; [by symmetry|]. rewrite Hp in Hn. clear Hp. revert o Ho Heq.
    induction Hn as [|x n0 Hx Hn IH]; intros [|y o] Ho Heq; try done.
    apply cons_eq_inj in Heq as [Hxy Heq]. apply Forall_cons in Ho as [Hy Ho].
    constructor; [|by apply IH]. by apply (tokens_same k).
  - intros (n0 & Hp & Hf). rewrite <-Hp in Hn |- *. clear Hp.
    induction Hf as [|x y n0 o Hxy _ IH]; [done|]. rewrite !fmap_cons.
    apply Forall_cons in Hn as [Hx Hn]. apply Forall_cons in Ho as [Hy Ho].
    rewrite (proj2 (tokens_same k x y Hx Hy) Hxy), IH by done. done.
Qed.

Section equal.
Context `{PdqSortEff}.

(** C17: On selectors with non-empty labels and at most one requirement each,
    [NodeSelectors.Equal] does not panic and answers whether the two slices
    hold the same selectors in any order, the values of a requirement in any
    order too; what its sorting leaves in each slice is the same selectors. *)
Theorem NodeSelectors_Equal_perm k n o :
  Forall (tidy k) n → Forall (tidy k) o →
  ∃ b n' o', NodeSelectors_Equal n o = Ok (b, n', o') ∧
    (b = true ↔ perm_upto same_selector n o) ∧
    perm_upto same_selector n n' ∧ perm_upto same_selector o o'.
Proof.
  intros Hn Ho.
  destruct (NodeSelectors_Equal_tokens k n o Hn Ho) as (b & n' & o' & Hrun & Hb & Hn' & Ho' & ? & ?).
  exists b, n', o'. split; [done|].
  split; [by rewrite Hb, (tokens_perm_same k)|]. split; by apply (tokens_perm_same k).
Qed.
End equal.

(** ** Adding and removing pools *)

(** The names a pool goes by. *)
Definition pool_names (a : AddressPool) : list string := Split (Pool_Name a) nameJoiner.

Lemma same_pool_set_name name a a' :
  same_pool a a' → same_pool (set_Pool_Name name a) (set_Pool_Name name a').
Proof. by intros [? _]. Qed.

Section pools.
Context `{PdqSortEff} (k : nat).
Implicit Types (p add remove : AddressPool).

Lemma sort_Strings_id l : StronglySorted String.le l → sort_Strings l = l.
Proof.
  intros Hl. apply (StronglySorted_unique String.le); [apply sort_Strings_sorted|done|].
  apply sort_Strings_perm.
Qed.

(** One round of the loop of [AddAddressPool]: the pool is compared twice. *)
Definition joined_names (p add : AddressPool) : string :=
  Join (sort_Strings (pool_names p ++ [Pool_Name add])) nameJoiner.
Lemma add_pool_loop_skip p l add :
  orderly k p → orderly k add → ¬ twins p add →
  ∃ p' add', same_pool p p' ∧ same_pool add add' ∧
    ∀ r l' add'', add_pool_loop l add' = Ok (r, l', add'') →
      add_pool_loop (p :: l) add = Ok (r, p' :: l', add'').
Proof.
  intros Hp Hadd Htw.
  destruct (Equal_twins k p add Hp Hadd) as (b1 & p1 & add1 & Hrun1 & Hb1 & Hp1 & Hadd1).
  rewrite Hp1 in Hp. rewrite Hadd1 in Hadd.
  destruct (EqualIgnoreName_twins k p1 add1 Hp Hadd) as (b2 & p2 & add2 & Hrun2 & Hb2 & Hp2 & Hadd2).
  rewrite <-Hp1, <-Hadd1 in Hb2.
  destruct b1; [by destruct (proj1 Hb1 eq_refl)|]. destruct b2; [by destruct Htw; apply Hb2|].
  exists p2, add2. split; [by transitivity p1|]. split; [by transitivity add1|]. intros r l' add'' Hrun.
  cbn [add_pool_loop]. rewrite Hrun1. cbn [mbind res_bind]. rewrite Hrun2. cbn [mbind res_bind].
  by rewrite Hrun.
Qed.
Lemma add_pool_loop_join p l add :
  orderly k p → orderly k add → twins p add → Pool_Name add ∉ pool_names p →
  Pool_Name p ≠ Pool_Name add →
  ∃ p' add', same_pool p p' ∧ same_pool add add' ∧
    add_pool_loop (p :: l) add = Ok (Some true, set_Pool_Name (joined_names p add) p' :: l, add').
Proof.
  intros Hp Hadd Htw Hname Hne.
  destruct (Equal_twins k p add Hp Hadd) as (b1 & p1 & add1 & Hrun1 & Hb1 & Hp1 & Hadd1).
  rewrite Hp1 in Hp. rewrite Hadd1 in Hadd.
  destruct (EqualIgnoreName_twins k p1 add1 Hp Hadd) as (b2 & p2 & add2 & Hrun2 & Hb2 & Hp2 & Hadd2).
  rewrite <-Hp1, <-Hadd1 in Hb2.
  destruct b1; [by destruct (proj1 Hb1 eq_refl)|]. destruct b2; [|by apply Hb2 in Htw].
  assert (same_pool p p2) as Hpp by (by transitivity p1).
  assert (same_pool add add2) as Haa by (by transitivity add1).
  exists p2, add2. split; [done|]. split; [done|].
  cbn [add_pool_loop]. rewrite Hrun1. cbn [mbind res_bind]. rewrite Hrun2. cbn [mbind res_bind].
  rewrite <-(proj2 Hpp), <-(proj2 Haa). fold (pool_names p). by rewrite decide_False.
Qed.

(** The loop over pools of which none is a twin, and what follows them. *)
Lemma add_pool_loop_others l rest add :
  Forall (orderly k) l → orderly k add → Forall (λ p, ¬ twins p add) l →
  ∃ l' add', Forall2 same_pool l l' ∧ same_pool add add' ∧
    ∀ r rest' add'', add_pool_loop rest add' = Ok (r, rest', add'') →
      add_pool_loop (l ++ rest) add = Ok (r, l' ++ rest', add'').
Proof.
  intros Hl. revert add. induction Hl as [|p l Hp _ IH]; intros add Hadd Hno.
  { exists [], add. by split_and!. }
  apply Forall_cons in Hno as [Htw Hno].
  destruct (add_pool_loop_skip p (l ++ rest) add Hp Hadd Htw) as (p' & add1 & Hpp & Ha1 & Hskip).
  destruct (IH add1) as (l' & add2 & Hll & Ha2 & Hrest).
  - by rewrite <-Ha1.
  - eapply Forall_impl; [exact Hno|]. simpl. intros q. by rewrite Ha1.
  - exists (p' :: l'), add2. split; [by constructor|]. split; [by transitivity add1|].
    intros r rest' add'' Hrun. apply Hskip. by apply Hrest.
Qed.

(** So does that of [RemoveAddressPool] leave the others alone. *)
Lemma remove_pool_loop_others l rest remove :
  Forall (orderly k) l → orderly k remove → Forall (λ p, ¬ twins p remove) l →
  ∃ l' remove', Forall2 same_pool l l' ∧ same_pool remove remove' ∧
    ∀ rest' remove'', remove_pool_loop rest remove' = Ok (rest', remove'') →
      remove_pool_loop (l ++ rest) remove = Ok (l' ++ rest', remove'').
Proof.
  intros Hl. revert remove. induction Hl as [|p l Hp _ IH]; intros remove Hr Hno.
  { exists [], remove. by split_and!. }
  apply Forall_cons in Hno as [Htw Hno].
  destruct (Equal_twins k p remove Hp Hr) as (b1 & p1 & r1 & Hrun1 & Hb1 & Hp1 & Hr1).
  rewrite Hp1 in Hp. rewrite Hr1 in Hr.
  destruct (EqualIgnoreName_twins k p1 r1 Hp Hr) as (b2 & p2 & r2 & Hrun2 & Hb2 & Hp2 & Hr2).
  rewrite <-Hp1, <-Hr1 in Hb2.
  destruct b1; [by destruct (proj1 Hb1 eq_refl)|]. destruct b2; [by destruct Htw; apply Hb2|].
  destruct (IH r2) as (l' & r3 & Hll & Hr3 & Hrest).
  - by rewrite <-Hr2.
  - eapply Forall_impl; [exact Hno|]. simpl. intros q. by rewrite Hr1, Hr2.
  - exists (p2 :: l'), r3. split; [constructor; [by transitivity p1|done]|].
    split; [by transitivity r2; [transitivity r1|]|].
    intros rest' r4 Hrun%Hrest. cbn [remove_pool_loop app]. rewrite Hrun1. cbn [mbind res_bind].
    rewrite Hrun2. cbn [mbind res_bind]. by rewrite Hrun.
Qed.
(** An equal pool of the same name goes; an equal one that is not called so
    loses the name. *)
Lemma remove_pool_loop_exact p l remove :
  orderly k p → orderly k remove → twins p remove → Pool_Name p = Pool_Name remove →
  ∃ remove', same_pool remove remove' ∧
    remove_pool_loop (p :: l) remove = remove_pool_loop l remove'.
Proof.
  intros Hp Hr Htw Hname.
  destruct (Equal_twins k p remove Hp Hr) as (b1 & p1 & r1 & Hrun1 & Hb1 & Hp1 & Hr1).
  destruct b1; [|discriminate (proj2 Hb1 (conj Htw Hname))]. exists r1. split; [done|].
  cbn [remove_pool_loop]. by rewrite Hrun1.
Qed.
Lemma remove_pool_loop_rename p l remove :
  orderly k p → orderly k remove → twins p remove → Pool_Name p ≠ Pool_Name remove →
  ∃ p' remove', same_pool p p' ∧ same_pool remove remove' ∧
    ∀ l' remove'', remove_pool_loop l remove' = Ok (l', remove'') →
      remove_pool_loop (p :: l) remove =
        Ok (set_Pool_Name (Join (sort_Strings (filter (λ name, name ≠ Pool_Name remove) (pool_names p)))
              nameJoiner) p' :: l', remove'').
Proof.
  intros Hp Hr Htw Hne.
  destruct (Equal_twins k p remove Hp Hr) as (b1 & p1 & r1 & Hrun1 & Hb1 & Hp1 & Hr1).
  rewrite Hp1 in Hp. rewrite Hr1 in Hr.
  destruct (EqualIgnoreName_twins k p1 r1 Hp Hr) as (b2 & p2 & r2 & Hrun2 & Hb2 & Hp2 & Hr2).
  rewrite <-Hp1, <-Hr1 in Hb2.
  destruct b1; [by destruct (proj1 Hb1 eq_refl)|]. destruct b2; [|by apply Hb2 in Htw].
  assert (same_pool p p2) as Hpp by (by transitivity p1).
  assert (same_pool remove r2) as Hrr by (by transitivity r1).
  exists p2, r2. split; [done|]. split; [done|]. intros l' r3 Hrun.
  cbn [remove_pool_loop]. rewrite Hrun1. cbn [mbind res_bind]. rewrite Hrun2. cbn [mbind res_bind].
  rewrite Hrun. cbn [mbind res_bind]. unfold pool_names. by rewrite (proj2 Hpp), (proj2 Hrr).
Qed.

(** The first twin of a pool in a list, if there is one. *)
Lemma first_twin l add :
  Forall (orderly k) l → orderly k add →
  Forall (λ p, ¬ twins p add) l ∨
  ∃ l1 p l2, l = l1 ++ p :: l2 ∧ Forall (λ p, ¬ twins p add) l1 ∧ twins p add.
Proof.
  intros Hl Hadd. induction Hl as [|p l Hp _ IH]; [by left|].
  destruct (EqualIgnoreName_twins k p add Hp Hadd) as (b & _ & _ & _ & Hb & _).
  destruct b; [right; exists [], p, l; split_and!; [done..|by apply Hb]|].
  assert (¬ twins p add) as Htw by (by intros ?%Hb).
  destruct IH as [Hno|(l1 & q & l2 & -> & Hno & Hq)]; [left; by constructor|].
  right. exists (p :: l1), q, l2. split_and!; [done|by constructor|done].
Qed.

(** What [RemoveAddressPool] makes of the joined names. *)
Lemma joined_names_split p add :
  no_char ","%char (Pool_Name add) →
  Split (joined_names p add) nameJoiner = sort_Strings (pool_names p ++ [Pool_Name add]).
Proof.
  intros Hc. apply Split_Join.
  - intros Hnil. apply (f_equal length) in Hnil. rewrite sort_Strings_length, length_app in Hnil.
    simpl in Hnil. lia.
  - rewrite sort_Strings_perm. apply Forall_app. split; [apply Split_no_char|by repeat constructor].
Qed.
Lemma joined_names_removed p add :
  no_char ","%char (Pool_Name add) → Pool_Name add ∉ pool_names p →
  StronglySorted String.le (pool_names p) →
  Join (sort_Strings (filter (λ name, name ≠ Pool_Name add) (Split (joined_names p add) nameJoiner)))
    nameJoiner = Pool_Name p.
Proof.
  intros Hc Hn Hs. rewrite joined_names_split by done. rewrite <-(Join_Split (Pool_Name p) nameJoiner).
  f_equal. rewrite <-(sort_Strings_id (Split (Pool_Name p) nameJoiner)) by done.
  apply sort_Strings_eq. rewrite (sort_Strings_perm (_ ++ _)), filter_app.
  rewrite (filter_cons_False _ (Pool_Name add)) by tauto. rewrite filter_nil, app_nil_r.
  rewrite filter_others; [done|]. exact Hn.
Qed.
Lemma split_single s : no_char ","%char s → Split s nameJoiner = [s].
Proof. apply (Split_none ","%char ""). Qed.
Lemma joined_names_ne p add :
  no_char ","%char (Pool_Name add) → joined_names p add ≠ Pool_Name add.
Proof.
  intros Hc Heq. pose proof (joined_names_split p add Hc) as Hs.
  rewrite Heq, split_single in Hs by done.
  apply (f_equal length) in Hs. rewrite sort_Strings_length, length_app in Hs.
  pose proof (Split_ne (Pool_Name p) nameJoiner) as Hne. unfold pool_names in Hs.
  destruct (Split _ _); [done|]. simpl in Hs. lia.
Qed.

(** Taking the name out of a joined pool gives the pool back. *)
Lemma remove_pool_loop_joined p p1 l add remove :
  orderly k p → orderly k remove → same_pool add remove → same_pool p p1 → twins p add →
  no_char ","%char (Pool_Name add) → Pool_Name add ∉ pool_names p →
  StronglySorted String.le (pool_names p) →
  ∃ p' remove', same_pool p p' ∧ same_pool remove remove' ∧
    ∀ l' remove'', remove_pool_loop l remove' = Ok (l', remove'') →
      remove_pool_loop (set_Pool_Name (joined_names p add) p1 :: l) remove = Ok (p' :: l', remove'').
Proof.
  intros Hp Hr Har Hpp Htw Hc Hn Hs. set (q := set_Pool_Name (joined_names p add) p1).
  assert (twins p q) as Hpq by exact (proj1 Hpp).
  destruct (remove_pool_loop_rename q l remove) as (q' & r' & Hqq & Hrr & Hrun).
  - by eapply orderly_twins.
  - done.
  - transitivity p; [by symmetry|]. by rewrite <-Har.
  - rewrite <-(proj2 Har). by apply joined_names_ne.
  - eexists _, r'. split; [|split; [done|exact Hrun]]. split.
    + transitivity q; [done|]. exact (proj1 Hqq).
    + symmetry. rewrite <-(proj2 Har). by apply joined_names_removed.
Qed.

Lemma others_same l l' add add' :
  Forall2 same_pool l l' → same_pool add add' → Forall (orderly k) l → Forall (λ p, ¬ twins p add) l →
  Forall (orderly k) l' ∧ Forall (λ p, ¬ twins p add') l'.
Proof.
  intros Hf Ha. induction Hf as [|x y l l' Hxy _ IH]; [done|].
  intros [Hx Hok]%Forall_cons [Ht Hno]%Forall_cons. destruct (IH Hok Hno).
  split; constructor; try done; [by rewrite <-Hxy|by rewrite <-Hxy, <-Ha].
Qed.

(** The round trip of the loops for a pool no other equals, and for one that
    is joined to its twin. *)
Lemma pool_roundtrip_new l add :
  Forall (orderly k) l → orderly k add → Forall (λ p, ¬ twins p add) l →
  ∃ l' add', add_pool_loop l add = Ok (None, l', add') ∧ same_pool add add' ∧
    ∀ remove, same_pool add remove →
      ∃ l'' remove', remove_pool_loop (l' ++ [add']) remove = Ok (l'', remove') ∧ Forall2 same_pool l l''.
Proof.
  intros Hl Hadd Hno.
  destruct (add_pool_loop_others l [] add Hl Hadd Hno) as (l' & add' & Hf & Ha & Hrun).
  specialize (Hrun None [] add' eq_refl). rewrite !app_nil_r in Hrun. exists l', add'.
  split; [done|]. split; [done|]. intros remove Hr.
  destruct (others_same l l' add remove Hf Hr Hl Hno) as [Hl' Hno']. rewrite Hr in Hadd.
  destruct (remove_pool_loop_others l' [add'] remove Hl' Hadd Hno') as (l'' & r1 & Hf' & Hr1 & Hrest).
  assert (same_pool add' r1) as Har by (rewrite <-Ha, Hr; exact Hr1).
  destruct (remove_pool_loop_exact add' [] r1) as (r2 & _ & Hlast).
  - by rewrite Har, <-Hr1.
  - by rewrite <-Hr1.
  - exact (proj1 Har).
  - exact (proj2 Har).
  - exists (l'' ++ []), r2. split; [by apply Hrest; rewrite Hlast|]. rewrite app_nil_r. by transitivity l'.
Qed.
Lemma pool_roundtrip_joined l1 p l2 add :
  Forall (orderly k) (l1 ++ p :: l2) → orderly k add → twins p add →
  Forall (λ p, ¬ twins p add) l1 → Forall (λ p, ¬ twins p add) l2 →
  no_char ","%char (Pool_Name add) → Pool_Name add ∉ pool_names p →
  StronglySorted String.le (pool_names p) →
  ∃ l1' p' add', add_pool_loop (l1 ++ p :: l2) add =
      Ok (Some true, l1' ++ set_Pool_Name (joined_names p add) p' :: l2, add') ∧ same_pool p p' ∧
    ∀ remove, same_pool add remove →
      ∃ l'' remove', remove_pool_loop (l1' ++ set_Pool_Name (joined_names p add) p' :: l2) remove =
          Ok (l'', remove') ∧ Forall2 same_pool (l1 ++ p :: l2) l''.
Proof.
  intros [Hl1 [Hp Hl2]%Forall_cons]%Forall_app Hadd Htw Hno1 Hno2 Hc Hn Hs.
  assert (Pool_Name p ≠ Pool_Name add) as Hpn.
  { intros Heq. apply Hn. unfold pool_names. rewrite Heq, split_single by done. apply list_elem_of_here. }
  destruct (add_pool_loop_others l1 (p :: l2) add Hl1 Hadd Hno1) as (l1' & add1 & Hf1 & Ha1 & Hrun1).
  destruct (add_pool_loop_join p l2 add1) as (p' & add' & Hpp & _ & Hrun2);
    [done|by rewrite <-Ha1|by rewrite <-Ha1|by rewrite <-(proj2 Ha1)..|].
  exists l1', p', add'. unfold joined_names in *. rewrite <-(proj2 Ha1) in Hrun2.
  split; [by apply Hrun1|]. split; [done|]. intros remove Hr. fold (joined_names p add).
  destruct (others_same l1 l1' add remove Hf1 Hr Hl1 Hno1) as [Hl1' Hno1']. rewrite Hr in Hadd.
  destruct (remove_pool_loop_others l1' (set_Pool_Name (joined_names p add) p' :: l2) remove Hl1' Hadd Hno1')
    as (l1'' & r1 & Hf1' & Hr1 & Hrest).
  destruct (remove_pool_loop_joined p p' l2 add r1) as (p'' & r2 & Hpp' & Hr2 & Hmid);
    [done|by rewrite <-Hr1|by transitivity remove|done..|].
  destruct (remove_pool_loop_others l2 [] r2) as (l2' & r3 & Hf2 & _ & Hlast);
    [done|by rewrite <-Hr2, <-Hr1|by eapply Forall_impl; [exact Hno2|]; simpl; intros x; rewrite Hr, Hr1, Hr2|].
  specialize (Hlast [] r3 eq_refl). rewrite !app_nil_r in Hlast.
  exists (l1'' ++ p'' :: l2'), r3. split; [by apply Hrest, Hmid|].
  apply Forall2_app; [by transitivity l1'|]. by constructor.
Qed.

(** C29: Adding a pool to the configuration file and removing it again gives
    the file back, up to the order of the addresses, advertisements and
    communities that the comparisons sort in place, whether the pool was new
    or its name was joined to that of an equal pool; in between an equal pool
    goes by that name. This is so when the pools can be compared
    ([orderly]: [AutoAssign] is there, the advertisements have their numbers
    and all the same number of communities, and of two in one pool one is at
    most the other in every field), the name has no comma, and at most one
    pool of the file is equal but for the name, which is then called by
    sorted names without the new one. *)
Theorem ConfigFile_pool_roundtrip add cfg :
  Forall (orderly k) (Pools cfg) → orderly k add → no_char ","%char (Pool_Name add) →
  (∀ i j p q, Pools cfg !! i = Some p → Pools cfg !! j = Some q → twins p add → twins q add → i = j) →
  (∀ p, p ∈ Pools cfg → twins p add →
     (Pool_Name add ∉ pool_names p) ∧ StronglySorted String.le (pool_names p)) →
  ∃ add' cfg', AddAddressPool (Some add) cfg = Ok (true, Some add', cfg') ∧
    (∃ p, p ∈ Pools cfg' ∧ twins p add ∧ Pool_Name add ∈ pool_names p) ∧
    ∀ remove, same_pool add remove →
      ∃ remove' cfg'', RemoveAddressPool (Some remove) cfg' = Ok (Some remove', cfg'') ∧
        Forall2 same_pool (Pools cfg) (Pools cfg'') ∧
        Peers cfg'' = Peers cfg ∧ BGPCommunities cfg'' = BGPCommunities cfg.
Proof.
  intros Hl Hadd Hc Hone Hnames. destruct cfg as [peers comms l]. cbn [Pools] in *.
  unfold AddAddressPool, RemoveAddressPool. cbn [Pools].
  destruct (first_twin l add Hl Hadd) as [Hno|(l1 & p & l2 & -> & Hno1 & Htw)].
  - destruct (pool_roundtrip_new l add Hl Hadd Hno) as (l' & add' & -> & Ha & Hrem).
    cbn [mbind res_bind]. eexists add', _. split; [done|]. cbn [Pools set_Pools]. split.
    + exists add'. split; [apply elem_of_app; right; apply list_elem_of_here|].
      split; [symmetry; exact (proj1 Ha)|]. unfold pool_names. rewrite <-(proj2 Ha), split_single by done.
      apply list_elem_of_here.
    + intros remove (l'' & r' & -> & Hf)%Hrem. by eexists r', _.
  - destruct (Hnames p) as [Hn Hs]; [apply elem_of_app; right; apply list_elem_of_here|done|].
    assert (Forall (λ p, ¬ twins p add) l2) as Hno2.
    { apply Forall_lookup. intros j q Hq Hqt.
      assert (length l1 = S (length l1 + j)) as Heq; [|lia].
      apply (Hone _ _ p q); [by rewrite list_lookup_middle| |done..].
      rewrite lookup_app_r by lia. by replace (S (length l1 + j) - length l1) with (S j) by lia. }
    destruct (pool_roundtrip_joined l1 p l2 add) as (l1' & p' & add' & -> & Hpp & Hrem); [done..|].
    cbn [mbind res_bind]. eexists add', _. split; [done|]. cbn [Pools set_Pools]. split.
    + eexists. split; [apply elem_of_app; right; apply list_elem_of_here|].
      split; [transitivity p; [symmetry; exact (proj1 Hpp)|done]|].
      unfold pool_names. simpl. rewrite joined_names_split, (sort_Strings_perm _) by done.
      apply elem_of_app. right. apply list_elem_of_here.
    + intros remove (l'' & r' & -> & Hf)%Hrem. by eexists r', _.
Qed.
End pools.

(** ** Services *)

Section services.
Context `{PdqSort, PdqSortEff}.

(** A peer stays unless the service was the last it worked for. *)
Definition still_needed (svc : Resource) (p : Peer) : Prop :=
  svc ∈ Services p → filter (λ r, r ≠ svc) (Services p) ≠ [].
Global Instance still_needed_dec svc p : Decision (still_needed svc p).
Proof. unfold still_needed. apply _. Defined.
(** What makes [RemovePeersByService] report a change. *)
Definition reported (svc : Resource) (p : Peer) : Prop := svc ∈ Services p ∨ Services p = [].
Global Instance reported_dec svc p : Decision (reported svc p).
Proof. unfold reported. apply _. Defined.

Definition without (svc : Resource) (p : Peer) : Peer := (Peer_RemoveService svc p).2.
Lemma RemoveService_run svc p :
  valid_service svc →
  Peer_RemoveService svc p =
    (bool_decide (svc ∈ Services p), length (filter (λ r, r ≠ svc) (Services p)), without svc p).
Proof.
  intros Hv. unfold without, Peer_RemoveService. by rewrite remove_service_spec.
Qed.
Lemma without_services svc p :
  valid_service svc → Services (without svc p) ≡ₚ filter (λ r, r ≠ svc) (Services p) ∧
    plain_of (Peer_NodeSelectors (without svc p)) = plain_of (Peer_NodeSelectors p) ∧
    set_NodeSelectors (Peer_NodeSelectors p) (without svc p) = p.
Proof.
  intros Hv. unfold without, Peer_RemoveService, Services.
  destruct (remove_service svc (Peer_NodeSelectors p)) as [[b n] l] eqn:Hrun.
  apply remove_service_services in Hrun as (_ & Hs & _ & Hp & _); [|done].
  split_and!; [exact Hs|exact Hp|by destruct p].
Qed.

Lemma kept_iff svc p :
  bool_decide (svc ∈ Services p) = false ∨ 1 ≤ length (filter (λ r, r ≠ svc) (Services p)) ↔
  still_needed svc p.
Proof.
  unfold still_needed. rewrite bool_decide_eq_false. destruct (decide (svc ∈ Services p)) as [Hin|Hin].
  - destruct (filter _ _); simpl; split.
    + intros [?|?]; [done|lia].
    + intros Hne. by destruct (Hne Hin).
    + done.
    + intros _. right. lia.
  - tauto.
Qed.
Lemma reported_iff svc p :
  bool_decide (svc ∈ Services p) = true ∨ length (filter (λ r, r ≠ svc) (Services p)) ≤ 0 ↔
  reported svc p.
Proof.
  unfold reported. rewrite bool_decide_eq_true. destruct (decide (svc ∈ Services p)) as [Hin|Hin]; [tauto|].
  rewrite filter_others by done. destruct (Services p); simpl; [split; intros _; right; (done || lia)|].
  split; [intros [?|?]; [done|lia]|intros [?|?]; done].
Qed.

Lemma remove_by_service_run svc l changed acc :
  valid_service svc →
  remove_by_service_loop svc l changed acc =
    (changed || bool_decide (Exists (reported svc) l), acc ++ (without svc <$> filter (still_needed svc) l)).
Proof.
  intros Hv. revert changed acc. induction l as [|p l IH]; intros changed acc.
  { cbn [remove_by_service_loop]. rewrite bool_decide_false, orb_false_r, app_nil_r by (by inversion 1). done. }
  cbn [remove_by_service_loop]. rewrite (RemoveService_run _ _ Hv). cbn zeta. rewrite IH.
  rewrite (decide_ext _ _ _ _ (kept_iff svc p)), (decide_ext _ _ _ _ (reported_iff svc p)).
  rewrite filter_cons. f_equal.
  - destruct (decide (reported svc p)).
    + rewrite (bool_decide_true (Exists _ (p :: l))) by by left. by rewrite orb_true_r.
    + f_equal. apply bool_decide_ext. rewrite Exists_cons. tauto.
  - destruct (decide (still_needed svc p)); [|done]. by rewrite fmap_cons, <-app_assoc.
Qed.

(** C25: Removing a service from the configuration file takes it out of
    every peer and deletes exactly the peers it was the last service of; of
    the others the remaining services, the other node selectors and all other
    fields stay. A change is reported when a peer had the service and also
    when some peer has no services at all. *)
Theorem ConfigFile_RemovePeersByService svc cfg b cfg' :
  valid_service svc →
  RemovePeersByService (Res_Namespace svc) (Res_Name svc) cfg = (b, cfg') →
  Forall2 (λ p p', Services p' ≡ₚ filter (λ r, r ≠ svc) (Services p) ∧
             plain_of (Peer_NodeSelectors p') = plain_of (Peer_NodeSelectors p) ∧
             set_NodeSelectors (Peer_NodeSelectors p) p' = p)
    (filter (still_needed svc) (Peers cfg)) (Peers cfg') ∧
  Pools cfg' = Pools cfg ∧
  (b = true ↔ ∃ p, p ∈ Peers cfg ∧ (svc ∈ Services p ∨ Services p = [])).
Proof.
  intros Hv. unfold RemovePeersByService. destruct svc as [ns name]. cbn [Res_Namespace Res_Name].
  rewrite remove_by_service_run by done. intros [= <- <-]. cbn [Peers Pools set_Peers app]. split_and!.
  - induction (filter _ _) as [|p l IH]; [constructor|]. rewrite fmap_cons. constructor; [|done].
    by apply without_services.
  - done.
  - simpl. rewrite bool_decide_eq_true. apply Exists_exists.
Qed.
End services.

Section add_service.
Context `{PdqSort, PdqSortEff}.

Lemma set_NodeSelectors_session l p o : same_session (set_NodeSelectors l p) o ↔ same_session p o.
Proof. done. Qed.
Lemma same_session_refl p : same_session p p.
Proof. done. Qed.
Lemma same_session_trans p q o : same_session p q → same_session q o → same_session p o.
Proof. unfold same_session. intuition congruence. Qed.

Lemma EqualIgnoreService_session p o b p' o' :
  Peer_EqualIgnoreService p o = Ok (b, p', o') →
  same_session p' p ∧ same_session o' o ∧ (b = true → same_session p o).
Proof.
  unfold Peer_EqualIgnoreService, mbind, res_bind. case_decide as Hs.
  - destruct (NodeSelectors_EqualIgnoreService _ _) as [[[b0 n] l]| |]; try done.
    by intros [= <- <- <-].
  - by intros [= <- <- <-].
Qed.
Lemma AddService_services svc p :
  valid_service svc → same_session (Peer_AddService svc p).2 p ∧ svc ∈ Services (Peer_AddService svc p).2.
Proof.
  intros Hv. unfold Peer_AddService, Services. destruct (add_service svc _) as [b l] eqn:Hrun.
  apply add_service_services in Hrun as (_ & _ & Hin); [|done]. by split.
Qed.

Lemma by_service_loop_found svc l add found l' add' :
  valid_service svc → by_service_loop svc l add = Ok (found, l', add') →
  Forall2 same_session l' l ∧ same_session add' add ∧
  if found then ∃ p, p ∈ l' ∧ same_session p add ∧ svc ∈ Services p else True.
Proof.
  intros Hv. revert add found l' add'. induction l as [|p l IH]; intros add found l' add'; simpl.
  { intros [= <- <- <-]. by repeat constructor. }
  unfold mbind, res_bind in *. destruct (Peer_EqualIgnoreService p add) as [[[b p1] add1]| |] eqn:Heq; try done.
  destruct (by_service_loop svc l add1) as [[[found1 l1] add2]| |] eqn:Hloop; try done.
  intros [= <- <- <-]. apply EqualIgnoreService_session in Heq as (Hp & Hadd & Hb).
  apply IH in Hloop as (Hl & Hadd2 & Hfound). split_and!.
  - constructor; [|done]. destruct b; [|done]. eapply same_session_trans; [|exact Hp].
    by apply AddService_services.
  - by eapply same_session_trans.
  - destruct b; simpl.
    + exists (Peer_AddService svc p1).2. split; [apply list_elem_of_here|].
      destruct (AddService_services svc p1 Hv) as [Hs Hin]. split; [|done].
      eapply same_session_trans; [exact Hs|]. by eapply same_session_trans; [|apply Hb].
    + destruct found1; [|done]. destruct Hfound as (q & Hq & Hqs & Hin). exists q.
      split; [by right|]. split; [|done]. by eapply same_session_trans.
Qed.

(** After [AddPeerByService] the file has a peer with the session
    parameters of the given one that records the service; no peer is lost or
    reordered, none changes its session parameters, and at most one is added,
    at the end. It returns [true] even when it changed nothing. *)
Theorem AddPeerByService_records svc add cfg b add' cfg' :
  valid_service svc →
  AddPeerByService (Some add) (Res_Namespace svc) (Res_Name svc) cfg = Ok (b, add', cfg') →
  b = true ∧ Pools cfg' = Pools cfg ∧
  (∃ p, p ∈ Peers cfg' ∧ same_session p add ∧ svc ∈ Services p) ∧
  ∃ new, length new ≤ 1 ∧ Forall2 same_session (Peers cfg') (Peers cfg ++ new).
Proof.
  intros Hv. unfold AddPeerByService, mbind, res_bind. destruct svc as [ns name]. cbn [Res_Namespace Res_Name].
  destruct (by_service_loop _ _ _) as [[[found peers] add1]| |] eqn:Hloop; try done.
  apply by_service_loop_found in Hloop as (Hl & Hadd & Hfound); [|done].
  destruct found; intros [= <- <- <-]; cbn [Peers Pools set_Peers].
  - split_and!; [done..|]. exists []. split; [simpl; lia|]. by rewrite app_nil_r.
  - destruct (AddService_services {| Res_Namespace := ns; Res_Name := name |} add1 Hv) as [Hs Hin].
    split_and!; [done..| |].
    + eexists. split; [apply elem_of_app; right; apply list_elem_of_here|].
      split; [by eapply same_session_trans|done].
    + exists [add]. split; [done|]. apply Forall2_app; [done|]. constructor; [|constructor].
      by eapply same_session_trans.
Qed.
End add_service.

(** ** Services that share a peer *)

(** Every selector is one the comparison can order, and either says nothing
    of services or records one and nothing else. *)
Definition clean (ns : NodeSelector) : Prop := tidy false ns ∧ (plain ns ∨ ignored ns = true).
Definition peer_ok (p : Peer) : Prop := Forall clean (Peer_NodeSelectors p).
(** What [EqualIgnoreService] compares, up to order. *)
Definition peer_view (p : Peer) : list (list token) := tokens <$> compared (Peer_NodeSelectors p).
Definition matches (p o : Peer) : Prop := same_session p o ∧ peer_view p ≡ₚ peer_view o.

Section sharing.
Context `{PdqSort, PdqSortEff}.

Lemma plain_not_ignored ns : plain ns → ignored ns = false.
Proof. intros [Hn Hns]. apply bool_decide_eq_false. intros (_ & _ & [Hne|Hne]); by apply Hne. Qed.
Lemma compared_plain l : Forall clean l → compared l = plain_of l.
Proof.
  unfold compared, plain_of. induction 1 as [|ns l [_ Hc] _ IH]; [done|]. rewrite !filter_cons, IH.
  destruct Hc as [Hp|Hi].
  - by rewrite !decide_True by auto using plain_not_ignored.
  - rewrite (decide_False (P := ignored ns = false)) by congruence.
    by rewrite decide_False by (intros Hp%plain_not_ignored; congruence).
Qed.
Lemma service_selector_clean svc : valid_service svc → clean (service_selector svc).
Proof.
  intros [Hn Hns]. split.
  - split; [|done]. eexists. split; [done|].
    apply map_Forall_insert_2; [done|by apply map_Forall_singleton].
  - right. apply bool_decide_eq_true. split; [|split; [done|left]].
    + unfold map_len. simpl. by rewrite map_size_insert_None, map_size_singleton by by rewrite lookup_singleton_ne.
    + change (sel_name (service_selector svc) ≠ ""). by rewrite sel_name_service.
Qed.

(** The same peer up to what the comparison leaves. *)
Definition same_peer (p p' : Peer) : Prop :=
  same_session p' p ∧ peer_view p' = peer_view p ∧ peer_ok p' ∧ Services p ⊆ Services p'.
Lemma same_tidy_labels ns ns' :
  same_tidy false ns ns' → MatchLabels ns' = MatchLabels ns ∧
    slice_len (MatchExpressions ns') = slice_len (MatchExpressions ns).
Proof. intros [[Hl Hr]%tokens_split _]. split; [done|]. by injection Hr. Qed.
Lemma same_tidy_peer p l :
  peer_ok p → Forall2 (same_tidy false) (Peer_NodeSelectors p) l → same_peer p (set_NodeSelectors l p).
Proof.
  unfold same_peer, peer_ok, peer_view, Services, compared. intros Hp Hf.
  split; [by repeat split|]. cbn [Peer_NodeSelectors set_NodeSelectors].
  induction Hf as [|ns ns' n l Hns _ IH]; [done|]. apply Forall_cons in Hp as [[Ht Hc] Hp].
  destruct (IH Hp) as (Hv & Hok & Hs). pose proof (same_tidy_labels _ _ Hns) as [Hl He].
  assert (ignored ns' = ignored ns) as Hi by (unfold ignored; by rewrite Hl, He).
  assert (sel_name ns' = sel_name ns ∧ sel_namespace ns' = sel_namespace ns) as [Hn Hnn].
  { unfold sel_name, sel_namespace. simpl. by rewrite Hl. }
  split_and!.
  - rewrite !filter_cons, Hi. destruct (decide (ignored ns = false)); [|done]. rewrite !fmap_cons.
    f_equal; [|done]. symmetry. apply Hns.
  - constructor; [|done]. split; [apply Hns|]. unfold plain. by rewrite Hn, Hnn, Hi.
  - simpl. rewrite Hn, Hnn. destruct (decide _); set_solver.
Qed.

Lemma EqualIgnoreService_ok p o :
  peer_ok p → peer_ok o →
  ∃ b p' o', Peer_EqualIgnoreService p o = Ok (b, p', o') ∧ (b = true ↔ matches p o) ∧
    same_peer p p' ∧ same_peer o o'.
Proof.
  intros Hp Ho. unfold Peer_EqualIgnoreService, matches, peer_view.
  assert (∀ q, peer_ok q → Forall (tidy false) (Peer_NodeSelectors q)) as Htidy
    by (intros q Hq; eapply Forall_impl; [exact Hq|]; by intros ns [? _]).
  assert (∀ q, peer_ok q → same_peer q q) as Hrefl.
  { intros q Hq. split; [by repeat split|]. done. }
  destruct (decide (same_session p o)) as [Hs|Hs].
  - destruct (EqualIgnoreService_tokens false _ _ (Htidy p Hp) (Htidy o Ho)) as (b & n' & o' & Hrun & Hb & Hn' & Ho').
    unfold mbind, res_bind. rewrite Hrun. eexists _, _, _. split; [done|].
    split; [rewrite Hb; naive_solver|]. split; by apply same_tidy_peer.
  - exists false, p, o. split; [done|]. split; [naive_solver|]. auto.
Qed.

Lemma AddService_ok svc p :
  valid_service svc → peer_ok p →
  same_peer p (Peer_AddService svc p).2 ∧ svc ∈ Services (Peer_AddService svc p).2.
Proof.
  intros Hv Hp. unfold Peer_AddService, same_peer, peer_view, Services, peer_ok in *.
  pose proof (add_service_spec svc (Peer_NodeSelectors p) Hv) as Hspec.
  destruct (add_service svc (Peer_NodeSelectors p)) as [b l] eqn:Hrun.
  apply add_service_services in Hrun as (Hs & Hpl & Hin); [|done]. simpl.
  assert (Forall clean l) as Hl.
  { destruct (decide (svc ∈ services_of (Peer_NodeSelectors p))); injection Hspec as -> ->; [done|].
    apply Forall_app. split.
    { apply Forall_forall. intros ns [_ Hns]%list_elem_of_filter. rewrite Forall_forall in Hp. by apply Hp. }
    apply Forall_fmap. rewrite sort_Sort_perm. constructor; [by apply service_selector_clean|].
    eapply Forall_impl; [apply services_of_valid|]. intros r Hr. by apply service_selector_clean. }
  split; [|done]. split; [by repeat split|].
  rewrite !compared_plain, Hpl by done. split; [done|]. split; [done|].
  destruct b; [rewrite Hs; set_solver|]. by destruct Hs as [_ ->].
Qed.

Lemma same_peer_trans p q r : same_peer p q → same_peer q r → same_peer p r.
Proof.
  intros (H1 & H2 & H3 & H4) (G1 & G2 & G3 & G4). split; [by eapply same_session_trans|].
  split; [congruence|]. split; [done|set_solver].
Qed.
Lemma matches_right p o o' : same_peer o o' → matches p o' ↔ matches p o.
Proof.
  intros (G1 & G2 & _). unfold matches, same_session in *. rewrite G2. intuition congruence.
Qed.
Lemma matches_left p p' o : same_peer p p' → matches p' o ↔ matches p o.
Proof.
  intros (G1 & G2 & _). unfold matches, same_session in *. rewrite G2. intuition congruence.
Qed.

Lemma same_peer_refl p : peer_ok p → same_peer p p.
Proof. intros Hp. split; [apply same_session_refl|]. done. Qed.

(** The loop gives the service to exactly the matching peers. *)
Lemma by_service_loop_ok svc l add :
  valid_service svc → Forall peer_ok l → peer_ok add →
  ∃ found l' add', by_service_loop svc l add = Ok (found, l', add') ∧
    (found = true ↔ Exists (λ p, matches p add) l) ∧
    Forall2 (λ p p', same_peer p p' ∧ (matches p add → svc ∈ Services p')) l l' ∧ same_peer add add'.
Proof.
  intros Hv Hl. revert add. induction Hl as [|p l Hp Hl IH]; intros add Hadd.
  { exists false, [], add. split; [done|]. split; [by rewrite Exists_nil|].
    split; [constructor|by apply same_peer_refl]. }
  simpl. unfold mbind, res_bind.
  destruct (EqualIgnoreService_ok p add Hp Hadd) as (b & p1 & add1 & Heq & Hb & Hp1 & Ha1). rewrite Heq.
  pose proof Hp1 as (_ & _ & Hok1 & _). pose proof Ha1 as (_ & _ & Hoka & _).
  destruct (IH add1 Hoka) as (found & l' & add2 & Hloop & Hfound & Hl' & Ha2).
  unfold mbind, res_bind in Hloop. rewrite Hloop. eexists _, _, _. split; [done|].
  assert (∀ q, matches q add1 ↔ matches q add) as Hm by (intros q; by apply matches_right).
  split_and!.
  - rewrite orb_true_iff, Hb, Hfound, Exists_cons. by rewrite !Exists_exists; setoid_rewrite Hm.
  - constructor.
    + destruct (AddService_ok svc p1 Hv Hok1) as [Hs Hin]. destruct b.
      * split; [by eapply same_peer_trans|done].
      * split; [done|]. intros Hpm. by apply Hb in Hpm.
    + eapply Forall2_impl; [exact Hl'|]. intros q q' [Hq Hqs]. split; [done|].
      intros Hqm. by apply Hqs, Hm.
  - by eapply same_peer_trans.
Qed.

Lemma shared_peers_ok svc add l l' :
  Forall2 (λ p p', same_peer p p' ∧ (matches p add → svc ∈ Services p')) l l' → Forall peer_ok l'.
Proof. induction 1 as [|p p' l l' [Hp _] _ IH]; constructor; [apply Hp|done]. Qed.

(** C24: Services on the same nodes share a peer: when every selector can be
    ordered and records at most one service ([peer_ok]), adding a peer for one
    service and then an equal peer for another adds at most one peer in all,
    and a peer that matches it ends up recording both services, whatever order
    the sorting of the comparisons leaves the selectors in. *)
Theorem AddPeerByService_shares svc1 svc2 add cfg :
  valid_service svc1 → valid_service svc2 → Forall peer_ok (Peers cfg) → peer_ok add →
  ∃ add1 cfg1 add2 cfg2,
    AddPeerByService (Some add) (Res_Namespace svc1) (Res_Name svc1) cfg = Ok (true, Some add1, cfg1) ∧
    AddPeerByService (Some add) (Res_Namespace svc2) (Res_Name svc2) cfg1 = Ok (true, Some add2, cfg2) ∧
    length (Peers cfg1) ≤ S (length (Peers cfg)) ∧ length (Peers cfg2) = length (Peers cfg1) ∧
    ∃ p, p ∈ Peers cfg2 ∧ matches p add ∧ svc1 ∈ Services p ∧ svc2 ∈ Services p.
Proof.
  intros Hv1 Hv2 Hcfg Hadd. destruct svc1 as [ns1 n1], svc2 as [ns2 n2].
  unfold AddPeerByService, mbind, res_bind. cbn [Res_Namespace Res_Name].
  set (svc1 := {| Res_Namespace := ns1; Res_Name := n1 |}) in *.
  set (svc2 := {| Res_Namespace := ns2; Res_Name := n2 |}) in *.
  destruct (by_service_loop_ok svc1 (Peers cfg) add Hv1 Hcfg Hadd)
    as (found & l1 & add' & Hrun & Hfound & Hl1 & Hadd'). rewrite Hrun.
  assert (∃ l add1, (if found then Ok (true, Some add', set_Peers l1 cfg)
      else Ok (true, Some (Peer_AddService svc1 add').2, set_Peers (l1 ++ [(Peer_AddService svc1 add').2]) cfg))
      = Ok (true, Some add1, set_Peers l cfg) ∧ Forall peer_ok l ∧ length l ≤ S (length (Peers cfg)) ∧
      ∃ p, p ∈ l ∧ matches p add ∧ svc1 ∈ Services p) as (l & add1 & Heq & Hl & Hlen & p & Hp & Hm & Hs).
  { pose proof (shared_peers_ok _ _ _ _ Hl1) as Hok1. pose proof (Forall2_length _ _ _ Hl1) as Hlen1.
    destruct found.
    - exists l1, add'. split_and!; [done|done|lia|].
      destruct (proj1 (Exists_exists _ _) (proj1 Hfound eq_refl)) as (p & Hp & Hm).
      apply list_elem_of_lookup in Hp as [i Hi].
      destruct (Forall2_lookup_l _ _ _ _ _ Hl1 Hi) as (p' & Hp' & Hpp & Hs).
      exists p'. split; [by eapply list_elem_of_lookup_2|]. split; [by apply (matches_left p)|by apply Hs].
    - destruct (AddService_ok svc1 add' Hv1) as [Hs Hin]; [apply Hadd'|].
      eexists _, _. split; [done|]. split_and!.
      + apply Forall_app. split; [done|]. apply Forall_singleton. apply Hs.
      + rewrite length_app. simpl. lia.
      + eexists. split; [apply elem_of_app; right; apply list_elem_of_here|]. split; [|done].
        apply (matches_left add); [by eapply same_peer_trans|]. split; [apply same_session_refl|done]. }
  exists add1, (set_Peers l cfg). rewrite Heq.
  destruct (by_service_loop_ok svc2 l add Hv2 Hl Hadd) as (found2 & l2 & add2 & Hrun2 & Hfound2 & Hl2 & _).
  assert (found2 = true) as -> by (apply Hfound2, Exists_exists; eauto).
  exists add2, (set_Peers l2 cfg). cbn [Peers set_Peers]. rewrite Hrun2. cbn [Peers set_Peers].
  split_and!; [done|done|done|by rewrite (Forall2_length _ _ _ Hl2)|].
  apply list_elem_of_lookup in Hp as [i Hi].
  destruct (Forall2_lookup_l _ _ _ _ _ Hl2 Hi) as (p' & Hp' & Hpp & Hs2).
  exists p'. split; [by eapply list_elem_of_lookup_2|]. split; [by apply (matches_left p)|].
  split; [apply Hpp; done|by apply Hs2].
Qed.
End sharing.

(** ** The config map configurer *)

Section config_map.
Context {W : Type} `{PdqSort, PdqSortEff, YamlCodec, ConfigMapClient W} (configMapName : string).

Lemma outside_config {A} (c : M W A) s r s' :
  CMConfigurer.outside c s = (r, s') → s'.1 = s.1.
Proof. unfold CMConfigurer.outside. destruct (c s.2). by intros [= _ <-]. Qed.
Lemma Update_config s u s' :
  CMConfigurer.Update configMapName s = (Ok u, s') → s'.1 = s.1.
Proof.
  unfold CMConfigurer.Update. intros Hrun. apply bind_Ok in Hrun as (b & s1 & Hb & Hrun).
  apply wrap_err_Ok in Hb. unfold lift_res in Hb. injection Hb as _ ->. by eapply outside_config.
Qed.

Lemma Get_config s u s' :
  CMConfigurer.Get configMapName s = (Ok u, s') →
  ∃ read s1, CMConfigurer.getConfigMap configMapName s = (Ok read, s1) ∧ s'.1 = Some read.
Proof.
  unfold CMConfigurer.Get, try. intros Hrun. apply bind_Ok in Hrun as (r & s1 & Hr & Hrun).
  destruct (CMConfigurer.getConfigMap configMapName s) as [[c|e|] s2]; simplify_eq.
  - injection Hrun as _ <-. by exists c, s1.
Qed.
Lemma RemovePeers_config ns name (s : CMConfigurer.state (W := W)) b s' :
  CMConfigurer.RemovePeersByService ns name s = (Ok b, s') →
  ∃ c c', s.1 = Some c ∧ s'.1 = Some c' ∧ Pools c' = Pools c.
Proof.
  unfold CMConfigurer.RemovePeersByService, CMConfigurer.update, CMConfigurer.config. intros Hrun.
  unfold mbind, M_bind in Hrun. destruct s as [[c|] w]; [|done]. simpl in Hrun.
  destruct (ConfigFile.RemovePeersByService ns name c) as [b' c'] eqn:Hrm. simpl in Hrun.
  injection Hrun as _ <-. exists c, c'. split_and!; [done..|].
  unfold RemovePeersByService in Hrm. destruct (remove_by_service_loop _ _ _ _). by injection Hrm as _ <-.
Qed.

(** A load balancer on the config map configurer does not remove the
    pool of a service: after a successful [RemoveService] the file holds
    exactly the pools it was read with. *)
Theorem CMConfigurer_leaks_pools peersFromNodes ns name ip s u s' :
  MetalLB.RemoveService {| configurer := CMConfigurer.configurer configMapName;
                           peersFromNodes := peersFromNodes |} ns name ip s = (Ok u, s') →
  ∃ read read' s1, CMConfigurer.getConfigMap configMapName s = (Ok read, s1) ∧
    s'.1 = Some read' ∧ Pools read' = Pools read.
Proof.
  unfold MetalLB.RemoveService, unmapIP, updateMapIP. cbn [configurer CMConfigurer.configurer cfg_Get
    cfg_RemoveAddressPool cfg_Update cfg_RemovePeersByService].
  intros Hrun. inv_ok.
  match goal with H : CMConfigurer.RemoveAddressPool _ _ = _ |- _ => injection H as _ <- end.
  match goal with H : CMConfigurer.Update _ _ = _ |- _ => apply Update_config in H as Hw0 end.
  match goal with H : CMConfigurer.Get _ _ = _ |- _ => apply Get_config in H as (read & s1 & Hread & Hw) end.
  match goal with H : CMConfigurer.RemovePeersByService _ _ _ = _ |- _ =>
    apply RemovePeers_config in H as (c & c' & Hc & Hw1 & Hp) end.
  exists read, c', s1. split; [done|].
  assert (s'.1 = w1.1) as ->.
  { destruct a1; inv_ok; [by eapply Update_config|done]. }
  split; [done|]. rewrite Hp. congruence.
Qed.
End config_map.

(** ** Runs on concrete files *)

Definition labels (l : list (string * string)) : NodeSelector :=
  {| MatchLabels := Some (list_to_map l); MatchExpressions := None |}.

(** [NodeSelector.Equal] is not symmetric: a label whose value is empty
    matches a selector that does not have it. *)
Theorem NodeSelector_Equal_one_sided `{PdqSortEff} :
  let x := labels [("rack", ""); ("zone", "a")] in
  let y := labels [("zone", "a"); ("host", "b")] in
  NodeSelector_Equal x y = Ok (true, x, y) ∧ NodeSelector_Equal y x = Ok (false, y, x).
Proof. split; vm_refl. Qed.

(** [BgpAdvertisements.Less] reads past the end of the shorter list of
    communities. *)
Lemma BgpAdvertisements_Less_panics :
  BgpAdvertisements_Less
    {| AggregationLength := Some 32%Z; LocalPref := Some 0%Z; Communities := ["a"; "b"] |}
    {| AggregationLength := Some 32%Z; LocalPref := Some 0%Z; Communities := ["a"] |} = Panic.
Proof. vm_refl. Qed.

Definition zone (l : list string) : NodeSelector :=
  {| MatchLabels := Some {[ "rack" := "r1" ]};
     MatchExpressions := Some [{| Req_Key := "zone"; Req_Operator := "In"; Req_Values := Some l |}] |}.
Definition sample_selectors : list NodeSelector := [zone ["b"; "a"]; labels [("rack", "r2")]].
Definition sample_selectors' : list NodeSelector := [labels [("rack", "r2")]; zone ["a"; "b"]].

Lemma sample_tidy : Forall (tidy false) sample_selectors ∧ Forall (tidy false) sample_selectors'.
Proof.
  assert (∀ v w, v ≠ "" → map_Forall (λ _ v, v ≠ "") ({[ w := v ]} : gmap string string)) as Hone
    by (intros v w Hv; by rewrite map_Forall_singleton).
  split; repeat constructor; (eexists; split; [done|by apply Hone]).
Qed.
Lemma NodeSelectors_Equal_perm_witness :
  let _ := pdqsort_eff_by_insertion in
  perm_upto same_selector sample_selectors sample_selectors'.
Proof.
  intros HS. destruct (NodeSelectors_Equal_perm false sample_selectors sample_selectors'
    (proj1 sample_tidy) (proj2 sample_tidy)) as (b & n' & o' & Hrun & Hb & _).
  apply Hb. assert (match NodeSelectors_Equal sample_selectors sample_selectors' with
    Ok (b, _, _) => b | _ => false end = true) as Htrue by vm_refl.
  rewrite Hrun in Htrue. exact Htrue.
Defined.

Definition pool (name addr : string) : AddressPool := {|
  Pool_Protocol := "bgp"; Pool_Name := name; Pool_Addresses := [addr]; Pool_AvoidBuggyIPs := false;
  Pool_AutoAssign := Some false; Pool_BGPAdvertisements := [] |}.
Definition sample_file : ConfigFile := {|
  Peers := [{| Peer_MyASN := 65000; Peer_ASN := 65530; Peer_Addr := "10.1.1.1"; Peer_Port := 179;
               Peer_SrcAddr := ""; Peer_HoldTime := "30s"; Peer_RouterID := "";
               Peer_NodeSelectors := [service_selector {| Res_Namespace := "default"; Res_Name := "web" |}];
               Peer_Password := ""; Peer_EBGPMultiHop := false; Peer_Name := "" |}];
  BGPCommunities := None;
  Pools := [pool "default.web" "5.1.1.1/32"; pool "default.db" "5.1.1.2/32"] |}.

(** Pools of the kind the program makes have no advertisements; the file
    also has one with two, which the added pool lists the other way round. *)
Definition advertisement (len pref : Z) (l : list string) : BgpAdvertisement :=
  {| AggregationLength := Some len; LocalPref := Some pref; Communities := l |}.
Definition rich_pool (name : string) (addresses : list string) (advs : list BgpAdvertisement) : AddressPool := {|
  Pool_Protocol := "bgp"; Pool_Name := name; Pool_Addresses := addresses; Pool_AvoidBuggyIPs := true;
  Pool_AutoAssign := Some false; Pool_BGPAdvertisements := advs |}.
Definition rich_file : ConfigFile := {|
  Peers := Peers sample_file; BGPCommunities := None;
  Pools := Pools sample_file ++ [rich_pool "default.api" ["5.1.1.4/32"; "5.1.1.3/32"]
    [advertisement 32 200 ["c"; "d"]; advertisement 24 100 ["b"; "a"]]] |}.
Definition rich_add : AddressPool := rich_pool "default.site" ["5.1.1.3/32"; "5.1.1.4/32"]
  [advertisement 24 100 ["a"; "b"]; advertisement 32 200 ["c"; "d"]].

Lemma advertisement_ok len pref x y : (0 ≤ len)%Z → (0 ≤ pref)%Z → adv_ok 2 (advertisement len pref [x; y]).
Proof. intros. split; [by eexists|]. split; [by eexists|done]. Qed.
Lemma orderly_rich name addresses x y :
  adv_ok 2 x → adv_ok 2 y → chain [x; y] → orderly 2 (rich_pool name addresses [x; y]).
Proof.
  intros Hx Hy Hc. split; [by eexists|]. split; [|done].
  apply Forall_cons_2; [done|by apply Forall_singleton].
Qed.
Lemma orderly_plain name addr : orderly 2 (pool name addr).
Proof. split; [by eexists|]. split; constructor. Qed.
Lemma rich_file_orderly : Forall (orderly 2) (Pools rich_file).
Proof.
  repeat (apply Forall_cons_2; [apply orderly_plain|]). apply Forall_singleton.
  apply orderly_rich; [by apply advertisement_ok..|]. refine (bool_decide_eq_true_1 _ _); vm_refl.
Qed.
Lemma rich_add_orderly : orderly 2 rich_add.
Proof. apply orderly_rich; [by apply advertisement_ok..|]. refine (bool_decide_eq_true_1 _ _); vm_refl. Qed.
Lemma rich_file_twin i p : Pools rich_file !! i = Some p → twins p rich_add → i = 2.
Proof.
  destruct i as [|[|[|i]]]; intros Hp; simplify_eq/=; intros (_ & Hb & _); try done.
Qed.
Lemma ConfigFile_pool_roundtrip_witness :
  let _ := pdqsort_eff_by_insertion in
  ∃ add' cfg' remove' cfg'', AddAddressPool (Some rich_add) rich_file = Ok (true, Some add', cfg') ∧
    (∃ p, p ∈ Pools cfg' ∧ twins p rich_add ∧ "default.site" ∈ pool_names p) ∧
    RemoveAddressPool (Some rich_add) cfg' = Ok (Some remove', cfg'') ∧
    Forall2 same_pool (Pools rich_file) (Pools cfg'').
Proof.
  intros HS. destruct (ConfigFile_pool_roundtrip 2 rich_add rich_file rich_file_orderly rich_add_orderly)
    as (add' & cfg' & Hadd & Hin & Hrem).
  - simpl. repeat split; discriminate.
  - intros i j p q Hp Hq Htp Htq.
    exact (eq_trans (rich_file_twin i p Hp Htp) (eq_sym (rich_file_twin j q Hq Htq))).
  - intros p [i Hi]%list_elem_of_lookup Htw. pose proof (rich_file_twin i p Hi Htw) as ->.
    injection Hi as <-. split; [|by repeat constructor]. refine (bool_decide_eq_true_1 _ _); vm_refl.
  - destruct (Hrem rich_add (reflexivity _)) as (remove' & cfg'' & Hrun & Hf & _).
    by exists add', cfg', remove', cfg''.
Defined.

(** What is outside: a pool without [AutoAssign] makes the comparison of any
    two pools of one protocol panic, and of two advertisements that are
    smaller than each other the sort keeps whichever came first, so the same
    two pools with their advertisements listed the other way round are not
    equal. *)
Lemma AddAddressPool_nil_AutoAssign `{PdqSortEff} p add :
  Pool_Protocol p = Pool_Protocol add → Pool_AvoidBuggyIPs p = Pool_AvoidBuggyIPs add →
  Pool_AutoAssign p = None →
  AddAddressPool (Some add) {| Peers := []; BGPCommunities := None; Pools := [p] |} = Panic.
Proof.
  intros Hp Ha Haa. unfold AddAddressPool. simpl. unfold AddressPool_Equal, AddressPool_EqualIgnoreName.
  rewrite decide_False by tauto. by rewrite Haa.
Qed.
Lemma EqualIgnoreName_order :
  let _ := pdqsort_eff_by_insertion in
  let x := advertisement 24 200 ["a"; "b"] in let y := advertisement 32 100 ["a"; "b"] in
  let p := rich_pool "default.web" ["5.1.1.1/32"] [x; y] in
  let o := rich_pool "default.web" ["5.1.1.1/32"] [y; x] in
  twins p o ∧ match AddressPool_EqualIgnoreName p o with Ok (b, _, _) => b = false | _ => False end.
Proof. split; [split_and!; try done; apply Permutation_swap|vm_compute; reflexivity]. Qed.

Definition web : Resource := {| Res_Namespace := "default"; Res_Name := "web" |}.
Lemma web_valid : valid_service web.
Proof. done. Qed.
Lemma ConfigFile_RemovePeersByService_witness :
  let _ := pdqsort_by_insertion in
  ∃ b cfg', RemovePeersByService "default" "web" sample_file = (b, cfg') ∧ Pools cfg' = Pools sample_file.
Proof.
  intros HS. eexists _, _. split; [reflexivity|].
  exact (proj1 (proj2 (ConfigFile_RemovePeersByService web sample_file _ _ web_valid eq_refl))).
Defined.

Lemma AddPeerByService_records_witness :
  let _ := pdqsort_by_insertion in let _ := pdqsort_eff_by_insertion in
  let add := {| Peer_MyASN := 65000; Peer_ASN := 65530; Peer_Addr := "10.1.1.2"; Peer_Port := 179;
                Peer_SrcAddr := ""; Peer_HoldTime := "30s"; Peer_RouterID := "";
                Peer_NodeSelectors := sample_selectors; Peer_Password := "";
                Peer_EBGPMultiHop := false; Peer_Name := "" |} in
  ∃ b add' cfg', AddPeerByService (Some add) "default" "web" sample_file = Ok (b, add', cfg') ∧
    ∃ p, p ∈ Peers cfg' ∧ same_session p add ∧ web ∈ Services p.
Proof.
  intros HS HE add.
  assert (match AddPeerByService (Some add) "default" "web" sample_file with
    Ok _ => true | _ => false end = true) as Hok by vm_refl.
  destruct (AddPeerByService (Some add) "default" "web" sample_file) as [[[b add'] cfg']| |] eqn:Hrun;
    try discriminate Hok.
  exists b, add', cfg'. split; [done|].
  exact (proj1 (proj2 (proj2 (AddPeerByService_records web add sample_file b add' cfg' web_valid Hrun)))).
Defined.

(** The peer of [sample_file], for one more service. *)
Definition sample_peer : Peer := {|
  Peer_MyASN := 65000; Peer_ASN := 65530; Peer_Addr := "10.1.1.1"; Peer_Port := 179;
  Peer_SrcAddr := ""; Peer_HoldTime := "30s"; Peer_RouterID := "";
  Peer_NodeSelectors := [labels [("kubernetes.io/hostname", "node-1")]];
  Peer_Password := ""; Peer_EBGPMultiHop := false; Peer_Name := "" |}.
Definition db : Resource := {| Res_Namespace := "default"; Res_Name := "db" |}.
Lemma sample_peers_ok : Forall peer_ok (Peers sample_file) ∧ peer_ok sample_peer.
Proof.
  split; [|apply Forall_singleton; split; [|by left]].
  - apply Forall_singleton, Forall_singleton, service_selector_clean. done.
  - split; [|done]. eexists. split; [done|].
    change (map_Forall (λ _ v, v ≠ "") ({[ "kubernetes.io/hostname" := "node-1" ]} : gmap string string)).
    by apply map_Forall_singleton.
Qed.
Lemma AddPeerByService_shares_witness :
  let _ := pdqsort_by_insertion in let _ := pdqsort_eff_by_insertion in
  ∃ cfg1 add2 cfg2,
    AddPeerByService (Some sample_peer) "default" "db" cfg1 = Ok (true, Some add2, cfg2) ∧
    length (Peers cfg1) ≤ 2 ∧ length (Peers cfg2) = length (Peers cfg1) ∧
    ∃ p, p ∈ Peers cfg2 ∧ matches p sample_peer ∧ web ∈ Services p ∧ db ∈ Services p.
Proof.
  intros HS HE. destruct (AddPeerByService_shares web db sample_peer sample_file web_valid
    (conj (λ H : "db" = "", ltac:(discriminate H)) (λ H : "default" = "", ltac:(discriminate H)))
    (proj1 sample_peers_ok) (proj2 sample_peers_ok)) as (add1 & cfg1 & add2 & cfg2 & _ & Hrun & Hlen & Heq & Hp).
  exists cfg1, add2, cfg2. split; [exact Hrun|]. split; [exact Hlen|]. split; [exact Heq|exact Hp].
Defined.

(** A codec and a client that always give the sample file. *)
Definition sample_codec : YamlCodec := {|
  yaml_Unmarshal := λ _, Ok sample_file; yaml_Marshal := λ _, Ok "config" |}.
Definition sample_client : ConfigMapClient () := {|
  cmi_Get := λ _ w, (Ok None, w); cmi_Patch := λ _ _ w, (Ok (), w) |}.
Definition sample_removal : res () * CMConfigurer.state :=
  MetalLB.RemoveService
    {| configurer := @CMConfigurer.configurer () pdqsort_by_insertion pdqsort_eff_by_insertion
                       sample_codec sample_client "config";
       peersFromNodes := λ _, [] |} "default" "web" "5.1.1.1/32" (None, ()).
Lemma CMConfigurer_leaks_pools_witness :
  sample_removal.1 = Ok () ∧
  ∃ read', sample_removal.2.1 = Some read' ∧ Pools read' = Pools sample_file.
Proof.
  split; [vm_refl|].
  assert (sample_removal = (Ok (), sample_removal.2)) as Hrun by vm_refl.
  unfold sample_removal in Hrun at 1. apply CMConfigurer_leaks_pools in Hrun
    as (read & read' & s1 & Hread & Hs & Hp).
  exists read'. split; [exact Hs|]. injection Hread as <- _. exact Hp.
Defined.
