(* ===== verification/GoHash.v ===== *)
(** * Go's [crypto/sha256] and [encoding/base64]

    [sha256.Sum256] of the bytes of a string and [StdEncoding.EncodeToString],
    as FIPS 180-4 and RFC 4648 define them. Bytes and 32-bit words are [N]. *)

From Stdlib Require Import Ascii.
From S2P Require Import Prelude.

(** ** SHA-256 *)

Definition word_mod : N := 2 ^ 32.
Definition add32 (x y : N) : N := (x + y) `mod` word_mod.
Definition rotr (n x : N) : N :=
  N.lor (N.shiftr x n) (N.shiftl x (32 - n) `mod` word_mod).
Definition not32 (x : N) : N := N.lxor x (word_mod - 1).

Definition Ch (x y z : N) : N := N.lxor (N.land x y) (N.land (not32 x) z).
Definition Maj (x y z : N) : N := N.lxor (N.lxor (N.land x y) (N.land x z)) (N.land y z).
Definition Sigma0 (x : N) : N := N.lxor (N.lxor (rotr 2 x) (rotr 13 x)) (rotr 22 x).
Definition Sigma1 (x : N) : N := N.lxor (N.lxor (rotr 6 x) (rotr 11 x)) (rotr 25 x).
Definition sigma0 (x : N) : N := N.lxor (N.lxor (rotr 7 x) (rotr 18 x)) (N.shiftr x 3).
Definition sigma1 (x : N) : N := N.lxor (N.lxor (rotr 17 x) (rotr 19 x)) (N.shiftr x 10).

(** The constants are not transcribed: FIPS 180-4 defines them as the first 32
    bits of the fractional parts of the cube roots (of the first 64 primes) and
    of the square roots (of the first eight). *)
Definition prime (n : N) : bool :=
  forallb (fun d => negb (n `mod` d =? 0)%N) (N.of_nat <$> seq 2 (N.to_nat n - 2)).
Definition primes : list N := filter (fun n => prime n) (N.of_nat <$> seq 2 310).
(** The largest [r < r0 + 2 ^ k] with [r ^ 3 <= x], when [r0 ^ 3 <= x]. *)
Fixpoint cube_root (k : nat) (r0 x : N) : N :=
  match k with
  | 0 => r0
  | S k' =>
      let r := (r0 + 2 ^ N.of_nat k')%N in
      cube_root k' (if (r ^ 3 <=? x)%N then r else r0) x
  end.
Definition K256 : list N :=
  Eval vm_compute in (fun p => cube_root 36 0 (p * 2 ^ 96) `mod` word_mod)%N <$> primes.
Definition H256 : list N :=
  Eval vm_compute in (fun p => N.sqrt (p * 2 ^ 64) `mod` word_mod)%N <$> take 8 primes.

Fixpoint bytes_of (s : string) : list N :=
  match s with
  | "" => []
  | String c s' => N_of_ascii c :: bytes_of s'
  end.

Fixpoint be_bytes (n : nat) (x : N) : list N :=
  match n with
  | 0 => []
  | S n' => be_bytes n' (x / 256) ++ [x `mod` 256]%N
  end.
Definition pad (m : list N) : list N :=
  let zeros := (119 - length m mod 64) mod 64 in
  m ++ [128%N] ++ replicate zeros 0%N ++ be_bytes 8 (8 * N.of_nat (length m)).

Fixpoint words_of (l : list N) : list N :=
  match l with
  | a :: b :: c :: d :: l' => (((a * 256 + b) * 256 + c) * 256 + d)%N :: words_of l'
  | _ => []
  end.

(** The schedule, latest word first. *)
Fixpoint schedule (n : nat) (w : list N) : list N :=
  match n with
  | 0 => w
  | S n' =>
      let at_ i := nth i w 0%N in
      schedule n' (add32 (add32 (sigma1 (at_ 1)) (at_ 6)) (add32 (sigma0 (at_ 14)) (at_ 15)) :: w)
  end.

Definition round (st : list N) (kw : N * N) : list N :=
  match st with
  | [a; b; c; d; e; f; g; h] =>
      let t1 := add32 (add32 (add32 h (Sigma1 e)) (Ch e f g)) (add32 kw.1 kw.2) in
      let t2 := add32 (Sigma0 a) (Maj a b c) in
      [add32 t1 t2; a; b; c; add32 d t1; e; f; g]
  | _ => st
  end.
Definition compress (st : list N) (block : list N) : list N :=
  let w := reverse (schedule 48 (reverse (words_of block))) in
  zip_with add32 st (foldl round st (zip K256 w)).

Fixpoint blocks (n : nat) (l : list N) : list (list N) :=
  match n with
  | 0 => []
  | S n' => take 64 l :: blocks n' (drop 64 l)
  end.
Definition Sum256 (s : string) : list N :=
  let m := pad (bytes_of s) in
  foldl compress H256 (blocks (length m / 64) m) ≫= be_bytes 4.

(** ** Base 64 *)

Definition base64_char (n : N) : ascii :=
  ascii_of_N (if (n <? 26)%N then 65 + n
              else if (n <? 52)%N then 97 + (n - 26)
              else if (n <? 62)%N then 48 + (n - 52)
              else if (n =? 62)%N then 43 else 47).
Fixpoint EncodeToString (l : list N) : string :=
  match l with
  | [] => ""
  | [a] =>
      String (base64_char (a / 4)) (String (base64_char ((a `mod` 4) * 16)) "==")
  | [a; b] =>
      String (base64_char (a / 4)) (String (base64_char ((a `mod` 4) * 16 + b / 16))
        (String (base64_char ((b `mod` 16) * 4)) "="))
  | a :: b :: c :: l' =>
      String (base64_char (a / 4)) (String (base64_char ((a `mod` 4) * 16 + b / 16))
        (String (base64_char ((b `mod` 16) * 4 + c / 64))
          (String (base64_char (c `mod` 64)) (EncodeToString l'))))
  end.

(** The digests of "abc" and of the empty string, as the standard gives them. *)
Example sha256_abc : EncodeToString (Sum256 "abc") = "ungWv48Bz+pBQUDeXa4iI7ADYaOWF3qctBD/YfIAFa0=".
Proof. vm_compute. reflexivity. Qed.
Example sha256_empty : EncodeToString (Sum256 "") = "47DEQpj8HBSa+/TImW+5JCeuQeRkm5NMpJWZG3hSuFU=".
Proof. vm_compute. reflexivity. Qed.
