(* ===== verification/LoadBalancers.v ===== *)
(** * The load balancer controller

    [cherry/loadbalancers.go]: the cloud provider's load balancer interface
    on top of IP reservations, BGP and one of the implementations. The
    struct [loadBalancers] is the record of that name; its clients are the
    client classes; a nil [implementor] or [nodeSelector] is [None], and a
    method called on it panics. *)

From Stdlib Require Import Ascii.
From S2P Require Import Prelude Constants GoStrings GoNet GoSort GoSlices GoHash Api Reservations LoadBalancer Bgp MetalLBTypes MetalLBPeers MetalLB World.

(** ** Definitions *)

Record loadBalancers (W : Type) := {
  project : Z;
  region : string;
  clusterID : string;
  implementor : option (loadbalancers.LB W);
  implementorConfig : string;
  annotationLocalASN : string;
  annotationPeerASN : string;
  annotationPeerIP : string;
  annotationSrcIP : string;
  annotationMultiHop : string;
  fipRegionAnnotation : string;
  nodeSelector : option Selector;
  bgpEnabler : string → M W NodeBGPInfo
}.
Arguments project {W} _.
Arguments region {W} _.
Arguments clusterID {W} _.
Arguments implementor {W} _.
Arguments implementorConfig {W} _.
Arguments annotationLocalASN {W} _.
Arguments annotationPeerASN {W} _.
Arguments annotationPeerIP {W} _.
Arguments annotationSrcIP {W} _.
Arguments annotationMultiHop {W} _.
Arguments fipRegionAnnotation {W} _.
Arguments nodeSelector {W} _.
Arguments bgpEnabler {W} _.

(** The addresses of the ingress points. *)
Record LoadBalancerStatus := { Ingress : list string }.

Definition nodeLabel (n : option Node) (label : string) : string :=
  match n with
  | None => ""
  | Some n => map_get (Node_Labels n) label
  end.
Definition nodeRegion (n : option Node) : string := nodeLabel n "topology.kubernetes.io/region".

Definition serviceRep (svc : option Service) : string :=
  match svc with
  | None => ""
  | Some svc => Service_Namespace svc +:+ "/" +:+ Service_Name svc
  end.
Definition serviceAnnotation (svc : option Service) (annotation : string) : string :=
  match svc with
  | None => ""
  | Some svc => map_get (Service_Annotations svc) annotation
  end.
Definition serviceTag (svc : option Service) : string * string :=
  match svc with
  | None => ("", "")
  | Some _ => ("service", EncodeToString (Sum256 (serviceRep svc)))
  end.
Definition clusterTag (clusterID : string) : string * string := ("cluster", clusterID).

Definition isServiceManaged (svc : option Service) : bool :=
  bool_decide (serviceAnnotation svc AnnotationLoadBalancerManaged ≠ "false").

Fixpoint filterNodes (nodes : list Node) (nodeSelector : option Selector) : res (list Node) :=
  match nodes with
  | [] => Ok []
  | node :: nodes' =>
      match nodeSelector with
      | None => Panic
      | Some matches =>
          rest ← filterNodes nodes' nodeSelector;
          mret (if matches (default ∅ (Node_Labels node)) then node :: rest else rest)
      end
  end.

(** The three tags of a reservation; the map literal of the code. *)
Definition reservationTags (svc : option Service) (clusterID : string) : gmap string string :=
  let '(svcTag, svcValue) := serviceTag svc in
  let '(clsTag, clsValue) := clusterTag clusterID in
  <[cherryTag := cherryValue]> (<[clsTag := clsValue]> {[ svcTag := svcValue ]}).

Section methods.
Context {W : Type} `{PdqSort} {CC : CherryClient W} {KC : KubeClient W}.
Variable l : loadBalancers W.

(** The implementation behind the interface field. *)
Definition the_implementor : M W (loadbalancers.LB W) :=
  match implementor l with
  | Some i => mret i
  | None => panic
  end.

Definition listReservations : M W (list IPAddress) :=
  wrap_err (Errorw "unable to retrieve IP reservations for project %d: %w" [Itoa (project l)])
    (IPAddresses_List (project l)).

Definition GetLoadBalancer (service : Service) : M W (option LoadBalancerStatus * bool) :=
  if negb (isServiceManaged (Some service)) then mret (None, false)
  else
    i ← the_implementor;
    ips ← listReservations;
    match ipReservationByAllTags (reservationTags (Some service) (clusterID l)) ips with
    | None => mret (None, false)
    | Some ipReservation => mret (Some {| Ingress := [IP_Cidr ipReservation] |}, true)
    end.

Definition GetLoadBalancerName (service : Service) : string :=
  let '(svcTag, svcValue) := serviceTag (Some service) in
  let '(clsTag, clsValue) := clusterTag (clusterID l) in
  cherryTag +:+ "=" +:+ cherryValue +:+ ":" +:+ svcTag +:+ "=" +:+ svcValue +:+
    ":" +:+ clsTag +:+ "=" +:+ clsValue.

(** The loop over the sorted peers: five annotations per peer. *)
Fixpoint annotate_peers (localASN peerASN sourceIP : string) (i : nat) (peers : list BGPPeer)
    (annotations : gmap string string) : gmap string string :=
  match peers with
  | [] => annotations
  | peer :: peers' =>
      let key pattern := Replace1 pattern "{{n}}" (Itoa (Z.of_nat i)) in
      annotate_peers localASN peerASN sourceIP (S i) peers'
        (<[key (annotationMultiHop l) := "true"]>
        (<[key (annotationSrcIP l) := sourceIP]>
        (<[key (annotationPeerIP l) := BGPPeer_Address peer]>
        (<[key (annotationPeerASN l) := peerASN]>
        (<[key (annotationLocalASN l) := localASN]> annotations)))))
  end.

Definition sort_peers (peers : list BGPPeer) : list BGPPeer :=
  sort_Sort (λ a b, String.ltb (BGPPeer_Address a) (BGPPeer_Address b)) peers.

Definition annotateNode (node : Node) : M W unit :=
  let annotations := default ∅ (Node_Annotations node) in
  bgpConfig ← wrap_err (Errorw "could not get BGP info for node %s: %w" [Node_Name node])
                (bgpEnabler l (Node_ProviderID node));
  let annotations :=
    if decide (length (Info_Peers bgpConfig) = 0) then annotations
    else annotate_peers (Itoa (Info_LocalASN bgpConfig)) (Itoa (Info_RemoteASN bgpConfig))
           (Info_SourceIP bgpConfig) 0 (sort_peers (Info_Peers bgpConfig)) annotations in
  wrap_err (Errorw "failed to patch node with annotations %s: %w" [Node_Name node])
    (Nodes_PatchAnnotations (Node_Name node) annotations).

(** The node the implementation is told about. *)
Definition lb_node (node : Node) (bgpConfig : NodeBGPInfo) : loadbalancers.Node := {|
  loadbalancers.Name := Node_Name node;
  loadbalancers.LocalASN := Info_LocalASN bgpConfig;
  loadbalancers.PeerASN := Info_RemoteASN bgpConfig;
  loadbalancers.Peers :=
    (λ p, {| loadbalancers.Address := BGPPeer_Address p; loadbalancers.Port := BGPPeer_Port p |})
      <$> Info_Peers bgpConfig;
  loadbalancers.Region := nodeRegion (Some node);
  loadbalancers.SourceIP := Info_SourceIP bgpConfig;
  loadbalancers.Password := ""
|}.

(** The loop of [addService]: a node that fails is skipped. *)
Fixpoint add_nodes_loop (nodes : list Node) : M W (list loadbalancers.Node) :=
  match nodes with
  | [] => mret []
  | node :: nodes' =>
      if decide (Node_ProviderID node = "") then add_nodes_loop nodes'
      else
        r ← try (bgpEnabler l (Node_ProviderID node));
        match r with
        | inl _ => add_nodes_loop nodes'
        | inr bgpConfig =>
            a ← try (annotateNode node);
            match a with
            | inl _ => add_nodes_loop nodes'
            | inr _ =>
                n ← add_nodes_loop nodes';
                mret (lb_node node bgpConfig :: n)
            end
        end
  end.

(** The loop of [UpdateLoadBalancer]: only a BGP failure is skipped. *)
Fixpoint update_nodes_loop (nodes : list Node) : M W (list loadbalancers.Node) :=
  match nodes with
  | [] => mret []
  | node :: nodes' =>
      if decide (Node_ProviderID node = "") then
        raise (Errorf "no provider ID given for node %s, skipping" [Node_Name node])
      else
        r ← try (bgpEnabler l (Node_ProviderID node));
        match r with
        | inl _ => update_nodes_loop nodes'
        | inr bgpConfig =>
            wrap_err (Errorw "failed to annotate node %s: %w" [Node_Name node]) (annotateNode node);;
            n ← update_nodes_loop nodes';
            mret (lb_node node bgpConfig :: n)
        end
  end.

(** [addService], when the service has no IP and no reservation: the region
    of the request, then the request. *)
Definition requestRegion (svc : Service) : M W string :=
  let svcRegion := serviceAnnotation (Some svc) (fipRegionAnnotation l) in
  if decide (svcRegion ≠ "") then mret svcRegion
  else if decide (region l ≠ "") then mret (region l)
  else raise (ENew "unable to create load balancer when no IP or region specified, either globally or on service").
Definition requestReservation (svc : Service) : M W IPAddress :=
  region ← requestRegion svc;
  wrap_err (Errorw "failed to request an IP for the load balancer: %w" [])
    (IPAddresses_Create (project l)
       {| CreateIP_Region := region;
          CreateIP_Tags := Some (reservationTags (Some svc) (clusterID l)) |}).

(** [addService], when the service has no IP: the address of the
    reservation is written to the latest version of the service. *)
Definition assignIP (i : loadbalancers.LB W) (svc : Service) (svcIP : string) : M W unit :=
  let svcName := serviceRep (Some svc) in
  r ← try (Services_Get (Service_Namespace svc) (Service_Name svc));
  match r with
  | inl err => raise (Errorw "failed to get latest for service %s: %w" [svcName] err)
  | inr None => raise (Errorf "failed to get latest for service %s: %w" [svcName; "<nil>"])
  | inr (Some existing) =>
      existing ← wrap_err (Errorw "failed to set service IP: %w" [])
                   (lift_res (loadbalancers.SetServiceIP i (Some existing) svcIP));
      wrap_err (Errorw "failed to update service %s: %w" [svcName])
        (Services_Update (Service_Namespace svc) existing)
  end.

Definition addService (svc : Service) (ips : list IPAddress) (nodes : list Node) : M W string :=
  i ← the_implementor;
  let '(svcIP, hasIP) := loadbalancers.ServiceIP i (Some svc) in
  let ipReservation := ipReservationByAllTags (reservationTags (Some svc) (clusterID l)) ips in
  '(svcIP, ipReservation) ←
    (if (hasIP : bool) then mret (svcIP, ipReservation)
     else
       ipReservation ← match ipReservation with
                       | Some r => mret r
                       | None => requestReservation svc
                       end;
       let svcIP := IP_Address ipReservation in
       assignIP i svc svcIP;;
       mret (svcIP, Some ipReservation));
  let svcIPCidr :=
    match ipReservation with
    | Some r => IP_Cidr r
    | None => svcIP +:+ "/" +:+ "32"
    end in
  n ← add_nodes_loop nodes;
  loadbalancers.AddService i (Service_Namespace svc) (Service_Name svc) svcIPCidr n;;
  mret svcIPCidr.

Definition EnsureLoadBalancer (service : Service) (nodes : list Node) : M W LoadBalancerStatus :=
  if negb (isServiceManaged (Some service)) then raise ImplementedElsewhere
  else
    ips ← listReservations;
    nodes ← lift_res (filterNodes nodes (nodeSelector l));
    ipCidr ← wrap_err (Errorw "failed to add service %s: %w" [Service_Name service])
               (addService service ips nodes);
    match SplitN2 ipCidr "/" with
    | ip :: _ => mret {| Ingress := [ip] |}
    | [] => panic
    end.

Definition UpdateLoadBalancer (service : Service) (nodes : list Node) : M W unit :=
  if negb (isServiceManaged (Some service)) then raise ImplementedElsewhere
  else
    nodes ← lift_res (filterNodes nodes (nodeSelector l));
    n ← update_nodes_loop nodes;
    i ← the_implementor;
    loadbalancers.UpdateService i (Service_Namespace service) (Service_Name service) n.

Definition EnsureLoadBalancerDeleted (service : Service) : M W unit :=
  if negb (isServiceManaged (Some service)) then mret ()
  else
    i ← the_implementor;
    ips ← listReservations;
    match ipReservationByAllTags (reservationTags (Some service) (clusterID l)) ips with
    | None => mret ()
    | Some ipReservation =>
        wrap_err (Errorw "failed to remove IP address reservation %s from project: %w"
                    [IP_ID ipReservation])
          (IPAddresses_Remove (IP_ID ipReservation));;
        wrap_err (Errorw "error removing IP from configmap for %s: %w" [serviceRep (Some service)])
          (loadbalancers.RemoveService i (Service_Namespace service) (Service_Name service)
             (IP_Cidr ipReservation))
    end.
End methods.

(** ** Construction *)

Section construction.
Context {W : Type} `{UrlParser, Parsers, CrdRuntime, PdqSort, GoRange, ExpSlices} {KC : KubeClient W}
  `{CrdClient W metalapi.BGPPeer, CrdClient W metalapi.IPAddressPool,
    CrdClient W metalapi.BGPAdvertisement}.

(** The implementation a configuration URL selects. *)
Definition newImplementor (u : URL) (nodeSelector : string) : res (option (loadbalancers.LB W)) :=
  if decide (URL_Scheme u = "kube-vip") then Ok (Some (kubevip.NewLB (URL_Path u)))
  else if decide (URL_Scheme u = "metallb") then
    '(namespace, bgpPeerMode) ← res_wrap (Errorw "invalid metallb config: %w" []) (ParseConfigURL u);
    apiNodeSelector ← res_wrap (Errorw "failed to parse node selector %q: %w" [nodeSelector])
                        (ParseToLabelSelector nodeSelector);
    lb ← NewLB namespace (NewPeersFromNodesFunc bgpPeerMode apiNodeSelector);
    Ok (Some (MetalLB.impl lb))
  else if decide (URL_Scheme u = "empty") then
    Ok (Some (empty.impl (empty.NewLB (Query_Get u "ip-annotation"))))
  else Ok None.

(** [None] is the nil load balancer of an empty configuration. A selector
    that does not parse is nil. *)
Definition newLoadBalancers (projectID : Z) (region config : string)
    (annotationLocalASN annotationPeerASN annotationPeerIP annotationSrcIP
     fipRegionAnnotation annotationMultiHop nodeSelector : string)
    (bgpEnabler : string → M W NodeBGPInfo) : M W (option (loadBalancers W)) :=
  let selector :=
    if decide (nodeSelector ≠ "") then
      match labels_Parse nodeSelector with Ok s => Some s | _ => None end
    else Some labels_Everything in
  if decide (config = "") then mret None
  else
    systemNamespace ← wrap_err (Errorw "failed to get kube-system namespace: %w" [])
                        (Namespaces_Get "kube-system");
    match systemNamespace with
    | None => raise (Errorf "kube-system namespace is missing unexplainably" [])
    | Some uid =>
        u ← wrap_err (Errorw "invalid config: %w" []) (lift_res (url_Parse config));
        impl ← lift_res (newImplementor u nodeSelector);
        mret (Some {|
          project := projectID; region := region; clusterID := uid; implementor := impl;
          implementorConfig := config; annotationLocalASN := annotationLocalASN;
          annotationPeerASN := annotationPeerASN; annotationPeerIP := annotationPeerIP;
          annotationSrcIP := annotationSrcIP; annotationMultiHop := annotationMultiHop;
          fipRegionAnnotation := fipRegionAnnotation; nodeSelector := selector;
          bgpEnabler := bgpEnabler |})
    end.
End construction.

(** ** What the component relies on *)

(** A preorder on worlds that the calls on servers, nodes and services
    respect. *)
Class StaysNodes {W} `{KubeClient W} (R : relation W) (l : loadBalancers W) : Prop := {
  stays_bgp : ∀ id, stays R (bgpEnabler l id);
  stays_Nodes_Patch : ∀ n a, stays R (Nodes_PatchAnnotations (W := W) n a);
  stays_Services_Get : ∀ ns n, stays R (Services_Get (W := W) ns n);
  stays_Services_Update : ∀ ns s, stays R (Services_Update (W := W) ns s)
}.

Section stays.
Context {W : Type} `{PdqSort, KubeClient W} (R : relation W) `{!PreOrder R}
  (l : loadBalancers W) `{!StaysNodes R l}.

Local Hint Extern 1 (stays R (bgpEnabler l _)) => apply (stays_bgp (l := l)) : stays.
Local Hint Extern 1 (stays R (Nodes_PatchAnnotations _ _)) => apply (stays_Nodes_Patch (l := l)) : stays.
Local Hint Extern 1 (stays R (Services_Get _ _)) => apply (stays_Services_Get (l := l)) : stays.
Local Hint Extern 1 (stays R (Services_Update _ _)) => apply (stays_Services_Update (l := l)) : stays.

Lemma stays_annotateNode node : stays R (annotateNode l node).
Proof. unfold annotateNode. solve_stays. Qed.
Hint Resolve stays_annotateNode : stays.
Lemma stays_add_nodes_loop nodes : stays R (add_nodes_loop l nodes).
Proof. induction nodes as [|n nodes IH]; cbn [add_nodes_loop]; solve_stays. Qed.
Lemma stays_update_nodes_loop nodes : stays R (update_nodes_loop l nodes).
Proof. induction nodes as [|n nodes IH]; cbn [update_nodes_loop]; solve_stays. Qed.
Lemma stays_assignIP i svc ip : stays R (assignIP i svc ip).
Proof. unfold assignIP. solve_stays. Qed.
End stays.

(** What may happen to the reservations in the calls that are about
    something else: nothing. *)
Class KeepsReservations {W} `{CherryClient W, KubeClient W, !ReservationLaws W}
    (l : loadBalancers W) : Prop := {
  keeps_bgp : ∀ id, keeps api_ips (bgpEnabler l id);
  keeps_Nodes_Patch : ∀ n a, keeps api_ips (Nodes_PatchAnnotations (W := W) n a);
  keeps_Services_Get : ∀ ns n, keeps api_ips (Services_Get (W := W) ns n);
  keeps_Services_Update : ∀ ns s, keeps api_ips (Services_Update (W := W) ns s);
  keeps_impl_Add : ∀ i ns n ip nodes, implementor l = Some i →
    keeps api_ips (loadbalancers.AddService i ns n ip nodes);
  keeps_impl_Remove : ∀ i ns n ip, implementor l = Some i →
    keeps api_ips (loadbalancers.RemoveService i ns n ip);
  keeps_impl_Update : ∀ i ns n nodes, implementor l = Some i →
    keeps api_ips (loadbalancers.UpdateService i ns n nodes)
}.
#[export] Hint Resolve keeps_impl_Add keeps_impl_Remove keeps_impl_Update : keeps.

(** ** Lemmas *)

Section lemmas.
Context {W : Type} `{PdqSort, CherryClient W, KubeClient W, !ReservationLaws W}
  (l : loadBalancers W) `{!KeepsReservations l}.

#[export] Instance reservations_StaysNodes : StaysNodes (unchanged api_ips) l.
Proof. split; [exact keeps_bgp|exact keeps_Nodes_Patch|exact keeps_Services_Get|exact keeps_Services_Update]. Qed.

Lemma keeps_IPAddresses_List p : keeps api_ips (IPAddresses_List p).
Proof. intros w r w' Hr. by apply IPAddresses_List_keeps in Hr as ->. Qed.

Lemma keeps_add_nodes_loop nodes : keeps api_ips (add_nodes_loop l nodes).
Proof. exact (stays_add_nodes_loop (unchanged api_ips) l nodes). Qed.
Lemma keeps_update_nodes_loop nodes : keeps api_ips (update_nodes_loop l nodes).
Proof. exact (stays_update_nodes_loop (unchanged api_ips) l nodes). Qed.
Lemma keeps_assignIP i svc ip : keeps api_ips (assignIP i svc ip).
Proof. exact (stays_assignIP (unchanged api_ips) l i svc ip). Qed.
Hint Resolve keeps_add_nodes_loop keeps_update_nodes_loop keeps_assignIP : keeps.

(** At most one reservation is made, with the three tags, and only when
    none had them. *)
Definition one_more (tags : gmap string string) (before after : list IPAddress) : Prop :=
  after = before ∨
  Forall (λ ip, ¬ carries tags ip) before ∧ ∃ ip, after = before ++ [ip] ∧ carries tags ip.
Global Instance one_more_refl tags : Reflexive (one_more tags).
Proof. intros x. by left. Qed.

Definition one_request (tags : gmap string string) (before after : list IPAddress) : Prop :=
  after = before ∨ ∃ ip, after = before ++ [ip] ∧ carries tags ip.

Lemma requestReservation_moves svc :
  moves api_ips (one_request (reservationTags (Some svc) (clusterID l))) (requestReservation l svc).
Proof.
  assert (Reflexive (one_request (reservationTags (Some svc) (clusterID l)))) as Hrefl
    by (intros x; by left).
  apply moves_bind_l; [done|unfold requestRegion; solve_keeps|]. intros rg.
  apply moves_wrap_err. intros w r w' Hrun.
  destruct r as [ip|e|]; [|left; by eapply IPAddresses_Create_fail..].
  apply IPAddresses_Create_Ok in Hrun as [Htags ->]. right. exists ip. split; [done|].
  exists (reservationTags (Some svc) (clusterID l)). by rewrite Htags.
Qed.

Lemma ipReservation_None tags ips :
  ipReservationByAllTags tags ips = None → Forall (λ ip, ¬ carries tags ip) ips.
Proof.
  unfold ipReservationByAllTags. rewrite ipReservationsByAllTags_filter.
  destruct (filter (carries tags) ips) eqn:E; [|done]. intros _. apply Forall_forall.
  intros ip Hin Hc. apply (not_elem_of_nil ip). rewrite <-E. by apply list_elem_of_filter.
Qed.
Lemma ipReservation_Some tags ips ip :
  ipReservationByAllTags tags ips = Some ip → ip ∈ ips ∧ carries tags ip.
Proof.
  unfold ipReservationByAllTags. rewrite ipReservationsByAllTags_filter.
  destruct (filter (carries tags) ips) eqn:E; [done|]. intros [= <-].
  assert (i ∈ filter (carries tags) ips) as Hin by (rewrite E; apply list_elem_of_here).
  apply list_elem_of_filter in Hin. tauto.
Qed.

Lemma addService_moves svc w ips nodes r w' :
  ips = api_ips w → addService l svc ips nodes w = (r, w') →
  one_more (reservationTags (Some svc) (clusterID l)) (api_ips w) (api_ips w').
Proof.
  intros -> Hrun. unfold addService, the_implementor in Hrun.
  destruct (implementor l) as [i|] eqn:Hi; [|injection Hrun as _ <-; by left].
  unfold mbind at 1, M_bind at 1 in Hrun. simpl in Hrun.
  destruct (loadbalancers.ServiceIP i (Some svc)) as [svcIP hasIP].
  set (tags := reservationTags (Some svc) (clusterID l)) in *.
  set (found := ipReservationByAllTags tags (api_ips w)) in *.
  assert (∀ a : string * option IPAddress, keeps api_ips (let '(svcIP, ipReservation) := a in
    n ← add_nodes_loop l nodes;
    loadbalancers.AddService i (Service_Namespace svc) (Service_Name svc)
      match ipReservation with Some r => IP_Cidr r | None => svcIP +:+ "/" +:+ "32" end n;;
    mret match ipReservation with Some r => IP_Cidr r | None => svcIP +:+ "/" +:+ "32" end)) as Hrest
    by (intros [? ?]; solve_keeps).
  destruct hasIP; [left|destruct found as [ip|] eqn:Hfound; [left|]].
  - by eapply (keeps_bind api_ips _ _ (keeps_ret _ _) Hrest).
  - eapply (keeps_bind api_ips); [|exact Hrest|exact Hrun]. solve_keeps.
  - assert (moves api_ips (one_request tags)
      (ipReservation ← requestReservation l svc;
       assignIP i svc (IP_Address ipReservation);; mret (IP_Address ipReservation, Some ipReservation)))
      as Hreq.
    { apply moves_bind_r; [apply requestReservation_moves|]. solve_keeps. }
    eapply moves_bind_r in Hrun; [|exact Hreq|exact Hrest].
    destruct Hrun as [Heq|Hone]; [by left|right]. split; [by apply ipReservation_None|done].
Qed.
End lemmas.
#[export] Hint Resolve keeps_IPAddresses_List keeps_add_nodes_loop keeps_update_nodes_loop
  keeps_assignIP : keeps.
