(* ===== verification/LoadBalancerProps.v ===== *)
(** * Properties of the load balancer controller

    What the four operations of [LoadBalancers] do to the reservations, to
    the services and to the implementation, on every branch. *)

From Stdlib Require Import Ascii.
From S2P Require Import Prelude Constants GoStrings GoSort GoSlices Api World Reservations LoadBalancer Bgp MetalLBTypes MetalLBPeers MetalLB LoadBalancers.

Section properties.
Context {W : Type} `{PdqSort, CherryClient W, KubeClient W} (l : loadBalancers W).
Implicit Types (svc : Service) (w : W).

Definition tags_of svc : gmap string string := reservationTags (Some svc) (clusterID l).

(** A service whose annotation says it is not managed is left to
    others: no operation makes a single call for it, and they answer that
    there is no balancer, that it is implemented elsewhere, or, for the
    deletion, that all is done. *)
Theorem unmanaged_untouched svc nodes w :
  serviceAnnotation (Some svc) AnnotationLoadBalancerManaged = "false" →
  GetLoadBalancer l svc w = (Ok (None, false), w) ∧
  EnsureLoadBalancer l svc nodes w = (Err ImplementedElsewhere, w) ∧
  UpdateLoadBalancer l svc nodes w = (Err ImplementedElsewhere, w) ∧
  EnsureLoadBalancerDeleted l svc w = (Ok (), w).
Proof.
  intros Hun. assert (isServiceManaged (Some svc) = false) as Hm
    by (apply bool_decide_eq_false; by intros ?).
  unfold GetLoadBalancer, EnsureLoadBalancer, UpdateLoadBalancer, EnsureLoadBalancerDeleted.
  by rewrite Hm.
Qed.

Context `{!ReservationLaws W}.

(** The reservations around EnsureLoadBalancer, whatever its outcome. *)
Lemma EnsureLoadBalancer_moves `{!KeepsReservations l} svc nodes w r w' :
  EnsureLoadBalancer l svc nodes w = (r, w') → one_more (tags_of svc) (api_ips w) (api_ips w').
Proof.
  unfold EnsureLoadBalancer. destruct (negb _); [intros [= _ <-]; by left|].
  unfold listReservations, wrap_err, lift_res, mbind, M_bind. intros Hrun.
  destruct (IPAddresses_List (project l) w) as [[ips|e|] w1] eqn:Hlist;
    pose proof (IPAddresses_List_keeps _ _ _ _ Hlist) as ->; [|injection Hrun as _ <-; by left..].
  apply IPAddresses_List_Ok in Hlist as ->.
  destruct (filterNodes nodes (nodeSelector l)) as [nodes'|e|]; [|injection Hrun as _ <-; by left..].
  destruct (addService l svc (api_ips w) nodes' w) as [[cidr|e|] w2] eqn:Hadd;
    apply (addService_moves l svc w _ nodes' _ _ eq_refl) in Hadd; [|injection Hrun as _ <-; exact Hadd..].
  destruct (SplitN2 cidr "/"); injection Hrun as _ <-; exact Hadd.
Qed.

(** C9: Whatever the outcome of EnsureLoadBalancer, errors and panics
    included, it makes at most one reservation, only when none carried the
    tags of the service, and the one it makes carries them. *)
Theorem EnsureLoadBalancer_one_reservation `{!KeepsReservations l} svc nodes w r w' :
  EnsureLoadBalancer l svc nodes w = (r, w') →
  api_ips w' = api_ips w ∨
  Forall (λ ip, ¬ carries (tags_of svc) ip) (api_ips w) ∧
  ∃ ip, api_ips w' = api_ips w ++ [ip] ∧ carries (tags_of svc) ip.
Proof. apply EnsureLoadBalancer_moves. Qed.

(** Without a region on the service and in the configuration, a managed
    service that has neither an address nor a reservation is refused, and
    nothing is changed anywhere. *)
Theorem EnsureLoadBalancer_no_region svc nodes nodes' i w :
  isServiceManaged (Some svc) = true → implementor l = Some i →
  loadbalancers.ServiceIP i (Some svc) = ("", false) →
  serviceAnnotation (Some svc) (fipRegionAnnotation l) = "" → region l = "" →
  IPAddresses_List (project l) w = (Ok (api_ips w), w) →
  Forall (λ ip, ¬ carries (tags_of svc) ip) (api_ips w) →
  filterNodes nodes (nodeSelector l) = Ok nodes' →
  ∃ e, EnsureLoadBalancer l svc nodes w = (Err e, w).
Proof.
  intros Hm Hi Hip Hr1 Hr2 Hlist Hnone Hnodes. unfold EnsureLoadBalancer. rewrite Hm. simpl.
  unfold listReservations, wrap_err, lift_res, mbind, M_bind. rewrite Hlist, Hnodes.
  unfold addService, the_implementor. rewrite Hi. unfold mbind, M_bind, mret, M_ret.
  rewrite Hip. fold (tags_of svc).
  assert (ipReservationByAllTags (tags_of svc) (api_ips w) = None) as ->.
  { destruct (ipReservationByAllTags _ _) as [ip|] eqn:E; [|done].
    apply ipReservation_Some in E as [Hin Hc]. rewrite Forall_forall in Hnone.
    by destruct (Hnone ip Hin). }
  unfold requestReservation, requestRegion. rewrite Hr1, Hr2.
  rewrite !decide_False by (intros Hne; by apply Hne). unfold raise. by eexists.
Qed.

(** The region of a new reservation is the one in the annotation of the
    service when it has one, whatever the configured region is. *)
Theorem requestReservation_region svc w :
  let asked := serviceAnnotation (Some svc) (fipRegionAnnotation l) in
  let rg := if decide (asked = "") then region l else asked in
  rg ≠ "" →
  requestReservation l svc w =
    wrap_err (Errorw "failed to request an IP for the load balancer: %w" [])
      (IPAddresses_Create (project l)
         {| CreateIP_Region := rg; CreateIP_Tags := Some (tags_of svc) |}) w.
Proof.
  intros asked rg Hne. unfold requestReservation, requestRegion. fold asked. unfold rg in *.
  destruct (decide (asked = "")) as [Ha|Ha].
  - rewrite (decide_False (P := asked ≠ "")) by (intros Hx; by apply Hx). by rewrite decide_True.
  - by rewrite decide_True.
Qed.

Lemma managed_annotation svc :
  serviceAnnotation (Some svc) AnnotationLoadBalancerManaged ≠ "false" →
  isServiceManaged (Some svc) = true.
Proof. intros. by apply bool_decide_eq_true. Qed.

Lemma no_reservation tags ips :
  Forall (λ ip, ¬ carries tags ip) ips → ipReservationByAllTags tags ips = None.
Proof.
  intros Hnone. destruct (ipReservationByAllTags _ _) as [ip|] eqn:E; [|done].
  apply ipReservation_Some in E as [Hin Hc]. rewrite Forall_forall in Hnone.
  by destruct (Hnone ip Hin).
Qed.
Lemma new_reservation tags ips ip :
  Forall (λ ip, ¬ carries tags ip) ips → carries tags ip →
  ipReservationByAllTags tags (ips ++ [ip]) = Some ip.
Proof.
  intros Hnone Hc. apply no_reservation in Hnone. revert Hnone.
  unfold ipReservationByAllTags. rewrite !ipReservationsByAllTags_filter, filter_app.
  destruct (filter (carries tags) ips); [|done]. intros _. by rewrite filter_cons_True.
Qed.

(** Deleting the balancer of a service that has no reservation does
    nothing: when the service brought its own address, what the
    implementation was told about it is never taken back. *)
Theorem EnsureLoadBalancerDeleted_own_address svc i w :
  implementor l = Some i → IPAddresses_List (project l) w = (Ok (api_ips w), w) →
  Forall (λ ip, ¬ carries (tags_of svc) ip) (api_ips w) →
  EnsureLoadBalancerDeleted l svc w = (Ok (), w).
Proof.
  intros Hi Hlist Hnone. unfold EnsureLoadBalancerDeleted. destruct (negb _); [done|].
  unfold the_implementor. rewrite Hi.
  unfold listReservations, wrap_err, mbind, M_bind, mret, M_ret. rewrite Hlist.
  fold (tags_of svc). by rewrite no_reservation.
Qed.

(** The calls of a successful deletion. *)
Lemma EnsureLoadBalancerDeleted_run svc w u w' :
  isServiceManaged (Some svc) = true →
  EnsureLoadBalancerDeleted l svc w = (Ok u, w') →
  match ipReservationByAllTags (tags_of svc) (api_ips w) with
  | None => w' = w
  | Some ip =>
      ∃ i w1, implementor l = Some i ∧ IPAddresses_Remove (IP_ID ip) w = (Ok (), w1) ∧
        loadbalancers.RemoveService i (Service_Namespace svc) (Service_Name svc) (IP_Cidr ip) w1
          = (Ok u, w')
  end.
Proof.
  intros Hm. unfold EnsureLoadBalancerDeleted. rewrite Hm. simpl. fold (tags_of svc).
  unfold the_implementor. destruct (implementor l) as [i|] eqn:Hi; [|done]. intros Hrun.
  unfold listReservations in Hrun. inv_ok.
  pose proof (IPAddresses_List_keeps _ _ _ _ Hrun1) as ->.
  apply IPAddresses_List_Ok in Hrun1 as ->.
  destruct (ipReservationByAllTags (tags_of svc) (api_ips _)) as [ip|]; inv_ok; [|done].
  destruct a0. by eexists _, _.
Qed.

(** A successful deletion of a managed service either found no
    reservation and did nothing, or removed the first reservation with the
    tags and then told the implementation to remove the service at that
    address. *)
Theorem EnsureLoadBalancerDeleted_spec `{!KeepsReservations l} svc w u w' :
  isServiceManaged (Some svc) = true →
  EnsureLoadBalancerDeleted l svc w = (Ok u, w') →
  match ipReservationByAllTags (tags_of svc) (api_ips w) with
  | None => w' = w
  | Some ip =>
      api_ips w' = filter (λ ip', IP_ID ip' ≠ IP_ID ip) (api_ips w) ∧
      ∃ i w1, implementor l = Some i ∧
        loadbalancers.RemoveService i (Service_Namespace svc) (Service_Name svc) (IP_Cidr ip) w1
          = (Ok u, w')
  end.
Proof.
  intros Hm Hrun%EnsureLoadBalancerDeleted_run; [|done].
  destruct (ipReservationByAllTags _ _) as [ip|]; [|done]. destruct Hrun as (i & w1 & Hi & Hrm & Hrun).
  split; [|by eexists _, _]. apply IPAddresses_Remove_Ok in Hrm as <-.
  by eapply (keeps_impl_Remove (l := l)).
Qed.

(** C10: When the implementation fails to remove the service, the deletion
    reports it, but the reservation is already gone: the retry finds none,
    reports success and never asks the implementation again. *)
Theorem EnsureLoadBalancerDeleted_retry `{!KeepsReservations l} svc i ip w w1 e w2 :
  isServiceManaged (Some svc) = true → implementor l = Some i →
  IPAddresses_List (project l) w = (Ok (api_ips w), w) →
  ipReservationByAllTags (tags_of svc) (api_ips w) = Some ip →
  Forall (λ ip', carries (tags_of svc) ip' → IP_ID ip' = IP_ID ip) (api_ips w) →
  IPAddresses_Remove (IP_ID ip) w = (Ok (), w1) →
  loadbalancers.RemoveService i (Service_Namespace svc) (Service_Name svc) (IP_Cidr ip) w1 = (Err e, w2) →
  IPAddresses_List (project l) w2 = (Ok (api_ips w2), w2) →
  EnsureLoadBalancerDeleted l svc w =
    (Err (Errorw "error removing IP from configmap for %s: %w" [serviceRep (Some svc)] e), w2) ∧
  EnsureLoadBalancerDeleted l svc w2 = (Ok (), w2).
Proof.
  intros Hm Hi Hlist Hip Honly Hrm Hfail Hlist2. split.
  - unfold EnsureLoadBalancerDeleted. rewrite Hm. unfold the_implementor. rewrite Hi. simpl.
    unfold listReservations, wrap_err, mbind, M_bind, mret, M_ret. rewrite Hlist.
    fold (tags_of svc). by rewrite Hip, Hrm, Hfail.
  - unfold EnsureLoadBalancerDeleted. rewrite Hm. unfold the_implementor. rewrite Hi. simpl.
    unfold listReservations, wrap_err, mbind, M_bind, mret, M_ret. rewrite Hlist2.
    fold (tags_of svc). rewrite no_reservation; [done|].
    rewrite (keeps_impl_Remove (l := l) _ _ _ _ Hi _ _ _ Hfail).
    apply IPAddresses_Remove_Ok in Hrm as ->. apply Forall_forall.
    intros x [Hne Hx]%list_elem_of_filter Hc. rewrite Forall_forall in Honly. by apply Hne, Honly.
Qed.

(** What a successful [addService] did. *)
Lemma requestReservation_Ok svc w ip w' :
  requestReservation l svc w = (Ok ip, w') →
  carries (tags_of svc) ip ∧ api_ips w' = api_ips w ++ [ip].
Proof.
  unfold requestReservation. intros Hrun. inv_ok.
  assert (api_ips w0 = api_ips w) as Hw.
  { revert Hrun0. unfold requestRegion. repeat case_decide; intros [= _ <-]; done. }
  apply IPAddresses_Create_Ok in Hrun as [Htags ->]. rewrite Hw. split; [|done].
  exists (tags_of svc). by rewrite Htags.
Qed.

Lemma addService_Ok `{!KeepsReservations l} svc nodes w cidr w' :
  addService l svc (api_ips w) nodes w = (Ok cidr, w') →
  ∃ i, implementor l = Some i ∧
    (∃ n w1 w2, add_nodes_loop l nodes w1 = (Ok n, w2) ∧
       loadbalancers.AddService i (Service_Namespace svc) (Service_Name svc) cidr n w2 = (Ok (), w')) ∧
    match ipReservationByAllTags (tags_of svc) (api_ips w') with
    | Some ip => cidr = IP_Cidr ip
    | None => ∃ svcIP, loadbalancers.ServiceIP i (Some svc) = (svcIP, true) ∧ cidr = svcIP +:+ "/32"
    end.
Proof.
  unfold addService, the_implementor. destruct (implementor l) as [i|] eqn:Hi; [|done].
  intros Hrun. apply bind_Ok in Hrun as (i' & w0 & [-> ->]%ret_Ok & Hrun).
  exists i'. split; [done|]. destruct (loadbalancers.ServiceIP i' (Some svc)) as [svcIP hasIP] eqn:Hip.
  apply bind_Ok in Hrun as ([svcIP' found] & w1 & Hres & Hrun). inv_ok.
  fold (tags_of svc) in Hres. destruct a0.
  assert (api_ips w' = api_ips w1) as Hkeep.
  { rewrite (keeps_impl_Add (l := l) _ _ _ _ _ Hi _ _ _ Hrun1).
    exact (keeps_add_nodes_loop l _ _ _ _ Hrun0). }
  split; [by eexists _, _, _|]. rewrite Hkeep. destruct hasIP.
  - inv_ok. match goal with Heq : _ = (_, _) |- _ => injection Heq as <- <- end.
    destruct (ipReservationByAllTags _ _); [done|]. by exists svcIP.
  - inv_ok. match goal with Heq : _ = (_, _) |- _ => injection Heq as <- <- end.
    match goal with Has : assignIP _ _ _ _ = _ |- _ =>
      rewrite (keeps_assignIP l _ _ _ _ _ _ Has) end.
    destruct (ipReservationByAllTags (tags_of svc) (api_ips _)) as [r|] eqn:Hfound; inv_ok.
    + by rewrite Hfound.
    + match goal with Hreq : requestReservation _ _ _ = _ |- _ =>
        apply requestReservation_Ok in Hreq as [Hc ->] end.
      apply ipReservation_None in Hfound. by rewrite new_reservation.
Qed.

Lemma EnsureLoadBalancer_run svc nodes w st w' :
  EnsureLoadBalancer l svc nodes w = (Ok st, w') →
  isServiceManaged (Some svc) = true ∧
  ∃ nodes' cidr ip rest, filterNodes nodes (nodeSelector l) = Ok nodes' ∧
    addService l svc (api_ips w) nodes' w = (Ok cidr, w') ∧
    SplitN2 cidr "/" = ip :: rest ∧ st = {| Ingress := [ip] |}.
Proof.
  unfold EnsureLoadBalancer. destruct (isServiceManaged (Some svc)) eqn:Hm; [|done]. simpl.
  unfold listReservations. intros Hrun. inv_ok.
  pose proof (IPAddresses_List_keeps _ _ _ _ Hrun0) as ->.
  apply IPAddresses_List_Ok in Hrun0 as ->. split; [done|].
  unfold lift_res in Hrun1. injection Hrun1 as Hf ->.
  destruct (SplitN2 a1 "/") as [|ip rest] eqn:Hs; [done|]. inv_ok. by exists a0, a1, ip, rest.
Qed.

(** After EnsureLoadBalancer succeeded for a service without an address
    of its own, GetLoadBalancer finds the balancer; the address it reports
    is the whole CIDR of the reservation, of which EnsureLoadBalancer
    reported the part before the slash. *)
Theorem EnsureLoadBalancer_then_Get `{!KeepsReservations l} svc nodes w st w' i svcIP :
  implementor l = Some i → loadbalancers.ServiceIP i (Some svc) = (svcIP, false) →
  EnsureLoadBalancer l svc nodes w = (Ok st, w') →
  IPAddresses_List (project l) w' = (Ok (api_ips w'), w') →
  ∃ cidr ip rest, GetLoadBalancer l svc w' = (Ok (Some {| Ingress := [cidr] |}, true), w') ∧
    SplitN2 cidr "/" = ip :: rest ∧ st = {| Ingress := [ip] |}.
Proof.
  intros Hi Hip (Hm & nodes' & cidr & ip & rest & _ & Hadd & Hs & ->)%EnsureLoadBalancer_run Hlist.
  apply addService_Ok in Hadd as (i' & Hi' & _ & Hres). assert (i' = i) as -> by congruence.
  destruct (ipReservationByAllTags (tags_of svc) (api_ips w')) as [r|] eqn:Hfound.
  2:{ destruct Hres as (? & Hip' & _). congruence. }
  subst cidr. exists (IP_Cidr r), ip, rest. split; [|done].
  unfold GetLoadBalancer. rewrite Hm. unfold the_implementor. rewrite Hi. simpl.
  unfold listReservations, wrap_err, mbind, M_bind, mret, M_ret. rewrite Hlist.
  fold (tags_of svc). by rewrite Hfound.
Qed.

Lemma filterNodes_Ok nodes sel nodes' :
  filterNodes nodes sel = Ok nodes' →
  nodes' `sublist_of` nodes ∧ (nodes ≠ [] → is_Some sel) ∧
  Forall (λ node, ∀ matches, sel = Some matches → matches (default ∅ (Node_Labels node)) = true) nodes'.
Proof.
  revert nodes'. induction nodes as [|node nodes IH]; intros nodes'; simpl.
  { intros [= <-]. by split_and!; [constructor| |constructor]. }
  destruct sel as [matches|]; [|done].
  destruct (filterNodes nodes (Some matches)) as [rest|e|] eqn:E; [|done..].
  destruct (IH rest eq_refl) as (Hsub & _ & Hall).
  intros [= <-]. destruct (matches _) eqn:Hmt; split_and!; try done.
  - by apply sublist_skip.
  - constructor; [|done]. by intros ? [= <-].
  - by apply sublist_cons.
Qed.

(** A node that was passed on. *)
Definition collected (node : Node) (ln : loadbalancers.Node) : Prop :=
  Node_ProviderID node ≠ "" ∧
  ∃ cfg w2 w3, bgpEnabler l (Node_ProviderID node) w2 = (Ok cfg, w3) ∧ ln = lb_node node cfg.

Lemma try_Ok {A} (c : M W A) w x w' : try c w = (Ok (inr x), w') → c w = (Ok x, w').
Proof. unfold try. destruct (c w) as [[]]; naive_solver. Qed.

Lemma add_nodes_loop_Ok nodes w n w' :
  add_nodes_loop l nodes w = (Ok n, w') →
  ∃ kept, kept `sublist_of` nodes ∧ Forall2 collected kept n.
Proof.
  revert w n. induction nodes as [|node nodes IH]; intros w n; cbn [add_nodes_loop]; intros Hrun.
  { inv_ok. by exists []. }
  assert (∀ w, add_nodes_loop l nodes w = (Ok n, w') →
    ∃ kept, kept `sublist_of` node :: nodes ∧ Forall2 collected kept n) as Hskip.
  { intros w0 (kept & Hsub & Hall)%IH. exists kept. split; [by apply sublist_cons|done]. }
  case_decide as Hid; [by apply Hskip in Hrun|]. inv_ok.
  destruct a as [e|cfg]; [by apply Hskip in Hrun|]. inv_ok.
  destruct a as [e|u]; [by apply Hskip in Hrun|]. inv_ok.
  match goal with Hl : add_nodes_loop _ _ _ = _ |- _ => apply IH in Hl as (kept & Hsub & Hall) end.
  exists (node :: kept). split; [by apply sublist_skip|]. constructor; [|done].
  split; [done|]. apply try_Ok in Hrun0. by eexists _, _, _.
Qed.

(** The nodes the implementation is told about are, in order, some of
    those the selector keeps: each has a provider ID, and BGP was enabled
    for it with the information that is passed on. *)
Theorem EnsureLoadBalancer_nodes `{!KeepsReservations l} svc nodes w st w' :
  EnsureLoadBalancer l svc nodes w = (Ok st, w') →
  ∃ i kept cidr n w1, implementor l = Some i ∧
    loadbalancers.AddService i (Service_Namespace svc) (Service_Name svc) cidr n w1 = (Ok (), w') ∧
    kept `sublist_of` nodes ∧ Forall2 collected kept n ∧
    Forall (λ node, ∀ matches, nodeSelector l = Some matches →
      matches (default ∅ (Node_Labels node)) = true) kept.
Proof.
  intros (_ & nodes' & cidr & ip & rest & Hf & Hadd & _ & _)%EnsureLoadBalancer_run.
  apply filterNodes_Ok in Hf as (Hsub & _ & Hall).
  apply addService_Ok in Hadd as (i & Hi & (n & w1 & w2 & Hloop & Hadd) & _).
  apply add_nodes_loop_Ok in Hloop as (kept & Hsub' & Hcol).
  exists i, kept, cidr, n, w2. split_and!; [done|done|by etransitivity|done|].
  apply Forall_forall. intros node Hnode. rewrite Forall_forall in Hall. apply Hall.
  by apply (elem_of_sublist _ _ _ Hnode).
Qed.

(** The annotation patterns are the default ones. *)
Definition default_patterns : Prop :=
  annotationLocalASN l = DefaultAnnotationNodeASN ∧ annotationPeerASN l = DefaultAnnotationPeerASN ∧
  annotationPeerIP l = DefaultAnnotationPeerIP ∧ annotationSrcIP l = DefaultAnnotationSrcIP ∧
  annotationMultiHop l = DefaultAnnotationMultiHop.

Definition peer_key (i : nat) (what : string) : string :=
  "cherryservers.com/bgp-peers-" +:+ Itoa (Z.of_nat i) +:+ "-" +:+ what.

Lemma peer_key_inj i what j what' : peer_key i what = peer_key j what' → i = j ∧ what = what'.
Proof.
  unfold peer_key. intros Heq.
  apply (f_equal (λ s, strip "cherryservers.com/bgp-peers-" s)) in Heq.
  rewrite !strip_app in Heq. injection Heq as Heq.
  assert (∀ n, no_char "-"%char (Itoa (Z.of_nat n))) as Hnd by apply Itoa_nat_no_dash.
  pose proof (Cut_first "-"%char "" _ what (Hnd i)) as H1'.
  pose proof (Cut_first "-"%char "" _ what' (Hnd j)) as H2'.
  rewrite Heq, H2' in H1'. injection H1' as Hij Hw. split; [|done].
  symmetry in Hij. apply Itoa_inj in Hij. lia.
Qed.

Definition peer_entry (localASN peerASN sourceIP : string) (p : BGPPeer) (what : string) : option string :=
  if decide (what = "node-asn") then Some localASN
  else if decide (what = "peer-asn") then Some peerASN
  else if decide (what = "peer-ip") then Some (BGPPeer_Address p)
  else if decide (what = "src-ip") then Some sourceIP
  else if decide (what = "peer-multi-hop") then Some "true"
  else None.

(** The five annotations of one peer. *)
Definition peer_entries (localASN peerASN sourceIP : string) (i : nat) (p : BGPPeer)
    (m : gmap string string) : gmap string string :=
  <[peer_key i "peer-multi-hop" := "true"]>
  (<[peer_key i "src-ip" := sourceIP]>
  (<[peer_key i "peer-ip" := BGPPeer_Address p]>
  (<[peer_key i "peer-asn" := peerASN]>
  (<[peer_key i "node-asn" := localASN]> m)))).

Lemma annotate_peers_cons la pa src i p peers m :
  default_patterns →
  annotate_peers l la pa src i (p :: peers) m =
    annotate_peers l la pa src (S i) peers (peer_entries la pa src i p m).
Proof. by intros (E1 & E2 & E3 & E4 & E5); cbn [annotate_peers]; rewrite E1, E2, E3, E4, E5. Qed.

Lemma peer_entries_same la pa src i p m what v :
  peer_entry la pa src p what = Some v → peer_entries la pa src i p m !! peer_key i what = Some v.
Proof.
  assert (∀ what1 what2, what1 ≠ what2 → peer_key i what1 ≠ peer_key i what2) as Hne.
  { intros what1 what2 Hw Heq. by apply peer_key_inj in Heq as [_ ?]. }
  unfold peer_entry, peer_entries. repeat (case_decide; [subst; intros [= <-]|]); [..|done];
    repeat (rewrite lookup_insert_eq || rewrite lookup_insert_ne by (by apply Hne)); done.
Qed.
Definition is_entry (what : string) : Prop :=
  what ∈ ["node-asn"; "peer-asn"; "peer-ip"; "src-ip"; "peer-multi-hop"].
Lemma peer_entries_other la pa src i p m k :
  (∀ what, is_entry what → k ≠ peer_key i what) → peer_entries la pa src i p m !! k = m !! k.
Proof.
  intros Hk. unfold peer_entries.
  rewrite !lookup_insert_ne; [done|..]; intros <-; eapply Hk; try done; unfold is_entry; set_solver.
Qed.

Lemma annotate_peers_lookup la pa src i peers m :
  default_patterns →
  (∀ j p what v, peers !! j = Some p → peer_entry la pa src p what = Some v →
     annotate_peers l la pa src i peers m !! peer_key (i + j) what = Some v) ∧
  (∀ k, (∀ j what, i ≤ j → is_entry what → k ≠ peer_key j what) →
     annotate_peers l la pa src i peers m !! k = m !! k).
Proof.
  intros Hd. revert i m. induction peers as [|p peers IH]; intros i m; [done|].
  rewrite annotate_peers_cons by done.
  destruct (IH (S i) (peer_entries la pa src i p m)) as [IH1 IH2]. split.
  - intros [|j] q what v Hq Hv; simpl in Hq.
    + injection Hq as <-. rewrite Nat.add_0_r, IH2; [by apply peer_entries_same|].
      intros j what' Hj _ Heq. apply peer_key_inj in Heq as [-> _]. lia.
    + replace (i + S j) with (S i + j) by lia. by eapply IH1.
  - intros k Hk. rewrite IH2 by (intros; apply Hk; [lia|done]).
    apply peer_entries_other. intros what Hw. by apply Hk.
Qed.

(** With the default patterns, a node that is annotated gets, for the
    peers of its server sorted by address and numbered from zero, both AS
    numbers, the address of the peer, its own address and the multi-hop
    flag; every other annotation it had is kept. *)
Theorem annotateNode_default node w u w' :
  default_patterns →
  annotateNode l node w = (Ok u, w') →
  ∃ cfg w1 a, bgpEnabler l (Node_ProviderID node) w = (Ok cfg, w1) ∧
    Nodes_PatchAnnotations (Node_Name node) a w1 = (Ok u, w') ∧
    (∀ i p, sort_peers (Info_Peers cfg) !! i = Some p →
       a !! peer_key i "node-asn" = Some (Itoa (Info_LocalASN cfg)) ∧
       a !! peer_key i "peer-asn" = Some (Itoa (Info_RemoteASN cfg)) ∧
       a !! peer_key i "peer-ip" = Some (BGPPeer_Address p) ∧
       a !! peer_key i "src-ip" = Some (Info_SourceIP cfg) ∧
       a !! peer_key i "peer-multi-hop" = Some "true") ∧
    (∀ k, (∀ i what, is_entry what → k ≠ peer_key i what) →
       a !! k = default ∅ (Node_Annotations node) !! k).
Proof.
  intros Hd. unfold annotateNode. intros Hrun. inv_ok.
  eexists a, w0, _. split; [done|]. split; [exact Hrun|].
  destruct (annotate_peers_lookup (Itoa (Info_LocalASN a)) (Itoa (Info_RemoteASN a))
    (Info_SourceIP a) 0 (sort_peers (Info_Peers a)) (default ∅ (Node_Annotations node)) Hd) as [H1' H2'].
  destruct (decide (length (Info_Peers a) = 0)) as [Hlen|Hlen].
  - split; [|done]. intros i p Hp%lookup_lt_Some. unfold sort_peers in Hp.
    rewrite sort_Sort_length in Hp. lia.
  - split; [|by intros k Hk; apply H2'; intros; apply Hk].
    intros i p Hp. split_and!; by eapply H1'.
Qed.
End properties.

(** ** Concrete runs *)

Local Existing Instance pdqsort_by_insertion.

(** A cluster of one node; its server has BGP. *)
Definition demo_cfg : NodeBGPInfo := {|
  Info_SourceIP := "5.199.0.1"; Info_LocalASN := 65000; Info_RemoteASN := 64512;
  Info_Peers := [{| BGPPeer_Address := "10.0.0.2"; BGPPeer_Port := 179 |};
                 {| BGPPeer_Address := "10.0.0.1"; BGPPeer_Port := 179 |}] |}.
Definition demo_lbs (rg : string) (i : loadbalancers.LB World) : loadBalancers World := {|
  project := 1; region := rg; clusterID := "uid"; implementor := Some i;
  implementorConfig := "kube-vip://"; annotationLocalASN := DefaultAnnotationNodeASN;
  annotationPeerASN := DefaultAnnotationPeerASN; annotationPeerIP := DefaultAnnotationPeerIP;
  annotationSrcIP := DefaultAnnotationSrcIP; annotationMultiHop := DefaultAnnotationMultiHop;
  fipRegionAnnotation := DefaultAnnotationFIPRegion; nodeSelector := Some labels_Everything;
  bgpEnabler := λ _, mret demo_cfg |}.
(** An implementation that cannot remove services. *)
Definition broken_impl : loadbalancers.LB World := {|
  loadbalancers.AddService := λ _ _ _ _, mret ();
  loadbalancers.RemoveService := λ _ _ _, raise (EExt "timeout");
  loadbalancers.UpdateService := λ _ _ _, mret ();
  loadbalancers.ServiceIP := kubevip.ServiceIP;
  loadbalancers.SetServiceIP := kubevip.SetServiceIP |}.

Lemma World_keeps rg i :
  (∀ ns n ip nodes, keeps (api_ips (W := World)) (loadbalancers.AddService i ns n ip nodes)) →
  (∀ ns n ip, keeps (api_ips (W := World)) (loadbalancers.RemoveService i ns n ip)) →
  (∀ ns n nodes, keeps (api_ips (W := World)) (loadbalancers.UpdateService i ns n nodes)) →
  KeepsReservations (demo_lbs rg i).
Proof.
  intros Hadd Hrm Hup. split; simpl.
  - intros id. solve_keeps.
  - intros n a w r w'. simpl. unfold online. destruct (w_down w); by intros [= _ <-].
  - intros ns n w r w'. simpl. unfold online. destruct (w_down w); [by intros [= _ <-]|].
    destruct (_ !! _); by intros [= _ <-].
  - intros ns s w r w'. simpl. unfold online. destruct (w_down w); by intros [= _ <-].
  - intros ? ns n ip nodes [= <-]. apply Hadd.
  - intros ? ns n ip [= <-]. apply Hrm.
  - intros ? ns n nodes [= <-]. apply Hup.
Qed.
Definition vip : loadbalancers.LB World := kubevip.NewLB "".
Lemma vip_keeps rg : KeepsReservations (demo_lbs rg vip).
Proof. apply World_keeps; intros; simpl; unfold kubevip.AddService, kubevip.RemoveService, kubevip.UpdateService; solve_keeps. Qed.
Lemma broken_keeps rg : KeepsReservations (demo_lbs rg broken_impl).
Proof. apply World_keeps; intros; simpl; solve_keeps. Qed.

Definition demo_service : Service := {|
  Service_Namespace := "default"; Service_Name := "web"; Service_Annotations := None;
  Service_LoadBalancerIP := ""; Service_Ports := [] |}.
Definition demo_n1 : Node := {|
  Node_Name := "n1"; Node_Labels := None; Node_Annotations := Some {[ "a" := "b" ]};
  Node_ProviderID := "cherryservers://7"; Node_Unschedulable := false; Node_Deleting := false;
  Node_Addresses := [] |}.
Definition lb_world : World :=
  set_kube {| k_uid := Some "uid"; k_nodes := [demo_n1];
              k_services := {[ ("default", "web") := demo_service ]}; k_health := ∅;
              k_applied := [] |} empty_world.
Definition lb_world1 : World :=
  final (EnsureLoadBalancer (demo_lbs "LT" vip) demo_service [demo_n1]) lb_world.

Lemma unmanaged_untouched_witness :
  let svc := set_Annotations (Some {[ AnnotationLoadBalancerManaged := "false" ]}) demo_service in
  serviceAnnotation (Some svc) AnnotationLoadBalancerManaged = "false" ∧
  EnsureLoadBalancer (demo_lbs "LT" vip) svc [demo_n1] lb_world = (Err ImplementedElsewhere, lb_world).
Proof.
  intros svc. assert (serviceAnnotation (Some svc) AnnotationLoadBalancerManaged = "false") as Ha
    by reflexivity.
  split; [exact Ha|].
  exact (proj1 (proj2 (unmanaged_untouched (demo_lbs "LT" vip) svc [demo_n1] lb_world Ha))).
Defined.

Lemma EnsureLoadBalancer_one_reservation_witness :
  api_ips lb_world1 = api_ips lb_world ∨
  Forall (λ ip, ¬ carries (tags_of (demo_lbs "LT" vip) demo_service) ip) (api_ips lb_world) ∧
  ∃ ip, api_ips lb_world1 = api_ips lb_world ++ [ip] ∧
    carries (tags_of (demo_lbs "LT" vip) demo_service) ip.
Proof.
  pose proof (vip_keeps "LT") as Hk.
  refine (EnsureLoadBalancer_one_reservation (demo_lbs "LT" vip) demo_service [demo_n1] lb_world
    (Ok {| Ingress := ["203.0.113.1"] |}) lb_world1 _).
  vm_refl.
Defined.

Lemma EnsureLoadBalancer_no_region_witness :
  ∃ e, EnsureLoadBalancer (demo_lbs "" vip) demo_service [demo_n1] lb_world = (Err e, lb_world).
Proof.
  refine (EnsureLoadBalancer_no_region (demo_lbs "" vip) demo_service [demo_n1] [demo_n1] vip lb_world
    _ _ _ _ _ _ _ _); [vm_refl..|constructor|vm_refl].
Defined.

(** The annotation wins over the configured region. *)
Definition regional_service : Service :=
  set_Annotations (Some {[ DefaultAnnotationFIPRegion := "NL" ]}) demo_service.
Lemma requestReservation_region_witness :
  requestReservation (demo_lbs "LT" vip) regional_service lb_world =
    wrap_err (Errorw "failed to request an IP for the load balancer: %w" [])
      (IPAddresses_Create 1 {| CreateIP_Region := "NL";
         CreateIP_Tags := Some (tags_of (demo_lbs "LT" vip) regional_service) |}) lb_world.
Proof.
  pose proof (requestReservation_region (demo_lbs "LT" vip) regional_service lb_world) as Hr.
  apply Hr. vm_compute. discriminate.
Defined.

(** A service that brought its own address: MetalLB was told of it. *)
Lemma EnsureLoadBalancerDeleted_own_address_witness :
  EnsureLoadBalancerDeleted (demo_lbs "LT" broken_impl) demo_service lb_world = (Ok (), lb_world).
Proof.
  refine (EnsureLoadBalancerDeleted_own_address (demo_lbs "LT" broken_impl) demo_service broken_impl
    lb_world _ _ _); [reflexivity|vm_refl|constructor].
Defined.

Definition broken_ip : IPAddress := {|
  IP_ID := "ip-1"; IP_Address := "203.0.113.1"; IP_Cidr := "203.0.113.1/32"; IP_Type := "floating-ip";
  IP_Tags := Some (tags_of (demo_lbs "LT" broken_impl) demo_service); IP_TargetedTo_ID := 0 |}.
Lemma EnsureLoadBalancerDeleted_spec_witness :
  api_ips (final (EnsureLoadBalancerDeleted (demo_lbs "LT" vip) demo_service) lb_world1) = [] ∧
  length (api_ips lb_world1) = 1.
Proof.
  split; [|vm_refl]. pose proof (vip_keeps "LT") as Hk.
  assert (EnsureLoadBalancerDeleted (demo_lbs "LT" vip) demo_service lb_world1 =
    (Ok (), final (EnsureLoadBalancerDeleted (demo_lbs "LT" vip) demo_service) lb_world1)) as Hrun
    by (vm_refl).
  assert (isServiceManaged (Some demo_service) = true) as Hm by (vm_refl).
  pose proof (EnsureLoadBalancerDeleted_spec (demo_lbs "LT" vip) demo_service lb_world1 () _ Hm Hrun) as Hs.
  assert (ipReservationByAllTags (tags_of (demo_lbs "LT" vip) demo_service) (api_ips lb_world1) =
    Some (default broken_ip (head (api_ips lb_world1)))) as E by vm_refl.
  rewrite E in Hs. rewrite (proj1 Hs). vm_refl.
Defined.

Definition broken_world : World :=
  final (EnsureLoadBalancer (demo_lbs "LT" broken_impl) demo_service [demo_n1]) lb_world.
Definition broken_world1 : World := final (IPAddresses_Remove "ip-1") broken_world.
Lemma broken_ips : api_ips broken_world = [broken_ip].
Proof. vm_refl. Qed.
Lemma EnsureLoadBalancerDeleted_retry_witness :
  EnsureLoadBalancerDeleted (demo_lbs "LT" broken_impl) demo_service broken_world =
    (Err (Errorw "error removing IP from configmap for %s: %w" ["default/web"] (EExt "timeout")),
     broken_world1) ∧
  EnsureLoadBalancerDeleted (demo_lbs "LT" broken_impl) demo_service broken_world1 = (Ok (), broken_world1).
Proof.
  pose proof (broken_keeps "LT") as Hk.
  refine (EnsureLoadBalancerDeleted_retry (demo_lbs "LT" broken_impl) demo_service broken_impl broken_ip
    broken_world broken_world1 (EExt "timeout") broken_world1 _ _ _ _ _ _ _ _).
  5:{ rewrite broken_ips. repeat constructor. }
  all: vm_refl.
Defined.

Lemma EnsureLoadBalancer_then_Get_witness :
  ∃ cidr ip rest, GetLoadBalancer (demo_lbs "LT" vip) demo_service lb_world1 =
      (Ok (Some {| Ingress := [cidr] |}, true), lb_world1) ∧
    SplitN2 cidr "/" = ip :: rest ∧ {| Ingress := ["203.0.113.1"] |} = {| Ingress := [ip] |}.
Proof.
  pose proof (vip_keeps "LT") as Hk.
  refine (EnsureLoadBalancer_then_Get (demo_lbs "LT" vip) demo_service [demo_n1] lb_world
    {| Ingress := ["203.0.113.1"] |} lb_world1 vip "" _ _ _ _); vm_refl.
Defined.

Lemma EnsureLoadBalancer_nodes_witness :
  ∃ i kept cidr n w1, implementor (demo_lbs "LT" vip) = Some i ∧
    loadbalancers.AddService i "default" "web" cidr n w1 = (Ok (), lb_world1) ∧
    kept `sublist_of` [demo_n1] ∧ Forall2 (collected (demo_lbs "LT" vip)) kept n ∧
    Forall (λ node, ∀ matches, nodeSelector (demo_lbs "LT" vip) = Some matches →
      matches (default ∅ (Node_Labels node)) = true) kept.
Proof.
  pose proof (vip_keeps "LT") as Hk.
  refine (EnsureLoadBalancer_nodes (demo_lbs "LT" vip) demo_service [demo_n1] lb_world
    {| Ingress := ["203.0.113.1"] |} lb_world1 _). vm_refl.
Defined.

Lemma annotateNode_default_witness :
  ∃ cfg w1 (a : gmap string string), bgpEnabler (demo_lbs "LT" vip) "cherryservers://7" lb_world = (Ok cfg, w1) ∧
    a !! peer_key 0 "peer-ip" = Some "10.0.0.1" ∧ a !! "a" = Some "b".
Proof.
  assert (annotateNode (demo_lbs "LT" vip) demo_n1 lb_world =
    (Ok (), final (annotateNode (demo_lbs "LT" vip) demo_n1) lb_world)) as Hrun by (vm_refl).
  assert (default_patterns (demo_lbs "LT" vip)) as Hd by (split_and!; reflexivity).
  destruct (annotateNode_default (demo_lbs "LT" vip) demo_n1 lb_world () _ Hd Hrun)
    as (cfg & w1 & a & Hcfg & _ & Hin & Hout).
  exists cfg, w1, a. split; [exact Hcfg|]. injection Hcfg as <- _. split.
  - refine (proj1 (proj2 (proj2 (Hin 0 {| BGPPeer_Address := "10.0.0.1"; BGPPeer_Port := 179 |} _)))).
    vm_refl.
  - rewrite Hout; [vm_refl|]. intros i what _ Heq. discriminate Heq.
Defined.
