(* ===== verification/System.v ===== *)
(** * The life of a service, end to end

    The load balancer controller of [cherry/loadbalancers.go] over the
    MetalLB implementation of [cherry/loadbalancers/metallb/metallb.go]: what
    [EnsureLoadBalancer] and [EnsureLoadBalancerDeleted] leave in the project
    (the reservations) and in the cluster (the pools and the records), taken
    together. The configurer is any one that keeps its promises; the custom
    resource one does. *)

From S2P Require Import Prelude Constants GoStrings GoSort GoSlices Api World Reservations LoadBalancer Bgp MetalLBTypes MetalLBPeers ServiceSelectors CrdStore Crd CrdPeers CrdPools MetalLB LoadBalancers LoadBalancerProps.

(** ** What the composition relies on *)

(** What the configurer reads and writes is a [view] of the world that the
    calls on reservations, nodes and services do not touch. *)
Class KeepsConfig {W B : Type} `{CherryClient W, KubeClient W} (l : loadBalancers W)
    (c : Configurer W) `{!ConfigurerLaws c} (view : W → B) : Prop := {
  view_inv : ∀ w w', view w' = view w → cfg_inv w → cfg_inv w';
  view_pool : ∀ w w', view w' = view w → ∀ p, cfg_pool w' p ↔ cfg_pool w p;
  view_records : ∀ w w', view w' = view w → ∀ r, cfg_records w' r ↔ cfg_records w r;
  view_Create : ∀ p req, keeps view (IPAddresses_Create p req);
  view_Remove : ∀ id, keeps view (IPAddresses_Remove id);
  view_bgp : ∀ id, keeps view (bgpEnabler l id);
  view_Patch : ∀ n a, keeps view (Nodes_PatchAnnotations (W := W) n a);
  view_Get : ∀ ns n, keeps view (Services_Get (W := W) ns n);
  view_Update : ∀ ns s, keeps view (Services_Update (W := W) ns s)
}.

(** The service as the configurer names it. *)
Definition resource_of (svc : Service) : Resource :=
  {| Res_Namespace := Service_Namespace svc; Res_Name := Service_Name svc |}.
(** The same service, at another time. *)
Definition same_service (svc svc' : Service) : Prop := resource_of svc' = resource_of svc.

Lemma same_service_tags {W} (l : loadBalancers W) svc svc' :
  same_service svc svc' → tags_of l svc' = tags_of l svc.
Proof.
  intros [= Hns Hname]. unfold tags_of, reservationTags, serviceTag, serviceRep.
  by rewrite Hns, Hname.
Qed.

(** ** Lemmas *)

Section frame.
Context {W B : Type} `{PdqSort, CherryClient W, KubeClient W} (l : loadBalancers W)
  (c : Configurer W) `{!ConfigurerLaws c} (view : W → B) `{!KeepsConfig l c view}.

#[local] Instance view_StaysNodes : StaysNodes (unchanged view) l.
Proof. destruct KeepsConfig0. by split. Qed.

Lemma view_add_nodes_loop nodes : keeps view (add_nodes_loop l nodes).
Proof. exact (stays_add_nodes_loop (unchanged view) l nodes). Qed.
Lemma view_assignIP i svc ip : keeps view (assignIP i svc ip).
Proof. exact (stays_assignIP (unchanged view) l i svc ip). Qed.
Lemma view_requestReservation svc : keeps view (requestReservation l svc).
Proof.
  pose proof (view_Create (l := l) (c := c)). unfold requestReservation, requestRegion. solve_keeps.
Qed.
Local Hint Resolve view_add_nodes_loop view_assignIP view_requestReservation : keeps.

(** The configuration is as it was when the implementation is called. *)
Lemma addService_view svc ips nodes i w cidr w' :
  implementor l = Some i → addService l svc ips nodes w = (Ok cidr, w') →
  ∃ n wm, view wm = view w ∧
    loadbalancers.AddService i (Service_Namespace svc) (Service_Name svc) cidr n wm = (Ok (), w').
Proof.
  intros Hi Hrun. unfold addService, the_implementor in Hrun. rewrite Hi in Hrun.
  apply bind_Ok in Hrun as (i' & w0 & [-> ->]%ret_Ok & Hrun).
  destruct (loadbalancers.ServiceIP i' (Some svc)) as [svcIP hasIP].
  apply bind_Ok in Hrun as ([svcIP' found] & w1 & Hres & Hrun).
  assert (view w1 = view w0) as Hview.
  { revert Hres. match goal with |- ?c _ = _ → _ => assert (keeps view c) as Hk by solve_keeps end.
    apply Hk. }
  inv_ok. destruct a0. eexists _, _. split; [|done].
  by rewrite (view_add_nodes_loop _ _ _ _ Hrun0).
Qed.
End frame.

(** The reservation a service is served at. *)
Section reservations.
Context {W : Type} `{PdqSort, CherryClient W, KubeClient W, !ReservationLaws W}
  (l : loadBalancers W) `{!KeepsReservations l}.

Lemma ensured_moves svc nodes w st w' :
  EnsureLoadBalancer l svc nodes w = (Ok st, w') → one_more (tags_of l svc) (api_ips w) (api_ips w').
Proof. by apply EnsureLoadBalancer_moves. Qed.

(** The address that is reported is that of the first reservation of the
    service, when it has one. *)
Lemma ensured_status svc nodes w st w' ip :
  EnsureLoadBalancer l svc nodes w = (Ok st, w') →
  ipReservationByAllTags (tags_of l svc) (api_ips w') = Some ip →
  ∃ addr rest, SplitN2 (IP_Cidr ip) "/" = addr :: rest ∧ st = {| Ingress := [addr] |}.
Proof.
  intros (_ & nodes' & cidr & addr & rest & _ & Hadd & Hs & ->)%(EnsureLoadBalancer_run l) Hip.
  apply addService_Ok in Hadd as (i & _ & _ & Hres); [|done]. rewrite Hip in Hres. subst cidr. eauto.
Qed.

(** A service without an address of its own has a reservation afterwards. *)
Lemma ensured_reserved svc nodes w st w' i svcIP :
  implementor l = Some i → loadbalancers.ServiceIP i (Some svc) = (svcIP, false) →
  EnsureLoadBalancer l svc nodes w = (Ok st, w') →
  ∃ ip, ipReservationByAllTags (tags_of l svc) (api_ips w') = Some ip.
Proof.
  intros Hi Hown (_ & nodes' & cidr & addr & rest & _ & Hadd & _ & _)%(EnsureLoadBalancer_run l).
  apply addService_Ok in Hadd as (i' & Hi' & _ & Hres); [|done].
  destruct (ipReservationByAllTags _ _) as [ip|]; [by exists ip|].
  destruct Hres as (? & Hip & _). congruence.
Qed.

(** C32: reconciling a service again changes no reservation and reports the
    same address: once EnsureLoadBalancer succeeded for a service that
    brought no address, every later success for it, with whatever nodes and
    with the address now written on the service or not, finds the
    reservation and gives the same answer, as long as the reservations of
    the project stay what they were. *)
Theorem EnsureLoadBalancer_again svc svc' nodes nodes' w st w1 w1' st' w2 i svcIP :
  implementor l = Some i → loadbalancers.ServiceIP i (Some svc) = (svcIP, false) →
  same_service svc svc' →
  EnsureLoadBalancer l svc nodes w = (Ok st, w1) →
  api_ips w1' = api_ips w1 →
  EnsureLoadBalancer l svc' nodes' w1' = (Ok st', w2) →
  api_ips w2 = api_ips w1 ∧ st' = st.
Proof.
  intros Hi Hown Hsame H1' Heq H2'. destruct (ensured_reserved _ _ _ _ _ _ _ Hi Hown H1') as [ip Hip].
  pose proof (same_service_tags l _ _ Hsame) as Htags.
  assert (api_ips w2 = api_ips w1) as Hips.
  { destruct (ensured_moves _ _ _ _ _ H2') as [->|[Hnone _]]; [done|].
    rewrite Heq, Htags in Hnone. apply no_reservation in Hnone. congruence. }
  split; [done|].
  destruct (ensured_status _ _ _ _ _ _ H1' Hip) as (a1 & r1 & Hs1 & ->).
  destruct (ensured_status _ _ _ _ _ ip H2') as (a2 & r2 & Hs2 & ->); [by rewrite Htags, Hips|].
  congruence.
Qed.
End reservations.

(** ** From the first reconciliation to the deletion *)

Section lifecycle.
Context {W B : Type} `{PdqSort, CherryClient W, KubeClient W, !ReservationLaws W}
  (l : loadBalancers W) `{!KeepsReservations l}
  (lb : LB W) `{!ConfigurerLaws (configurer lb)} (view : W → B) `{!KeepsConfig l (configurer lb) view}.

Lemma ensured_configuration svc nodes w st w' :
  implementor l = Some (MetalLB.impl lb) → valid_service (resource_of svc) →
  (∀ ns, Forall serviceless (peersFromNodes lb ns)) → cfg_inv w →
  EnsureLoadBalancer l svc nodes w = (Ok st, w') →
  cfg_inv w' ∧ (∀ p, cfg_pool w p → cfg_pool w' p) ∧
  (∀ p, cfg_pool w' p → cfg_pool w p ∨ p = poolName (Service_Namespace svc) (Service_Name svc)) ∧
  (∀ r, cfg_records w' r → cfg_records w r ∨ r = resource_of svc).
Proof.
  intros Hi Hv Hs Hinv (_ & nodes' & cidr & addr & rest & _ & Hadd & _ & _)%(EnsureLoadBalancer_run l).
  destruct (addService_view l (configurer lb) view _ _ _ _ _ _ _ Hi Hadd) as (n & wm & Hview & Hrun).
  apply (AddService_Ok lb (resource_of svc)) in Hrun as (Hi' & Hp & Hp' & Hr); [|done..|by eapply view_inv].
  split_and!; [done| | |].
  - intros p Hpw. apply Hp. by apply (view_pool _ _ Hview).
  - intros p [Hpw| ->]%Hp'; [left; by apply (view_pool _ _ Hview)|by right].
  - intros r [Hrw| ->]%Hr; [left; by apply (view_records _ _ Hview)|by right].
Qed.

(** The deletion takes the reservation away and tells the implementation. *)
Lemma deleted_configuration svc w u w' ip :
  implementor l = Some (MetalLB.impl lb) → valid_service (resource_of svc) →
  isServiceManaged (Some svc) = true → cfg_inv w →
  ipReservationByAllTags (tags_of l svc) (api_ips w) = Some ip →
  EnsureLoadBalancerDeleted l svc w = (Ok u, w') →
  api_ips w' = filter (λ ip', IP_ID ip' ≠ IP_ID ip) (api_ips w) ∧ cfg_inv w' ∧
  (∀ p, cfg_pool w' p ↔ p ≠ poolName (Service_Namespace svc) (Service_Name svc) ∧ cfg_pool w p) ∧
  (∀ r, cfg_records w' r ↔ r ≠ resource_of svc ∧ cfg_records w r).
Proof.
  intros Hi Hv Hm Hinv Hip Hrun%(EnsureLoadBalancerDeleted_run l); [|done]. rewrite Hip in Hrun.
  destruct Hrun as (i & w1 & Hi' & Hrm & Hrun). assert (i = MetalLB.impl lb) as -> by congruence.
  pose proof (view_Remove (l := l) (c := configurer lb) _ _ _ _ Hrm) as Hview.
  apply IPAddresses_Remove_Ok in Hrm. rewrite <-Hrm.
  split; [by eapply (keeps_impl_Remove (l := l))|].
  apply (RemoveService_Ok lb (resource_of svc)) in Hrun as (Hinv' & Hp & Hr);
    [|done|by eapply (view_inv (l := l))].
  split_and!; [done| |].
  - intros p. rewrite Hp. by rewrite (view_pool (l := l) _ _ Hview).
  - intros r. rewrite Hr. by rewrite (view_records (l := l) _ _ Hview).
Qed.

Lemma filter_snoc_fresh (ips : list IPAddress) ip :
  NoDup (IP_ID <$> ips ++ [ip]) → filter (λ ip', IP_ID ip' ≠ IP_ID ip) (ips ++ [ip]) = ips.
Proof.
  induction ips as [|x ips IH]; simpl app; [intros _; by rewrite filter_cons_False by naive_solver|].
  rewrite fmap_cons, NoDup_cons. intros [Hx Hnd]. rewrite filter_cons_True; [by rewrite IH|].
  intros Heq. apply Hx. rewrite Heq, fmap_app. apply elem_of_app. right. apply list_elem_of_here.
Qed.

(** C3: a service without an address of its own, served for the first time
    and then deleted, leaves nothing behind and nothing else is lost: the
    reservations of the project are the ones there were, the pools are those
    there were but for the one named after the service, and the peers record
    no service they did not record before, and this one no more. *)
Theorem service_lifecycle svc svc' nodes w st w1 u w2 svcIP :
  implementor l = Some (MetalLB.impl lb) → valid_service (resource_of svc) →
  (∀ ns, Forall serviceless (peersFromNodes lb ns)) →
  same_service svc svc' → isServiceManaged (Some svc') = true →
  metallb_ip.ServiceIP (Some svc) = (svcIP, false) →
  cfg_inv w → Forall (λ ip, ¬ carries (tags_of l svc) ip) (api_ips w) →
  EnsureLoadBalancer l svc nodes w = (Ok st, w1) → NoDup (IP_ID <$> api_ips w1) →
  EnsureLoadBalancerDeleted l svc' w1 = (Ok u, w2) →
  api_ips w2 = api_ips w ∧ cfg_inv w2 ∧
  (∀ p, cfg_pool w2 p ↔ p ≠ poolName (Service_Namespace svc) (Service_Name svc) ∧ cfg_pool w p) ∧
  (∀ r, cfg_records w2 r → r ≠ resource_of svc ∧ cfg_records w r).
Proof.
  intros Hi Hv Hs Hsame Hm Hown Hinv Hnone Hrun1 Hids Hrun2.
  destruct (ensured_configuration _ _ _ _ _ Hi Hv Hs Hinv Hrun1) as (Hinv1 & Hp1 & Hp1' & Hr1).
  destruct (ensured_reserved l _ _ _ _ _ _ _ Hi Hown Hrun1) as [ip Hip].
  pose proof (ensured_moves l _ _ _ _ _ Hrun1) as Hmoves.
  pose proof Hsame as Hres. injection Hres as Hns Hname.
  rewrite <-(same_service_tags l _ _ Hsame) in Hip.
  apply (deleted_configuration svc' w1 u w2 ip) in Hrun2 as (Hips & Hinv2 & Hp2 & Hr2);
    [|done|by rewrite Hsame|done..].
  rewrite (same_service_tags l _ _ Hsame) in Hip. split_and!; [|done| |].
  - destruct Hmoves as [Heq|(_ & ip' & Heq & Hc)].
    + rewrite Heq, no_reservation in Hip by done. done.
    + rewrite Heq, new_reservation in Hip by done. injection Hip as ->.
      rewrite Hips, Heq. apply filter_snoc_fresh. by rewrite <-Heq.
  - intros p. rewrite Hp2, Hns, Hname. naive_solver.
  - intros r [Hne Hr]%Hr2. rewrite Hsame in Hne. split; [done|].
    apply Hr1 in Hr as [?|?]; [done|congruence].
Qed.
End lifecycle.

(** What every call on custom resources respects, the load balancer on
    custom resources respects. *)
Section crd_frame.
Context {W : Type} (R : relation W) `{!PreOrder R, PdqSort, GoRange, ExpSlices, CrdClient W metalapi.BGPPeer,
  CrdClient W metalapi.IPAddressPool, CrdClient W metalapi.BGPAdvertisement,
  !StaysCrd R metalapi.BGPPeer, !StaysCrd R metalapi.IPAddressPool,
  !StaysCrd R metalapi.BGPAdvertisement}
  (m_namespace : string) (fromNodes : list loadbalancers.Node → list Peer).
Let lb : LB W := {| configurer := CRDConfigurer m_namespace; peersFromNodes := fromNodes |}.

Lemma stays_CRD_AddService ns name ip nodes : stays R (AddService lb ns name ip nodes).
Proof.
  unfold AddService, mapIP, updateMapIP, addNodes. cbn [lb configurer peersFromNodes CRDConfigurer
    cfg_Get cfg_Update cfg_AddAddressPool cfg_UpdatePeersByService]. unfold Crd.Get, Crd.Update.
  solve_stays.
Qed.
Lemma stays_CRD_UpdateService ns name nodes : stays R (UpdateService lb ns name nodes).
Proof.
  unfold UpdateService, addNodes. cbn [lb configurer peersFromNodes CRDConfigurer
    cfg_Get cfg_Update cfg_UpdatePeersByService]. unfold Crd.Get, Crd.Update. solve_stays.
Qed.
Lemma stays_CRD_RemoveService ns name ip : stays R (RemoveService lb ns name ip).
Proof.
  unfold RemoveService, unmapIP, updateMapIP. cbn [lb configurer peersFromNodes CRDConfigurer
    cfg_Get cfg_Update cfg_RemoveAddressPool cfg_RemovePeersByService]. unfold Crd.Get, Crd.Update.
  solve_stays.
Qed.
End crd_frame.

(** The peers of the native mode never look like a record. *)
Lemma native_serviceless nodes : Forall serviceless (PeersFromNodesNative nodes).
Proof.
  apply Forall_forall. intros p (node & i & peer & _ & _ & ->)%native_elem.
  unfold serviceless. cbn [native_peer Peer_NodeSelectors convertToNodeSelectors fmap list_fmap services_of].
  rewrite decide_False; [done|]. intros [Hn _]. apply Hn. unfold sel_name. simpl.
  by rewrite lookup_singleton_ne.
Qed.

(** ** Concrete runs *)

Local Existing Instance key_order.
Local Existing Instance pdqsort_by_insertion.
Local Existing Instance exp_slices.

(** Where the configurer keeps its objects in the concrete world. *)
Definition config_view (w : World) :=
  (pools_of (W := World) w, advs_of (W := World) w, peers_of (W := World) w).
Definition metallb_lbs : loadBalancers World := demo_lbs "LT" (MetalLB.impl demo_lb).

#[export] Instance ips_of_peers : KeepsCrd (api_ips (W := World)) metalapi.BGPPeer.
Proof. intros w w'. by apply (store_frame w_peers set_peers). Qed.
#[export] Instance ips_of_pools : KeepsCrd (api_ips (W := World)) metalapi.IPAddressPool.
Proof. intros w w'. by apply (store_frame w_pools set_pools). Qed.
#[export] Instance ips_of_advs : KeepsCrd (api_ips (W := World)) metalapi.BGPAdvertisement.
Proof. intros w w'. by apply (store_frame w_advs set_advs). Qed.

Lemma metallb_keeps : KeepsReservations metallb_lbs.
Proof.
  apply World_keeps; intros; [apply (stays_CRD_AddService (unchanged api_ips))
    |apply (stays_CRD_RemoveService (unchanged api_ips))
    |apply (stays_CRD_UpdateService (unchanged api_ips))]; apply _.
Qed.

Lemma metallb_view : KeepsConfig metallb_lbs (configurer demo_lb) config_view.
Proof.
  split; simpl.
  - intros w w' [= Hp Ha _]. by apply adv_wf_same.
  - intros w w' [= Hp _ _]. by apply crd_pool_same.
  - intros w w' [= _ _ Hp]. by apply crd_records_same.
  - intros p req w r w'. simpl. unfold online. destruct (w_down w); by intros [= _ <-].
  - intros id w r w'. simpl. unfold online. destruct (w_down w); by intros [= _ <-].
  - intros id. solve_keeps.
  - intros n a w r w'. simpl. unfold online. destruct (w_down w); by intros [= _ <-].
  - intros ns n w r w'. simpl. unfold online. destruct (w_down w); [by intros [= _ <-]|].
    destruct (_ !! _); by intros [= _ <-].
  - intros ns s w r w'. simpl. unfold online. destruct (w_down w); by intros [= _ <-].
Qed.

(** The service of the demo cluster is served, served again with its new
    address, and deleted. *)
Definition served : World := Eval vm_compute in
  final (EnsureLoadBalancer metallb_lbs demo_service [demo_n1]) lb_world.
Definition addressed_service : Service :=
  set_Annotations (Some {[ metallb_ip.loadBalancerIPsAnnotation := "203.0.113.1" ]}) demo_service.
Definition served_again : World := Eval vm_compute in
  final (EnsureLoadBalancer metallb_lbs addressed_service []) served.
Definition gone : World := Eval vm_compute in
  final (EnsureLoadBalancerDeleted metallb_lbs addressed_service) served.

Lemma EnsureLoadBalancer_again_witness :
  api_ips served_again = api_ips served ∧ length (api_ips served) = 1.
Proof.
  split; [|vm_refl]. pose proof metallb_keeps as Hk.
  refine (proj1 (EnsureLoadBalancer_again metallb_lbs demo_service addressed_service [demo_n1] []
    lb_world {| Ingress := ["203.0.113.1"] |} served served {| Ingress := ["203.0.113.1"] |} served_again
    (MetalLB.impl demo_lb) "" _ _ _ _ _ _)).
  - reflexivity.
  - reflexivity.
  - reflexivity.
  - vm_refl.
  - reflexivity.
  - vm_refl.
Defined.

Lemma service_lifecycle_witness :
  api_ips gone = [] ∧ ¬ cfg_pool (c := configurer demo_lb) gone "default.web" ∧
  is_Some (pools_of served !! ("metallb-system", "default.web")).
Proof.
  pose proof metallb_keeps as Hk. pose proof metallb_view as Hview.
  destruct (service_lifecycle metallb_lbs demo_lb config_view demo_service addressed_service [demo_n1]
    lb_world {| Ingress := ["203.0.113.1"] |} served () gone "") as (Hips & _ & Hp & _).
  - reflexivity.
  - split; discriminate.
  - exact native_serviceless.
  - reflexivity.
  - vm_refl.
  - reflexivity.
  - intros k a Ha. vm_compute in Ha. discriminate Ha.
  - constructor.
  - vm_refl.
  - refine (bool_decide_eq_true_1 _ _); vm_refl.
  - vm_refl.
  - split; [exact Hips|]. split; [|refine (bool_decide_eq_true_1 _ _); vm_refl].
    intros Hin. apply Hp in Hin as [Hne _]. exact (Hne eq_refl).
Defined.
