(* ===== verification/ControlPlane.v ===== *)
(** * The control plane endpoint manager

    [cherry/fip_controlplane_reconciliation.go]: one floating IP, found by a
    tag, is kept attached to a control plane node that answers on
    [/healthz], and a service and its endpoints mirror [default/kubernetes]
    at that address. The struct is the record of its name; its two ports
    are the only fields that change. The three mutexes make the handlers of
    one kind of object run one at a time, and so does the model. *)

From S2P Require Import Prelude Constants GoStrings GoNet Api World Instances Reservations.

(** ** Definitions *)

Definition externalServiceName : string := "cloud-provider-cherry-kubernetes-external".
Definition externalServiceNamespace : string := "kube-system".
Definition metallbAnnotation : string := "metallb.universe.tf/address-pool".
Definition metallbDisabledtag : string := "disabled-metallb-do-not-use-any-address-pool".
Definition controlPlaneLabels : list string :=
  ["node-role.kubernetes.io/master"; "node-role.kubernetes.io/control-plane"].
(** [metav1.NamespaceDefault]. *)
Definition NamespaceDefault : string := "default".

(** A selector is the label it asks to be present. *)
Record controlPlaneEndpointManager := {
  apiServerPort : Z;
  nodeAPIServerPort : Z;
  fipTagKey : string;
  fipTagValue : string;
  projectID : Z;
  controlPlaneSelectors : list string;
  useHostIP : bool
}.
Definition set_ports (api node : Z) (m : controlPlaneEndpointManager)
  : controlPlaneEndpointManager := {|
  apiServerPort := api; nodeAPIServerPort := node;
  fipTagKey := fipTagKey m; fipTagValue := fipTagValue m; projectID := projectID m;
  controlPlaneSelectors := controlPlaneSelectors m; useHostIP := useHostIP m
|}.

(** [metav1.HasLabel]. *)
Definition HasLabel (node : Node) (label : string) : bool :=
  bool_decide (is_Some (default ∅ (Node_Labels node) !! label)).
Definition isControlPlaneNode (node : Node) : bool := existsb (HasLabel node) controlPlaneLabels.

(** *** Sets of nodes by name, and the filters on lists of nodes *)

Abbreviation nodeSet := (gmap string Node).
Definition nodeSet_add (ns : nodeSet) (node : Node) : nodeSet :=
  match ns !! Node_Name node with
  | Some _ => ns
  | None => <[Node_Name node := node]> ns
  end.
Definition addNodeList (ns : nodeSet) (nodes : list Node) : nodeSet := foldl nodeSet_add ns nodes.
Definition newNodeSet (nodes : list Node) : nodeSet := foldl nodeSet_add ∅ nodes.

Definition nodeFilter : Type := list Node → list Node.
Definition tryFilterSelf (self : Node) : nodeFilter := λ nodes,
  let remainingNodes := filter (λ n, Node_Name n ≠ Node_Name self) nodes in
  if decide (0 < length remainingNodes) then remainingNodes else nodes.
Definition filterDeletingNodes : nodeFilter := λ nodes,
  filter (λ n, Node_Deleting n = false) nodes.
Definition tryFilterUnschedulableNodes : nodeFilter := λ nodes,
  let schedulableNodes := filter (λ n, Node_Unschedulable n = false) nodes in
  if decide (0 < length schedulableNodes) then schedulableNodes else nodes.

Section sets.
Context `{GoRange}.

Definition toList (ns : nodeSet) : list Node := (range_map ns).*2.
Definition nodeSet_filter (filters : list nodeFilter) (ns : nodeSet) : nodeSet :=
  newNodeSet (foldl (λ nodes f, f nodes) (toList ns) filters).
End sets.

(** *** Health checks and assignment *)

Definition healthz (address : string) (port : Z) : string :=
  "https://" +:+ address +:+ ":" +:+ Itoa port +:+ "/healthz".
Definition healthURLFromControlPlaneEndpoint (m : controlPlaneEndpointManager) (ip : IPAddress)
  : string := healthz (IP_Address ip) (apiServerPort m).
Definition StatusOK : Z := 200.

Definition nodeIsAssigned (node : Node) (ipReservation : IPAddress) : res bool :=
  Ok (existsb (λ na, bool_decide (NodeAddress_Address na = IP_Address ipReservation))
        (Node_Addresses node)).

Section methods.
Context {W : Type} `{GoRange, CherryClient W, KubeClient W, HttpClient W, ApplyClient W}.
Variable m : controlPlaneEndpointManager.

Definition getControlPlaneEndpointReservation : M W IPAddress :=
  ipList ← IPAddresses_List (projectID m);
  match ipReservationByAllTags {[ fipTagKey m := fipTagValue m ]} ipList with
  | Some ip => mret ip
  | None => raise (Errorf "floating IP not found. Please verify you have one with the expected tag: %s=%s" [fipTagKey m; fipTagValue m])
  end.

(** The loop over the addresses of one node; [true] when the address was
    assigned, which ends both loops. *)
Fixpoint reassign_addresses (node : Node) (ip : IPAddress) (fipURL : string)
    (addresses : list NodeAddress) : M W bool :=
  match addresses with
  | [] => mret false
  | a :: addresses' =>
      let healthCheckAddress := healthz (NodeAddress_Address a) (nodeAPIServerPort m) in
      if decide (NodeAddress_Type a = "Hostname") then
        reassign_addresses node ip fipURL addresses'
      else if decide (healthCheckAddress = fipURL) then
        reassign_addresses node ip fipURL addresses'
      else
        match http_NewRequest healthCheckAddress with
        | Some _ => reassign_addresses node ip fipURL addresses'
        | None =>
            resp ← try (http_Do healthCheckAddress);
            match resp with
            | inl _ => reassign_addresses node ip fipURL addresses'
            | inr code =>
                if decide (code = StatusOK) then
                  serverID ← lift_res (serverIDFromProviderID (Node_ProviderID node));
                  IPAddresses_Update (IP_ID ip) (Itoa serverID);;
                  mret true
                else reassign_addresses node ip fipURL addresses'
            end
        end
  end.
Fixpoint reassign_nodes (nodes : list Node) (ip : IPAddress) (fipURL : string) : M W bool :=
  match nodes with
  | [] => mret false
  | node :: nodes' =>
      assigned ← reassign_addresses node ip fipURL (Node_Addresses node);
      if (assigned : bool) then mret true else reassign_nodes nodes' ip fipURL
  end.
Definition reassign (nodes : list Node) (ip : IPAddress) (fipURL : string) : M W unit :=
  if decide (nodeAPIServerPort m = 0%Z) then
    raise (ENew "control plane node apiserver port not yet determined, cannot reassign, will try again on next loop")
  else
    assigned ← reassign_nodes nodes ip fipURL;
    if (assigned : bool) then mret ()
    else raise (ENew "ccm didn't find a good candidate for IP allocation. Cluster is unhealthy").

Fixpoint list_nodes (selectors : list string) (ns : nodeSet) : M W nodeSet :=
  match selectors with
  | [] => mret ns
  | s :: selectors' =>
      nodes ← wrap_err (Errorw "failed to list control plane nodes with labelselector %s: %w" [s])
                (Nodes_List s);
      list_nodes selectors' (addNodeList ns nodes)
  end.

Definition tryReassign (controlPlaneEndpoint : IPAddress) (filters : list nodeFilter) : M W unit :=
  let controlPlaneHealthURL := healthURLFromControlPlaneEndpoint m controlPlaneEndpoint in
  nodeSet ← list_nodes (controlPlaneSelectors m) (newNodeSet []);
  let potentialNodes := toList (nodeSet_filter filters nodeSet) in
  wrap_err (Errorw "failed to assign the control plane endpoint: %w" [])
    (reassign potentialNodes controlPlaneEndpoint controlPlaneHealthURL).

Definition tryReassignAwayFromSelf (self : Node) : M W unit :=
  controlPlaneEndpoint ←
    wrap_err (Errorw "failed to get the control plane endpoint for the cluster: %w" [])
      getControlPlaneEndpointReservation;
  hasIP ← wrap_err (Errorw "failed when checking if node has the floating ip assignment: %w" [])
            (lift_res (nodeIsAssigned self controlPlaneEndpoint));
  if hasIP || bool_decide (IP_TargetedTo_ID controlPlaneEndpoint = 0%Z) then
    tryReassign controlPlaneEndpoint
      [filterDeletingNodes; tryFilterUnschedulableNodes; tryFilterSelf self]
  else mret ().

(** The address the health check of the assigned node goes through: with
    [useHostIP] the last external address that is not the floating IP. *)
Fixpoint host_url (addresses : list NodeAddress) (ip : IPAddress) (url : string) : string :=
  match addresses with
  | [] => url
  | a :: addresses' =>
      host_url addresses' ip
        (if decide (NodeAddress_Type a = NodeExternalIP ∧ NodeAddress_Address a ≠ IP_Address ip)
         then healthz (NodeAddress_Address a) (nodeAPIServerPort m) else url)
  end.
Definition checked_url (node : Node) (ip : IPAddress) : string :=
  let url := healthURLFromControlPlaneEndpoint m ip in
  if useHostIP m then host_url (Node_Addresses node) ip url else url.

Definition doHealthCheck (node : Node) : M W unit :=
  controlPlaneEndpoint ←
    wrap_err (Errorw "failed to get the control plane endpoint for the cluster: %w" [])
      getControlPlaneEndpointReservation;
  if decide (IP_TargetedTo_ID controlPlaneEndpoint = 0%Z) then
    tryReassign controlPlaneEndpoint [filterDeletingNodes; tryFilterUnschedulableNodes]
  else
    ok ← wrap_err (Errorw "failed when checking if node has the fip assignment: %w" [])
           (lift_res (nodeIsAssigned node controlPlaneEndpoint));
    if (ok : bool) then
      let controlPlaneHealthURL := checked_url node controlPlaneEndpoint in
      match http_NewRequest controlPlaneHealthURL with
      | Some err => raise (Errorw "error constructing GET request for %s: %w" [controlPlaneHealthURL] err)
      | None =>
          resp ← try (http_Do controlPlaneHealthURL);
          match resp with
          | inr code =>
              if decide (code = StatusOK) then mret ()
              else tryReassign controlPlaneEndpoint [filterDeletingNodes; tryFilterUnschedulableNodes]
          | inl _ =>
              tryReassign controlPlaneEndpoint [filterDeletingNodes; tryFilterUnschedulableNodes]
          end
      end
    else mret ().
End methods.

(** *** Apply configurations, [cherry/ssa-helpers.go] *)

Definition ObjectReferenceApplyConfiguration (ref : option ObjectReference)
  : option applyconfig.ObjectReference :=
  match ref with
  | None => None
  | Some ref => Some {|
      applyconfig.Ref_APIVersion := Some (Ref_APIVersion ref);
      applyconfig.Ref_FieldPath := Some (Ref_FieldPath ref);
      applyconfig.Ref_Kind := Some (Ref_Kind ref);
      applyconfig.Ref_Name := Some (Ref_Name ref);
      applyconfig.Ref_Namespace := Some (Ref_Namespace ref);
      applyconfig.Ref_ResourceVersion := Some (Ref_ResourceVersion ref);
      applyconfig.Ref_UID := Some (Ref_UID ref) |}
  end.
Definition EndpointAddressApplyConfig (addr : EndpointAddress) : applyconfig.EndpointAddress := {|
  applyconfig.Endpoint_Hostname := Some (Endpoint_Hostname addr);
  applyconfig.Endpoint_IP := Some (Endpoint_IP addr);
  applyconfig.Endpoint_NodeName := Endpoint_NodeName addr;
  applyconfig.Endpoint_TargetRef := ObjectReferenceApplyConfiguration (Endpoint_TargetRef addr)
|}.
(** The result of [WithAppProtocol] is dropped, but the builders change
    their receiver. *)
Definition EndpointPortApplyConfig (port : EndpointPort) : applyconfig.EndpointPort := {|
  applyconfig.Port_Name := Some (Port_Name port);
  applyconfig.Port_Port := Some (Port_Port port);
  applyconfig.Port_Protocol := Some (Port_Protocol port);
  applyconfig.Port_AppProtocol := Port_AppProtocol port
|}.
Definition EndpointSubsetApplyConfig (subset : EndpointSubset) : applyconfig.EndpointSubset := {|
  applyconfig.Subset_Addresses := EndpointAddressApplyConfig <$> Subset_Addresses subset;
  applyconfig.Subset_NotReadyAddresses :=
    EndpointAddressApplyConfig <$> Subset_NotReadyAddresses subset;
  applyconfig.Subset_Ports := EndpointPortApplyConfig <$> Subset_Ports subset
|}.

(** *** Mirroring of the service, and the handlers

    A handler works on the manager and the world. *)
Section handlers.
Context {W : Type} `{GoRange, CherryClient W, KubeClient W, HttpClient W, ApplyClient W}.

(** A method that does not change the manager. *)
Definition with_manager {A} (f : controlPlaneEndpointManager → M W A)
  : M (controlPlaneEndpointManager * W) A := λ s,
  let '(r, w') := f s.1 s.2 in (r, (s.1, w')).
Definition assign_ports (api node : Z) : M (controlPlaneEndpointManager * W) unit := λ s,
  (Ok (), (set_ports api node s.1, s.2)).
Definition get_manager : M (controlPlaneEndpointManager * W) controlPlaneEndpointManager :=
  λ s, (Ok s.1, s).

Definition syncEndpoints (k8sEndpoints : Endpoints) : M W unit :=
  wrap_err (Errorw "failed to apply endpoint %s/%s: %w"
              [externalServiceNamespace; externalServiceName])
    (Endpoints_Apply externalServiceNamespace
       {| applyconfig.Endpoints_Name := externalServiceName;
          applyconfig.Endpoints_Namespace := externalServiceNamespace;
          applyconfig.Endpoints_Subsets :=
            EndpointSubsetApplyConfig <$> Endpoints_Subsets k8sEndpoints |}
       cherryIdentifier).

Definition service_config (m : controlPlaneEndpointManager) (fip : string) : applyconfig.Service := {|
  applyconfig.Service_Name := externalServiceName;
  applyconfig.Service_Namespace := externalServiceNamespace;
  applyconfig.Service_Annotations := {[ metallbAnnotation := metallbDisabledtag ]};
  applyconfig.Service_Spec := Some {|
    applyconfig.SSpec_Type := Some "LoadBalancer";
    applyconfig.SSpec_LoadBalancerIP := Some fip;
    applyconfig.SSpec_Ports := [{|
      applyconfig.SPort_Name := Some "https";
      applyconfig.SPort_Port := Some (apiServerPort m);
      applyconfig.SPort_Protocol := Some "TCP";
      applyconfig.SPort_TargetPort := Some (nodeAPIServerPort m) |}] |};
  applyconfig.Service_Status := None
|}.
Definition status_config (fip : string) : applyconfig.Service := {|
  applyconfig.Service_Name := externalServiceName;
  applyconfig.Service_Namespace := externalServiceNamespace;
  applyconfig.Service_Annotations := ∅;
  applyconfig.Service_Spec := None;
  applyconfig.Service_Status := Some {|
    applyconfig.SStatus_Ingress := [{|
      applyconfig.Ingress_IP := Some fip;
      applyconfig.Ingress_IPMode := Some "Proxy" |}] |}
|}.

(** The part of [syncService] after the ports are set. *)
Definition applyService (m : controlPlaneEndpointManager) : M W unit :=
  controlPlaneEndpoint ←
    wrap_err (Errorw "failed to get the control plane endpoint for the cluster: %w" [])
      (getControlPlaneEndpointReservation m);
  let fip := IP_Address controlPlaneEndpoint in
  wrap_err (Errorw "failed to apply service %s/%s: %w" [externalServiceNamespace; externalServiceName])
    (Services_Apply externalServiceNamespace (service_config m fip) cherryIdentifier);;
  wrap_err (Errorw "failed to apply service status %s/%s: %w"
              [externalServiceNamespace; externalServiceName])
    (Services_ApplyStatus externalServiceNamespace (status_config fip) cherryIdentifier).

Definition syncService (k8sService : Service) : M (controlPlaneEndpointManager * W) unit :=
  match Service_Ports k8sService with
  | [] => raise (ENew "default/kubernetes service does not have any ports defined")
  | port :: _ =>
      m ← get_manager;
      let node := ServicePort_TargetPort port in
      assign_ports (if decide (apiServerPort m = 0%Z) then node else apiServerPort m) node;;
      with_manager applyService
  end.

(** The filters of the three informers; [None] is an object that is not of
    the kind, which the unchecked assertion makes a nil pointer. *)
Definition nodes_FilterFunc (m : controlPlaneEndpointManager) (obj : option Node) : res bool :=
  match obj with
  | None => Panic
  | Some n =>
      if decide (apiServerPort m = 0%Z ∨ nodeAPIServerPort m = 0%Z) then Ok false
      else Ok (isControlPlaneNode n)
  end.
Definition endpoints_FilterFunc (obj : option Endpoints) : res bool :=
  match obj with
  | None => Panic
  | Some e =>
      Ok (negb (bool_decide (Endpoints_Namespace e ≠ NamespaceDefault ∧ Endpoints_Name e ≠ "kubernetes")))
  end.
Definition services_FilterFunc (obj : option Service) : res bool :=
  match obj with
  | None => Panic
  | Some s =>
      Ok (negb (bool_decide (Service_Namespace s ≠ NamespaceDefault ∧ Service_Name s ≠ "kubernetes")))
  end.

(** Errors are logged. *)
Definition logged {S A} (c : M S A) : M S unit := _ ← try c; mret ().

Definition nodes_UpdateFunc (oldNode newNode : Node) : M (controlPlaneEndpointManager * W) unit :=
  if bool_decide (Node_Unschedulable oldNode ≠ Node_Unschedulable newNode) && Node_Unschedulable newNode
  then logged (with_manager (λ m, tryReassignAwayFromSelf m newNode))
  else logged (with_manager (λ m, doHealthCheck m newNode)).
Definition nodes_DeleteFunc (n : Node) : M (controlPlaneEndpointManager * W) unit :=
  logged (with_manager (λ m, tryReassignAwayFromSelf m n)).
(** Both [AddFunc] and [UpdateFunc] of the other two informers. *)
Definition endpoints_Func (k8sEndpoints : Endpoints) : M (controlPlaneEndpointManager * W) unit :=
  if decide (Endpoints_Namespace k8sEndpoints ≠ NamespaceDefault ∨
             Endpoints_Name k8sEndpoints ≠ "kubernetes") then mret ()
  else logged (with_manager (λ _, syncEndpoints k8sEndpoints)).
Definition services_Func (k8sService : Service) : M (controlPlaneEndpointManager * W) unit :=
  if decide (Service_Namespace k8sService ≠ NamespaceDefault ∨
             Service_Name k8sService ≠ "kubernetes") then mret ()
  else logged (syncService k8sService).
End handlers.

(** *** Construction *)

Record restConfig := { rest_Host : string; rest_ServerName : string }.

(** The scheme is looked at only when the host parses as a URL. *)
Definition serverNameFromConfig `{UrlParser} (cfg : restConfig) : string :=
  let host := rest_Host cfg in
  let host :=
    match url_Parse host with
    | Ok apiURL =>
        if decide (URL_Scheme apiURL = "http" ∨ URL_Scheme apiURL = "https") then URL_Hostname apiURL
        else host
    | _ => host
    end in
  match SplitHostPort host with
  | Ok (h, _) => h
  | _ => host
  end.

(** [rest.HTTPClientFor], of which only the error matters here. *)
Class RestClient := HTTPClientFor : restConfig → option error.

(** The manager, [None] without a tag, and the configuration, whose server
    name is changed even if the client cannot be built. *)
Definition newControlPlaneEndpointManager `{UrlParser, RestClient} (restCfg : restConfig)
    (fipTag : string) (projectID : Z) (apiServerPort : Z) (useHostIP : bool)
  : res (option controlPlaneEndpointManager) * restConfig :=
  if decide (fipTag = "") then (Ok None, restCfg)
  else
    let restCfg := {| rest_Host := rest_Host restCfg; rest_ServerName := serverNameFromConfig restCfg |} in
    match HTTPClientFor restCfg with
    | Some err => (Err (Errorw "failed to build http client from rest config: %w" [] err), restCfg)
    | None =>
        let parts := SplitN2 fipTag "=" in
        let fipTagKey := default "" (parts !! 0) in
        let fipTagValue := default "" (parts !! 1) in
        (Ok (Some {| apiServerPort := apiServerPort; nodeAPIServerPort := 0;
                     fipTagKey := fipTagKey; fipTagValue := fipTagValue; projectID := projectID;
                     controlPlaneSelectors := controlPlaneLabels; useHostIP := useHostIP |}), restCfg)
    end.
