(* ===== verification/ControlPlaneProps.v ===== *)
(** * Properties of the control plane endpoint manager

    Which node the floating IP is moved to, when it moves and when it does
    not, and what stays true over any sequence of events. *)

From Stdlib Require Import Ascii.
From S2P Require Import Prelude Constants GoStrings GoNet Netip Api World Instances Reservations ControlPlane.

(** ** What the component relies on *)

(** A health check is a GET: it changes nothing, and what it answers is a
    property of the world. *)
Class HttpLaws (W : Type) `{HttpClient W} := {
  http_code : W → string → option Z;
  http_Do_Some : ∀ w url code, http_code w url = Some code → http_Do url w = (Ok code, w);
  http_Do_None : ∀ w url, http_code w url = None → ∃ e, http_Do url w = (Err e, w)
}.

(** Listing nodes by a label changes nothing and gives the nodes of the
    cluster with that label, in their order. *)
Class NodeLaws (W : Type) `{KubeClient W} := {
  cluster_nodes : W → list Node;
  Nodes_List_keeps : ∀ label w r w', Nodes_List label w = (r, w') → w' = w;
  Nodes_List_Ok : ∀ label w nodes w', Nodes_List label w = (Ok nodes, w') →
    nodes = filter (λ n, HasLabel n label = true) (cluster_nodes w)
}.

(** ** Sets of nodes *)

(** The elements with [P] when there are any, else all of them. *)
Definition prefer {A} (P : A → Prop) `{∀ x, Decision (P x)} (l : list A) : list A :=
  let l' := filter P l in if decide (0 < length l') then l' else l.

Section prefer.
Context {A : Type} (P : A → Prop) `{∀ x, Decision (P x)}.
Implicit Types l : list A.

Lemma elem_of_prefer x l : x ∈ prefer P l ↔ x ∈ l ∧ (P x ∨ Forall (λ y, ¬ P y) l).
Proof.
  unfold prefer. destruct (filter P l) as [|y l'] eqn:E; simpl.
  - assert (Forall (λ y, ¬ P y) l) as Hall.
    { apply Forall_forall. intros y Hy HP. apply (not_elem_of_nil y). rewrite <-E.
      by apply list_elem_of_filter. }
    tauto.
  - rewrite <-E, list_elem_of_filter. split; [tauto|]. intros [Hx [HP|Hall]]; [tauto|].
    assert (y ∈ filter P l) as [HP Hy]%list_elem_of_filter by (rewrite E; apply list_elem_of_here).
    rewrite Forall_forall in Hall. by destruct (Hall y Hy).
Qed.

#[export] Instance prefer_Permutation : Proper ((≡ₚ) ==> (≡ₚ)) (prefer P).
Proof.
  intros l1 l2 Hl. unfold prefer. pose proof (filter_Permutation P _ _ Hl) as Hf.
  rewrite (Permutation_length Hf). by destruct (decide _).
Qed.

Lemma prefer_sublist l : sublist (prefer P l) l.
Proof. unfold prefer. destruct (decide _); [apply sublist_filter|done]. Qed.
End prefer.

Lemma tryFilterSelf_prefer self nodes :
  tryFilterSelf self nodes = prefer (λ n, Node_Name n ≠ Node_Name self) nodes.
Proof. done. Qed.
Lemma tryFilterUnschedulable_prefer nodes :
  tryFilterUnschedulableNodes nodes = prefer (λ n, Node_Unschedulable n = false) nodes.
Proof. done. Qed.

(** A filter that drops elements, whatever their order. *)
Class NodeFilter (f : nodeFilter) : Prop := {
  nodeFilter_sublist : ∀ l, sublist (f l) l;
  nodeFilter_Proper :: Proper ((≡ₚ) ==> (≡ₚ)) f
}.
#[export] Instance NodeFilter_deleting : NodeFilter filterDeletingNodes.
Proof. split; [intros; apply sublist_filter|]. intros l1 l2 Hl. by apply filter_Permutation. Qed.
#[export] Instance NodeFilter_unschedulable : NodeFilter tryFilterUnschedulableNodes.
Proof. split; [intros; apply (prefer_sublist _ l)|]. apply (prefer_Permutation _). Qed.
#[export] Instance NodeFilter_self self : NodeFilter (tryFilterSelf self).
Proof. split; [intros; apply (prefer_sublist _ l)|]. apply (prefer_Permutation _). Qed.

Definition run_filters (filters : list nodeFilter) (nodes : list Node) : list Node :=
  foldl (λ nodes f, f nodes) nodes filters.

Lemma run_filters_sublist filters nodes :
  Forall NodeFilter filters → sublist (run_filters filters nodes) nodes.
Proof.
  intros Hf. revert nodes. induction Hf as [|f filters Hf Hfs IH]; intros nodes; [done|].
  simpl. etrans; [apply IH|]. apply nodeFilter_sublist.
Qed.
Lemma run_filters_Permutation filters l1 l2 :
  Forall NodeFilter filters → l1 ≡ₚ l2 → run_filters filters l1 ≡ₚ run_filters filters l2.
Proof.
  intros Hf. revert l1 l2. induction Hf as [|f filters Hf Hfs IH]; intros l1 l2 Hl; [done|].
  simpl. apply IH. by rewrite Hl.
Qed.

Lemma fmap_sublist {A B} (f : A → B) (l1 l2 : list A) :
  sublist l1 l2 → sublist (f <$> l1) (f <$> l2).
Proof. induction 1; simpl; by constructor. Qed.

(** The keys of a set are the names of its nodes. *)
Definition named (ns : nodeSet) : Prop := ∀ k n, ns !! k = Some n → Node_Name n = k.

Lemma nodeSet_add_lookup ns node k :
  nodeSet_add ns node !! k =
    match ns !! k with
    | Some n => Some n
    | None => if decide (Node_Name node = k) then Some node else None
    end.
Proof.
  unfold nodeSet_add. destruct (ns !! Node_Name node) as [n|] eqn:E.
  - destruct (ns !! k) eqn:Ek; [done|]. rewrite decide_False; [done|]. congruence.
  - destruct (decide (Node_Name node = k)) as [<-|Hne].
    + by rewrite lookup_insert_eq, E.
    + rewrite lookup_insert_ne by done. by destruct (ns !! k).
Qed.

Lemma addNodeList_named ns l : named ns → named (addNodeList ns l).
Proof.
  revert ns. induction l as [|n l IH]; intros ns Hns; [done|]. simpl. apply IH.
  intros k n'. rewrite nodeSet_add_lookup. destruct (ns !! k) eqn:E.
  - intros [= <-]. by apply Hns.
  - by destruct (decide _) as [|]; [intros [= <-]|].
Qed.

Lemma NoDup_fmap_inj_elem {A B} (f : A → B) (l : list A) x y :
  NoDup (f <$> l) → x ∈ l → y ∈ l → f x = f y → x = y.
Proof.
  induction l as [|a l IH]; [by intros _ ?%elem_of_nil|]. rewrite fmap_cons, NoDup_cons.
  intros [Hna Hnd] [->|Hx]%elem_of_cons [->|Hy]%elem_of_cons Heq; auto.
  - destruct Hna. rewrite Heq. by apply list_elem_of_fmap_2.
  - destruct Hna. rewrite <-Heq. by apply list_elem_of_fmap_2.
Qed.

(** When all the nodes around come from a list with unique names. *)
Lemma addNodeList_elem (all : list Node) ns l k n :
  NoDup (Node_Name <$> all) → (∀ k n, ns !! k = Some n → n ∈ all) → named ns →
  (∀ x, x ∈ l → x ∈ all) →
  addNodeList ns l !! k = Some n ↔ Node_Name n = k ∧ (ns !! k = Some n ∨ n ∈ l).
Proof.
  intros Hnd. revert ns. induction l as [|x l IH]; intros ns Hall Hname Hl; simpl.
  { rewrite elem_of_nil. naive_solver. }
  assert (∀ y, y ∈ all → Node_Name y = Node_Name x → y = x) as Huniq.
  { intros y Hy Heq. apply (NoDup_fmap_inj_elem Node_Name all); auto using list_elem_of_here. }
  rewrite IH.
  - rewrite nodeSet_add_lookup, elem_of_cons. destruct (ns !! k) as [n'|] eqn:E.
    + split; [naive_solver|]. intros [Hk [Heq|[->|Hin]]]; [naive_solver| |naive_solver].
      split; [done|]. left. f_equal. apply Huniq; [by eapply Hall|]. rewrite (Hname _ _ E). done.
    + destruct (decide _) as [Hxk|Hxk]; split; naive_solver.
  - intros k' n'. rewrite nodeSet_add_lookup. destruct (ns !! k') eqn:E; [naive_solver|].
    destruct (decide _); [|done]. intros [= <-]. apply Hl, list_elem_of_here.
  - intros k' n'. rewrite nodeSet_add_lookup. destruct (ns !! k') eqn:E; [naive_solver|].
    by destruct (decide _) as [|]; [intros [= <-]|].
  - intros y Hy. apply Hl. by right.
Qed.

Section sets.
Context `{GoRange}.

Lemma elem_of_toList (ns : nodeSet) n : n ∈ toList ns ↔ ∃ k, ns !! k = Some n.
Proof.
  unfold toList. rewrite list_elem_of_fmap. split.
  - intros ([k n'] & -> & Hin%range_map_lookup). by exists k.
  - intros [k Hk]. exists (k, n). split; [done|]. by apply range_map_lookup.
Qed.

Lemma toList_names (ns : nodeSet) : named ns → NoDup (Node_Name <$> toList ns).
Proof.
  intros Hns. unfold toList. rewrite (range_map_perm ns), <-list_fmap_compose.
  assert ((Node_Name ∘ snd <$> map_to_list ns) = (map_to_list ns).*1) as ->.
  { apply list_fmap_ext. intros i [k n] Hi. simpl. apply Hns.
    apply elem_of_map_to_list. by eapply list_elem_of_lookup_2. }
  apply NoDup_fst_map_to_list.
Qed.
Lemma toList_NoDup (ns : nodeSet) : named ns → NoDup (toList ns).
Proof. intros Hns. eapply NoDup_fmap_1, toList_names, Hns. Qed.

(** A set made of a list with unique names lists it again, in some order. *)
Lemma toList_newNodeSet l :
  NoDup (Node_Name <$> l) → toList (newNodeSet l) ≡ₚ l.
Proof.
  intros Hnd. apply NoDup_Permutation.
  - apply toList_NoDup. by apply addNodeList_named.
  - by eapply NoDup_fmap_1.
  - intros n. rewrite elem_of_toList. unfold newNodeSet.
    setoid_rewrite (addNodeList_elem l ∅ l); try done.
    split; [intros (k & _ & [?|?]); [done|tauto]|]. intros Hin. exists (Node_Name n). auto.
Qed.

(** Whatever order the map gives, filtering a set is filtering the list of
    its nodes. *)
Lemma toList_nodeSet_filter filters (ns : nodeSet) :
  Forall NodeFilter filters → named ns →
  toList (nodeSet_filter filters ns) ≡ₚ run_filters filters (toList ns).
Proof.
  intros Hf Hns. apply toList_newNodeSet. eapply sublist_NoDup; [by apply toList_names|].
  apply fmap_sublist. by apply run_filters_sublist.
Qed.
End sets.

(** ** Assignment *)

Section reassign.
Context {W : Type} `{GoRange, CherryClient W, KubeClient W, HttpClient W, ApplyClient W,
  !HttpLaws W, !NodeLaws W, !ReservationLaws W}.
Implicit Types (m : controlPlaneEndpointManager) (ip : IPAddress) (w : W).

(** The address is one [reassign] asks, and it answers 200. *)
Definition answers m (fipURL : string) w (a : NodeAddress) : bool :=
  let url := healthz (NodeAddress_Address a) (nodeAPIServerPort m) in
  bool_decide (NodeAddress_Type a ≠ "Hostname" ∧ url ≠ fipURL ∧ http_NewRequest url = None ∧
               http_code w url = Some StatusOK).
Definition healthy m fipURL w (node : Node) : bool :=
  existsb (answers m fipURL w) (Node_Addresses node).

(** What is done with the first node that is healthy. *)
Definition assign_to (ip : IPAddress) (node : Node) : M W bool :=
  serverID ← lift_res (serverIDFromProviderID (Node_ProviderID node));
  IPAddresses_Update (IP_ID ip) (Itoa serverID);;
  mret true.

Lemma reassign_addresses_run m node ip fipURL addresses w :
  reassign_addresses m node ip fipURL addresses w =
    if existsb (answers m fipURL w) addresses then assign_to ip node w else (Ok false, w).
Proof.
  induction addresses as [|a addresses IH]; [done|]. cbn [reassign_addresses existsb].
  unfold answers at 1. set (url := healthz _ _).
  destruct (decide (NodeAddress_Type a = "Hostname")) as [Ht|Ht].
  { rewrite bool_decide_eq_false_2 by tauto. exact IH. }
  destruct (decide (url = fipURL)) as [Hu|Hu].
  { rewrite bool_decide_eq_false_2 by tauto. exact IH. }
  destruct (http_NewRequest url) as [e|].
  { rewrite bool_decide_eq_false_2 by naive_solver. exact IH. }
  unfold mbind at 1, M_bind at 1, try.
  destruct (http_code w url) as [code|] eqn:Hcode.
  - rewrite (http_Do_Some _ _ _ Hcode).
    destruct (decide (code = StatusOK)) as [->|Hne].
    + rewrite bool_decide_eq_true_2 by done. done.
    + rewrite bool_decide_eq_false_2 by naive_solver. exact IH.
  - destruct (http_Do_None _ _ Hcode) as [e ->]. rewrite bool_decide_eq_false_2 by naive_solver.
    exact IH.
Qed.

(** [reassign] gives the address to the first healthy node of the list. *)
Lemma reassign_nodes_run m nodes ip fipURL w :
  reassign_nodes m nodes ip fipURL w =
    match list_find (λ n, healthy m fipURL w n = true) nodes with
    | Some (_, node) => assign_to ip node w
    | None => (Ok false, w)
    end.
Proof.
  induction nodes as [|n nodes IH]; [done|]. cbn [reassign_nodes list_find].
  unfold mbind at 1, M_bind at 1. rewrite reassign_addresses_run. fold (healthy m fipURL w n).
  destruct (healthy m fipURL w n); simpl.
  - unfold assign_to, lift_res, mbind, M_bind, mret, M_ret.
    destruct (serverIDFromProviderID _); [|done..]. by destruct (IPAddresses_Update _ _ _) as [[]].
  - rewrite IH. by destruct (list_find _ nodes) as [[]|].
Qed.

Lemma assign_to_Ok ip node w b w' :
  assign_to ip node w = (Ok b, w') →
  b = true ∧ ∃ id, serverIDFromProviderID (Node_ProviderID node) = Ok id ∧
    IPAddresses_Update (IP_ID ip) (Itoa id) w = (Ok (), w').
Proof.
  unfold assign_to, lift_res, mbind, M_bind, mret, M_ret.
  destruct (serverIDFromProviderID _) as [id|e|]; [|done..].
  destruct (IPAddresses_Update _ _ _) as [[[]|e|] w1] eqn:E; [|done..]. intros [= <- <-]. eauto.
Qed.
Lemma assign_to_fail ip node w r w' :
  assign_to ip node w = (r, w') → (∀ b, r ≠ Ok b) → api_ips w' = api_ips w.
Proof.
  unfold assign_to, lift_res, mbind, M_bind, mret, M_ret.
  destruct (serverIDFromProviderID _) as [id|e|]; [|by intros [= <- <-]..].
  destruct (IPAddresses_Update _ _ _) as [[[]|e|] w1] eqn:E; intros [= <- <-] Hr.
  - by destruct (Hr true).
  - by eapply IPAddresses_Update_fail in E.
  - by eapply IPAddresses_Update_fail in E.
Qed.

(** The outcomes of [reassign]. *)
Lemma reassign_spec m nodes ip fipURL w r w' :
  reassign m nodes ip fipURL w = (r, w') →
  match r with
  | Ok _ => ∃ node id, node ∈ nodes ∧ healthy m fipURL w node = true ∧
      serverIDFromProviderID (Node_ProviderID node) = Ok id ∧
      api_ips w' = targeted (IP_ID ip) (Itoa id) <$> api_ips w
  | _ => api_ips w' = api_ips w
  end.
Proof.
  unfold reassign. destruct (decide _); [by intros [= <- <-]|].
  unfold mbind, M_bind. rewrite reassign_nodes_run.
  destruct (list_find _ nodes) as [[i node]|] eqn:Hfind; [|by intros [= <- <-]].
  apply list_find_Some in Hfind as (Hi & Hh & _). apply list_elem_of_lookup_2 in Hi.
  destruct (assign_to ip node w) as [[b|e|] w1] eqn:Ha.
  - apply assign_to_Ok in Ha as (-> & id & Hid & Hup). intros [= <- <-].
    exists node, id. by apply IPAddresses_Update_Ok in Hup as ->.
  - intros [= <- <-]. by eapply assign_to_fail.
  - intros [= <- <-]. by eapply assign_to_fail.
Qed.

(** No candidate answers: nothing is touched. *)
Lemma reassign_unhealthy m nodes ip fipURL w :
  Forall (λ n, healthy m fipURL w n = false) nodes →
  ∃ e, reassign m nodes ip fipURL w = (Err e, w).
Proof.
  intros Hall. unfold reassign. destruct (decide _); [by eexists|].
  unfold mbind, M_bind. rewrite reassign_nodes_run.
  destruct (list_find _ nodes) as [[i node]|] eqn:Hfind; [|by eexists].
  apply list_find_Some in Hfind as (Hi & Hh & _). apply list_elem_of_lookup_2 in Hi.
  rewrite Forall_forall in Hall. by rewrite (Hall _ Hi) in Hh.
Qed.

(** The provider ID of a node does not name a server. *)
Definition unreadable (n : Node) : Prop :=
  ∀ id, serverIDFromProviderID (Node_ProviderID n) ≠ Ok id.

(** Some candidate answers: it is done, unless the first that answers has a
    provider ID that cannot be read, which ends the search with an error. *)
Lemma reassign_live m nodes ip fipURL w :
  nodeAPIServerPort m ≠ 0%Z →
  Exists (λ n, healthy m fipURL w n = true) nodes →
  (∀ target, ∃ w', IPAddresses_Update (IP_ID ip) target w = (Ok (), w')) →
  (∃ w', reassign m nodes ip fipURL w = (Ok (), w')) ∨
  (∃ e n, reassign m nodes ip fipURL w = (Err e, w) ∧ n ∈ nodes ∧
     healthy m fipURL w n = true ∧ unreadable n).
Proof.
  intros Hport Hex Hup. unfold reassign. rewrite decide_False by done.
  unfold mbind, M_bind. rewrite reassign_nodes_run.
  destruct (list_find _ nodes) as [[i node]|] eqn:Hfind.
  - apply list_find_Some in Hfind as (Hi & Hh & _). apply list_elem_of_lookup_2 in Hi.
    unfold assign_to, lift_res, mbind, M_bind, mret, M_ret.
    destruct (serverIDFromProviderID (Node_ProviderID node)) as [id|e|] eqn:Hid.
    + left. destruct (Hup (Itoa id)) as [w' Hw]. exists w'. by rewrite Hw.
    + right. exists e, node. repeat split; try done. intros id. by rewrite Hid.
    + by apply serverIDFromProviderID_no_panic in Hid.
  - exfalso. apply list_find_None in Hfind. apply Exists_exists in Hex as (n & Hn & Hh).
    rewrite Forall_forall in Hfind. by destruct (Hfind _ Hn).
Qed.
End reassign.

(** ** Which node gets the address *)

Section choice.
Context {W : Type} `{GoRange, CherryClient W, KubeClient W, HttpClient W, ApplyClient W,
  !HttpLaws W, !NodeLaws W, !ReservationLaws W}.
Implicit Types (m : controlPlaneEndpointManager) (ip : IPAddress) (w : W).

Definition control_plane_nodes m w : list Node :=
  filter (λ n, existsb (HasLabel n) (controlPlaneSelectors m) = true) (cluster_nodes w).

(** The nodes the address may go to: live control plane nodes; of these the
    schedulable ones, if there are any; of these the ones other than the
    node it is taken from, if there are any. *)
Definition live m w (n : Node) : Prop := n ∈ control_plane_nodes m w ∧ Node_Deleting n = false.
Definition available m w (n : Node) : Prop :=
  live m w n ∧ (Node_Unschedulable n = false ∨ ∀ n', live m w n' → Node_Unschedulable n' = true).
Definition eligible m (self : option Node) w (n : Node) : Prop :=
  available m w n ∧
  match self with
  | None => True
  | Some self => Node_Name n ≠ Node_Name self ∨
      ∀ n', available m w n' → Node_Name n' = Node_Name self
  end.

Definition filters_of (self : option Node) : list nodeFilter :=
  [filterDeletingNodes; tryFilterUnschedulableNodes] ++
  match self with Some self => [tryFilterSelf self] | None => [] end.

Lemma filters_of_ok self : Forall NodeFilter (filters_of self).
Proof. destruct self; unfold filters_of; simpl; repeat (apply Forall_cons_2; [apply _|]); apply Forall_nil_2. Qed.

Lemma elem_of_candidates m self w n :
  n ∈ run_filters (filters_of self) (control_plane_nodes m w) ↔ eligible m self w n.
Proof.
  set (all := control_plane_nodes m w).
  assert (∀ n, n ∈ filterDeletingNodes all ↔ live m w n) as Hlive.
  { intros n'. unfold filterDeletingNodes, live. rewrite list_elem_of_filter. tauto. }
  assert (∀ n, n ∈ tryFilterUnschedulableNodes (filterDeletingNodes all) ↔ available m w n) as Havail.
  { intros n'. rewrite tryFilterUnschedulable_prefer, elem_of_prefer, Hlive, Forall_forall.
    unfold available. setoid_rewrite Hlive. setoid_rewrite not_false_iff_true. done. }
  unfold eligible. destruct self as [self|]; simpl.
  - rewrite tryFilterSelf_prefer, elem_of_prefer, Havail, Forall_forall. setoid_rewrite Havail.
    split; intros [Hn Hp]; (split; [done|]); destruct Hp as [Hp|Hp]; auto; right; intros n' Hn'.
    apply dec_stable. by apply Hp.
  - rewrite Havail. tauto.
Qed.

Definition listed (selectors : list string) (ns : nodeSet) w : nodeSet :=
  foldl (λ ns s, addNodeList ns (filter (λ n, HasLabel n s = true) (cluster_nodes w))) ns selectors.

Lemma list_nodes_run selectors ns w r w' :
  list_nodes selectors ns w = (r, w') →
  w' = w ∧ match r with Ok ns' => ns' = listed selectors ns w | _ => True end.
Proof.
  revert ns. induction selectors as [|s selectors IH]; intros ns; simpl.
  { by intros [= <- <-]. }
  unfold wrap_err, mbind, M_bind.
  destruct (Nodes_List s w) as [[nodes|e|] w1] eqn:Hlist;
    pose proof (Nodes_List_keeps _ _ _ _ Hlist) as ->; [|by intros [= <- <-]..].
  apply Nodes_List_Ok in Hlist as ->. apply IH.
Qed.

Lemma listed_lookup selectors ns w k n :
  NoDup (Node_Name <$> cluster_nodes w) → named ns →
  (∀ k n, ns !! k = Some n → n ∈ cluster_nodes w) →
  named (listed selectors ns w) ∧
  (listed selectors ns w !! k = Some n ↔ Node_Name n = k ∧
    (ns !! k = Some n ∨ n ∈ cluster_nodes w ∧ existsb (HasLabel n) selectors = true)).
Proof.
  intros Hnd. revert ns. induction selectors as [|s selectors IH]; intros ns Hns Hall; simpl.
  { split; [done|]. split; [|naive_solver]. naive_solver. }
  pose proof (addNodeList_elem (cluster_nodes w) ns (filter (λ n, HasLabel n s = true) (cluster_nodes w))) as Hadd.
  assert (∀ x, x ∈ filter (λ n, HasLabel n s = true) (cluster_nodes w) → x ∈ cluster_nodes w) as Hin
    by (intros x [_ Hx]%list_elem_of_filter; exact Hx).
  destruct (IH (addNodeList ns (filter (λ n, HasLabel n s = true) (cluster_nodes w)))) as [Hn Hiff].
  - by apply addNodeList_named.
  - intros k' n' Hlk. apply (Hadd k' n' Hnd Hall Hns Hin) in Hlk as [_ [Hlk|Hlk]]; eauto.
  - split; [done|]. unfold listed in Hiff. rewrite Hiff, (Hadd k n Hnd Hall Hns Hin).
    rewrite list_elem_of_filter, orb_true_iff. clear. naive_solver.
Qed.

(** The nodes of the set, listed, are the control plane nodes of the
    cluster in some order, although several selectors found some twice. *)
Lemma listed_control_plane m w :
  NoDup (Node_Name <$> cluster_nodes w) →
  named (listed (controlPlaneSelectors m) ∅ w) ∧
  toList (listed (controlPlaneSelectors m) ∅ w) ≡ₚ control_plane_nodes m w.
Proof.
  intros Hnd. pose proof (λ k n, listed_lookup (controlPlaneSelectors m) ∅ w k n Hnd) as Hl.
  assert (named (listed (controlPlaneSelectors m) ∅ w)) as Hnamed
    by (by apply (Hl "" {| Node_Name := ""; Node_Labels := None; Node_Annotations := None;
      Node_ProviderID := ""; Node_Unschedulable := false; Node_Deleting := false;
      Node_Addresses := [] |})).
  split; [done|]. apply NoDup_Permutation.
  - by apply toList_NoDup.
  - apply NoDup_filter. by eapply NoDup_fmap_1.
  - intros n. rewrite elem_of_toList. unfold control_plane_nodes. rewrite list_elem_of_filter. split.
    + intros [k Hk]. apply Hl in Hk as (_ & [?|?]); try done. tauto.
    + intros [Hlab Hin]. exists (Node_Name n). apply Hl; try done. auto.
Qed.

(** The nodes [tryReassign] tries, once they are listed. *)
Definition potential m self w : list Node :=
  toList (nodeSet_filter (filters_of self) (listed (controlPlaneSelectors m) (newNodeSet []) w)).

Lemma potential_candidates m self w :
  NoDup (Node_Name <$> cluster_nodes w) →
  potential m self w ≡ₚ run_filters (filters_of self) (control_plane_nodes m w).
Proof.
  intros Hnd. destruct (listed_control_plane m w Hnd) as [Hnamed Hperm].
  unfold potential. rewrite toList_nodeSet_filter by (done || apply filters_of_ok).
  apply run_filters_Permutation; [apply filters_of_ok|exact Hperm].
Qed.
Lemma elem_of_potential m self w n :
  NoDup (Node_Name <$> cluster_nodes w) → n ∈ potential m self w ↔ eligible m self w n.
Proof. intros Hnd. by rewrite potential_candidates, elem_of_candidates. Qed.

Definition health_url m ip : string := healthURLFromControlPlaneEndpoint m ip.

(** The outcomes of [tryReassign]. *)
Lemma tryReassign_spec m ip self w r w' :
  NoDup (Node_Name <$> cluster_nodes w) →
  tryReassign m ip (filters_of self) w = (r, w') →
  match r with
  | Ok _ => ∃ node id, eligible m self w node ∧ healthy m (health_url m ip) w node = true ∧
      serverIDFromProviderID (Node_ProviderID node) = Ok id ∧
      api_ips w' = targeted (IP_ID ip) (Itoa id) <$> api_ips w
  | _ => api_ips w' = api_ips w
  end.
Proof.
  intros Hnd. unfold tryReassign, mbind, M_bind.
  destruct (list_nodes _ _ _) as [[ns|e|] w1] eqn:Hlist; apply list_nodes_run in Hlist as [-> Hns];
    [|by intros [= <- <-]..]. subst ns.
  unfold wrap_err. fold (potential m self w).
  destruct (reassign _ _ _ _ _) as [[u|e|] w1] eqn:Hre; apply reassign_spec in Hre;
    intros [= <- <-]; [|done..].
  destruct Hre as (node & id & Hin & Hrest). exists node, id. split; [|done].
  by apply elem_of_potential in Hin.
Qed.

Lemma tryReassign_unhealthy m ip self w :
  NoDup (Node_Name <$> cluster_nodes w) →
  (∀ n, eligible m self w n → healthy m (health_url m ip) w n = false) →
  ∃ r, tryReassign m ip (filters_of self) w = (r, w) ∧ r ≠ Ok ().
Proof.
  intros Hnd Hall. unfold tryReassign, mbind, M_bind.
  destruct (list_nodes _ _ _) as [[ns|e|] w1] eqn:Hlist; apply list_nodes_run in Hlist as [-> Hns];
    [|by eexists..]. subst ns.
  unfold wrap_err. fold (potential m self w).
  destruct (reassign_unhealthy m (potential m self w) ip (health_url m ip) w) as [e He].
  { apply Forall_forall. intros n Hn. apply Hall. by apply elem_of_potential in Hn. }
  unfold health_url in He. rewrite He. by eexists.
Qed.

Definition lists_nodes m w : Prop :=
  Forall (λ s, ∃ nodes, Nodes_List s w = (Ok nodes, w)) (controlPlaneSelectors m).

Lemma lists_nodes_run m w :
  lists_nodes m w → ∃ ns, list_nodes (controlPlaneSelectors m) (newNodeSet []) w = (Ok ns, w).
Proof.
  unfold lists_nodes. generalize (newNodeSet []) as ns0.
  intros ns0 Hls. revert ns0. induction Hls as [|s sels [nodes Hs] Hss IH]; intros ns0; [by eexists|].
  simpl. unfold wrap_err, mbind, M_bind. rewrite Hs. apply IH.
Qed.

Lemma tryReassign_live m ip self w :
  NoDup (Node_Name <$> cluster_nodes w) → lists_nodes m w → nodeAPIServerPort m ≠ 0%Z →
  (∃ n, eligible m self w n ∧ healthy m (health_url m ip) w n = true) →
  (∀ target, ∃ w', IPAddresses_Update (IP_ID ip) target w = (Ok (), w')) →
  (∃ w', tryReassign m ip (filters_of self) w = (Ok (), w')) ∨
  (∃ e n, tryReassign m ip (filters_of self) w = (Err e, w) ∧ eligible m self w n ∧
     healthy m (health_url m ip) w n = true ∧ unreadable n).
Proof.
  intros Hnd Hls Hport (n & Hel & Hh) Hup. unfold tryReassign, mbind, M_bind.
  destruct (lists_nodes_run m w Hls) as [ns Hlist]. rewrite Hlist.
  apply list_nodes_run in Hlist as [_ ->]. unfold wrap_err.
  fold (potential m self w) (health_url m ip).
  destruct (reassign_live m (potential m self w) ip (health_url m ip) w)
    as [[w' Hw]|(e & n' & Hw & Hin & Hn')]; try done.
  - apply Exists_exists. exists n. split; [by apply elem_of_potential|done].
  - left. exists w'. by rewrite Hw.
  - right. eexists _, n'. rewrite Hw. split; [done|]. split; [|done]. by apply elem_of_potential.
Qed.
End choice.

(** ** The endpoint *)

(** The first reservation with the tags now belongs to another server. *)
Fixpoint retarget_first (tags : gmap string string) (target : Z) (ips : list IPAddress)
  : list IPAddress :=
  match ips with
  | [] => []
  | ip :: ips' =>
      if decide (carries tags ip) then with_target target ip :: ips'
      else ip :: retarget_first tags target ips'
  end.

Section endpoint_lists.
Context (tags : gmap string string).
Implicit Types (ips : list IPAddress).

Lemma carries_with_target t ip : carries tags (with_target t ip) ↔ carries tags ip.
Proof. done. Qed.

Lemma retarget_first_twice t1 t2 ips :
  retarget_first tags t2 (retarget_first tags t1 ips) = retarget_first tags t2 ips.
Proof.
  induction ips as [|ip ips IH]; [done|]. simpl.
  destruct (decide (carries tags ip)) as [Hc|Hc]; simpl.
  - by rewrite decide_True by done.
  - rewrite decide_False by done. by rewrite IH.
Qed.

Lemma retarget_first_ids t ips : IP_ID <$> retarget_first tags t ips = IP_ID <$> ips.
Proof.
  induction ips as [|ip ips IH]; [done|]. simpl.
  destruct (decide _); simpl; [done|]. by f_equal.
Qed.

Lemma reservation_retarget t ips :
  ipReservationByAllTags tags (retarget_first tags t ips) =
  with_target t <$> ipReservationByAllTags tags ips.
Proof.
  unfold ipReservationByAllTags. rewrite !ipReservationsByAllTags_filter.
  induction ips as [|ip ips IH]; [done|]. simpl. rewrite (filter_cons (carries tags) ip ips).
  destruct (decide (carries tags ip)) as [Hc|Hc].
  - by rewrite filter_cons_True.
  - rewrite filter_cons_False by done. exact IH.
Qed.

Lemma targeted_others id target ips :
  id ∉ IP_ID <$> ips → targeted id target <$> ips = ips.
Proof.
  induction ips as [|ip ips IH]; [done|]. rewrite !fmap_cons, not_elem_of_cons. intros [Hne Hin].
  rewrite IH by done. unfold targeted. by rewrite decide_False.
Qed.

(** Updating the reservation that was found changes that one only. *)
Lemma targeted_first ips ip id :
  NoDup (IP_ID <$> ips) → ipReservationByAllTags tags ips = Some ip →
  (min_int ≤ id ≤ max_int)%Z →
  targeted (IP_ID ip) (Itoa id) <$> ips = retarget_first tags id ips.
Proof.
  unfold ipReservationByAllTags. rewrite ipReservationsByAllTags_filter.
  intros Hnd Hip Hid. induction ips as [|x ips IH]; [done|]. rewrite fmap_cons. cbn [retarget_first].
  rewrite fmap_cons, NoDup_cons in Hnd. destruct Hnd as [Hx Hnd].
  rewrite filter_cons in Hip. destruct (decide (carries tags x)) as [Hc|Hc].
  - injection Hip as ->. rewrite targeted_others by done. unfold targeted at 1.
    rewrite decide_True by done. by rewrite Atoi_Itoa.
  - rewrite IH by done. f_equal. unfold targeted. rewrite decide_False; [done|].
    intros Heq. apply Hx. rewrite Heq. apply list_elem_of_fmap_2.
    destruct (filter (carries tags) ips) as [|y l] eqn:E; [done|]. injection Hip as ->.
    assert (ip ∈ filter (carries tags) ips) as Hin by (rewrite E; apply list_elem_of_here).
    by apply list_elem_of_filter in Hin as [_ ?].
Qed.
End endpoint_lists.

Lemma serverID_range p id :
  serverIDFromProviderID p = Ok id → (min_int ≤ id ≤ max_int)%Z.
Proof.
  assert (∀ s z, Atoi s = Some z → (min_int ≤ z ≤ max_int)%Z) as Hatoi.
  { intros s z. unfold Atoi. destruct (parse_signed s) as [x|]; [|done]. simpl.
    destruct (_ && _) eqn:E; [|done]. intros [= <-]. apply andb_true_iff in E. lia. }
  unfold serverIDFromProviderID. destruct (decide _); [done|].
  destruct (Split p "://") as [|s [|r [|]]]; try done.
  - destruct (Atoi p) eqn:E; [|done]. intros [= <-]. by eapply Hatoi.
  - destruct (decide _); [done|]. destruct (Atoi r) eqn:E; [|done]. intros [= <-]. by eapply Hatoi.
Qed.

Section endpoint.
Context {W : Type} `{GoRange, CherryClient W, KubeClient W, HttpClient W, ApplyClient W,
  !HttpLaws W, !NodeLaws W, !ReservationLaws W}.
Implicit Types (m : controlPlaneEndpointManager) (ip : IPAddress) (w : W).

Definition endpoint_tags m : gmap string string := {[ fipTagKey m := fipTagValue m ]}.
Definition endpoint m w : option IPAddress :=
  ipReservationByAllTags (endpoint_tags m) (api_ips w).
Definition assigned (node : Node) (ip : IPAddress) : bool :=
  existsb (λ na, bool_decide (NodeAddress_Address na = IP_Address ip)) (Node_Addresses node).

Lemma getReservation_run m w r w' :
  getControlPlaneEndpointReservation m w = (r, w') →
  w' = w ∧ ∀ ip, r = Ok ip → endpoint m w = Some ip.
Proof.
  unfold getControlPlaneEndpointReservation, mbind, M_bind.
  destruct (IPAddresses_List _ _) as [[ips|e|] w1] eqn:Hlist;
    pose proof (IPAddresses_List_keeps _ _ _ _ Hlist) as ->; [|by intros [= <- <-]..].
  apply IPAddresses_List_Ok in Hlist as ->. fold (endpoint_tags m) (endpoint m w).
  destruct (endpoint m w); intros [= <- <-]; split; try done. by intros ? [= ->].
Qed.

Lemma getReservation_Ok m w ip :
  IPAddresses_List (projectID m) w = (Ok (api_ips w), w) → endpoint m w = Some ip →
  getControlPlaneEndpointReservation m w = (Ok ip, w).
Proof.
  intros Hl He. unfold getControlPlaneEndpointReservation, mbind, M_bind. rewrite Hl.
  fold (endpoint_tags m) (endpoint m w). by rewrite He.
Qed.

(** The condition under which the endpoint is looked after: it belongs to
    no server, or the node that has it fails its check. *)
Definition needs_move m node ip w : bool :=
  bool_decide (IP_TargetedTo_ID ip = 0%Z) ||
  assigned node ip && bool_decide (http_code w (checked_url m node ip) ≠ Some StatusOK).

(** A handler that found the endpoint either leaves the world alone or does
    what [tryReassign] does. *)
Lemma doHealthCheck_run m node w r w' :
  doHealthCheck m node w = (r, w') →
  w' = w ∨
  ∃ ip, endpoint m w = Some ip ∧ needs_move m node ip w = true ∧
        tryReassign m ip (filters_of None) w = (r, w').
Proof.
  unfold doHealthCheck, wrap_err, mbind, M_bind.
  destruct (getControlPlaneEndpointReservation m w) as [[ip|e|] w1] eqn:Hget;
    apply getReservation_run in Hget as [-> Hip]; [|intros [= _ <-]; by left..].
  specialize (Hip _ eq_refl). unfold needs_move, nodeIsAssigned, lift_res. fold (assigned node ip).
  destruct (decide (IP_TargetedTo_ID ip = 0%Z)) as [Ht|Ht].
  { intros Hrun. right. exists ip. by rewrite bool_decide_eq_true_2. }
  destruct (assigned node ip) eqn:Ha; [|intros [= _ <-]; by left].
  destruct (http_NewRequest _); [intros [= _ <-]; by left|]. unfold try.
  destruct (http_code w (checked_url m node ip)) as [code|] eqn:Hcode.
  - rewrite (http_Do_Some _ _ _ Hcode). destruct (decide (code = StatusOK)) as [->|Hne].
    + intros [= _ <-]. by left.
    + intros Hrun. right. exists ip. split; [done|]. split; [|done].
      apply orb_true_iff. right. rewrite Ha, Hcode. apply bool_decide_eq_true_2. congruence.
  - destruct (http_Do_None _ _ Hcode) as [e ->]. intros Hrun. right. exists ip.
    split; [done|]. split; [|done]. apply orb_true_iff. right. by rewrite Ha, Hcode.
Qed.

Lemma tryReassignAwayFromSelf_run m self w r w' :
  tryReassignAwayFromSelf m self w = (r, w') →
  w' = w ∨
  ∃ ip, endpoint m w = Some ip ∧
        assigned self ip || bool_decide (IP_TargetedTo_ID ip = 0%Z) = true ∧
        tryReassign m ip (filters_of (Some self)) w = (r, w').
Proof.
  unfold tryReassignAwayFromSelf, wrap_err, mbind, M_bind.
  destruct (getControlPlaneEndpointReservation m w) as [[ip|e|] w1] eqn:Hget;
    apply getReservation_run in Hget as [-> Hip]; [|intros [= _ <-]; by left..].
  specialize (Hip _ eq_refl). unfold nodeIsAssigned, lift_res. fold (assigned self ip).
  destruct (_ || _) eqn:E; [|intros [= _ <-]; by left]. intros Hrun. right. exists ip. done.
Qed.
End endpoint.

(** ** Properties *)

Section properties.
Context {W : Type} `{GoRange, CherryClient W, KubeClient W, HttpClient W, ApplyClient W,
  !HttpLaws W, !NodeLaws W, !ReservationLaws W}.
Implicit Types (m : controlPlaneEndpointManager) (ip : IPAddress) (w : W).

(** The world is as it was, but for the endpoint, which belongs to the
    server of an eligible node that answered its health check. *)
Definition moved_to m (self : option Node) w w' : Prop :=
  ∃ ip n id, endpoint m w = Some ip ∧ eligible m self w n ∧
    healthy m (health_url m ip) w n = true ∧
    serverIDFromProviderID (Node_ProviderID n) = Ok id ∧
    api_ips w' = retarget_first (endpoint_tags m) id (api_ips w) ∧
    endpoint m w' = Some (with_target id ip).

Lemma tryReassign_moved m self ip w r w' :
  NoDup (Node_Name <$> cluster_nodes w) → NoDup (IP_ID <$> api_ips w) →
  endpoint m w = Some ip → tryReassign m ip (filters_of self) w = (r, w') →
  match r with Ok _ => moved_to m self w w' | _ => api_ips w' = api_ips w end.
Proof.
  intros Hnd Hids Hip Hrun. apply tryReassign_spec in Hrun; [|done].
  destruct r as [u|e|]; [|done..]. destruct Hrun as (n & id & Hel & Hh & Hid & Hw).
  rewrite (targeted_first (endpoint_tags m) _ ip id) in Hw by (done || by eapply serverID_range).
  exists ip, n, id. do 5 (split; [done|]). unfold endpoint. rewrite Hw, reservation_retarget.
  unfold endpoint in Hip. by rewrite Hip.
Qed.

(** A health check that finds the endpoint in need of a place is
    [tryReassign]. *)
Lemma doHealthCheck_tries m node ip w :
  IPAddresses_List (projectID m) w = (Ok (api_ips w), w) →
  endpoint m w = Some ip → needs_move m node ip w = true →
  (IP_TargetedTo_ID ip ≠ 0%Z → http_NewRequest (checked_url m node ip) = None) →
  doHealthCheck m node w = tryReassign m ip (filters_of None) w.
Proof.
  intros Hl Hip Hneed Hreq.
  unfold doHealthCheck, wrap_err, mbind, M_bind. rewrite (getReservation_Ok m w ip) by done.
  destruct (decide (IP_TargetedTo_ID ip = 0%Z)) as [Ht|Ht]; [done|].
  unfold needs_move in Hneed. rewrite bool_decide_eq_false_2 in Hneed by done.
  apply andb_true_iff in Hneed as [Ha Hcode%bool_decide_eq_true].
  unfold nodeIsAssigned, lift_res. fold (assigned node ip). rewrite Ha, Hreq by done. unfold try.
  destruct (http_code w (checked_url m node ip)) as [code|] eqn:Hc.
  - rewrite (http_Do_Some _ _ _ Hc). rewrite decide_False; [done|]. congruence.
  - by destruct (http_Do_None _ _ Hc) as [e ->].
Qed.

(** C1: A health check never moves the floating IP without need: the
    reservations change only when it belonged to no server or the node that
    has it failed its check, and then only in that it now belongs to the
    server of a node that is live, preferably schedulable, a control plane
    node, and answered 200. *)
Theorem doHealthCheck_moves m node w r w' :
  NoDup (Node_Name <$> cluster_nodes w) → NoDup (IP_ID <$> api_ips w) →
  doHealthCheck m node w = (r, w') → api_ips w' ≠ api_ips w →
  (∃ ip, endpoint m w = Some ip ∧ needs_move m node ip w = true) ∧ r = Ok () ∧
  moved_to m None w w'.
Proof.
  intros Hnd Hids Hrun Hne. apply doHealthCheck_run in Hrun as [->|(ip & Hip & Hneed & Hrun)]; [done|].
  apply (tryReassign_moved _ _ ip) in Hrun; try done.
  destruct r as [[]|e|]; [|done..]. split; [by exists ip|done].
Qed.

(** C20: When a node becomes unschedulable or goes away, the floating IP it
    had, or that nobody had, moves to another eligible node, to the same one
    only if it is the only one; any failure leaves the reservations as they
    were. *)
Theorem tryReassignAwayFromSelf_spec m self w r w' :
  NoDup (Node_Name <$> cluster_nodes w) → NoDup (IP_ID <$> api_ips w) →
  tryReassignAwayFromSelf m self w = (r, w') →
  api_ips w' = api_ips w ∨
  (∃ ip, endpoint m w = Some ip ∧ (assigned self ip = true ∨ IP_TargetedTo_ID ip = 0%Z)) ∧
  r = Ok () ∧ moved_to m (Some self) w w'.
Proof.
  intros Hnd Hids Hrun.
  apply tryReassignAwayFromSelf_run in Hrun as [->|(ip & Hip & Hcond & Hrun)]; [by left|].
  apply (tryReassign_moved _ _ ip) in Hrun; try done.
  destruct r as [[]|e|]; [|by left..]. right. split; [|done]. exists ip. split; [done|].
  apply orb_true_iff in Hcond as [Ha|Ht]; [by left|right]. by apply bool_decide_eq_true in Ht.
Qed.

(** C2: When the node port is known, the APIs answer and node names and
    reservation IDs are unique, a floating IP that needs a new place gets one
    in the next health check as long as one eligible node answers. The one
    exception is an eligible node that answers and whose provider ID does
    not name a server: the search may end there, and then the check fails and
    nothing has changed. The URL of the check must be well formed when the
    floating IP belongs to a server. *)
Theorem doHealthCheck_live m node w ip :
  NoDup (Node_Name <$> cluster_nodes w) → NoDup (IP_ID <$> api_ips w) →
  IPAddresses_List (projectID m) w = (Ok (api_ips w), w) → lists_nodes m w →
  (∀ target, ∃ w', IPAddresses_Update (IP_ID ip) target w = (Ok (), w')) →
  nodeAPIServerPort m ≠ 0%Z →
  endpoint m w = Some ip → needs_move m node ip w = true →
  (IP_TargetedTo_ID ip ≠ 0%Z → http_NewRequest (checked_url m node ip) = None) →
  (∃ n, eligible m None w n ∧ healthy m (health_url m ip) w n = true) →
  (∃ w', doHealthCheck m node w = (Ok (), w') ∧ moved_to m None w w') ∨
  (∃ e n, doHealthCheck m node w = (Err e, w) ∧ eligible m None w n ∧
     healthy m (health_url m ip) w n = true ∧ unreadable n).
Proof.
  intros Hnd Hids Hl Hls Hup Hport Hip Hneed Hreq Hex.
  rewrite (doHealthCheck_tries m node ip) by done.
  destruct (tryReassign_live m ip None w) as [[w' Hw]|Hbad]; try done; [left|by right].
  exists w'. split; [done|]. by apply (tryReassign_moved m None ip w (Ok ())).
Qed.

(** C21: An unhealthy cluster is left as it is: when no eligible node answers
    its health check, both handlers end without changing anything. *)
Theorem unhealthy_cluster_untouched m node w :
  NoDup (Node_Name <$> cluster_nodes w) →
  (∀ ip self n, endpoint m w = Some ip → eligible m self w n →
     healthy m (health_url m ip) w n = false) →
  (doHealthCheck m node w).2 = w ∧ (tryReassignAwayFromSelf m node w).2 = w.
Proof.
  intros Hnd Hall. split.
  - destruct (doHealthCheck m node w) as [r w'] eqn:Hrun. simpl.
    apply doHealthCheck_run in Hrun as [->|(ip & Hip & _ & Hrun)]; [done|].
    destruct (tryReassign_unhealthy m ip None w) as (r' & Hr & _); [done|by intros; eapply Hall|].
    congruence.
  - destruct (tryReassignAwayFromSelf m node w) as [r w'] eqn:Hrun. simpl.
    apply tryReassignAwayFromSelf_run in Hrun as [->|(ip & Hip & _ & Hrun)]; [done|].
    destruct (tryReassign_unhealthy m ip (Some node) w) as (r' & Hr & _); [done|by intros; eapply Hall|].
    congruence.
Qed.

End properties.

(** ** Nodes on which the endpoint is not recognised

    Nothing is assumed of the nodes and of the HTTP client here: what these
    handlers would ask them would show. *)

Section unrecognised.
Context {W : Type} `{GoRange, CherryClient W, KubeClient W, HttpClient W, ApplyClient W,
  !ReservationLaws W}.
Implicit Types (m : controlPlaneEndpointManager) (ip : IPAddress) (w : W).

(** The first step of both handlers on its own: one call of the API, that
    lists the reservations of the project. *)
Definition only_lookup m : M W unit :=
  wrap_err (Errorw "failed to get the control plane endpoint for the cluster: %w" [])
    (getControlPlaneEndpointReservation m);;
  mret ().

Lemma unassigned_lookup m node ip w :
  endpoint m w = Some ip → IP_TargetedTo_ID ip ≠ 0%Z → assigned node ip = false →
  doHealthCheck m node w = only_lookup m w ∧ tryReassignAwayFromSelf m node w = only_lookup m w.
Proof.
  intros Hip Ht Ha. unfold doHealthCheck, tryReassignAwayFromSelf, only_lookup, wrap_err, mbind, M_bind.
  destruct (getControlPlaneEndpointReservation m w) as [[ip'|e|] w1] eqn:Hget; [|done..].
  apply getReservation_run in Hget as [-> Hip']. specialize (Hip' _ eq_refl).
  assert (ip' = ip) as -> by congruence. unfold nodeIsAssigned, lift_res. fold (assigned node ip).
  rewrite Ha. by rewrite decide_False, bool_decide_eq_false_2.
Qed.

(** The addresses reported for a server are its host name and its public and
    private ones. *)
Lemma reported_unassigned node server addresses ip :
  nodeAddresses server = Ok addresses → Node_Addresses node = addresses →
  IP_Address ip ≠ Server_Hostname server →
  (∀ ip', ip' ∈ Server_IPAddresses server → IP_Address ip' = IP_Address ip →
     IP_Type ip' ≠ serverPublicIPType ∧ IP_Type ip' ≠ serverPrivateIPType) →
  assigned node ip = false.
Proof.
  intros Haddr Hnode Hhost Htypes. apply not_true_iff_false. unfold assigned. rewrite Hnode. intros Hex.
  apply existsb_exists in Hex as (a & Hin%list_elem_of_In & Heq%bool_decide_eq_true).
  destruct (nodeAddresses_elem _ _ a Haddr Hin) as [Hh|(ip' & Hin' & Hip' & Hty)]; [congruence|].
  destruct (Htypes ip' Hin') as [? ?]; [congruence|]. tauto.
Qed.

(** C19: On a node with the addresses the cloud provider itself reports for
    a server, the endpoint is not recognised, when the API lists it on the
    server, if at all, as an address that is neither primary nor private and
    it is not written as the host name: [nodeIsAssigned] says no. Once the
    endpoint belongs to some server, both handlers then do one thing, which is
    to list the reservations: no health check, no request to any node, no
    listing of nodes and no assignment, whatever the clients would have
    answered; and they end without an error when the list is given. *)
Theorem reported_addresses_never_assigned m node server addresses ip w :
  nodeAddresses server = Ok addresses → Node_Addresses node = addresses →
  endpoint m w = Some ip → IP_TargetedTo_ID ip ≠ 0%Z →
  IP_Address ip ≠ Server_Hostname server →
  (∀ ip', ip' ∈ Server_IPAddresses server → IP_Address ip' = IP_Address ip →
     IP_Type ip' ≠ serverPublicIPType ∧ IP_Type ip' ≠ serverPrivateIPType) →
  nodeIsAssigned node ip = Ok false ∧
  doHealthCheck m node w = only_lookup m w ∧
  tryReassignAwayFromSelf m node w = only_lookup m w ∧
  (IPAddresses_List (projectID m) w = (Ok (api_ips w), w) → only_lookup m w = (Ok (), w)).
Proof.
  intros Haddr Hnode Hip Ht Hhost Htypes.
  pose proof (reported_unassigned _ _ _ ip Haddr Hnode Hhost Htypes) as Ha.
  destruct (unassigned_lookup m node ip w Hip Ht Ha) as [Hc Hr].
  split; [by unfold nodeIsAssigned; fold (assigned node ip); rewrite Ha|].
  do 2 (split; [done|]). intros Hl. unfold only_lookup, wrap_err, mbind, M_bind.
  by rewrite (getReservation_Ok m w ip).
Qed.
End unrecognised.

(** ** Sequences of events

    The informers deliver events one at a time per kind; a node that stops
    passing its filter is delivered as deleted. Between two handlers anyone
    else may change the world as [env] says. *)

Inductive event :=
| NodeUpdated (oldNode newNode : Node)
| NodeDeleted (n : Node)
| EndpointsChanged (e : Endpoints)
| ServiceChanged (s : Service).

Section events.
Context {W : Type} `{GoRange, CherryClient W, KubeClient W, HttpClient W, ApplyClient W}.
Implicit Types (m : controlPlaneEndpointManager) (w : W).

Definition passes m (e : event) : Prop :=
  match e with
  | NodeUpdated o n => nodes_FilterFunc m (Some o) = Ok true ∧ nodes_FilterFunc m (Some n) = Ok true
  | NodeDeleted n => nodes_FilterFunc m (Some n) = Ok true
  | EndpointsChanged e => endpoints_FilterFunc (Some e) = Ok true
  | ServiceChanged s => services_FilterFunc (Some s) = Ok true
  end.
Definition handle (e : event) : M (controlPlaneEndpointManager * W) unit :=
  match e with
  | NodeUpdated o n => nodes_UpdateFunc o n
  | NodeDeleted n => nodes_DeleteFunc n
  | EndpointsChanged e => endpoints_Func e
  | ServiceChanged s => services_Func s
  end.

Inductive step (env : relation W) : relation (controlPlaneEndpointManager * W) :=
| step_event e s r s' : passes s.1 e → handle e s = (r, s') → step env s s'
| step_env m w w' : env w w' → step env (m, w) (m, w').

(** A relation on the states that every handler and the environment stay
    within holds of every run. *)
Lemma step_invariant (R : relation (controlPlaneEndpointManager * W)) env s s' :
  PreOrder R →
  (∀ e s, passes s.1 e → R s (handle e s).2) → (∀ m w w', env w w' → R (m, w) (m, w')) →
  rtc (step env) s s' → R s s'.
Proof.
  intros HR Hev Henv. induction 1 as [s|s1 s2 s3 Hstep _ IH]; [reflexivity|].
  transitivity s2; [|exact IH]. destruct Hstep as [e s r s' Hp Hrun|m w w' Hw]; [|auto].
  specialize (Hev e s Hp). by rewrite Hrun in Hev.
Qed.

Lemma logged_state {S A} (c : M S A) s : (logged c s).2 = (c s).2.
Proof. unfold logged, try, mbind, M_bind, mret, M_ret. by destruct (c s) as [[]]. Qed.

Lemma with_manager_state {A} (f : controlPlaneEndpointManager → M W A) s :
  (with_manager f s).2 = (s.1, (f s.1 s.2).2).
Proof. unfold with_manager. by destruct (f s.1 s.2). Qed.

(** The manager after the service was synchronised. *)
Definition synced m (k8sService : Service) : controlPlaneEndpointManager :=
  match Service_Ports k8sService with
  | [] => m
  | port :: _ =>
      let node := ServicePort_TargetPort port in
      set_ports (if decide (apiServerPort m = 0%Z) then node else apiServerPort m) node m
  end.
Lemma syncService_run k8sService m w :
  syncService k8sService (m, w) =
    match Service_Ports k8sService with
    | [] => (Err (ENew "default/kubernetes service does not have any ports defined"), (m, w))
    | _ => with_manager applyService (synced m k8sService, w)
    end.
Proof. unfold syncService, synced. by destruct (Service_Ports k8sService). Qed.
Lemma syncService_state k8sService m w :
  (syncService k8sService (m, w)).2 =
    (synced m k8sService,
     if decide (Service_Ports k8sService = []) then w else (applyService (synced m k8sService) w).2).
Proof.
  rewrite syncService_run. unfold synced. destruct (Service_Ports k8sService); [done|].
  by rewrite with_manager_state.
Qed.

(** The manager after any handler. *)
Definition next_manager (e : event) m : controlPlaneEndpointManager :=
  match e with
  | ServiceChanged s =>
      if decide (Service_Namespace s ≠ NamespaceDefault ∨ Service_Name s ≠ "kubernetes") then m
      else synced m s
  | _ => m
  end.
Lemma handle_manager e s : (handle e s).2.1 = next_manager e s.1.
Proof.
  destruct s as [m w]. destruct e as [o n|n|e|svc]; simpl.
  - unfold nodes_UpdateFunc. destruct (_ && _); by rewrite logged_state, with_manager_state.
  - unfold nodes_DeleteFunc. by rewrite logged_state, with_manager_state.
  - unfold endpoints_Func. destruct (decide _); [done|]. by rewrite logged_state, with_manager_state.
  - unfold services_Func. destruct (decide _); [done|]. by rewrite logged_state, syncService_state.
Qed.

(** *** The ports over a run

    A run with the events it delivered, in order. *)
Inductive run (env : relation W) : list event → relation (controlPlaneEndpointManager * W) :=
| run_nil s : run env [] s s
| run_event e es s r s' s'' :
    passes s.1 e → handle e s = (r, s') → run env es s' s'' → run env (e :: es) s s''
| run_env es m w w' s'' : env w w' → run env es (m, w') s'' → run env es (m, w) s''.

Lemma steps_run env s s' : rtc (step env) s s' ↔ ∃ es, run env es s s'.
Proof.
  split.
  - induction 1 as [s|s1 s2 s3 Hstep _ [es IH]]; [by exists []; constructor|].
    destruct Hstep as [e s r s' Hp Hrun|m w w' Hw].
    + exists (e :: es). by eapply run_event.
    + exists es. by eapply run_env.
  - intros [es Hrun]. induction Hrun as [s|e es s r s' s'' Hp Hh _ IH|es m w w' s'' Hw _ IH]; [done|..].
    + eapply rtc_l; [by eapply step_event|done].
    + eapply rtc_l; [by eapply step_env|done].
Qed.

(** The target port an event makes known: that of the first port of
    [default/kubernetes]. *)
Definition event_port (e : event) : option Z :=
  match e with
  | ServiceChanged s =>
      if decide (Service_Namespace s ≠ NamespaceDefault ∨ Service_Name s ≠ "kubernetes") then None
      else ServicePort_TargetPort <$> head (Service_Ports s)
  | _ => None
  end.
Definition event_ports (es : list event) : list Z := omap event_port es.
(** What a port that is only replaced while it is zero becomes, and what one
    that is always replaced becomes. *)
Definition first_known (port : Z) (ports : list Z) : Z :=
  default 0%Z (head (filter (λ p, p ≠ 0%Z) (port :: ports))).
Definition last_known (port : Z) (ports : list Z) : Z := default port (last ports).

Lemma last_known_cons port p ports : last_known port (p :: ports) = last_known p ports.
Proof. unfold last_known. rewrite last_cons. by destruct (last ports). Qed.
Lemma first_known_cons port p ports :
  first_known port (p :: ports) = first_known (if decide (port = 0%Z) then p else port) ports.
Proof.
  unfold first_known. destruct (decide (port = 0%Z)) as [->|Hne].
  - by rewrite (filter_cons_False _ 0%Z) by tauto.
  - by rewrite !(filter_cons_True _ port) by done.
Qed.
Lemma first_known_nil port : first_known port [] = port.
Proof.
  unfold first_known. rewrite filter_cons. by destruct (decide _) as [|?%dec_stable].
Qed.

Lemma next_manager_ports e m :
  next_manager e m =
    match event_port e with
    | Some p => set_ports (if decide (apiServerPort m = 0%Z) then p else apiServerPort m) p m
    | None => m
    end.
Proof.
  destruct e as [| | |svc]; try done. simpl. destruct (decide _); [done|].
  unfold synced. by destruct (Service_Ports svc).
Qed.

Lemma run_manager env es s s' :
  run env es s s' →
  s'.1 = set_ports (first_known (apiServerPort s.1) (event_ports es))
           (last_known (nodeAPIServerPort s.1) (event_ports es)) s.1.
Proof.
  induction 1 as [s|e es s r s' s'' Hp Hh _ IH|es m w w' s'' Hw _ IH].
  - simpl. rewrite first_known_nil. by destruct s as [[] ?].
  - rewrite IH. assert (s'.1 = next_manager e s.1) as -> by (by rewrite <-handle_manager, Hh).
    rewrite next_manager_ports. unfold event_ports. cbn [omap list_omap].
    destruct (event_port e) as [p|]; [|done].
    by rewrite first_known_cons, last_known_cons.
  - exact IH.
Qed.

(** C22: What the manager is after any sequence of events, whatever else
    happens in the cluster. The port of the nodes is overwritten at every
    synchronisation of [default/kubernetes]: it is the target port of the
    last one that had ports. The port of the floating IP is the configured
    one, or, when none was configured, the first target port other than zero,
    and later ones do not change it. Nothing else of the manager changes,
    and the port of the floating IP is known whenever that of the nodes is,
    if that was so at the beginning. *)
Theorem ports_tracked env es m w m' w' :
  run env es (m, w) (m', w') →
  m' = set_ports (first_known (apiServerPort m) (event_ports es))
         (last_known (nodeAPIServerPort m) (event_ports es)) m ∧
  ((nodeAPIServerPort m ≠ 0%Z → apiServerPort m ≠ 0%Z) →
   nodeAPIServerPort m' ≠ 0%Z → apiServerPort m' ≠ 0%Z).
Proof.
  intros Hrun%run_manager. simpl in Hrun. split; [done|]. subst m'. simpl. intros Hk.
  generalize dependent (nodeAPIServerPort m). generalize (apiServerPort m).
  induction (event_ports es) as [|p ports IH]; intros api node Hk.
  - rewrite first_known_nil. exact Hk.
  - rewrite first_known_cons, last_known_cons. apply IH. by destruct (decide (api = 0%Z)) as [->|].
Qed.
End events.

(** What the other calls of the handlers do to the reservations: nothing. *)
Class KeepsEndpoint (W : Type) `{CherryClient W, ApplyClient W, !ReservationLaws W} : Prop := {
  keeps_Endpoints_Apply : ∀ ns e mgr, keeps (api_ips (W := W)) (Endpoints_Apply ns e mgr);
  keeps_Services_Apply : ∀ ns s mgr, keeps (api_ips (W := W)) (Services_Apply ns s mgr);
  keeps_Services_ApplyStatus : ∀ ns s mgr, keeps (api_ips (W := W)) (Services_ApplyStatus ns s mgr)
}.
#[export] Hint Resolve keeps_Endpoints_Apply keeps_Services_Apply keeps_Services_ApplyStatus : keeps.

Section runs.
Context {W : Type} `{GoRange, CherryClient W, KubeClient W, HttpClient W, ApplyClient W,
  !HttpLaws W, !NodeLaws W, !ReservationLaws W, !KeepsEndpoint W}.
Implicit Types (m : controlPlaneEndpointManager) (w : W).

(** Nothing happened to the reservations, or the endpoint was moved. *)
Definition only_endpoint (tags : gmap string string) (ips ips' : list IPAddress) : Prop :=
  ips' = ips ∨ ∃ target, ips' = retarget_first tags target ips.
#[local] Instance only_endpoint_PreOrder tags : PreOrder (only_endpoint tags).
Proof.
  split; [by left|]. intros l1 l2 l3 [->|[t1 ->]] [->|[t2 ->]]; [by left|right..]; eauto.
  rewrite retarget_first_twice. eauto.
Qed.
Lemma only_endpoint_ids tags ips ips' :
  only_endpoint tags ips ips' → IP_ID <$> ips' = IP_ID <$> ips.
Proof. intros [->|[t ->]]; [done|apply retarget_first_ids]. Qed.

Lemma keeps_applyService m : keeps (api_ips (W := W)) (applyService m).
Proof.
  assert (keeps (api_ips (W := W)) (getControlPlaneEndpointReservation m)) as Hget.
  { intros w r w' Hrun. by apply getReservation_run in Hrun as [-> _]. }
  unfold applyService. solve_keeps.
Qed.
Lemma keeps_syncEndpoints e : keeps (api_ips (W := W)) (syncEndpoints e).
Proof. unfold syncEndpoints. solve_keeps. Qed.

Lemma tryReassign_only m self ip w r w' :
  NoDup (IP_ID <$> api_ips w) → endpoint m w = Some ip →
  tryReassign m ip (filters_of self) w = (r, w') →
  only_endpoint (endpoint_tags m) (api_ips w) (api_ips w').
Proof.
  intros Hids Hip. unfold tryReassign, wrap_err, mbind, M_bind.
  destruct (list_nodes _ _ _) as [[ns|e|] w1] eqn:Hlist; apply list_nodes_run in Hlist as [-> _];
    [|intros [= _ <-]; by left..].
  destruct (reassign _ _ _ _ _) as [[u|e|] w1] eqn:Hre; apply reassign_spec in Hre;
    intros [= _ <-]; [|by left..].
  destruct Hre as (node & id & _ & _ & Hid & Hw). right. exists id. rewrite Hw.
  apply targeted_first; [done|done|by eapply serverID_range].
Qed.

Lemma handle_only e m w :
  NoDup (IP_ID <$> api_ips w) →
  only_endpoint (endpoint_tags m) (api_ips w) (api_ips (handle e (m, w)).2.2).
Proof.
  intros Hids.
  assert (∀ node, only_endpoint (endpoint_tags m) (api_ips w) (api_ips (doHealthCheck m node w).2))
    as Hcheck.
  { intros node. destruct (doHealthCheck m node w) as [r w'] eqn:Hrun.
    apply doHealthCheck_run in Hrun as [->|(ip & Hip & _ & Hrun)]; [by left|].
    by eapply tryReassign_only. }
  assert (∀ node, only_endpoint (endpoint_tags m) (api_ips w)
            (api_ips (tryReassignAwayFromSelf m node w).2)) as Haway.
  { intros node. destruct (tryReassignAwayFromSelf m node w) as [r w'] eqn:Hrun.
    apply tryReassignAwayFromSelf_run in Hrun as [->|(ip & Hip & _ & Hrun)]; [by left|].
    by eapply tryReassign_only. }
  destruct e as [o n|n|e|svc]; simpl.
  - unfold nodes_UpdateFunc. destruct (_ && _); rewrite logged_state, with_manager_state; simpl; auto.
  - unfold nodes_DeleteFunc. rewrite logged_state, with_manager_state. simpl. auto.
  - unfold endpoints_Func. destruct (decide _); [by left|].
    rewrite logged_state, with_manager_state. left. simpl.
    destruct (syncEndpoints e w) eqn:Hrun. by eapply keeps_syncEndpoints.
  - unfold services_Func. destruct (decide _); [by left|].
    rewrite logged_state, syncService_state. left. simpl. destruct (decide _); [done|].
    destruct (applyService _ w) eqn:Hrun. by eapply keeps_applyService.
Qed.

(** C18: Over any sequence of events the manager touches one thing of the
    project's reservations, the target of the endpoint: every other
    reservation, and the order, IDs, addresses and tags of all, stay as they
    are, as long as nobody else changes the reservations. *)
Theorem only_endpoint_moves env m w m' w' :
  (∀ w1 w2, env w1 w2 → api_ips w2 = api_ips w1) →
  NoDup (IP_ID <$> api_ips w) →
  rtc (step env) (m, w) (m', w') →
  only_endpoint (endpoint_tags m) (api_ips w) (api_ips w').
Proof.
  intros Henv Hids Hrun.
  pose (R := λ s s' : controlPlaneEndpointManager * W,
    NoDup (IP_ID <$> api_ips s.2) →
    endpoint_tags s'.1 = endpoint_tags s.1 ∧ only_endpoint (endpoint_tags s.1) (api_ips s.2) (api_ips s'.2)).
  apply (step_invariant R env (m, w) (m', w')); [| | |done|done].
  - split; [intros s Hs; split; [done|by left]|]. intros s1 s2 s3 H12 H23 Hs1.
    destruct (H12 Hs1) as [Ht12 Ho12].
    destruct H23 as [Ht23 Ho23]; [by rewrite (only_endpoint_ids _ _ _ Ho12)|].
    split; [by rewrite Ht23|]. rewrite Ht12 in Ho23. by etransitivity.
  - intros e [m1 w1] _ Hs. split; [|by apply handle_only]. rewrite handle_manager.
    destruct e as [| | |svc]; try done. simpl. destruct (decide _); [done|].
    unfold synced. by destruct (Service_Ports svc).
  - intros m1 w1 w2 Hw Hs. split; [done|]. left. by apply Henv.
Qed.
End runs.

(** ** What is applied, and the name of the server *)

(** The object an apply configuration describes: fields left out are zero. *)
Definition read_reference (r : applyconfig.ObjectReference) : ObjectReference := {|
  Ref_APIVersion := default "" (applyconfig.Ref_APIVersion r);
  Ref_FieldPath := default "" (applyconfig.Ref_FieldPath r);
  Ref_Kind := default "" (applyconfig.Ref_Kind r);
  Ref_Name := default "" (applyconfig.Ref_Name r);
  Ref_Namespace := default "" (applyconfig.Ref_Namespace r);
  Ref_ResourceVersion := default "" (applyconfig.Ref_ResourceVersion r);
  Ref_UID := default "" (applyconfig.Ref_UID r) |}.
Definition read_address (a : applyconfig.EndpointAddress) : EndpointAddress := {|
  Endpoint_Hostname := default "" (applyconfig.Endpoint_Hostname a);
  Endpoint_IP := default "" (applyconfig.Endpoint_IP a);
  Endpoint_NodeName := applyconfig.Endpoint_NodeName a;
  Endpoint_TargetRef := read_reference <$> applyconfig.Endpoint_TargetRef a |}.
Definition read_port (p : applyconfig.EndpointPort) : EndpointPort := {|
  Port_Name := default "" (applyconfig.Port_Name p);
  Port_Port := default 0%Z (applyconfig.Port_Port p);
  Port_Protocol := default "" (applyconfig.Port_Protocol p);
  Port_AppProtocol := applyconfig.Port_AppProtocol p |}.
Definition read_subset (s : applyconfig.EndpointSubset) : EndpointSubset := {|
  Subset_Addresses := read_address <$> applyconfig.Subset_Addresses s;
  Subset_NotReadyAddresses := read_address <$> applyconfig.Subset_NotReadyAddresses s;
  Subset_Ports := read_port <$> applyconfig.Subset_Ports s |}.

Lemma read_address_config a : read_address (EndpointAddressApplyConfig a) = a.
Proof. by destruct a as [? ? [] [[]|]]. Qed.
Lemma read_port_config p : read_port (EndpointPortApplyConfig p) = p.
Proof. by destruct p as [? ? ? []]. Qed.
Lemma fmap_id_ext {A} (f : A → A) (l : list A) : (∀ x, f x = x) → f <$> l = l.
Proof. intros Hf. induction l as [|x l IH]; [done|]. rewrite fmap_cons, Hf. by f_equal. Qed.

(** The mirrored endpoints describe exactly the subset they were made
    from: addresses, addresses that are not ready, and ports, with their
    optional fields. *)
Theorem EndpointSubset_roundtrip subset : read_subset (EndpointSubsetApplyConfig subset) = subset.
Proof.
  destruct subset as [a n p]. unfold read_subset, EndpointSubsetApplyConfig. simpl.
  rewrite <-!list_fmap_compose.
  by rewrite !fmap_id_ext by (intros x; apply read_address_config || apply read_port_config).
Qed.

(** The server name is the host of the configuration without its port,
    whether it is written as a URL or as host and port, or as a bare name. *)
Theorem serverNameFromConfig_spec `{UrlParser} cfg name :
  no_char ":" name → no_char "[" name → no_char "]" name →
  (∃ u, url_Parse (rest_Host cfg) = Ok u ∧ (URL_Scheme u = "http" ∨ URL_Scheme u = "https") ∧
        URL_Hostname u = name)
  ∨ (∀ u, url_Parse (rest_Host cfg) = Ok u → URL_Scheme u ≠ "http" ∧ URL_Scheme u ≠ "https") ∧
    (rest_Host cfg = name ∨ ∃ port, rest_Host cfg = name +:+ String ":" port ∧
       no_char ":" port ∧ no_char "[" port ∧ no_char "]" port) →
  serverNameFromConfig cfg = name.
Proof.
  intros Hc Ho Hd Hcase. unfold serverNameFromConfig.
  assert (SplitHostPort name = Err (AddrError "missing port in address")) as Hbare.
  { unfold SplitHostPort, CutLast. by rewrite Cut_none by (by apply no_char_rev). }
  destruct Hcase as [(u & -> & Hs & Hh)|[Hno Hname]].
  { rewrite decide_True by done. by rewrite Hh, Hbare. }
  assert (match url_Parse (rest_Host cfg) with
    | Ok apiURL => if decide (URL_Scheme apiURL = "http" ∨ URL_Scheme apiURL = "https")
                   then URL_Hostname apiURL else rest_Host cfg
    | _ => rest_Host cfg end = rest_Host cfg) as ->.
  { destruct (url_Parse _) as [u| |]; [|done..]. rewrite decide_False; [done|].
    destruct (Hno u eq_refl). tauto. }
  destruct Hname as [->|(port & -> & Hp)]; [by rewrite Hbare|].
  by rewrite SplitHostPort_join by tauto.
Qed.

(** ** Concrete runs *)

Global Program Instance World_http_laws : HttpLaws World := {|
  http_code := λ w url, if w_down w then None else k_health (w_kube w) !! url
|}.
Next Obligation.
  intros w url code. simpl. unfold online. destruct (w_down w); [done|]. by intros ->.
Qed.
Next Obligation.
  intros w url. simpl. unfold online. destruct (w_down w); [by eexists|]. intros ->. by eexists.
Qed.

Global Program Instance World_node_laws : NodeLaws World := {|
  cluster_nodes := λ w, k_nodes (w_kube w)
|}.
Next Obligation. intros label w r w'. simpl. unfold online. destruct (w_down w); by intros [= _ <-]. Qed.
Next Obligation.
  intros label w nodes w'. simpl. unfold online. destruct (w_down w); [done|]. intros [= <- _].
  apply list_filter_iff. intros n. unfold HasLabel. by rewrite bool_decide_eq_true.
Qed.

Global Instance World_keeps_endpoint : KeepsEndpoint World.
Proof.
  split; intros ns x mgr w r w'; simpl; unfold apply, online; destruct (w_down w); by intros [= _ <-].
Qed.

Local Existing Instance key_order.
Definition cp_labels : option (gmap string string) :=
  Some {[ "node-role.kubernetes.io/control-plane" := "" ]}.
Definition cp_address (t a : string) : NodeAddress :=
  {| NodeAddress_Type := t; NodeAddress_Address := a |}.
Definition cp_node (name id : string) (addresses : list NodeAddress) : Node := {|
  Node_Name := name; Node_Labels := cp_labels; Node_Annotations := None;
  Node_ProviderID := "cherryservers://" +:+ id; Node_Unschedulable := false;
  Node_Deleting := false; Node_Addresses := addresses |}.
Definition cp_1 : Node :=
  cp_node "n1" "7" [cp_address "InternalIP" "10.0.0.1"; cp_address "ExternalIP" "203.0.113.9"].
Definition cp_2 : Node := cp_node "n2" "8" [cp_address "Hostname" "n2"; cp_address "InternalIP" "10.0.0.2"].
Definition cp_ip (target : Z) : IPAddress := {|
  IP_ID := "ip-9"; IP_Address := "203.0.113.9"; IP_Cidr := "203.0.113.9/32"; IP_Type := "floating-ip";
  IP_Tags := Some {[ "fip" := "cp" ]}; IP_TargetedTo_ID := target |}.
Definition cp_manager (api : Z) : controlPlaneEndpointManager := {|
  apiServerPort := api; nodeAPIServerPort := 6443; fipTagKey := "fip"; fipTagValue := "cp";
  projectID := 1; controlPlaneSelectors := controlPlaneLabels; useHostIP := false |}.
(** The first node has the floating IP and does not answer, unless its
    address is among those that do. *)
Definition cp_world (target : Z) (healthy : list string) : World :=
  set_cherry {| c_ips := [cp_ip target]; c_next := 10; c_servers := ∅; c_project := no_project |}
    (set_kube {| k_uid := Some "uid"; k_nodes := [cp_1; cp_2]; k_services := ∅;
                 k_health := list_to_map ((λ a, (a, 200%Z)) <$> healthy); k_applied := [] |} empty_world).
Definition cp_sick : World := cp_world 7 ["https://10.0.0.2:6443/healthz"].

Lemma doHealthCheck_moves_witness :
  moved_to (cp_manager 443) None cp_sick (final (doHealthCheck (cp_manager 443) cp_1) cp_sick).
Proof.
  assert (doHealthCheck (cp_manager 443) cp_1 cp_sick =
    (Ok (), final (doHealthCheck (cp_manager 443) cp_1) cp_sick)) as Hrun by vm_refl.
  refine (proj2 (proj2 (doHealthCheck_moves (cp_manager 443) cp_1 cp_sick (Ok ()) _ _ _ Hrun _))).
  - refine (bool_decide_eq_true_1 _ _); vm_refl.
  - refine (bool_decide_eq_true_1 _ _); vm_refl.
  - intros Heq. apply (f_equal (λ l, bool_decide (IP_TargetedTo_ID <$> l = [7%Z]))) in Heq.
    vm_compute in Heq. discriminate Heq.
Defined.

Lemma tryReassignAwayFromSelf_spec_witness :
  let w := cp_sick in
  let w' := final (tryReassignAwayFromSelf (cp_manager 443) cp_1) w in
  api_ips w' = api_ips w ∨
  (∃ ip, endpoint (cp_manager 443) w = Some ip ∧ (assigned cp_1 ip = true ∨ IP_TargetedTo_ID ip = 0%Z)) ∧
  Ok () = Ok () ∧ moved_to (cp_manager 443) (Some cp_1) w w'.
Proof.
  assert (tryReassignAwayFromSelf (cp_manager 443) cp_1 cp_sick =
    (Ok (), final (tryReassignAwayFromSelf (cp_manager 443) cp_1) cp_sick)) as Hrun by vm_refl.
  refine (tryReassignAwayFromSelf_spec (cp_manager 443) cp_1 cp_sick (Ok ()) _ _ _ Hrun);
    refine (bool_decide_eq_true_1 _ _); vm_refl.
Defined.

Lemma eligible_cp_2 : eligible (cp_manager 443) None cp_sick cp_2.
Proof.
  split; [|done]. split; [split; [|done]|by left].
  unfold control_plane_nodes. apply list_elem_of_filter. split; [done|].
  apply list_elem_of_further, list_elem_of_here.
Qed.
Lemma eligible_cluster m self w n : eligible m self w n → n ∈ cluster_nodes w.
Proof. intros [[[Hn _] _] _]. by apply list_elem_of_filter in Hn as [_ ?]. Qed.

Lemma doHealthCheck_live_witness :
  (∃ w', doHealthCheck (cp_manager 443) cp_1 cp_sick = (Ok (), w') ∧
     moved_to (cp_manager 443) None cp_sick w') ∨
  (∃ e n, doHealthCheck (cp_manager 443) cp_1 cp_sick = (Err e, cp_sick) ∧
     eligible (cp_manager 443) None cp_sick n ∧
     healthy (cp_manager 443) (health_url (cp_manager 443) (cp_ip 7)) cp_sick n = true ∧ unreadable n).
Proof.
  refine (doHealthCheck_live (cp_manager 443) cp_1 cp_sick (cp_ip 7) _ _ _ _ _ _ _ _ _ _).
  - refine (bool_decide_eq_true_1 _ _); vm_refl.
  - refine (bool_decide_eq_true_1 _ _); vm_refl.
  - vm_refl.
  - repeat (apply Forall_cons_2; [by eexists|]). apply Forall_nil_2.
  - intros target. by eexists.
  - done.
  - vm_refl.
  - vm_refl.
  - done.
  - exists cp_2. split; [exact eligible_cp_2|vm_refl].
Defined.

(** The exception is real: one node answers and could have the address, but
    the one the range over the set of nodes gives before it, which answers
    too, has a provider ID of another cloud, and the check ends there. *)
Definition cp_foreign : Node := {|
  Node_Name := "n3"; Node_Labels := cp_labels; Node_Annotations := None;
  Node_ProviderID := "aws://8"; Node_Unschedulable := false; Node_Deleting := false;
  Node_Addresses := [cp_address "InternalIP" "10.0.0.3"] |}.
Definition cp_mixed : World :=
  let w := cp_world 0 ["https://10.0.0.2:6443/healthz"; "https://10.0.0.3:6443/healthz"] in
  set_kube {| k_uid := Some "uid"; k_nodes := [cp_foreign; cp_2]; k_services := ∅;
              k_health := k_health (w_kube w); k_applied := [] |} w.
Lemma unreadable_node_blocks :
  (∃ e, doHealthCheck (cp_manager 443) cp_1 cp_mixed = (Err e, cp_mixed)) ∧
  eligible (cp_manager 443) None cp_mixed cp_2 ∧
  healthy (cp_manager 443) (health_url (cp_manager 443) (cp_ip 0)) cp_mixed cp_2 = true.
Proof.
  split.
  { exists (match (doHealthCheck (cp_manager 443) cp_1 cp_mixed).1 with Err e => e | _ => ENew "" end).
    vm_refl. }
  split; [|vm_refl]. split; [|done]. split; [split; [|done]|by left].
  apply list_elem_of_filter. split; [done|]. apply list_elem_of_further, list_elem_of_here.
Qed.

Lemma unhealthy_cluster_untouched_witness :
  let w := cp_world 7 [] in
  (doHealthCheck (cp_manager 443) cp_1 w).2 = w ∧ (tryReassignAwayFromSelf (cp_manager 443) cp_1 w).2 = w.
Proof.
  refine (unhealthy_cluster_untouched (cp_manager 443) cp_1 (cp_world 7 []) _ _).
  - refine (bool_decide_eq_true_1 _ _); vm_refl.
  - intros ip self n _ [->|[->|[]%elem_of_nil]%elem_of_cons]%eligible_cluster%elem_of_cons.
    + unfold healthy. apply not_true_iff_false. intros Hex.
      apply existsb_exists in Hex as (a & _ & Ha%bool_decide_eq_true). by destruct Ha as (_ & _ & _ & ?).
    + unfold healthy. apply not_true_iff_false. intros Hex.
      apply existsb_exists in Hex as (a & _ & Ha%bool_decide_eq_true). by destruct Ha as (_ & _ & _ & ?).
Defined.

(** The server of the first node, as the API shows it. *)
Definition cp_server_ip (addr typ : string) : IPAddress := {|
  IP_ID := addr; IP_Address := addr; IP_Cidr := addr +:+ "/32"; IP_Type := typ;
  IP_Tags := None; IP_TargetedTo_ID := 7 |}.
Definition cp_server : Server := {|
  Server_ID := 7; Server_Hostname := "n1"; Server_State := "active";
  Server_Plan := Server_Plan no_server; Server_Region := Server_Region no_server;
  Server_Project := no_project;
  Server_IPAddresses := [cp_server_ip "5.199.0.1" "primary-ip"; cp_server_ip "10.0.0.1" "private-ip";
                         cp_server_ip "203.0.113.9" "floating-ip"];
  Server_BGP_Enabled := false; Server_Tags := None |}.
Definition cp_reported : list NodeAddress :=
  match nodeAddresses cp_server with Ok l => l | _ => [] end.

Lemma reported_addresses_never_assigned_witness :
  let node := cp_node "n1" "7" cp_reported in
  nodeIsAssigned node (cp_ip 7) = Ok false ∧
  doHealthCheck (cp_manager 443) node cp_sick = only_lookup (cp_manager 443) cp_sick ∧
  tryReassignAwayFromSelf (cp_manager 443) node cp_sick = only_lookup (cp_manager 443) cp_sick ∧
  only_lookup (cp_manager 443) cp_sick = (Ok (), cp_sick).
Proof.
  destruct (reported_addresses_never_assigned (cp_manager 443) (cp_node "n1" "7" cp_reported) cp_server
    cp_reported (cp_ip 7) cp_sick) as (Ha & Hc & Hr & Hl).
  - vm_refl.
  - done.
  - vm_refl.
  - done.
  - done.
  - intros ip' [->|[->|[->|[]%elem_of_nil]%elem_of_cons]%elem_of_cons]%elem_of_cons; done.
  - split; [exact Ha|split; [exact Hc|split; [exact Hr|apply Hl; vm_refl]]].
Defined.

(** The service with the port of the API servers, then a health check. *)
Definition cp_service : Service := {|
  Service_Namespace := "default"; Service_Name := "kubernetes"; Service_Annotations := None;
  Service_LoadBalancerIP := ""; Service_Ports := [{| ServicePort_TargetPort := 6443 |}] |}.
Definition cp_history : list event := [ServiceChanged cp_service; NodeUpdated cp_1 cp_1].
Definition cp_events (s : controlPlaneEndpointManager * World) : controlPlaneEndpointManager * World :=
  (handle (NodeUpdated cp_1 cp_1) (handle (ServiceChanged cp_service) s).2).2.
Lemma cp_events_run env api :
  run env cp_history (cp_manager api, cp_sick) (cp_events (cp_manager api, cp_sick)).
Proof.
  eapply (run_event _ (ServiceChanged cp_service)); [done|apply surjective_pairing|].
  eapply (run_event _ (NodeUpdated cp_1 cp_1)); [|apply surjective_pairing|apply run_nil].
  rewrite handle_manager. destruct (decide (api = 0%Z)) as [->|Hne]; [by split; vm_refl|].
  split; unfold nodes_FilterFunc; simpl; by rewrite !decide_False by (simpl; rewrite ?decide_False by done; lia).
Qed.
Lemma cp_events_steps env :
  rtc (step env) (cp_manager 443, cp_sick) (cp_events (cp_manager 443, cp_sick)).
Proof. apply steps_run. eexists. apply cp_events_run. Qed.

(** The manager was built without a port: it takes that of the service. *)
Lemma ports_tracked_witness :
  (cp_events (cp_manager 0, cp_sick)).1 = cp_manager 6443.
Proof.
  exact (proj1 (ports_tracked eq cp_history (cp_manager 0) cp_sick _ (cp_events (cp_manager 0, cp_sick)).2
    (eq_ind _ (λ s, run eq cp_history _ s) (cp_events_run eq 0) _
       (surjective_pairing (cp_events (cp_manager 0, cp_sick)))))).
Defined.

Lemma only_endpoint_moves_witness :
  only_endpoint (endpoint_tags (cp_manager 443)) (api_ips cp_sick)
    (api_ips (cp_events (cp_manager 443, cp_sick)).2).
Proof.
  refine (only_endpoint_moves eq (cp_manager 443) cp_sick (cp_events (cp_manager 443, cp_sick)).1
    _ _ _ (eq_ind _ (λ s, rtc (step eq) _ s) (cp_events_steps eq) _
       (surjective_pairing (cp_events (cp_manager 443, cp_sick))))).
  - by intros w1 w2 ->.
  - refine (bool_decide_eq_true_1 _ _); vm_refl.
Defined.

Definition no_urls : UrlParser := λ _, Err (EExt "parse").
Lemma serverNameFromConfig_spec_witness :
  @serverNameFromConfig no_urls {| rest_Host := "1.2.3.4:6443"; rest_ServerName := "" |} = "1.2.3.4".
Proof.
  refine (@serverNameFromConfig_spec no_urls {| rest_Host := "1.2.3.4:6443"; rest_ServerName := "" |}
    "1.2.3.4" _ _ _ (or_intror (conj _ (or_intror (ex_intro _ "6443" _)))));
    try (vm_compute; by repeat split).
Defined.
