(* ===== verification/Controllers.v ===== *)
(** * The two controllers together

    The load balancer controller of [cherry/loadbalancers.go] and the control
    plane endpoint manager of [cherry/fip_controlplane_reconciliation.go] work
    on the same reservations of one project. This file runs both, for any
    number of services, in any order and with any calls failing, and shows
    what stays true of the reservations. *)

From S2P Require Import Prelude Constants GoStrings GoSort GoHash Api World Reservations LoadBalancer LoadBalancers LoadBalancerProps ControlPlane ControlPlaneProps.

(** ** Definitions *)

(** A call of the cloud controller for one service. *)
Inductive lb_event :=
| GetCalled (svc : Service)
| EnsureCalled (svc : Service) (nodes : list Node)
| UpdateCalled (svc : Service) (nodes : list Node)
| DeletedCalled (svc : Service).

Section both.
Context {W : Type} `{GoRange, PdqSort, CherryClient W, KubeClient W, HttpClient W, ApplyClient W,
  !ReservationLaws W} (l : loadBalancers W).

Definition call (e : lb_event) : M W unit :=
  match e with
  | GetCalled svc => _ ← GetLoadBalancer l svc; mret ()
  | EnsureCalled svc nodes => _ ← EnsureLoadBalancer l svc nodes; mret ()
  | UpdateCalled svc nodes => UpdateLoadBalancer l svc nodes
  | DeletedCalled svc => EnsureLoadBalancerDeleted l svc
  end.
(** The calls that [allowed] admits, whatever their outcome. *)
Definition lb_step (allowed : lb_event → Prop) (w w' : W) : Prop :=
  ∃ e r, allowed e ∧ call e w = (r, w').
Definition any_call (e : lb_event) : Prop := True.
(** Every call but the deletion of one service. *)
Definition keeps_service (svc : Service) (e : lb_event) : Prop :=
  ∀ svc', e = DeletedCalled svc' → tags_of l svc' ≠ tags_of l svc.

(** One event of the endpoint manager, or one call for a service; the API
    gives each reservation an ID of its own. *)
Definition cloud_step (allowed : lb_event → Prop) (s s' : controlPlaneEndpointManager * W) : Prop :=
  step (lb_step allowed) s s' ∧ NoDup (IP_ID <$> api_ips s'.2).

(** What a call for a service can do to the reservations: nothing, one more
    with its tags where there was none, or one with its tags less. *)
Definition lb_effect (tags : gmap string string) (before after : list IPAddress) : Prop :=
  one_more tags before after ∨
  ∃ ip, ip ∈ before ∧ carries tags ip ∧ after = filter (λ ip', IP_ID ip' ≠ IP_ID ip) before.
End both.

(** How many reservations have the tags. *)
Definition count (tags : gmap string string) (ips : list IPAddress) : nat :=
  length (filter (carries tags) ips).

(** ** Lemmas *)

Section lemmas.
Context {W : Type} `{GoRange, PdqSort, CherryClient W, KubeClient W, HttpClient W, ApplyClient W,
  !ReservationLaws W} (l : loadBalancers W) `{!KeepsReservations l}.

Lemma keeps_GetLoadBalancer svc : keeps api_ips (GetLoadBalancer l svc).
Proof. unfold GetLoadBalancer, the_implementor, listReservations. solve_keeps. Qed.
Lemma keeps_UpdateLoadBalancer svc nodes : keeps api_ips (UpdateLoadBalancer l svc nodes).
Proof.
  unfold UpdateLoadBalancer, the_implementor. destruct (negb _); [solve_keeps|].
  apply keeps_bind; [solve_keeps|]. intros nodes'. apply keeps_bind; [solve_keeps|]. intros n.
  destruct (implementor l) as [i|] eqn:Hi; [|solve_keeps].
  intros w r w' Hrun. exact (keeps_impl_Update (l := l) i _ _ _ Hi w r w' Hrun).
Qed.

Lemma EnsureLoadBalancerDeleted_moves svc w r w' :
  EnsureLoadBalancerDeleted l svc w = (r, w') →
  lb_effect (tags_of l svc) (api_ips w) (api_ips w').
Proof.
  unfold EnsureLoadBalancerDeleted. destruct (negb _); [by intros [= _ <-]; left; left|].
  unfold the_implementor, listReservations, wrap_err. fold (tags_of l svc).
  destruct (implementor l) as [i|] eqn:Hi; [|by intros [= _ <-]; left; left].
  unfold mbind, M_bind, mret at 1, M_ret at 1.
  destruct (IPAddresses_List (project l) w) as [[ips|e|] w1] eqn:Hlist;
    pose proof (IPAddresses_List_keeps _ _ _ _ Hlist) as ->; [|by intros [= _ <-]; left; left..].
  apply IPAddresses_List_Ok in Hlist as ->.
  destruct (ipReservationByAllTags _ _) as [ip|] eqn:Hip; [|by intros [= _ <-]; left; left].
  apply ipReservation_Some in Hip as [Hin Hc].
  destruct (IPAddresses_Remove (IP_ID ip) w) as [[[]|e|] w1] eqn:Hrm.
  - intros Hrun. right. exists ip. split_and!; [done..|].
    apply IPAddresses_Remove_Ok in Hrm as <-.
    destruct (loadbalancers.RemoveService _ _ _ _ w1) as [[]] eqn:Hsvc; injection Hrun as _ <-;
      by eapply (keeps_impl_Remove (l := l)).
  - apply IPAddresses_Remove_fail in Hrm; [|done]. intros [= _ <-]. by left; left.
  - apply IPAddresses_Remove_fail in Hrm; [|done]. intros [= _ <-]. by left; left.
Qed.

Lemma call_effect e w r w' :
  call l e w = (r, w') →
  ∃ svc, lb_effect (tags_of l svc) (api_ips w) (api_ips w') ∧
    (e = DeletedCalled svc ∨ one_more (tags_of l svc) (api_ips w) (api_ips w')).
Proof.
  intros Hrun. destruct e as [svc|svc nodes|svc nodes|svc]; exists svc; cbn [call] in Hrun;
    [..|split; [by eapply EnsureLoadBalancerDeleted_moves|by left]].
  all: assert (one_more (tags_of l svc) (api_ips w) (api_ips w')) as Hone; [|by split; [left|right]].
  - left. assert (keeps api_ips (_ ← GetLoadBalancer l svc; mret ())) as Hk
      by (apply keeps_bind; [apply keeps_GetLoadBalancer|solve_keeps]). by eapply Hk.
  - unfold mbind, M_bind in Hrun.
    destruct (EnsureLoadBalancer l svc nodes w) as [[st|e|] w1] eqn:E;
      injection Hrun as _ <-; by eapply EnsureLoadBalancer_moves.
  - left. by eapply keeps_UpdateLoadBalancer.
Qed.

(** The tags of two services on one reservation are the same tags. *)
Lemma service_tags_exclusive svc1 svc2 ip :
  carries (tags_of l svc1) ip → carries (tags_of l svc2) ip → tags_of l svc1 = tags_of l svc2.
Proof.
  intros (t & Ht & Hs1) (t' & Ht' & Hs2). assert (t' = t) as -> by congruence.
  assert (∀ svc, tags_of l svc !! "service" = Some (EncodeToString (Sum256 (serviceRep (Some svc))))) as Hkey.
  { intros svc. unfold tags_of, reservationTags. cbn [serviceTag clusterTag].
    by rewrite !lookup_insert_ne, lookup_singleton_eq by done. }
  pose proof (lookup_weaken _ _ _ _ (Hkey svc1) Hs1) as E1.
  pose proof (lookup_weaken _ _ _ _ (Hkey svc2) Hs2) as E2.
  rewrite E1 in E2. injection E2 as E2.
  exact (f_equal (λ h, <[cherryTag := cherryValue]> (<["cluster" := clusterID l]> {[ "service" := h ]})) E2).
Qed.
End lemmas.

(** *** Counting and finding reservations *)

Lemma count_filter tags P `{∀ ip : IPAddress, Decision (P ip)} ips :
  count tags (filter P ips) ≤ count tags ips.
Proof.
  unfold count. apply sublist_length. induction ips as [|ip ips IH]; [done|].
  rewrite !filter_cons. repeat case_decide; rewrite ?filter_cons; repeat case_decide; try done;
    by constructor.
Qed.
Lemma count_snoc tags ips ip :
  count tags (ips ++ [ip]) = count tags ips + if decide (carries tags ip) then 1 else 0.
Proof. unfold count. rewrite filter_app, length_app, filter_cons. by case_decide. Qed.
Lemma count_none tags ips : Forall (λ ip, ¬ carries tags ip) ips → count tags ips = 0.
Proof.
  unfold count. induction 1 as [|ip ips Hip _ IH]; [done|]. by rewrite filter_cons_False.
Qed.
Lemma count_retarget tags tags' target ips :
  count tags (retarget_first tags' target ips) = count tags ips.
Proof.
  unfold count. induction ips as [|ip ips IH]; [done|]. simpl. case_decide; rewrite !filter_cons.
  - by repeat (case_decide; simpl); try done; exfalso.
  - case_decide; simpl; by rewrite IH.
Qed.
Lemma count_only_endpoint tags tags' ips ips' :
  only_endpoint tags' ips ips' → count tags ips' = count tags ips.
Proof. intros [->|[t ->]]; [done|apply count_retarget]. Qed.

Lemma found_app tags ips ip x :
  ipReservationByAllTags tags ips = Some ip → ipReservationByAllTags tags (ips ++ [x]) = Some ip.
Proof.
  unfold ipReservationByAllTags. rewrite !ipReservationsByAllTags_filter, filter_app.
  by destruct (filter _ ips).
Qed.
Lemma found_filter tags P `{∀ ip : IPAddress, Decision (P ip)} ips ip :
  ipReservationByAllTags tags ips = Some ip → P ip →
  ipReservationByAllTags tags (filter P ips) = Some ip.
Proof.
  unfold ipReservationByAllTags. rewrite !ipReservationsByAllTags_filter. intros Hip HP.
  induction ips as [|x ips IH]; [done|]. rewrite !filter_cons in *.
  destruct (decide (carries tags x)) as [Hc|Hc].
  - injection Hip as ->. rewrite decide_True by done. by rewrite filter_cons_True.
  - case_decide; [rewrite filter_cons_False by done|]; by apply IH.
Qed.

(** A reservation, wherever it is attached. *)
Definition same_reservation (ip ip' : IPAddress) : Prop :=
  IP_ID ip' = IP_ID ip ∧ IP_Address ip' = IP_Address ip ∧ IP_Cidr ip' = IP_Cidr ip ∧
  IP_Tags ip' = IP_Tags ip.
#[export] Instance same_reservation_PreOrder : PreOrder same_reservation.
Proof. split; [done|]. unfold same_reservation. intros x y z ? ?. intuition congruence. Qed.
Lemma same_reservation_carries tags ip ip' :
  same_reservation ip ip' → carries tags ip' ↔ carries tags ip.
Proof. intros (_ & _ & _ & Ht). unfold carries. by rewrite Ht. Qed.

Lemma found_retarget tags tags' target ips ip :
  ipReservationByAllTags tags ips = Some ip →
  ∃ ip', ipReservationByAllTags tags (retarget_first tags' target ips) = Some ip' ∧
    same_reservation ip ip'.
Proof.
  unfold ipReservationByAllTags. rewrite !ipReservationsByAllTags_filter.
  induction ips as [|x ips IH]; [done|]. cbn [retarget_first]. intros Hip. rewrite filter_cons in Hip.
  destruct (decide (carries tags' x)) as [Hx|Hx]; rewrite filter_cons.
  - destruct (decide (carries tags x)) as [Hc|Hc].
    + rewrite decide_True by done. injection Hip as ->. by eexists.
    + rewrite decide_False by done. by exists ip.
  - destruct (decide (carries tags x)) as [Hc|Hc]; [|by apply IH].
    injection Hip as ->. by exists ip.
Qed.
Lemma found_only_endpoint tags tags' ips ips' ip :
  only_endpoint tags' ips ips' → ipReservationByAllTags tags ips = Some ip →
  ∃ ip', ipReservationByAllTags tags ips' = Some ip' ∧ same_reservation ip ip'.
Proof. intros [->|[t ->]] Hip; [by exists ip|by apply found_retarget]. Qed.

(** The handlers of the manager keep the tags it looks for. *)
Lemma handle_tags {W : Type} `{GoRange, CherryClient W, KubeClient W, HttpClient W, ApplyClient W}
    e (s : controlPlaneEndpointManager * W) :
  endpoint_tags (handle e s).2.1 = endpoint_tags s.1.
Proof.
  rewrite handle_manager. destruct e as [| | |svc]; try done. simpl. destruct (decide _); [done|].
  unfold synced. by destruct (Service_Ports svc).
Qed.

(** ** Theorems *)

Section theorems.
Context {W : Type} `{GoRange, PdqSort, CherryClient W, KubeClient W, HttpClient W, ApplyClient W,
  !HttpLaws W, !NodeLaws W, !ReservationLaws W, !KeepsEndpoint W}
  (l : loadBalancers W) `{!KeepsReservations l}.
Implicit Types (m : controlPlaneEndpointManager) (w : W).

(** One step of the two controllers, seen from the reservations. *)
Lemma cloud_step_effect allowed m w m' w' :
  NoDup (IP_ID <$> api_ips w) → cloud_step l allowed (m, w) (m', w') →
  endpoint_tags m' = endpoint_tags m ∧ NoDup (IP_ID <$> api_ips w') ∧
  (only_endpoint (endpoint_tags m) (api_ips w) (api_ips w') ∨
   ∃ e svc, allowed e ∧ lb_effect (tags_of l svc) (api_ips w) (api_ips w') ∧
     (e = DeletedCalled svc ∨ one_more (tags_of l svc) (api_ips w) (api_ips w'))).
Proof.
  intros Hids [Hstep Hids']. simpl in Hids'.
  inversion Hstep as [e s r s' _ Hrun|m1 w1 w2 (e & r & He & Hrun)]; simplify_eq.
  - assert ((m', w') = (handle e (m, w)).2) as Heq by by rewrite Hrun.
    pose proof (handle_tags e (m, w)) as Ht. pose proof (handle_only e m w Hids) as Ho.
    rewrite <-Heq in Ht, Ho. split_and!; [exact Ht|done|by left].
  - split_and!; [done..|]. right. destruct (call_effect l e w r w' Hrun) as (svc & ? & ?).
    by exists e, svc.
Qed.

(** What every step keeps of the reservations holds of every run. *)
Lemma cloud_invariant allowed (P : gmap string string → list IPAddress → Prop) m w m' w' :
  (∀ m1 w1 m2 w2, NoDup (IP_ID <$> api_ips w1) → cloud_step l allowed (m1, w1) (m2, w2) →
     P (endpoint_tags m1) (api_ips w1) → P (endpoint_tags m2) (api_ips w2)) →
  NoDup (IP_ID <$> api_ips w) → rtc (cloud_step l allowed) (m, w) (m', w') →
  P (endpoint_tags m) (api_ips w) → P (endpoint_tags m') (api_ips w').
Proof.
  intros Hstep Hids Hrun. remember (m, w) as s eqn:Hs. remember (m', w') as s' eqn:Hs'.
  revert m w Hs Hids. induction Hrun as [s|s [m1 w1] s' H1' _ IH]; intros m w -> Hids HP.
  - by injection Hs' as <- <-.
  - destruct (cloud_step_effect _ _ _ _ _ Hids H1') as (_ & Hids1 & _).
    apply (IH Hs' m1 w1); [done..|]. by apply (Hstep m w m1 w1).
Qed.

Lemma effect_count svc svc' ips ips' :
  lb_effect (tags_of l svc') ips ips' →
  count (tags_of l svc) ips ≤ 1 → count (tags_of l svc) ips' ≤ 1.
Proof.
  intros [[->|(Hnone & ip & -> & Hc)]|(ip & _ & _ & ->)] Hle; [done| |].
  - rewrite count_snoc. case_decide as Hc'; [|lia].
    rewrite (service_tags_exclusive l _ _ _ Hc' Hc), (count_none _ _ Hnone). lia.
  - etransitivity; [apply count_filter|done].
Qed.

(** C7: over any sequence of calls for any services and of events of the
    endpoint manager, whatever fails, no service ever comes to have two
    reservations. *)
Theorem one_reservation_always m w m' w' svc :
  NoDup (IP_ID <$> api_ips w) → rtc (cloud_step l any_call) (m, w) (m', w') →
  count (tags_of l svc) (api_ips w) ≤ 1 → count (tags_of l svc) (api_ips w') ≤ 1.
Proof.
  apply (cloud_invariant any_call (λ _ ips, count (tags_of l svc) ips ≤ 1)).
  intros m1 w1 m2 w2 Hids Hstep Hle.
  apply cloud_step_effect in Hstep as (_ & _ & [Ho|(e & svc' & _ & Heff & _)]); [| |done].
  - by rewrite (count_only_endpoint _ _ _ _ Ho).
  - by eapply effect_count.
Qed.

Lemma effect_found tags svc ip ips ips' :
  NoDup (IP_ID <$> ips) → ¬ carries (tags_of l svc) ip →
  ipReservationByAllTags tags ips = Some ip → lb_effect (tags_of l svc) ips ips' →
  ipReservationByAllTags tags ips' = Some ip.
Proof.
  intros Hids Hnc Hip [[->|(_ & x & -> & _)]|(x & Hx & Hc & ->)]; [done|by apply found_app|].
  apply found_filter; [done|]. intros Heq.
  apply ipReservation_Some in Hip as [Hin _].
  rewrite (NoDup_fmap_inj_elem IP_ID ips ip x Hids Hin Hx Heq) in Hnc. done.
Qed.

(** the calls for the services never take the endpoint of the control
    plane away: as long as its reservation does not carry the tags of a
    service, it is found by the manager after any sequence of steps of both
    controllers, with the same ID, address and tags, whatever was created,
    deleted or moved in between. *)
Theorem endpoint_survives m w m' w' ip :
  NoDup (IP_ID <$> api_ips w) → rtc (cloud_step l any_call) (m, w) (m', w') →
  endpoint m w = Some ip → (∀ svc, ¬ carries (tags_of l svc) ip) →
  ∃ ip', endpoint m' w' = Some ip' ∧ same_reservation ip ip'.
Proof.
  intros Hids Hrun Hip Hnc.
  apply (cloud_invariant any_call (λ tags ips,
    ∃ ip', ipReservationByAllTags tags ips = Some ip' ∧ same_reservation ip ip') m w); [|done..|by exists ip].
  intros m1 w1 m2 w2 Hids1 Hstep (ip1 & Hip1 & Hsame).
  apply cloud_step_effect in Hstep as (-> & _ & [Ho|(e & svc & _ & Heff & _)]); [| |done].
  - destruct (found_only_endpoint _ _ _ _ _ Ho Hip1) as (ip2 & ? & ?). exists ip2. split; [done|].
    by etransitivity.
  - exists ip1. split; [|done]. eapply effect_found; [done| |done..].
    intros Hc. apply (Hnc svc). by apply (same_reservation_carries _ _ _ Hsame).
Qed.

(** C8: a service keeps its address until it is deleted itself: whatever is
    done for the other services, however often it is reconciled, and
    whatever the endpoint manager moves, its reservation stays the first one
    with its tags, so GetLoadBalancer goes on reporting the same address. *)
Theorem service_keeps_address m w m' w' svc ip :
  NoDup (IP_ID <$> api_ips w) → rtc (cloud_step l (keeps_service l svc)) (m, w) (m', w') →
  ipReservationByAllTags (tags_of l svc) (api_ips w) = Some ip →
  ∃ ip', ipReservationByAllTags (tags_of l svc) (api_ips w') = Some ip' ∧ same_reservation ip ip' ∧
    (isServiceManaged (Some svc) = true → is_Some (implementor l) →
     IPAddresses_List (project l) w' = (Ok (api_ips w'), w') →
     GetLoadBalancer l svc w' = (Ok (Some {| Ingress := [IP_Cidr ip] |}, true), w')).
Proof.
  intros Hids Hrun Hip.
  assert (∃ ip', ipReservationByAllTags (tags_of l svc) (api_ips w') = Some ip' ∧ same_reservation ip ip')
    as (ip' & Hip' & Hsame).
  { apply (cloud_invariant (keeps_service l svc) (λ _ ips,
      ∃ ip', ipReservationByAllTags (tags_of l svc) ips = Some ip' ∧ same_reservation ip ip') m w m');
      [|done..|by exists ip].
    intros m1 w1 m2 w2 Hids1 Hstep (ip1 & Hip1 & Hsame).
    apply cloud_step_effect in Hstep as (_ & _ & [Ho|(e & svc' & He & Heff & Hcase)]); [| |done].
    - destruct (found_only_endpoint _ _ _ _ _ Ho Hip1) as (ip2 & ? & ?). exists ip2. split; [done|].
      by etransitivity.
    - exists ip1. split; [|done]. destruct Hcase as [->|[->|(_ & x & -> & _)]]; [|done|by apply found_app].
      eapply effect_found; [done| |done..]. intros Hc. apply ipReservation_Some in Hip1 as [_ Hc1].
      by apply (He svc' eq_refl), (service_tags_exclusive l _ _ ip1). }
  exists ip'. split_and!; [done..|]. intros Hm [i Hi] Hlist.
  unfold GetLoadBalancer. rewrite Hm. unfold the_implementor. rewrite Hi. simpl.
  unfold listReservations, wrap_err, mbind, M_bind, mret, M_ret. rewrite Hlist.
  fold (tags_of l svc). rewrite Hip'. by destruct Hsame as (_ & _ & -> & _).
Qed.
End theorems.

(** ** Concrete runs *)

Local Existing Instance key_order.
Local Existing Instance pdqsort_by_insertion.

(** A service is served, the endpoint moves to the node that answers, and
    the service is deleted. *)
Definition both_world : World :=
  set_kube {| k_uid := Some "uid"; k_nodes := [cp_1; cp_2];
              k_services := {[ ("default", "web") := demo_service ]};
              k_health := k_health (w_kube cp_sick); k_applied := [] |} cp_sick.
Definition both_lbs : loadBalancers World := demo_lbs "LT" vip.
Definition both_1 : World := Eval vm_compute in
  final (call both_lbs (EnsureCalled demo_service [cp_1])) both_world.
Definition both_2 : World := Eval vm_compute in
  (handle (NodeUpdated cp_1 cp_1) (cp_manager 443, both_1)).2.2.
Definition both_3 : World := Eval vm_compute in
  final (call both_lbs (DeletedCalled demo_service)) both_2.

Lemma both_served :
  cloud_step both_lbs any_call (cp_manager 443, both_world) (cp_manager 443, both_1).
Proof.
  split; [|refine (bool_decide_eq_true_1 _ _); vm_refl]. apply step_env.
  exists (EnsureCalled demo_service [cp_1]), (Ok ()). split; [done|]. vm_refl.
Qed.
Lemma both_moved allowed : cloud_step both_lbs allowed (cp_manager 443, both_1) (cp_manager 443, both_2).
Proof.
  split; [|refine (bool_decide_eq_true_1 _ _); vm_refl].
  apply (step_event _ (NodeUpdated cp_1 cp_1) _ (Ok ())); [split|]; vm_refl.
Qed.
Lemma both_deleted : cloud_step both_lbs any_call (cp_manager 443, both_2) (cp_manager 443, both_3).
Proof.
  split; [|refine (bool_decide_eq_true_1 _ _); vm_refl]. apply step_env.
  exists (DeletedCalled demo_service), (Ok ()). split; [done|]. vm_refl.
Qed.

Lemma one_reservation_always_witness :
  count (tags_of both_lbs demo_service) (api_ips both_2) ≤ 1 ∧ length (api_ips both_2) = 2.
Proof.
  split; [|vm_refl]. pose proof (vip_keeps "LT") as Hk.
  refine (one_reservation_always both_lbs (cp_manager 443) both_world (cp_manager 443) both_2 demo_service
    _ _ _).
  - refine (bool_decide_eq_true_1 _ _); vm_refl.
  - exact (rtc_l _ _ _ _ both_served (rtc_once _ _ (both_moved _))).
  - refine (bool_decide_eq_true_1 _ _); vm_refl.
Defined.

Lemma endpoint_not_of_service svc : ¬ carries (tags_of both_lbs svc) (cp_ip 7).
Proof.
  intros (t & [= <-] & Hsub). rewrite map_subseteq_spec in Hsub.
  specialize (Hsub cherryTag cherryValue). discriminate Hsub.
  unfold tags_of, reservationTags. cbn [serviceTag clusterTag]. apply lookup_insert_eq.
Qed.
Lemma endpoint_survives_witness :
  IP_TargetedTo_ID <$> endpoint (cp_manager 443) both_3 = Some 8%Z ∧
  ∃ ip', endpoint (cp_manager 443) both_3 = Some ip' ∧ same_reservation (cp_ip 7) ip'.
Proof.
  split; [vm_refl|]. pose proof (vip_keeps "LT") as Hk.
  refine (endpoint_survives both_lbs (cp_manager 443) both_world (cp_manager 443) both_3 (cp_ip 7)
    _ _ _ endpoint_not_of_service).
  - refine (bool_decide_eq_true_1 _ _); vm_refl.
  - exact (rtc_l _ _ _ _ both_served (rtc_l _ _ _ _ (both_moved _) (rtc_once _ _ both_deleted))).
  - vm_refl.
Defined.

Lemma service_keeps_address_witness :
  ∃ ip', ipReservationByAllTags (tags_of both_lbs demo_service) (api_ips both_2) = Some ip' ∧
    IP_Cidr ip' = "203.0.113.10/32".
Proof.
  pose proof (vip_keeps "LT") as Hk.
  destruct (service_keeps_address both_lbs (cp_manager 443) both_1 (cp_manager 443) both_2 demo_service
    (default (cp_ip 0) (ipReservationByAllTags (tags_of both_lbs demo_service) (api_ips both_1))))
    as (ip' & Hip' & (_ & _ & Hcidr & _) & _).
  - refine (bool_decide_eq_true_1 _ _); vm_refl.
  - exact (rtc_once _ _ (both_moved _)).
  - vm_refl.
  - exists ip'. split; [exact Hip'|]. rewrite Hcidr. vm_refl.
Defined.
