(* ===== verification/Concurrent.v ===== *)
(** * The controllers under any interleaving

    The calls of [cherry/loadbalancers.go] for different services and the
    handlers of [cherry/fip_controlplane_reconciliation.go] run at the same
    time, and take turns between any two calls to the API. This file runs
    them as threads of [Interleaving] and shows what stays true of the
    reservations after every single call. [Controllers] shows the same of
    whole calls and events, one after the other. *)

From S2P Require Import Prelude Constants GoStrings GoSort GoSlices Api World Reservations CrdStore Interleaving LoadBalancer Bgp MetalLBTypes MetalLBPeers Crd CrdPeers MetalLB LoadBalancers LoadBalancerProps System ControlPlane ControlPlaneProps Controllers.

(** ** Definitions *)

(** A thread makes its calls one after the other: a worker of the service
    queue those for some services, the one that follows the nodes
    [UpdateCalled] for all of them, an informer those of one handler. *)
Inductive role :=
| ServiceCalls (es : list lb_event)
| ManagerEvents (es : list (controlPlaneEndpointManager * event)).

Definition ensures (es : list lb_event) (svc : Service) : Prop :=
  ∃ nodes, EnsureCalled svc nodes ∈ es.

Section programs.
Context {W : Type} `{GoRange, PdqSort, CherryClient W, KubeClient W, HttpClient W, ApplyClient W}
  (l : loadBalancers (shared W)).

(** Errors are returned to the queue, which goes on. *)
Fixpoint serve (es : list lb_event) : M (shared W) unit :=
  match es with
  | [] => mret ()
  | e :: es' => logged (call l e);; serve es'
  end.

(** One event of the endpoint manager. The ports are those the handler
    finds; another handler may have set them just before. *)
Definition on_manager (m : controlPlaneEndpointManager)
    (c : M (controlPlaneEndpointManager * shared W) unit) : M (shared W) unit := λ s,
  let '(r, (_, s')) := c (m, s) in (r, s').
Fixpoint manage (es : list (controlPlaneEndpointManager * event)) : M (shared W) unit :=
  match es with
  | [] => mret ()
  | (m, e) :: es' => on_manager m (handle e);; manage es'
  end.

Definition prog (p : role) : M (shared W) unit :=
  match p with
  | ServiceCalls es => serve es
  | ManagerEvents es => manage es
  end.

(** The queue never gives a service to two workers at once. *)
Definition services_apart (ths : list role) : Prop :=
  ∀ i j es es' svc svc', i ≠ j → ths !! i = Some (ServiceCalls es) → ths !! j = Some (ServiceCalls es') →
    ensures es svc → ensures es' svc' → tags_of l svc ≠ tags_of l svc'.
End programs.

(** The API gives each reservation an ID of its own, and never gives an ID
    again: the ID tells the tags. *)
Definition identified (T : string → option (gmap string string)) (ips : list IPAddress) : Prop :=
  NoDup (IP_ID <$> ips) ∧ ∀ ip, ip ∈ ips → IP_Tags ip = T (IP_ID ip).

Definition none (tags : gmap string string) (ips : list IPAddress) : Prop :=
  Forall (λ ip, ¬ carries tags ip) ips.

Definition one_less (tags : gmap string string) (ips ips' : list IPAddress) : Prop :=
  ∃ ip, ip ∈ ips ∧ carries tags ip ∧ ips' = filter (λ ip', IP_ID ip' ≠ IP_ID ip) ips.
(** One reservation, by ID, attached to a server. *)
Definition retargeted (tags : gmap string string) (ips ips' : list IPAddress) : Prop :=
  ∃ id target, ips' = targeted id target <$> ips ∧ ∀ ip, ip ∈ ips → IP_ID ip = id → carries tags ip.

(** What a thread relies on: nobody else reserves addresses for the
    services it serves. *)
Definition relies {W} (l : loadBalancers (shared W)) (p : role) (ips ips' : list IPAddress) : Prop :=
  match p with
  | ServiceCalls es => ∀ svc, ensures es svc → none (tags_of l svc) ips → none (tags_of l svc) ips'
  | ManagerEvents _ => True
  end.
(** What each single call of a thread does to the reservations. *)
Definition guarantees {W} (l : loadBalancers (shared W)) (p : role) (ips ips' : list IPAddress) : Prop :=
  ips' = ips ∨
  match p with
  | ServiceCalls es => ∃ svc,
      ensures es svc ∧ one_more (tags_of l svc) ips ips' ∨
      DeletedCalled svc ∈ es ∧ one_less (tags_of l svc) ips ips'
  | ManagerEvents es => ∃ m e, (m, e) ∈ es ∧ retargeted (endpoint_tags m) ips ips'
  end.
#[export] Instance relies_PreOrder {W} (l : loadBalancers (shared W)) p : PreOrder (relies l p).
Proof. destruct p; (split; [intros ips|intros ips1 ips2 ips3]); simpl; auto. Qed.
#[export] Instance guarantees_refl {W} (l : loadBalancers (shared W)) p : Reflexive (guarantees l p).
Proof. intros ips. by left. Qed.

(** ** What the components rely on *)

(** No call on nodes, services, servers or to the implementation touches
    the reservations. *)
Class CalmLB {W : Type} `{CherryClient W, KubeClient W, !ReservationLaws W}
    (l : loadBalancers (shared W)) : Prop := {
  calm_nodes :: StaysNodes calm l;
  calm_impl_Add : ∀ i ns n ip nodes, implementor l = Some i →
    stays calm (loadbalancers.AddService i ns n ip nodes);
  calm_impl_Remove : ∀ i ns n ip, implementor l = Some i →
    stays calm (loadbalancers.RemoveService i ns n ip);
  calm_impl_Update : ∀ i ns n nodes, implementor l = Some i →
    stays calm (loadbalancers.UpdateService i ns n nodes)
}.
#[export] Hint Resolve calm_impl_Add calm_impl_Remove calm_impl_Update : stays.

(** ** One thread for services *)

Section worker.
Context {W : Type} `{GoRange, PdqSort, CherryClient W, KubeClient W, HttpClient W, ApplyClient W,
  !ReservationLaws W} (l : loadBalancers (shared W)) `{!CalmLB l}
  (T : string → option (gmap string string)) (es : list lb_event).
Let R (cur ips : list IPAddress) : Prop := identified T ips ∧ relies l (ServiceCalls es) cur ips.
Let G := guarantees l (ServiceCalls es).

Local Hint Extern 1 (stays calm (add_nodes_loop _ _)) => apply (stays_add_nodes_loop calm l) : stays.
Local Hint Extern 1 (stays calm (update_nodes_loop _ _)) => apply (stays_update_nodes_loop calm l) : stays.
Local Hint Extern 1 (stays calm (assignIP _ _ _)) => apply (stays_assignIP calm l) : stays.

Lemma calm_List p : stays calm (IPAddresses_List (W := shared W) p).
Proof. apply stays_calm, keeps_IPAddresses_List. Qed.
Hint Resolve calm_List : stays.
Lemma calm_listReservations : stays calm (listReservations l).
Proof. unfold listReservations. solve_stays. Qed.
Hint Resolve calm_listReservations : stays.

(** The facts of a list of reservations that stay true while the others
    work: the tags of each ID, and that a service of the thread has none. *)
Definition listed_facts (ips cur : list IPAddress) : Prop :=
  (∀ ip, ip ∈ ips → IP_Tags ip = T (IP_ID ip)) ∧
  ∀ svc, ensures es svc → ipReservationByAllTags (tags_of l svc) ips = None → none (tags_of l svc) cur.

Lemma rg_listReservations : rg R G (λ _, True) (listReservations l) listed_facts.
Proof.
  unfold listReservations. apply rg_wrap_err, rg_call. intros cur w r w' _ [[_ HT] _] Hrun.
  pose proof (IPAddresses_List_keeps _ _ _ _ Hrun) as ->. split; [by left|]. intros ips ->.
  apply IPAddresses_List_Ok in Hrun as ->. split; [exact HT|].
  intros svc _ Hnone. by apply ipReservation_None.
Qed.

Lemma relied_none svc cur ips : ensures es svc →
  none (tags_of l svc) cur → R cur ips → none (tags_of l svc) ips.
Proof. intros He Hn [_ Hr]. by apply Hr. Qed.

Lemma rg_anything {A} (c : M (shared W) A) : stays calm c → rg R G (λ _, True) c (λ _ _, True).
Proof. intros Hc. by apply (rg_calm R G (λ _, True)). Qed.

Lemma rg_requestReservation svc : ensures es svc →
  rg R G (none (tags_of l svc)) (requestReservation l svc) (λ _ _, True).
Proof.
  intros He. unfold requestReservation. eapply rg_bind.
  - apply (rg_calm R G (none (tags_of l svc))).
    + intros cur ips Hn HR. by eapply relied_none.
    + unfold requestRegion. solve_stays.
  - intros rg. apply rg_wrap_err, rg_call. intros cur w r w' Hn HR Hrun. split; [|done].
    apply (relied_none svc _ _ He) in HR; [|done]. destruct r as [ip|err|].
    + apply IPAddresses_Create_Ok in Hrun as [Htags ->].
      assert (one_more (tags_of l svc) (api_ips w) (api_ips w ++ [ip])) as Hone.
      { right. split; [done|]. exists ip. split; [done|]. eexists. by rewrite Htags. }
      right. exists svc. by left.
    + left. by eapply IPAddresses_Create_fail.
    + left. by eapply IPAddresses_Create_fail.
Qed.

Lemma rg_addService svc ips nodes : ensures es svc →
  rg R G (listed_facts ips) (addService l svc ips nodes) (λ _ _, True).
Proof.
  intros He. unfold addService, the_implementor.
  destruct (implementor l) as [i|] eqn:Hi; [apply rg_ret_bind|apply rg_panic_bind].
  destruct (loadbalancers.ServiceIP i (Some svc)) as [svcIP hasIP].
  fold (tags_of l svc).
  eapply (rg_bind _ _ _ _ _ (λ _ _, True)).
  - destruct hasIP; [by apply rg_ret|].
    apply (rg_bind _ _ _ _ _ (λ _ _, True)).
    + destruct (ipReservationByAllTags _ ips) as [ip|] eqn:Hip; [by apply rg_ret|].
      eapply rg_weaken; [by apply rg_requestReservation| |done].
      intros cur [_ Hnone]. by apply Hnone.
    + intros ip. apply rg_anything. solve_stays.
  - intros [svcIP' ipReservation]. apply rg_anything. solve_stays.
Qed.

Lemma rg_EnsureLoadBalancer svc nodes : ensures es svc →
  rg R G (λ _, True) (EnsureLoadBalancer l svc nodes) (λ _ _, True).
Proof.
  intros He. unfold EnsureLoadBalancer. destruct (negb _); [apply rg_raise|].
  apply (rg_bind _ _ _ _ _ listed_facts); [apply rg_listReservations|]. intros ips.
  apply (rg_bind _ _ _ _ _ (λ _, listed_facts ips)); [apply rg_lift|]. intros nodes'.
  apply (rg_bind _ _ _ _ _ (λ _ _, True)); [by apply rg_wrap_err, rg_addService|].
  intros cidr. apply rg_anything. solve_stays.
Qed.

(** The reservation of that ID, if it is still there, is the service's. *)
Lemma removed_effect svc ip cur w : DeletedCalled svc ∈ es →
  carries (tags_of l svc) ip → IP_Tags ip = T (IP_ID ip) → R cur (api_ips w) →
  G (api_ips w) (filter (λ ip', IP_ID ip' ≠ IP_ID ip) (api_ips w)).
Proof.
  intros Hdel Hc HT [[_ Hids] _]. destruct (decide (IP_ID ip ∈ IP_ID <$> api_ips w)) as [Hin|Hin].
  - apply list_elem_of_fmap in Hin as (ip' & Hid & Hin). right. exists svc. right. split; [done|].
    exists ip'. split_and!; [done| |by rewrite Hid].
    unfold carries in *. by rewrite (Hids _ Hin), <-Hid, <-HT.
  - left. apply filter_id, Forall_forall. intros ip' Hin' Hid. apply Hin.
    rewrite <-Hid. by apply list_elem_of_fmap_2.
Qed.

Lemma rg_EnsureLoadBalancerDeleted svc : DeletedCalled svc ∈ es →
  rg R G (λ _, True) (EnsureLoadBalancerDeleted l svc) (λ _ _, True).
Proof.
  intros Hdel. unfold EnsureLoadBalancerDeleted, the_implementor.
  destruct (negb _); [by apply rg_ret|].
  destruct (implementor l) as [i|] eqn:Hi; [apply rg_ret_bind|apply rg_panic_bind].
  apply (rg_bind _ _ _ _ _ listed_facts); [apply rg_listReservations|]. intros ips.
  fold (tags_of l svc).
  destruct (ipReservationByAllTags _ ips) as [ip|] eqn:Hip; [|by apply rg_ret].
  apply ipReservation_Some in Hip as [Hin Hc].
  apply (rg_bind _ _ _ _ _ (λ _ _, True)); [|intros []; apply rg_anything; solve_stays].
  apply rg_wrap_err, rg_call. intros cur w r w' [HT _] HR Hrun. split; [|done].
  destruct r as [u|err|].
  - apply IPAddresses_Remove_Ok in Hrun as ->. eapply removed_effect; eauto.
  - left. by eapply IPAddresses_Remove_fail.
  - left. by eapply IPAddresses_Remove_fail.
Qed.

Lemma rg_call_of_service e : e ∈ es → rg R G (λ _, True) (call l e) (λ _ _, True).
Proof.
  intros He. destruct e as [svc|svc nodes|svc nodes|svc]; cbn [call].
  - apply rg_anything. unfold GetLoadBalancer, the_implementor. solve_stays.
  - apply (rg_bind _ _ _ _ _ (λ _ _, True)); [by apply rg_EnsureLoadBalancer; exists nodes|].
    intros st. by apply rg_ret.
  - apply rg_anything. unfold UpdateLoadBalancer, the_implementor.
    destruct (implementor l) as [i|] eqn:Hi; solve_stays.
  - by apply rg_EnsureLoadBalancerDeleted.
Qed.

Lemma rg_serve : rg R G (λ _, True) (serve l es) (λ _ _, True).
Proof.
  assert (∀ l', l' ⊆ es → rg R G (λ _, True) (serve l l') (λ _ _, True)) as Hserve; [|by apply Hserve].
  induction l' as [|e l' IH]; intros Hsub; cbn [serve]; [by apply rg_ret|].
  apply (rg_bind _ _ _ _ _ (λ _ _, True)); [|intros []; apply IH; set_solver].
  unfold logged. apply (rg_bind _ _ _ _ _ (λ _ _, True)); [|by intros ?; apply rg_ret].
  eapply rg_try, rg_call_of_service. set_solver.
Qed.
End worker.

(** ** One thread of the endpoint manager *)

(** Follow a computation whose calls all keep to the guarantee as long as a
    proposition about the values holds. *)
Create HintDb rg.
Ltac solve_rg I :=
  repeat first
    [ progress intros
    | solve [eauto with rg]
    | apply (rg_bind _ _ _ _ _ (λ _ _, I))
    | apply rg_wrap_err
    | apply rg_try
    | apply rg_ret; by intros
    | apply rg_raise
    | apply rg_lift
    | match goal with
      | |- rg _ _ _ (match ?x with _ => _ end) _ => destruct x
      | |- rg _ _ _ (let _ := _ in _) _ => cbv zeta
      end ].

Section manager.
Context {W : Type} `{GoRange, PdqSort, CherryClient W, KubeClient W, HttpClient W, ApplyClient W,
  !HttpLaws W, !NodeLaws W, !ReservationLaws W, !KeepsEndpoint W} (l : loadBalancers (shared W))
  (T : string → option (gmap string string)) (es : list (controlPlaneEndpointManager * event)).
Let R (cur ips : list IPAddress) : Prop := identified T ips ∧ relies l (ManagerEvents es) cur ips.
Let G := guarantees l (ManagerEvents es).

Abbreviation safe I c := (rg R G (λ _, I) c (λ _ _, I)).

Lemma safe_calm I {A} (c : M (shared W) A) : stays calm c → safe I c.
Proof. intros Hc. by apply (rg_calm R G (λ _, I)). Qed.
Lemma calm_http_Do url : stays calm (http_Do (W := shared W) url).
Proof.
  apply stays_calm. intros w r w' Hrun. destruct (http_code w url) as [code|] eqn:E.
  - rewrite (http_Do_Some _ _ _ E) in Hrun. by injection Hrun as _ <-.
  - destruct (http_Do_None _ _ E) as [e He]. rewrite He in Hrun. by injection Hrun as _ <-.
Qed.
Lemma calm_Nodes_List label : stays calm (Nodes_List (W := shared W) label).
Proof. apply stays_calm. intros w r w' Hrun. by apply Nodes_List_keeps in Hrun as ->. Qed.
Lemma calm_list_nodes selectors ns : stays calm (list_nodes (W := shared W) selectors ns).
Proof.
  revert ns. induction selectors as [|s selectors IH]; intros ns; cbn [list_nodes]; [solve_stays|].
  apply stays_bind; [apply _|by apply stays_wrap_err, calm_Nodes_List|]. intros nodes. apply IH.
Qed.
Lemma calm_syncEndpoints e : stays calm (syncEndpoints (W := shared W) e).
Proof. apply stays_wrap_err, stays_calm, keeps_Endpoints_Apply. Qed.
Hint Resolve safe_calm calm_http_Do calm_list_nodes calm_syncEndpoints : rg.

Section one.
Context (m : controlPlaneEndpointManager) (ev : event) (Hev : (m, ev) ∈ es).

(** The ID is that of the endpoint, for good. *)
Definition owned (ip : IPAddress) : Prop :=
  ∃ tags, T (IP_ID ip) = Some tags ∧ endpoint_tags m ⊆ tags.

Lemma rg_getReservation :
  rg R G (λ _, True) (getControlPlaneEndpointReservation m) (λ ip _, owned ip).
Proof.
  unfold getControlPlaneEndpointReservation.
  apply (rg_bind _ _ _ _ _ (λ ips _, ∀ ip, ip ∈ ips → IP_Tags ip = T (IP_ID ip))).
  - apply rg_call. intros cur w r w' _ [[_ HT] _] Hrun.
    pose proof (IPAddresses_List_keeps _ _ _ _ Hrun) as ->. split; [by left|]. intros ips ->.
    by apply IPAddresses_List_Ok in Hrun as ->.
  - intros ips. fold (endpoint_tags m).
    destruct (ipReservationByAllTags _ ips) as [ip|] eqn:Hip; [|apply rg_raise].
    apply rg_ret. intros cur HT. apply ipReservation_Some in Hip as [Hin (tags & Ht & Hsub)].
    exists tags. by rewrite <-HT.
Qed.

Lemma safe_Update ip target :
  safe (owned ip) (IPAddresses_Update (W := shared W) (IP_ID ip) target).
Proof.
  apply rg_call. intros cur w r w' (tags & HT & Hsub) [[_ Hids] _] Hrun. split; [|by exists tags].
  destruct r as [u|e|]; [|left; by eapply IPAddresses_Update_fail..].
  apply IPAddresses_Update_Ok in Hrun as ->. right. exists m, ev. split; [done|].
  exists (IP_ID ip), target. split; [done|]. intros ip' Hin Hid. exists tags.
  split; [|done]. by rewrite (Hids _ Hin), Hid.
Qed.
Hint Resolve safe_Update : rg.

Lemma safe_reassign_addresses node ip url addresses :
  safe (owned ip) (reassign_addresses (W := shared W) m node ip url addresses).
Proof. induction addresses as [|a addresses IH]; cbn [reassign_addresses]; solve_rg (owned ip). Qed.
Hint Resolve safe_reassign_addresses : rg.
Lemma safe_reassign_nodes nodes ip url :
  safe (owned ip) (reassign_nodes (W := shared W) m nodes ip url).
Proof. induction nodes as [|n nodes IH]; cbn [reassign_nodes]; solve_rg (owned ip). Qed.
Hint Resolve safe_reassign_nodes : rg.
Lemma safe_tryReassign ip filters :
  safe (owned ip) (tryReassign (W := shared W) m ip filters).
Proof. unfold tryReassign, reassign. solve_rg (owned ip). Qed.
Hint Resolve safe_tryReassign : rg.

Lemma safe_with_endpoint {A} f (k : IPAddress → M (shared W) A) :
  (∀ ip, safe (owned ip) (k ip)) →
  safe True (wrap_err f (getControlPlaneEndpointReservation m) ≫= k).
Proof.
  intros Hk. apply (rg_bind _ _ _ _ _ (λ ip _, owned ip)); [apply rg_wrap_err, rg_getReservation|].
  intros ip. by eapply rg_weaken.
Qed.
Lemma safe_tryReassignAwayFromSelf self : safe True (tryReassignAwayFromSelf (W := shared W) m self).
Proof. apply safe_with_endpoint. intros ip. solve_rg (owned ip). Qed.
Lemma safe_doHealthCheck node : safe True (doHealthCheck (W := shared W) m node).
Proof. apply safe_with_endpoint. intros ip. solve_rg (owned ip). Qed.
End one.

Lemma calm_applyService m : stays calm (applyService (W := shared W) m).
Proof.
  unfold applyService, getControlPlaneEndpointReservation.
  apply stays_bind; [apply _|solve_stays; apply calm_List|]. intros ip.
  apply stays_bind; [apply _|by apply stays_wrap_err, stays_calm, keeps_Services_Apply|].
  intros _. by apply stays_wrap_err, stays_calm, keeps_Services_ApplyStatus.
Qed.

(** *** The handlers *)

Lemma safe_logged m I (c : M (controlPlaneEndpointManager * shared W) unit) :
  safe I (on_manager m c) → safe I (on_manager m (logged c)).
Proof.
  intros Hc. apply (rg_ext _ _ _ _ (logged (on_manager m c))).
  - intros s. unfold on_manager, logged, try, mbind, M_bind, mret, M_ret.
    by destruct (c (m, s)) as [[] []].
  - unfold logged. apply (rg_bind _ _ _ _ _ (λ _ _, I)); [by apply rg_try|]. intros x. by apply rg_ret.
Qed.
Lemma safe_with_manager m I (f : controlPlaneEndpointManager → M (shared W) unit) :
  safe I (f m) → safe I (on_manager m (with_manager f)).
Proof.
  apply rg_ext. intros s. unfold on_manager, with_manager. simpl. by destruct (f m s).
Qed.
Lemma safe_syncService m svc : safe True (on_manager m (syncService svc)).
Proof.
  unfold syncService. destruct (Service_Ports svc) as [|port ports]; [by apply rg_pure|].
  set (m' := set_ports (if decide (apiServerPort m = 0%Z) then ServicePort_TargetPort port
                        else apiServerPort m) (ServicePort_TargetPort port) m).
  apply (rg_ext _ _ _ _ (on_manager m' (with_manager applyService))); [done|].
  apply safe_with_manager, safe_calm, calm_applyService.
Qed.

Lemma safe_handle m ev : (m, ev) ∈ es → safe True (on_manager m (handle ev)).
Proof.
  intros Hev. destruct ev as [o n|n|e|svc]; cbn [handle].
  - unfold nodes_UpdateFunc. destruct (_ && _); apply safe_logged, safe_with_manager;
      [by eapply safe_tryReassignAwayFromSelf|by eapply safe_doHealthCheck].
  - apply safe_logged, safe_with_manager. by eapply safe_tryReassignAwayFromSelf.
  - unfold endpoints_Func. destruct (decide _); [by apply rg_pure|].
    apply safe_logged, safe_with_manager, safe_calm, calm_syncEndpoints.
  - unfold services_Func. destruct (decide _); [by apply rg_pure|].
    apply safe_logged, safe_syncService.
Qed.

Lemma safe_manage : safe True (manage es).
Proof.
  assert (∀ l', l' ⊆ es → safe True (manage l')) as Hall; [|by apply Hall].
  induction l' as [|[m ev] l' IH]; intros Hsub; cbn [manage]; [by apply rg_ret|].
  apply (rg_bind _ _ _ _ _ (λ _ _, True)); [apply safe_handle; set_solver|].
  intros []. apply IH. set_solver.
Qed.
End manager.

(** ** All threads *)

Section threads.
Context {W : Type} `{GoRange, PdqSort, CherryClient W, KubeClient W, HttpClient W, ApplyClient W,
  !HttpLaws W, !NodeLaws W, !ReservationLaws W, !KeepsEndpoint W} (l : loadBalancers (shared W))
  `{!CalmLB l} (T : string → option (gmap string string)).
Implicit Types (ths : list role) (w : W) (tr : list (api_step W)).

Lemma none_snoc tags ips ip : none tags ips → ¬ carries tags ip → none tags (ips ++ [ip]).
Proof. intros Hn Hc. apply Forall_app. split; [done|]. by apply Forall_singleton. Qed.
Lemma targeted_same id target ip : same_reservation ip (targeted id target ip).
Proof. unfold targeted. by case_decide. Qed.

(** What a thread does is what the others rely on. *)
Lemma apart_relies ths i j p q b a : services_apart l ths → i ≠ j →
  ths !! i = Some p → ths !! j = Some q → guarantees l p b a → relies l q b a.
Proof.
  intros Hap Hij Hp Hq [->|HG]; [reflexivity|]. destruct q as [es'|es']; [|done]. intros svc' He' Hn.
  destruct p as [es|es].
  - destruct HG as (svc & [[He [->|(_ & ip & -> & Hc)]]|[_ (ip & _ & _ & ->)]]); [done| |].
    + apply none_snoc; [done|]. intros Hc'. apply (Hap i j es es' svc svc'); [done..|].
      by apply (service_tags_exclusive l _ _ ip).
    + unfold none in *. rewrite Forall_forall in *. intros x [_ Hx]%list_elem_of_filter. by apply Hn.
  - destruct HG as (m & ev & _ & id & target & -> & _). apply Forall_fmap.
    eapply Forall_impl; [exact Hn|]. intros ip Hnc Hc. apply Hnc.
    by apply (same_reservation_carries _ _ _ (targeted_same id target ip)).
Qed.

Lemma threads_guarantee ths w tr :
  services_apart l ths → interleaving (prog l <$> ths) w tr → worlds_ok (identified T) w tr →
  Forall (guaranteed (guarantees l) ths) tr.
Proof.
  intros Hap. apply (parallel (prog l) (relies l)); [apply _|..].
  - intros i p _. destruct p as [es|es]; [apply rg_serve; apply _|apply safe_manage].
  - intros i j p q Hij Hp Hq b a _. by eapply apart_relies.
Qed.

(** What every step keeps of the reservations holds in every world. *)
Lemma steps_invariant (P : list IPAddress → Prop) w tr :
  contiguous w tr → P (api_ips w) →
  Forall (λ e, P (api_ips e.2.1) → P (api_ips e.2.2)) tr → Forall (λ e, P (api_ips e.2.2)) tr.
Proof.
  revert w. induction tr as [|[i [w1 w2]] tr IH]; intros w; [by constructor|].
  intros [-> Hc] HP [Hstep Hall]%Forall_cons. simpl in *. constructor; [by apply Hstep|].
  by apply (IH w2); [|apply Hstep|].
Qed.
(** The same, from what the threads guarantee. *)
Lemma threads_invariant ths (P : list IPAddress → Prop) w tr :
  services_apart l ths → interleaving (prog l <$> ths) w tr → worlds_ok (identified T) w tr →
  (∀ i p b a, ths !! i = Some p → identified T b → guarantees l p b a → P b → P a) →
  P (api_ips w) → Forall (λ e, P (api_ips e.2.2)) tr.
Proof.
  intros Hap Hint Hok Hstep HP. pose proof (threads_guarantee ths w tr Hap Hint Hok) as Hall.
  destruct Hint as (Hc & _ & Hlen). apply (steps_invariant P w); [done..|].
  apply (worlds_before (identified T)) in Hok; [|done]. rewrite Forall_forall in *.
  intros e He. specialize (Hlen e He). rewrite length_fmap in Hlen.
  destruct (lookup_lt_is_Some_2 _ _ Hlen) as [p Hp].
  apply (Hstep e.1 p); [done|by apply Hok|by apply Hall].
Qed.

Lemma count_targeted tags id target ips : count tags (targeted id target <$> ips) = count tags ips.
Proof.
  unfold count. induction ips as [|ip ips IH]; [done|]. rewrite fmap_cons, !filter_cons.
  pose proof (same_reservation_carries tags _ _ (targeted_same id target ip)).
  repeat case_decide; simpl; rewrite ?IH; tauto.
Qed.

(** C5: under any interleaving, call by call, of the work on any services
    and of the handlers of the endpoint manager, no service comes to have
    two reservations, provided that no service is served by two threads at
    once; it may be deleted and updated by others meanwhile. *)
Theorem one_reservation_concurrent ths w tr svc :
  services_apart l ths → interleaving (prog l <$> ths) w tr → worlds_ok (identified T) w tr →
  count (tags_of l svc) (api_ips w) ≤ 1 →
  Forall (λ e, count (tags_of l svc) (api_ips e.2.2) ≤ 1) tr.
Proof.
  intros Hap Hint Hok. apply (threads_invariant ths (λ ips, count (tags_of l svc) ips ≤ 1)); [done..|].
  intros i p b a _ _ [->|HG] Hle; [done|]. destruct p as [es|es].
  - destruct HG as (svc' & [[_ Heff]|[_ Heff]]); eapply effect_count; try done; [by left|by right].
  - destruct HG as (m & ev & _ & id & target & -> & _). by rewrite count_targeted.
Qed.

Lemma found_targeted tags id target ips ip :
  ipReservationByAllTags tags ips = Some ip →
  ipReservationByAllTags tags (targeted id target <$> ips) = Some (targeted id target ip).
Proof.
  unfold ipReservationByAllTags. rewrite !ipReservationsByAllTags_filter.
  induction ips as [|x ips IH]; [done|]. rewrite fmap_cons, !filter_cons.
  pose proof (same_reservation_carries tags _ _ (targeted_same id target x)).
  repeat case_decide; [|tauto..|done]. by intros [= ->].
Qed.

(** C6: under any such interleaving a reservation that is found by some tags
    goes on being found by them after every single call, with its ID,
    address and tags, unless a service that has it is deleted; and it stays
    attached where it is unless it is an endpoint of the control plane. So a
    service keeps its address, and the control plane its endpoint, whatever
    is done at the same time. *)
Theorem reservation_kept_concurrent ths w tr tags ip :
  services_apart l ths → interleaving (prog l <$> ths) w tr → worlds_ok (identified T) w tr →
  ipReservationByAllTags tags (api_ips w) = Some ip →
  (∀ i es svc, ths !! i = Some (ServiceCalls es) → DeletedCalled svc ∈ es → ¬ carries (tags_of l svc) ip) →
  Forall (λ e, ∃ ip', ipReservationByAllTags tags (api_ips e.2.2) = Some ip' ∧ same_reservation ip ip' ∧
    ((∀ i es m ev, ths !! i = Some (ManagerEvents es) → (m, ev) ∈ es → ¬ carries (endpoint_tags m) ip) →
     ip' = ip)) tr.
Proof.
  intros Hap Hint Hok Hip Hdel.
  apply (threads_invariant ths (λ ips, ∃ ip', ipReservationByAllTags tags ips = Some ip' ∧
    same_reservation ip ip' ∧ ((∀ i es m ev, ths !! i = Some (ManagerEvents es) → (m, ev) ∈ es →
      ¬ carries (endpoint_tags m) ip) → ip' = ip)) w); [done..| |by exists ip].
  intros i p b a Hp [Hids HT] [->|HG] (ip' & Hip' & Hsame & Hst); [by exists ip'|].
  destruct p as [es|es].
  - destruct HG as (svc & [[_ [->|(_ & x & -> & _)]]|[Hd Heff]]); exists ip';
      (split; [|done]); [done|by apply found_app|].
    eapply effect_found; [done| |done|by right]. intros Hc.
    by apply (Hdel i es svc Hp Hd), (same_reservation_carries _ _ _ Hsame).
  - destruct HG as (m & ev & Hev & id & target & -> & Hown). exists (targeted id target ip').
    split; [by apply found_targeted|]. split.
    { transitivity ip'; [done|apply targeted_same]. }
    intros Hnot. rewrite (Hst Hnot) in *. unfold targeted. rewrite decide_False; [done|]. intros Hid.
    apply ipReservation_Some in Hip' as [Hin _]. by apply (Hnot i es m ev Hp Hev), Hown.
Qed.
End threads.

(** ** Concrete runs *)

(** The load balancer of MetalLB, with BGP as [cloud.go] wires it, never
    touches the reservations. *)
#[export] Instance shared_StaysCrd {W Obj} `{CherryClient W, !ReservationLaws W, CrdClient W Obj,
    !KeepsCrd (api_ips (W := W)) Obj} : StaysCrd (calm (W := W)) Obj.
Proof.
  intros s s' [sel ns r s1 Hc|o r s1 Hc|old new r s1 Hc|o r s1 Hc]; revert Hc; apply calm_call;
    intros w r' w' Hrun.
  - by eapply keeps_List.
  - by eapply keeps_Create.
  - by eapply keeps_Patch.
  - by eapply keeps_Delete.
Qed.

Local Existing Instance key_order.
Local Existing Instance pdqsort_by_insertion.
Local Existing Instance exp_slices.

(** A call of the concrete world that is not about reservations. *)
Ltac solve_calm_call :=
  apply stays_calm; intros w r w'; simpl; unfold online; repeat case_match; intros [= <- <-]; done.

Lemma calm_ensureNodeBGPEnabled b pid : stays calm (ensureNodeBGPEnabled (W := shared World) b pid).
Proof.
  unfold ensureNodeBGPEnabled.
  assert (∀ id, stays calm (get_server (W := shared World) id)) as Hget.
  { intros id s r s'. unfold get_server. destruct (Servers_Get id s) as [[[server resp] err] s1] eqn:E.
    apply calm_call in E; [by destruct err; intros [= _ <-]|].
    intros w r0 w'. simpl. repeat case_match; by intros [= <- <-]. }
  assert (∀ id req, stays calm (Servers_Update (W := shared World) id req)) as Hup
    by (intros; solve_calm_call).
  solve_stays.
Qed.

Definition shared_lbs (i : loadbalancers.LB (shared World)) : loadBalancers (shared World) := {|
  project := 1; region := "LT"; clusterID := "uid"; implementor := Some i;
  implementorConfig := "metallb:///"; annotationLocalASN := DefaultAnnotationNodeASN;
  annotationPeerASN := DefaultAnnotationPeerASN; annotationPeerIP := DefaultAnnotationPeerIP;
  annotationSrcIP := DefaultAnnotationSrcIP; annotationMultiHop := DefaultAnnotationMultiHop;
  fipRegionAnnotation := DefaultAnnotationFIPRegion; nodeSelector := Some labels_Everything;
  bgpEnabler := ensureNodeBGPEnabled demo_bgp |}.
Lemma shared_StaysNodes i : StaysNodes calm (shared_lbs i).
Proof.
  split; simpl; intros; [apply calm_ensureNodeBGPEnabled|solve_calm_call..].
Qed.
(** The implementation of MetalLB on custom resources, and kube-vip. *)
Lemma metallb_calm ns fromNodes : CalmLB (shared_lbs (MetalLB.impl (crdLB ns fromNodes))).
Proof.
  split; [apply shared_StaysNodes|..].
  - intros i ns' n ip nodes [= <-]. apply (stays_CRD_AddService calm).
  - intros i ns' n ip [= <-]. apply (stays_CRD_RemoveService calm).
  - intros i ns' n nodes [= <-]. apply (stays_CRD_UpdateService calm).
Qed.
Definition crowd : loadBalancers (shared World) := shared_lbs (kubevip.NewLB "").
Lemma crowd_calm : CalmLB crowd.
Proof.
  split; [apply shared_StaysNodes|..].
  - intros i ns n ip nodes [= <-]. apply stays_ret, _.
  - intros i ns n ip [= <-]. apply stays_ret, _.
  - intros i ns n nodes [= <-]. apply stays_ret, _.
Qed.

(** Two services are served and one of them is deleted again, while the
    endpoint manager moves the endpoint to the node that answers. *)
Definition api_service : Service := {|
  Service_Namespace := "default"; Service_Name := "api"; Service_Annotations := None;
  Service_LoadBalancerIP := ""; Service_Ports := [] |}.
Definition crowd_threads : list role := [
  ServiceCalls [EnsureCalled demo_service []];
  ServiceCalls [EnsureCalled api_service []; DeletedCalled api_service];
  ManagerEvents [(cp_manager 443, NodeUpdated cp_1 cp_1)] ].
Definition crowd_world : World :=
  set_kube {| k_uid := Some "uid"; k_nodes := [cp_1; cp_2];
              k_services := {[ ("default", "web") := demo_service; ("default", "api") := api_service ]};
              k_health := k_health (w_kube cp_sick); k_applied := [] |} cp_sick.

(** Both see no reservation of theirs, then each makes one; the endpoint is
    moved between two calls of the other threads. *)
Definition ip_of (svc : Service) : CreateIPAddress := {|
  CreateIP_Region := "LT"; CreateIP_Tags := Some (tags_of crowd svc) |}.
Definition with_ip (ip : string) (svc : Service) : Service :=
  set_Annotations (Some {[ kubevip.loadBalancerIPsAnnotation := ip ]}) svc.
Definition crowd_1 : World := final (IPAddresses_Create 1 (ip_of demo_service)) crowd_world.
Definition crowd_2 : World := final (IPAddresses_Create 1 (ip_of api_service)) crowd_1.
Definition crowd_3 : World := final (Services_Update "default" (with_ip "203.0.113.10" demo_service)) crowd_2.
Definition crowd_4 : World := final (IPAddresses_Update "ip-9" "8") crowd_3.
Definition crowd_5 : World := final (Services_Update "default" (with_ip "203.0.113.11" api_service)) crowd_4.
Definition crowd_6 : World := final (IPAddresses_Remove "ip-11") crowd_5.
Definition crowd_trace : list (api_step World) := [
  (0, (crowd_world, crowd_world)); (1, (crowd_world, crowd_world)); (2, (crowd_world, crowd_world));
  (0, (crowd_world, crowd_1)); (2, (crowd_1, crowd_1));
  (1, (crowd_1, crowd_2)); (2, (crowd_2, crowd_2)); (2, (crowd_2, crowd_2)); (0, (crowd_2, crowd_2));
  (2, (crowd_2, crowd_2)); (2, (crowd_2, crowd_2));
  (0, (crowd_2, crowd_3)); (2, (crowd_3, crowd_3)); (1, (crowd_3, crowd_3));
  (2, (crowd_3, crowd_4)); (1, (crowd_4, crowd_5)); (1, (crowd_5, crowd_5)); (1, (crowd_5, crowd_6)) ].

Lemma crowd_interleaving : interleaving (prog crowd <$> crowd_threads) crowd_world crowd_trace.
Proof.
  split; [repeat split|split].
  - intros [|[|[|i]]] c Hc; [..|done]; injection Hc as <-; unfold runs; vm_refl.
  - refine (bool_decide_eq_true_1 _ _); vm_refl.
Qed.

(** The tags of each ID that was ever given. *)
Definition crowd_tags (id : string) : option (gmap string string) :=
  if decide (id = "ip-9") then IP_Tags (cp_ip 7)
  else Some (tags_of crowd (if decide (id = "ip-10") then demo_service else api_service)).
Lemma identified_sublist T ips ips' :
  identified T ips → ips' `sublist_of` ips → identified T ips'.
Proof.
  intros [Hids HT] Hsub. split; [eapply sublist_NoDup; [exact Hids|by apply fmap_sublist]|].
  intros ip Hin. apply HT. by eapply sublist_subseteq.
Qed.
Lemma crowd_identified target : identified crowd_tags
  [cp_ip target; with_region_tags 10 (ip_of demo_service); with_region_tags 11 (ip_of api_service)].
Proof.
  split; [refine (bool_decide_eq_true_1 _ _); vm_refl|]. apply Forall_forall.
  repeat (apply Forall_cons_2; [reflexivity|]). apply Forall_nil_2.
Qed.
Lemma crowd_ips n target w :
  api_ips w = take n [cp_ip target; with_region_tags 10 (ip_of demo_service);
                      with_region_tags 11 (ip_of api_service)] → identified crowd_tags (api_ips w).
Proof. intros ->. eapply identified_sublist; [apply (crowd_identified target)|apply sublist_take]. Qed.
Lemma crowd_ok : worlds_ok (identified crowd_tags) crowd_world crowd_trace.
Proof.
  assert (identified crowd_tags (api_ips crowd_world)) by by apply (crowd_ips 1 7).
  assert (identified crowd_tags (api_ips crowd_1)) by by apply (crowd_ips 2 7).
  assert (identified crowd_tags (api_ips crowd_2)) by by apply (crowd_ips 3 7).
  assert (identified crowd_tags (api_ips crowd_3)) by by apply (crowd_ips 3 7).
  assert (identified crowd_tags (api_ips crowd_4)) by by apply (crowd_ips 3 8).
  assert (identified crowd_tags (api_ips crowd_5)) by by apply (crowd_ips 3 8).
  assert (identified crowd_tags (api_ips crowd_6)) by by apply (crowd_ips 2 8).
  split; [|repeat (apply Forall_cons_2 || apply Forall_nil_2)]; assumption.
Qed.
Lemma crowd_apart : services_apart crowd crowd_threads.
Proof.
  assert (tags_of crowd demo_service ≠ tags_of crowd api_service) as Hne
    by (refine (bool_decide_eq_true_1 _ _); vm_refl).
  assert (∀ svc, ensures [EnsureCalled demo_service []] svc → svc = demo_service) as Hweb.
  { by intros svc [nodes [[= ->]|[]%elem_of_nil]%elem_of_cons]. }
  assert (∀ svc, ensures [EnsureCalled api_service []; DeletedCalled api_service] svc → svc = api_service)
    as Hapi by by intros svc [nodes [[= ->]|[|[]%elem_of_nil]%elem_of_cons]%elem_of_cons].
  intros i j es es' e e' Hij Hi Hj He He'.
  destruct i as [|[|[|i]]]; [| |discriminate Hi..]; destruct j as [|[|[|j]]]; try discriminate Hj;
    try (exfalso; exact (Hij eq_refl)); injection Hi as <-; injection Hj as <-.
  - rewrite (Hweb _ He), (Hapi _ He'). exact Hne.
  - rewrite (Hapi _ He), (Hweb _ He'). exact (not_eq_sym Hne).
Qed.

Lemma one_reservation_concurrent_witness :
  Forall (λ e, count (tags_of crowd api_service) (api_ips e.2.2) ≤ 1) crowd_trace ∧
  count (tags_of crowd api_service) (api_ips crowd_2) = 1.
Proof.
  split; [|vm_refl]. pose proof crowd_calm as Hcalm.
  refine (one_reservation_concurrent crowd crowd_tags crowd_threads crowd_world crowd_trace api_service
    crowd_apart crowd_interleaving crowd_ok _).
  refine (bool_decide_eq_true_1 _ _); vm_refl.
Defined.

Lemma reservation_kept_concurrent_witness :
  Forall (λ e, ∃ ip', ipReservationByAllTags (endpoint_tags (cp_manager 443)) (api_ips e.2.2) = Some ip' ∧
    same_reservation (cp_ip 7) ip') crowd_trace ∧
  IP_TargetedTo_ID <$> endpoint (cp_manager 443) crowd_6 = Some 8%Z.
Proof.
  split; [|vm_refl]. pose proof crowd_calm as Hcalm.
  refine (Forall_impl _ _ _ (reservation_kept_concurrent crowd crowd_tags crowd_threads crowd_world
    crowd_trace (endpoint_tags (cp_manager 443)) (cp_ip 7) crowd_apart crowd_interleaving crowd_ok _ _) _).
  - vm_refl.
  - intros i es svc _ _. exact (endpoint_not_of_service svc).
  - intros e (ip' & Hip' & Hs & _). exists ip'. exact (conj Hip' Hs).
Defined.

(** Two threads for one service: both see no reservation and make one. *)
Definition rivals : list role :=
  [ServiceCalls [EnsureCalled demo_service []]; ServiceCalls [EnsureCalled demo_service []]].
Definition rivals_2 : World := final (IPAddresses_Create 1 (ip_of demo_service)) crowd_1.
Definition rivals_trace : list (api_step World) := [
  (0, (crowd_world, crowd_world)); (1, (crowd_world, crowd_world));
  (0, (crowd_world, crowd_1)); (1, (crowd_1, rivals_2)) ].
Lemma rivals_reserve_twice :
  interleaving (prog crowd <$> rivals) crowd_world rivals_trace ∧
  count (tags_of crowd demo_service) (api_ips crowd_world) = 0 ∧
  count (tags_of crowd demo_service) (api_ips rivals_2) = 2.
Proof.
  split_and!; [split; [repeat split|split]|vm_refl..].
  - intros [|[|i]] c Hc; [..|done]; injection Hc as <-; unfold runs; vm_refl.
  - refine (bool_decide_eq_true_1 _ _); vm_refl.
Qed.

(** *** Two updates of one peer *)

(** The services of a peer are an array of its spec, and the merge patch of
    [client.MergeFrom] replaces an array as a whole, whatever it has become
    since it was read. Of two workers that add a service to one peer at the
    same time, the second takes away what the first wrote, and both succeed;
    one after the other, both services are recorded. The controller manager
    runs one worker unless [--concurrent-service-syncs] asks for more. *)
Definition record_service (svc : Resource) : M (shared World) unit :=
  _ ← UpdatePeersByService "metallb-system" [demo_peer "n1-0" "10.0.0.1"] (Res_Namespace svc) (Res_Name svc);
  mret ().
Definition peer_after (l : list nat) : list bool :=
  let w := reached world_one (schedule [record_service demo_svc; record_service demo_other] l [] world_one) in
  [records_in demo_svc w "n1-0"; records_in demo_other w "n1-0"].
Lemma concurrent_updates_lose_a_service :
  peer_after [0; 1; 0; 1] = [false; true] ∧ peer_after [0; 0; 1; 1] = [true; true].
Proof. split; vm_refl. Qed.
