(* ===== verification/Config.v ===== *)
(** * The configuration of the provider

    [cherry/config.go]: the JSON file of the provider, overridden by
    environment variables. Reading and decoding the file is the standard
    library's work on the struct's tags; the functions start from the
    decoded [rawConfig], or the error of reading it. A configuration that is
    returned with an error is never used. *)

From Stdlib Require Import Ascii.
From S2P Require Import Prelude Constants GoStrings Api.

(** ** Definitions *)

Definition apiKeyName : string := "CHERRY_API_KEY".
Definition projectIDName : string := "CHERRY_PROJECT_ID".
Definition regionName : string := "CHERRY_REGION_NAME".
Definition loadBalancerSettingName : string := "CHERRY_LOAD_BALANCER".
Definition envVarAnnotationLocalASN : string := "CHERRY_ANNOTATION_LOCAL_ASN".
Definition envVarAnnotationPeerASN : string := "CHERRY_ANNOTATION_PEER_ASN".
Definition envVarAnnotationPeerIP : string := "CHERRY_ANNOTATION_PEER_IP".
Definition envVarAnnotationSrcIP : string := "CHERRY_ANNOTATION_SRC_IP".
Definition envVarAnnotationFIPRegion : string := "CHERRY_ANNOTATION_FIP_REGION".
Definition envVarAnnotationMultiHop : string := "CHERRY_ANNOTATION_MULTI_HOP".
Definition envVarFIPTag : string := "CHERRY_FIP_TAG".
Definition envVarAPIServerPort : string := "CHERRY_API_SERVER_PORT".
Definition envVarBGPNodeSelector : string := "CHERRY_BGP_NODE_SELECTOR".
Definition envVarFIPHealthCheckUseHostIP : string := "CHERRY_FIP_HEALTH_CHECK_USE_HOST_IP".

Record Config := {
  AuthToken : string;
  ProjectID : Z;
  BaseURL : option string;
  LoadBalancerSetting : string;
  Region : string;
  AnnotationLocalASN : string;
  AnnotationPeerASN : string;
  AnnotationPeerIP : string;
  AnnotationSrcIP : string;
  AnnotationFIPRegion : string;
  AnnotationMultiHop : string;
  FIPTag : string;
  APIServerPort : Z;
  BGPNodeSelector : string;
  FIPHealthCheckUseHostIP : bool
}.

(** [Config.Strings]. *)
Definition Strings (c : Config) : list string :=
  [ (if decide (AuthToken c ≠ "") then "authToken: '<masked>'" else "authToken: ''");
    "projectID: '" +:+ Itoa (ProjectID c) +:+ "'";
    (if decide (LoadBalancerSetting c = "") then "loadbalancer config: disabled"
     else "load balancer config: ''" +:+ LoadBalancerSetting c);
    "region: '" +:+ Region c +:+ "'";
    "Floating IP Tag: '" +:+ FIPTag c +:+ "'";
    "API Server Port: '" +:+ Itoa (APIServerPort c) +:+ "'";
    "BGP Node Selector: '" +:+ BGPNodeSelector c +:+ "'" ].

Section getConfig.
Context `{Parsers}.
(** [os.Getenv]. *)
Variable Getenv : string → string.

(** The variable when it is set, else the other value. *)
Definition env_or (name other : string) : string :=
  let v := Getenv name in if decide (v ≠ "") then v else other.

Definition get_port (rawConfig : Config) : res Z :=
  let apiServer := Getenv envVarAPIServerPort in
  if decide (apiServer ≠ "") then
    match ParseInt32 apiServer with
    | None => Err (Errorw "env var %s must be a number, was %s: %w" [envVarAPIServerPort; apiServer]
                     (EExt "strconv.ParseInt"))
    | Some n => Ok n
    end
  else if decide (APIServerPort rawConfig ≠ 0%Z) then Ok (APIServerPort rawConfig)
  else Ok 0%Z.
Definition get_use_host_ip (rawConfig : Config) : res bool :=
  let v := Getenv envVarFIPHealthCheckUseHostIP in
  if decide (v ≠ "") then
    match ParseBool v with
    | None => Err (Errorw "env var %s must be a boolean, was %s: %w" [envVarFIPHealthCheckUseHostIP; v]
                     (EExt "strconv.ParseBool"))
    | Some b => Ok b
    end
  else Ok (FIPHealthCheckUseHostIP rawConfig).

(** The checks in the code's order: the first failure is the one reported. *)
Definition getConfig (providerConfig : res Config) : res Config :=
  rawConfig ← providerConfig;
  let apiToken := env_or apiKeyName (AuthToken rawConfig) in
  let projectID := env_or projectIDName (Itoa (ProjectID rawConfig)) in
  projID ← match ParseInt32 projectID with
           | None => Err (Errorv "project ID must be a valid integer: %v" [] (EExt "strconv.ParseInt"))
           | Some projID => Ok projID
           end;
  if decide (apiToken = "") then Err (Errorf "environment variable %q is required" [apiKeyName])
  else if decide (projectID = "") then
    Err (Errorf "environment variable %q is required" [projectIDName])
  else
    port ← get_port rawConfig;
    let selector := env_or envVarBGPNodeSelector (BGPNodeSelector rawConfig) in
    _ ← res_wrap (Errorw "BGP Node Selector must be valid Kubernetes selector: %w" [])
          (labels_Parse selector);
    useHostIP ← get_use_host_ip rawConfig;
    Ok {|
      AuthToken := apiToken;
      ProjectID := projID;
      BaseURL := None;
      LoadBalancerSetting := env_or loadBalancerSettingName (LoadBalancerSetting rawConfig);
      Region := env_or regionName (Region rawConfig);
      AnnotationLocalASN := env_or envVarAnnotationLocalASN DefaultAnnotationNodeASN;
      AnnotationPeerASN := env_or envVarAnnotationPeerASN DefaultAnnotationPeerASN;
      AnnotationPeerIP := env_or envVarAnnotationPeerIP DefaultAnnotationPeerIP;
      AnnotationSrcIP := env_or envVarAnnotationSrcIP DefaultAnnotationSrcIP;
      AnnotationFIPRegion := env_or envVarAnnotationFIPRegion DefaultAnnotationFIPRegion;
      AnnotationMultiHop := env_or envVarAnnotationMultiHop DefaultAnnotationMultiHop;
      FIPTag := env_or envVarFIPTag (FIPTag rawConfig);
      APIServerPort := port;
      BGPNodeSelector := selector;
      FIPHealthCheckUseHostIP := useHostIP |}.
End getConfig.

(** ** Lemmas *)

Lemma res_bind_Ok {A B} (c : res A) (k : A → res B) b :
  (c ≫= k) = Ok b ↔ ∃ a, c = Ok a ∧ k a = Ok b.
Proof. destruct c; simpl; naive_solver. Qed.

(** ** Properties *)

Section properties.
Context `{Parsers} (Getenv : string → string).

(** A decoded file: its port fits the 32 bits of its field. *)
Definition decoded (raw : Config) : Prop := (min_int32 ≤ APIServerPort raw ≤ max_int32)%Z.

(** C30: A configuration that is accepted can be used: it has a token, its
    project and its port fit in 32 bits, its selector parses, and none of
    the annotation names is empty. *)
Theorem getConfig_valid raw c :
  decoded raw → getConfig Getenv (Ok raw) = Ok c →
  AuthToken c ≠ "" ∧
  (min_int32 ≤ ProjectID c ≤ max_int32)%Z ∧ (min_int32 ≤ APIServerPort c ≤ max_int32)%Z ∧
  (∃ sel, labels_Parse (BGPNodeSelector c) = Ok sel) ∧
  Forall (λ a, a ≠ "") [AnnotationLocalASN c; AnnotationPeerASN c; AnnotationPeerIP c;
                        AnnotationSrcIP c; AnnotationFIPRegion c; AnnotationMultiHop c].
Proof.
  intros Hraw. unfold getConfig. simpl.
  destruct (ParseInt32 _) as [projID|] eqn:Hproj; [|done]. simpl.
  destruct (decide (env_or Getenv apiKeyName _ = "")) as [|Htok]; [done|].
  destruct (decide (env_or Getenv projectIDName _ = "")); [done|].
  rewrite res_bind_Ok. intros (port & Hport & Hrun).
  apply res_bind_Ok in Hrun as (sel & Hsel & Hrun). apply res_bind_Ok in Hrun as (b & _ & [= <-]).
  simpl. split; [done|]. split; [by eapply ParseInt32_range|]. split; [|split].
  - revert Hport. unfold get_port.
    destruct (decide (Getenv envVarAPIServerPort ≠ "")).
    { destruct (ParseInt32 (Getenv _)) eqn:Hp; [|done]. intros [= <-]. by eapply ParseInt32_range. }
    destruct (decide (APIServerPort raw ≠ 0%Z)); intros [= <-]; [done|].
    unfold min_int32, max_int32. lia.
  - destruct (labels_Parse _) as [s|e|]; try done. by exists s.
  - repeat (apply Forall_cons_2; [unfold env_or; by case_decide|]). apply Forall_nil_2.
Qed.

(** The annotation names and the base URL of the file are never used:
    files that agree on the other settings give the same configuration. *)
Theorem getConfig_ignores raw raw' :
  AuthToken raw = AuthToken raw' → ProjectID raw = ProjectID raw' →
  LoadBalancerSetting raw = LoadBalancerSetting raw' → Region raw = Region raw' →
  FIPTag raw = FIPTag raw' → APIServerPort raw = APIServerPort raw' →
  BGPNodeSelector raw = BGPNodeSelector raw' →
  FIPHealthCheckUseHostIP raw = FIPHealthCheckUseHostIP raw' →
  getConfig Getenv (Ok raw) = getConfig Getenv (Ok raw').
Proof.
  intros H1 H2 H3 H4 H5 H6 H7 H8. unfold getConfig, get_port, get_use_host_ip. simpl.
  by rewrite H1, H2, H3, H4, H5, H6, H7, H8.
Qed.

(** A missing project ID goes unnoticed: the check that asks for it can
    never fail, and without the variable and without the field the project
    is number 0. *)
Theorem getConfig_project_unchecked raw :
  getConfig Getenv (Ok raw) ≠ Err (Errorf "environment variable %q is required" [projectIDName]) ∧
  (Getenv projectIDName = "" → ProjectID raw = 0%Z →
   ∀ c, getConfig Getenv (Ok raw) = Ok c → ProjectID c = 0%Z).
Proof.
  unfold getConfig. simpl. set (project := env_or Getenv projectIDName _). split.
  - destruct (ParseInt32 project) as [projID|] eqn:Hproj; [|done]. simpl.
    destruct (decide (env_or Getenv apiKeyName _ = "")); [done|].
    rewrite decide_False by (intros Hempty; by rewrite Hempty in Hproj).
    destruct (get_port Getenv raw) as [port|e|] eqn:Hport; simpl; [| |done].
    + destruct (labels_Parse _); simpl; [|done..].
      unfold get_use_host_ip. destruct (decide _); [|done]. by destruct (ParseBool _).
    + revert Hport. unfold get_port. destruct (decide _); [|by destruct (decide _)].
      intros Heq Hx. injection Hx as ->. by destruct (ParseInt32 (Getenv envVarAPIServerPort)).
  - intros Henv Hraw c. assert (project = "0") as ->.
    { unfold project, env_or. by rewrite Henv, Hraw. }
    change (ParseInt32 "0") with (Some 0%Z). simpl.
    destruct (decide (env_or Getenv apiKeyName _ = "")); [done|].
    rewrite res_bind_Ok. intros (port & _ & Hrun). apply res_bind_Ok in Hrun as (sel & _ & Hrun).
    by apply res_bind_Ok in Hrun as (b & _ & [= <-]).
Qed.
End properties.

(** The printed configuration does not depend on the token, as long as
    there is one. *)
Theorem Strings_mask c c' :
  AuthToken c ≠ "" → AuthToken c' ≠ "" →
  ProjectID c = ProjectID c' → LoadBalancerSetting c = LoadBalancerSetting c' →
  Region c = Region c' → FIPTag c = FIPTag c' → APIServerPort c = APIServerPort c' →
  BGPNodeSelector c = BGPNodeSelector c' →
  Strings c = Strings c'.
Proof.
  intros H1 H2 H3 H4 H5 H6 H7 H8. unfold Strings.
  rewrite (decide_True (P := AuthToken c ≠ "")), (decide_True (P := AuthToken c' ≠ "")) by done.
  by rewrite H3, H4, H5, H6, H7, H8.
Qed.

(** ** Concrete runs *)

(** Only the project is set in the environment. *)
Definition demo_env (name : string) : string :=
  if decide (name = projectIDName) then "79813" else "".
Definition any_selector : Parsers := {|
  labels_Parse := λ _, Ok labels_Everything;
  ParseToLabelSelector := λ _, Ok {| LS_MatchLabels := None; LS_MatchExpressions := [] |}
|}.
Definition demo_raw (annotation : string) : Config := {|
  AuthToken := "secret"; ProjectID := 0; BaseURL := None; LoadBalancerSetting := "metallb:///";
  Region := "LT"; AnnotationLocalASN := annotation; AnnotationPeerASN := ""; AnnotationPeerIP := "";
  AnnotationSrcIP := ""; AnnotationFIPRegion := ""; AnnotationMultiHop := ""; FIPTag := "fip=cp";
  APIServerPort := 6443; BGPNodeSelector := ""; FIPHealthCheckUseHostIP := true |}.
Definition demo_config : Config := {|
  AuthToken := "secret"; ProjectID := 79813; BaseURL := None; LoadBalancerSetting := "metallb:///";
  Region := "LT"; AnnotationLocalASN := DefaultAnnotationNodeASN;
  AnnotationPeerASN := DefaultAnnotationPeerASN; AnnotationPeerIP := DefaultAnnotationPeerIP;
  AnnotationSrcIP := DefaultAnnotationSrcIP; AnnotationFIPRegion := DefaultAnnotationFIPRegion;
  AnnotationMultiHop := DefaultAnnotationMultiHop; FIPTag := "fip=cp";
  APIServerPort := 6443; BGPNodeSelector := ""; FIPHealthCheckUseHostIP := true |}.

Lemma getConfig_valid_witness :
  AuthToken demo_config ≠ "" ∧
  (min_int32 ≤ ProjectID demo_config ≤ max_int32)%Z ∧
  (min_int32 ≤ APIServerPort demo_config ≤ max_int32)%Z ∧
  (∃ sel, @labels_Parse any_selector (BGPNodeSelector demo_config) = Ok sel) ∧
  Forall (λ a, a ≠ "") [AnnotationLocalASN demo_config; AnnotationPeerASN demo_config;
    AnnotationPeerIP demo_config; AnnotationSrcIP demo_config; AnnotationFIPRegion demo_config;
    AnnotationMultiHop demo_config].
Proof.
  refine (@getConfig_valid any_selector demo_env (demo_raw "") demo_config _ _).
  - unfold decoded, min_int32, max_int32. simpl. lia.
  - vm_refl.
Defined.

Lemma getConfig_ignores_witness :
  @getConfig any_selector demo_env (Ok (demo_raw "")) =
  @getConfig any_selector demo_env (Ok (demo_raw "example.com/asn")).
Proof. by apply (@getConfig_ignores any_selector demo_env (demo_raw "") (demo_raw "example.com/asn")). Defined.
