(* ===== verification/Cloud.v ===== *)
(** * The cloud provider and how its parts are put together

    [cherry/cloud.go]: the controllers are built from the configuration when
    the cloud is initialised. [klog.Fatalf] ends the process: here an error
    with its message. *)

From Stdlib Require Import Ascii.
From S2P Require Import Prelude Constants GoStrings GoNet GoSort GoSlices Api World Instances Reservations LoadBalancer Bgp MetalLBTypes MetalLBPeers MetalLB LoadBalancers ControlPlane Config.

(** ** Definitions *)

Record cloud (W : Type) := {
  cloud_config : Config;
  cloud_instances : option Z; (* [instances]: its project *)
  cloud_loadBalancer : option (loadBalancers W);
  cloud_epm : option controlPlaneEndpointManager;
  cloud_bgp : option bgp
}.
Arguments cloud_config {W} _.
Arguments cloud_instances {W} _.
Arguments cloud_loadBalancer {W} _.
Arguments cloud_epm {W} _.
Arguments cloud_bgp {W} _.

Section cloud.
Context {W : Type} `{UrlParser, RestClient, Parsers, CrdRuntime, PdqSort, GoRange, ExpSlices}
  {CC : CherryClient W} {KC : KubeClient W}
  `{CrdClient W metalapi.BGPPeer, CrdClient W metalapi.IPAddressPool,
    CrdClient W metalapi.BGPAdvertisement}.

Definition newCloud (cherryConfig : Config) : cloud W := {|
  cloud_config := cherryConfig; cloud_instances := None; cloud_loadBalancer := None;
  cloud_epm := None; cloud_bgp := None
|}.

Definition newInstances (projectID : Z) : Z := projectID.

Definition Initialize (c : cloud W) (restCfg : restConfig) : M W (cloud W) :=
  let cfg := cloud_config c in
  let projectID := ProjectID cfg in
  epm ← wrap_err (Errorv "could not initialize ControlPlaneEndpointManager: %v" [])
          (lift_res (newControlPlaneEndpointManager restCfg (FIPTag cfg) projectID
                       (APIServerPort cfg) (FIPHealthCheckUseHostIP cfg)).1);
  b ← wrap_err (Errorv "could not initialize BGP: %v" []) (newBGP projectID);
  lb ← wrap_err (Errorv "could not initialize LoadBalancers: %v" [])
         (newLoadBalancers projectID (Config.Region cfg) (LoadBalancerSetting cfg)
            (AnnotationLocalASN cfg) (AnnotationPeerASN cfg) (AnnotationPeerIP cfg)
            (AnnotationSrcIP cfg) (AnnotationFIPRegion cfg) (AnnotationMultiHop cfg)
            (BGPNodeSelector cfg) (ensureNodeBGPEnabled b));
  mret {| cloud_config := cfg; cloud_instances := Some (newInstances projectID);
          cloud_loadBalancer := lb; cloud_epm := epm; cloud_bgp := Some b |}.

(** The controllers, and whether they are supported. A nil pointer in an
    interface is still [None]. *)
Definition LoadBalancer (c : cloud W) : option (loadBalancers W) * bool :=
  (cloud_loadBalancer c, bool_decide (is_Some (cloud_loadBalancer c))).
Definition Instances (c : cloud W) : option Empty_set * bool := (None, false).
Definition InstancesV2 (c : cloud W) : option Z * bool := (cloud_instances c, true).
Definition Zones (c : cloud W) : option Empty_set * bool := (None, false).
Definition Clusters (c : cloud W) : option Empty_set * bool := (None, false).
Definition Routes (c : cloud W) : option Empty_set * bool := (None, false).
Definition HasClusterID (c : cloud W) : bool := true.

(** What the provider registers at start, given [cherrygo.NewClient]. *)
Definition provider_factory (NewClient : string → res unit) (Getenv : string → string)
    (config : res Config) : res (cloud W) :=
  cherryConfig ← res_wrap (Errorw "provider config error: %w" []) (getConfig Getenv config);
  _ ← res_wrap (Errorv "unable to initialize cherrygo client: %v" []) (NewClient (AuthToken cherryConfig));
  Ok (newCloud cherryConfig).
Definition cloud_ProviderName (c : cloud W) : string := ProviderName.

(** [main.go], from the result of [cloudprovider.InitCloudProvider]. *)
Definition cloudInitializer (init : res (option (cloud W))) (AllowUntaggedCloud : bool) : res (cloud W) :=
  c ← res_wrap (Errorv "Cloud provider could not be initialized: %v" []) init;
  match c with
  | None => Err (Errorf "Cloud provider is nil" [])
  | Some c =>
      if negb (HasClusterID c) && negb AllowUntaggedCloud
      then Err (Errorf ("no ClusterID found.  A ClusterID is required for the cloud provider to function " +:+
                        "properly.  This check can be bypassed by setting the allow-untagged-cloud option") [])
      else Ok c
  end.

End cloud.

(** How the process ends. [klog.Fatalf] exits with 255. *)
Inductive exit := Returned | Exited (code : Z) | Panicked.

(** [main.go], [main]. The options, their constructor, the table of the
    controllers of the library and the command it builds are parameters: the
    command is given the options with the name of the provider, and the
    controllers without those that are not wanted. Seeding, flags and logs
    are left out. *)
Section main.
Context {Options Constructor : Type}
  (NewCloudControllerManagerOptions : option Options * option error)
  (set_ProviderName : string → Options → Options)
  (DefaultInitFuncConstructors : gmap string Constructor)
  (Execute : Options → gmap string Constructor → res unit).

Definition main : exit :=
  let '(opts, err) := NewCloudControllerManagerOptions in
  match opts with
  | None => Panicked
  | Some opts =>
      let opts := set_ProviderName ProviderName opts in
      match err with
      | Some _ => Exited 255
      | None =>
          let controllerInitializers := delete "route" DefaultInitFuncConstructors in
          match Execute opts controllerInitializers with
          | Ok _ => Returned
          | Err _ => Exited 1
          | Panic => Panicked
          end
      end
  end.

(** Options that could not be made are a nil pointer that [main] writes to
    before it looks at the error, which nobody gets to see. *)
Lemma main_nil_options err : NewCloudControllerManagerOptions = (None, err) → main = Panicked.
Proof. unfold main. by intros ->. Qed.
(** The command runs for this provider and never with the controller of
    routes; its error, and nothing else, is the exit code 1. *)
Lemma main_runs opts : NewCloudControllerManagerOptions = (Some opts, None) →
  ∃ cs, cs !! "route" = None ∧ (∀ k, k ≠ "route" → cs !! k = DefaultInitFuncConstructors !! k) ∧
    (main = Returned ↔ Execute (set_ProviderName ProviderName opts) cs = Ok ()) ∧
    (main = Exited 1 ↔ ∃ e, Execute (set_ProviderName ProviderName opts) cs = Err e).
Proof.
  unfold main. intros ->. exists (delete "route" DefaultInitFuncConstructors).
  split; [apply lookup_delete_eq|]. split; [by intros k Hk; apply lookup_delete_ne|].
  destruct (Execute _ _) as [[]|e|]; naive_solver.
Qed.
End main.

(** ** Lemmas *)

Section properties.
Context {W : Type} `{UrlParser, RestClient, Parsers, CrdRuntime, PdqSort, GoRange, ExpSlices}
  {CC : CherryClient W} {KC : KubeClient W}
  `{CrdClient W metalapi.BGPPeer, CrdClient W metalapi.IPAddressPool,
    CrdClient W metalapi.BGPAdvertisement}.

Lemma newLoadBalancers_Ok projectID region config a1 a2 a3 a4 a5 a6 nodeSel enabler w lb w' :
  newLoadBalancers projectID region config a1 a2 a3 a4 a5 a6 nodeSel enabler w = (Ok lb, w') →
  match lb with
  | None => config = ""
  | Some l =>
      config ≠ "" ∧ project l = projectID ∧ LoadBalancers.region l = region ∧
      fipRegionAnnotation l = a5 ∧
      bgpEnabler l = enabler ∧
      nodeSelector l = (if decide (nodeSel ≠ "") then
                          match labels_Parse nodeSel with Ok s => Some s | _ => None end
                        else Some labels_Everything) ∧
      ∃ u, url_Parse config = Ok u ∧ newImplementor u nodeSel = Ok (implementor l)
  end.
Proof.
  unfold newLoadBalancers. destruct (decide (config = "")) as [->|Hne]; [by intros [= <- <-]|].
  intros Hrun. inv_ok. destruct a as [uid|]; [|done]. inv_ok.
  rename a into u. unfold lift_res in *. simplify_eq. split_and!; try done. by exists u.
Qed.

(** A filter over nodes panics only on a nil selector. *)
Lemma filterNodes_Some nodes sel : ∃ l, filterNodes nodes (Some sel) = Ok l.
Proof.
  induction nodes as [|n nodes [l IH]]; [by eexists|]. simpl. rewrite IH. by eexists.
Qed.

Lemma Initialize_Ok c restCfg w c' w' :
  Initialize c restCfg w = (Ok c', w') →
  cloud_config c' = cloud_config c ∧ cloud_instances c' = Some (ProjectID (cloud_config c)) ∧
  (∃ b, cloud_bgp c' = Some b ∧ bgp_project b = ProjectID (cloud_config c)) ∧
  (cloud_loadBalancer c' = None ↔ LoadBalancerSetting (cloud_config c) = "") ∧
  ∀ l, cloud_loadBalancer c' = Some l →
    project l = ProjectID (cloud_config c) ∧
    nodeSelector l = (if decide (BGPNodeSelector (cloud_config c) ≠ "") then
                        match labels_Parse (BGPNodeSelector (cloud_config c)) with
                        | Ok s => Some s | _ => None end
                      else Some labels_Everything) ∧
    (∃ u, url_Parse (LoadBalancerSetting (cloud_config c)) = Ok u ∧
          newImplementor u (BGPNodeSelector (cloud_config c)) = Ok (implementor l)).
Proof.
  unfold Initialize. intros Hrun. inv_ok.
  match goal with Hb : newBGP _ _ = _ |- _ => rename Hb into Hbgp end.
  match goal with Hb : newLoadBalancers _ _ _ _ _ _ _ _ _ _ _ _ = _ |- _ =>
    apply newLoadBalancers_Ok in Hb; rename Hb into Hlb end.
  simpl. split_and!; try done.
  - eexists. split; [done|]. revert Hbgp. unfold newBGP, enableBGP. intros Hbgp. inv_ok.
    destruct (Project_Bgp_Enabled _); by inv_ok.
  - split; [by intros ->|]. match type of Hlb with context [match ?x with Some _ => _ | None => _ end] => destruct x end; [|done].
    by destruct Hlb as [? _].
  - intros l ->. destruct Hlb as (_ & ? & _ & _ & _ & ? & ?). done.
Qed.

(** ** Properties *)

(** A cloud that starts from an accepted configuration never loses its
    node selector: filtering the nodes of a service never panics. *)
Theorem started_selector (Getenv : string → string) raw cfg restCfg w c w' l nodes :
  getConfig Getenv raw = Ok cfg →
  Initialize (newCloud cfg) restCfg w = (Ok c, w') →
  LoadBalancer c = (Some l, true) →
  ∃ nodes', filterNodes nodes (nodeSelector l) = Ok nodes'.
Proof.
  intros Hcfg Hinit Hlb. apply Initialize_Ok in Hinit as (_ & _ & _ & _ & Hl).
  injection Hlb as Hlb _. destruct (Hl l Hlb) as (_ & -> & _). simpl.
  destruct (decide (BGPNodeSelector cfg ≠ "")); [|apply filterNodes_Some].
  assert (∃ sel, labels_Parse (BGPNodeSelector cfg) = Ok sel) as [sel ->]; [|apply filterNodes_Some].
  revert Hcfg. unfold getConfig. rewrite res_bind_Ok. intros (rawc & _ & Hrun).
  apply res_bind_Ok in Hrun as (id & _ & Hrun). repeat (destruct (decide _) in Hrun; [done|]).
  apply res_bind_Ok in Hrun as (port & _ & Hrun). apply res_bind_Ok in Hrun as (sel & Hsel & Hrun).
  apply res_bind_Ok in Hrun as (b & _ & [= <-]). simpl.
  destruct (labels_Parse _) as [s|e|]; try done. by exists s.
Qed.

(** C26: A load balancer setting with an unknown scheme is reported as no
    implementation when the cloud starts, yet load balancers are offered,
    and not one operation on a managed service succeeds: the first and the
    last panic at once. *)
Theorem unknown_scheme cfg restCfg u w c w' svc nodes w0 :
  LoadBalancerSetting cfg ≠ "" → url_Parse (LoadBalancerSetting cfg) = Ok u →
  URL_Scheme u ∉ ["kube-vip"; "metallb"; "empty"] →
  Initialize (newCloud cfg) restCfg w = (Ok c, w') →
  isServiceManaged (Some svc) = true →
  ∃ l, LoadBalancer c = (Some l, true) ∧
    GetLoadBalancer l svc w0 = (Panic, w0) ∧ EnsureLoadBalancerDeleted l svc w0 = (Panic, w0) ∧
    (∀ st w1, EnsureLoadBalancer l svc nodes w0 ≠ (Ok st, w1)) ∧
    (∀ w1, UpdateLoadBalancer l svc nodes w0 ≠ (Ok (), w1)).
Proof.
  intros Hne Hurl Hscheme Hinit Hm. apply Initialize_Ok in Hinit as (_ & _ & _ & Hnone & Hl).
  unfold LoadBalancer. destruct (cloud_loadBalancer c) as [l|]; [|destruct Hne; by apply Hnone].
  destruct (Hl l eq_refl) as (_ & _ & u' & Hu' & Himpl). simpl in Hu', Himpl.
  assert (u' = u) as -> by congruence. apply not_elem_of_cons in Hscheme as [Hs1 Hscheme].
  apply not_elem_of_cons in Hscheme as [Hs2 [Hs3 _]%not_elem_of_cons].
  assert (implementor l = None) as Hi.
  { revert Himpl. unfold newImplementor. rewrite !decide_False by done. by intros [= <-]. }
  exists l. split; [done|].
  unfold GetLoadBalancer, EnsureLoadBalancerDeleted, EnsureLoadBalancer, UpdateLoadBalancer, addService,
    the_implementor. rewrite Hm, Hi. simpl. split_and!; [done|done| |].
  - intros st w1 Hrun. inv_ok.
  - intros w1 Hrun. inv_ok.
Qed.
End properties.

(** ** Concrete runs *)

Local Existing Instance key_order.
Local Existing Instance pdqsort_by_insertion.
Local Existing Instance any_selector.
Local Existing Instance exp_slices.
(** A parser that only knows the scheme, and clients that are always built. *)
Local Instance scheme_only : UrlParser := λ s,
  match Cut "://" s with
  | Some (scheme, rest) =>
      Ok {| URL_Scheme := scheme; URL_Path := rest; URL_Query := ∅; URL_Hostname := "" |}
  | None => Err (EExt "parse")
  end.
Local Instance any_client : RestClient := λ _, None.
Local Instance crd_client : MetalLB.CrdRuntime := None.

Definition no_rest : restConfig := {| rest_Host := "kubernetes.default.svc"; rest_ServerName := "" |}.
Definition cloud_world : World :=
  set_cherry {| c_ips := []; c_next := 1; c_servers := ∅;
                c_project := {| Project_ID := 79813; Project_Name := "p"; Project_Bgp_Enabled := true;
                                Project_Bgp_LocalASN := 65000 |} |} empty_world.
Definition with_setting (setting : string) : Config := {|
  AuthToken := "secret"; ProjectID := 79813; BaseURL := None; LoadBalancerSetting := setting;
  Region := "LT"; AnnotationLocalASN := "a"; AnnotationPeerASN := "b"; AnnotationPeerIP := "c";
  AnnotationSrcIP := "d"; AnnotationFIPRegion := "e"; AnnotationMultiHop := "f"; FIPTag := "";
  APIServerPort := 0; BGPNodeSelector := ""; FIPHealthCheckUseHostIP := false |}.
Definition started (cfg : Config) : cloud World :=
  match (Initialize (newCloud cfg) no_rest cloud_world).1 with Ok c => c | _ => newCloud cfg end.

Lemma started_selector_witness :
  is_Some (cloud_loadBalancer (started demo_config)) ∧
  ∀ l, cloud_loadBalancer (started demo_config) = Some l →
  ∃ nodes', filterNodes [] (nodeSelector l) = Ok nodes'.
Proof.
  split; [by eexists|]. intros l Hl.
  refine (started_selector demo_env (Ok (demo_raw "")) demo_config no_rest cloud_world
    (started demo_config) cloud_world l [] _ _ _).
  - vm_refl.
  - reflexivity.
  - unfold LoadBalancer. rewrite Hl. reflexivity.
Defined.

Lemma unknown_scheme_witness :
  let svc := {| Service_Namespace := "default"; Service_Name := "web"; Service_Annotations := None;
                Service_LoadBalancerIP := ""; Service_Ports := [] |} in
  ∃ l, LoadBalancer (started (with_setting "cilium://")) = (Some l, true) ∧
    GetLoadBalancer l svc cloud_world = (Panic, cloud_world) ∧
    EnsureLoadBalancerDeleted l svc cloud_world = (Panic, cloud_world) ∧
    (∀ st w1, EnsureLoadBalancer l svc [] cloud_world ≠ (Ok st, w1)) ∧
    (∀ w1, UpdateLoadBalancer l svc [] cloud_world ≠ (Ok (), w1)).
Proof.
  cbv zeta.
  refine (unknown_scheme (with_setting "cilium://") no_rest _ cloud_world
    (started (with_setting "cilium://")) cloud_world _ [] cloud_world _ eq_refl _ _ _).
  - done.
  - by apply not_elem_of_cons; split; [|apply not_elem_of_cons; split;
      [|apply not_elem_of_cons; split; [|apply not_elem_of_nil]]].
  - reflexivity.
  - vm_refl.
Defined.
