(* ===== verification/Store.v ===== *)
(** * The in-memory store of the API simulator

    [cherry/server/store]: the objects are allocated once and shared by
    pointer, between the maps of the store, the handlers and the tests. A
    [table] is one map of the store with the cells its pointers point to; a
    pointer is an address of a cell, a nil pointer is [None]. The mutex
    protects the counter only, so the model runs one call at a time
    ([StoreConcurrency] runs the counter under any schedule). The methods return a value and an error, as the interface [DataStore] asks:
    a [res], whose error branch the reading ones never take; an object that is
    not there is a nil pointer and no error. The counter does not get near
    the bounds of [int]. *)

From S2P Require Import Prelude GoStrings Api.

(** ** Definitions *)

Definition loc : Type := positive.

Record table (A : Type) := {
  entries : gmap Z loc;
  cells : gmap loc A;
  next_cell : loc
}.
Arguments entries {A} _.
Arguments cells {A} _.
Arguments next_cell {A} _.

Section table.
Context {A : Type}.
Implicit Types t : table A.

Definition empty_table : table A := {| entries := ∅; cells := ∅; next_cell := 1%positive |}.
(** [&T{...}]. *)
Definition alloc (x : A) t : loc * table A :=
  (next_cell t,
   {| entries := entries t; cells := <[next_cell t := x]> (cells t);
      next_cell := Pos.succ (next_cell t) |}).
(** [m[id] = p], [delete(m, id)] and an assignment through a pointer. *)
Definition set_entry (id : Z) (p : loc) t : table A :=
  {| entries := <[id := p]> (entries t); cells := cells t; next_cell := next_cell t |}.
Definition del_entry (id : Z) t : table A :=
  {| entries := delete id (entries t); cells := cells t; next_cell := next_cell t |}.
Definition store_cell (p : loc) (x : A) t : table A :=
  {| entries := entries t; cells := <[p := x]> (cells t); next_cell := next_cell t |}.
End table.

Record Memory := {
  counter : Z;
  regions : table Region;
  servers : table Server;
  plans : table Plan;
  projects : table Project
}.
Definition set_counter (n : Z) (m : Memory) : Memory := {|
  counter := n; regions := regions m; servers := servers m; plans := plans m; projects := projects m |}.
Definition set_regions (t : table Region) (m : Memory) : Memory := {|
  counter := counter m; regions := t; servers := servers m; plans := plans m; projects := projects m |}.
Definition set_servers (t : table Server) (m : Memory) : Memory := {|
  counter := counter m; regions := regions m; servers := t; plans := plans m; projects := projects m |}.
Definition set_plans (t : table Plan) (m : Memory) : Memory := {|
  counter := counter m; regions := regions m; servers := servers m; plans := t; projects := projects m |}.
Definition set_projects (t : table Project) (m : Memory) : Memory := {|
  counter := counter m; regions := regions m; servers := servers m; plans := plans m; projects := t |}.

Definition getID (m : Memory) : Z * Memory :=
  let value := (counter m + 1)%Z in (value, set_counter value m).

(** A new object with a new ID, in its map. *)
Definition add_new {A} (x : A) (id : Z) (t : table A) : loc * table A :=
  let '(p, t) := alloc x t in (p, set_entry id p t).

Definition CreateRegion (name code : string) (m : Memory) : loc * Memory :=
  let '(id, m) := getID m in
  let '(p, t) := add_new {| Region_ID := id; Region_Name := name; Region_Slug := "";
                            Region_RegionIso2 := code;
                            Region_BGP := {| BGP_Hosts := []; BGP_Asn := 0 |} |} id (regions m) in
  (p, set_regions t m).
Definition CreatePlan (name : string) (m : Memory) : loc * Memory :=
  let '(id, m) := getID m in
  let '(p, t) := add_new {| Plan_ID := id; Plan_Name := name; Plan_Slug := "slug-" +:+ name |}
                   id (plans m) in
  (p, set_plans t m).
Definition CreateServer (projectID : Z) (name : string) (plan : Plan) (region : Region) (m : Memory)
  : res (option loc) * Memory :=
  let '(id, m) := getID m in
  let '(p, t) := add_new {| Server_ID := id; Server_Hostname := name; Server_State := "active";
                            Server_Plan := plan; Server_Region := region;
                            Server_Project := {| Project_ID := projectID; Project_Name := "";
                                                 Project_Bgp_Enabled := false; Project_Bgp_LocalASN := 0 |};
                            Server_IPAddresses := []; Server_BGP_Enabled := false;
                            Server_Tags := None |} id (servers m) in
  (Ok (Some p), set_servers t m).
Definition CreateProject (name : string) (bgp : bool) (m : Memory) : loc * Memory :=
  let '(id, m) := getID m in
  let '(p, t) := add_new {| Project_ID := id; Project_Name := name; Project_Bgp_Enabled := bgp;
                            Project_Bgp_LocalASN := 0 |} id (projects m) in
  (p, set_projects t m).

Definition no_memory : Memory := {|
  counter := 0; regions := empty_table; servers := empty_table; plans := empty_table;
  projects := empty_table |}.
Definition NewMemory : Memory :=
  (CreateRegion "EU-Nord-1" "LT" (CreatePlan "baremetal" no_memory).2).2.

Section lists.
Context `{GoRange}.

(** The loop stops once [count] are collected, which is never before the
    map ends. *)
Fixpoint collect (count : nat) (l : list (Z * loc)) (acc : list loc) : list loc :=
  match l with
  | [] => acc
  | (_, v) :: l' => if decide (count ≤ length acc) then acc else collect count l' (acc ++ [v])
  end.
Definition list_table {A} (t : table A) : list loc :=
  let count := size (entries t) in
  if decide (count ≠ 0) then collect count (range_map (entries t)) [] else [].
Definition ListRegions (m : Memory) : res (list loc) := Ok (list_table (regions m)).
Definition ListPlans (m : Memory) : res (list loc) := Ok (list_table (plans m)).

(** The first entry the map gives whose cell passes the test. *)
Fixpoint find_cell {A} (t : table A) (test : A → bool) (l : list (Z * loc)) : option loc :=
  match l with
  | [] => None
  | (_, p) :: l' =>
      match cells t !! p with
      | Some x => if test x then Some p else find_cell t test l'
      | None => find_cell t test l'
      end
  end.
Definition GetRegionByName (name : string) (m : Memory) : res (option loc) :=
  Ok (find_cell (regions m) (λ r, bool_decide (Region_Name r = name)) (range_map (entries (regions m)))).
Definition GetRegionByCode (code : string) (m : Memory) : res (option loc) :=
  Ok (find_cell (regions m) (λ r, bool_decide (Region_RegionIso2 r = code))
    (range_map (entries (regions m)))).
Definition GetPlanByName (name : string) (m : Memory) : res (option loc) :=
  Ok (find_cell (plans m) (λ p, bool_decide (Plan_Name p = name)) (range_map (entries (plans m)))).

Fixpoint collect_servers (m : Memory) (projectID : Z) (count : nat) (l : list (Z * loc))
    (acc : list loc) : list loc :=
  match l with
  | [] => acc
  | (_, v) :: l' =>
      if decide (count ≤ length acc) then acc
      else
        match cells (servers m) !! v with
        | Some s =>
            if decide (Project_ID (Server_Project s) ≠ projectID)
            then collect_servers m projectID count l' acc
            else collect_servers m projectID count l' (acc ++ [v])
        | None => collect_servers m projectID count l' acc
        end
  end.
Definition ListServers (projectID : Z) (m : Memory) : res (list loc) :=
  Ok (collect_servers m projectID (size (entries (servers m))) (range_map (entries (servers m))) []).
End lists.

Definition GetRegion (id : Z) (m : Memory) : res (option loc) := Ok (entries (regions m) !! id).
Definition GetPlan (id : Z) (m : Memory) : res (option loc) := Ok (entries (plans m) !! id).
Definition GetServer (serverID : Z) (m : Memory) : res (option loc) := Ok (entries (servers m) !! serverID).
Definition GetProject (ID : Z) (m : Memory) : res (option loc) := Ok (entries (projects m) !! ID).

(** The pointer is stored under [ID] when the ID of the object it points to
    is known. *)
Definition UpdateServer (ID : Z) (server : option loc) (m : Memory) : res unit * Memory :=
  match server with
  | None => (Err (Errorf "must include a valid server" []), m)
  | Some p =>
      match cells (servers m) !! p with
      | None => (Panic, m)
      | Some s =>
          match entries (servers m) !! Server_ID s with
          | Some _ => (Ok (), set_servers (set_entry ID p (servers m)) m)
          | None => (Err (Errorf "server not found" []), m)
          end
      end
  end.
Definition DeleteServer (serverID : Z) (m : Memory) : bool * Memory :=
  match entries (servers m) !! serverID with
  | Some _ => (true, set_servers (del_entry serverID (servers m)) m)
  | None => (false, m)
  end.
Definition UpdateProject (ID : Z) (project : option loc) (m : Memory) : res unit * Memory :=
  match project with
  | None => (Err (Errorf "must include a valid project" []), m)
  | Some p =>
      match cells (projects m) !! p with
      | None => (Panic, m)
      | Some pr =>
          if decide (ID ≠ Project_ID pr) then (Err (Errorf "project ID mismatch" []), m)
          else
            match entries (projects m) !! Project_ID pr with
            | Some _ => (Ok (), set_projects (set_entry (Project_ID pr) p (projects m)) m)
            | None => (Err (Errorf "project not found" []), m)
            end
      end
  end.
