(* ===== verification/StoreConcurrency.v ===== *)
(** * Concurrent calls of the store of the API simulator

    The HTTP server runs every request in a goroutine of its own, and all of
    them take their numbers from [getID] of [cherry/server/store/memory.go].
    This file runs [getID] one memory access at a time in any number of
    goroutines, under any schedule, with the mutex as Go has it: a flag, that
    whoever locks it waits for and whoever unlocks it clears. It shows that
    the calls behave as the function [getID] of the sequential store, run at
    once in some order, that no two calls give the same number, and that
    every schedule ends. *)

From S2P Require Import Prelude GoStrings Api Store.

(** ** Definitions *)

(** The accesses of the body: [m.counter++] is a load, an increment of a
    register and a store. *)
Inductive instr := MuLock | Load | Incr | StoreReg | MuUnlock | Ret.
#[export] Instance instr_eq_dec : EqDecision instr.
Proof. solve_decision. Defined.

Definition getID_code : list instr :=
  [ MuLock;                 (* m.mu.Lock() *)
    Load; Incr; StoreReg;   (* m.counter++ *)
    Load;                   (* value := m.counter *)
    MuUnlock;               (* m.mu.Unlock() *)
    Ret ].                  (* return value *)

(** A goroutine with the calls it has still to make, what is left of the
    current one, its register, and the numbers it was given. *)
Record thread := { calls : nat; todo : list instr; reg : Z; returned : list Z }.
Record system := { mem : Memory; locked : bool; threads : list thread }.

Definition goto (c : list instr) (th : thread) : thread :=
  {| calls := calls th; todo := c; reg := reg th; returned := returned th |}.
Definition set_reg (r : Z) (th : thread) : thread :=
  {| calls := calls th; todo := todo th; reg := r; returned := returned th |}.
Definition give (v : Z) (th : thread) : thread :=
  {| calls := calls th; todo := todo th; reg := reg th; returned := returned th ++ [v] |}.
Definition enter (k : nat) (th : thread) : thread :=
  {| calls := k; todo := getID_code; reg := 0; returned := returned th |}.

(** What one goroutine does next, [None] when it cannot: it has finished,
    it waits for the mutex, or it unlocks one that is not locked, which is
    fatal in Go. *)
Definition thread_step (th : thread) (m : Memory) (l : bool) : option (thread * Memory * bool) :=
  match todo th with
  | [] => match calls th with 0 => None | S k => Some (enter k th, m, l) end
  | MuLock :: c => if l then None else Some (goto c th, m, true)
  | Load :: c => Some (goto c (set_reg (counter m) th), m, l)
  | Incr :: c => Some (goto c (set_reg (reg th + 1)%Z th), m, l)
  | StoreReg :: c => Some (goto c th, set_counter (reg th) m, l)
  | MuUnlock :: c => if l then Some (goto c th, m, false) else None
  | Ret :: c => Some (goto c (give (reg th) th), m, l)
  end.
Definition run_thread (i : nat) (s : system) : option system :=
  match threads s !! i with
  | None => None
  | Some th =>
      match thread_step th (mem s) (locked s) with
      | None => None
      | Some (th', m, l) => Some {| mem := m; locked := l; threads := <[i := th']> (threads s) |}
      end
  end.
Definition sys_step (s s' : system) : Prop := ∃ i, run_thread i s = Some s'.
(** A schedule names the goroutine of each step. *)
Fixpoint run_schedule (l : list nat) (s : system) : option system :=
  match l with
  | [] => Some s
  | i :: l' => s' ← run_thread i s; run_schedule l' s'
  end.

(** One goroutine per number of calls. *)
Definition start (m : Memory) (ks : list nat) : system := {|
  mem := m; locked := false;
  threads := (λ k, {| calls := k; todo := []; reg := 0; returned := [] |}) <$> ks |}.
Definition finished (s : system) : Prop := Forall (λ th, calls th = 0 ∧ todo th = []) (threads s).

(** *** What the calls should look like: each at once, one after the other *)

Inductive atomic_step : relation (Memory * list (list Z)) :=
  | atomic_getID m m' rs i r v :
      getID m = (v, m') → rs !! i = Some r → atomic_step (m, rs) (m', <[i := r ++ [v]]> rs).

(** ** The invariant *)

(** Between [Lock] and [Unlock]. *)
Definition in_section (th : thread) : Prop := 2 ≤ length (todo th) ≤ 6.

(** The numbers a goroutine has, and the one its current call will give once
    the counter is written. *)
Definition issued (th : thread) : list Z :=
  returned th ++ match length (todo th) with 1 | 2 | 3 => [reg th] | _ => [] end.

(** What the register of the goroutine in the section holds. *)
Definition reg_ok (c : Z) (th : thread) : Prop :=
  match length (todo th) with
  | 5 | 3 | 2 => reg th = c
  | 4 => reg th = (c + 1)%Z
  | _ => True
  end.
Definition placed (th : thread) : Prop := ∃ j, todo th = drop j getID_code.

Definition owned_by (o : option nat) (s : system) : Prop :=
  locked s = bool_decide (is_Some o) ∧ (∀ i, o = Some i → is_Some (threads s !! i)) ∧
  ∀ i th, threads s !! i = Some th →
    placed th ∧ (in_section th ↔ o = Some i) ∧ (o = Some i → reg_ok (counter (mem s)) th).
Definition inv (s : system) : Prop := ∃ o, owned_by o s.

Definition abs (s : system) : Memory * list (list Z) := (mem s, issued <$> threads s).

Lemma run_thread_Some i s s' :
  run_thread i s = Some s' →
  ∃ th th', threads s !! i = Some th ∧
    thread_step th (mem s) (locked s) = Some (th', mem s', locked s') ∧
    threads s' = <[i := th']> (threads s).
Proof.
  unfold run_thread. destruct (threads s !! i) as [th|]; [|done].
  destruct (thread_step th _ _) as [[[th' m] l]|] eqn:Hstep; [|done]. intros [= <-]. by exists th, th'.
Qed.

(** The places of a goroutine. *)
Lemma placed_cases th :
  placed th →
  todo th = [] ∨ todo th = getID_code ∨ todo th = [Load; Incr; StoreReg; Load; MuUnlock; Ret] ∨
  todo th = [Incr; StoreReg; Load; MuUnlock; Ret] ∨ todo th = [StoreReg; Load; MuUnlock; Ret] ∨
  todo th = [Load; MuUnlock; Ret] ∨ todo th = [MuUnlock; Ret] ∨ todo th = [Ret].
Proof.
  intros [j Hj]. do 7 (destruct j as [|j]; [by rewrite Hj; tauto|]).
  left. rewrite Hj. by destruct j.
Qed.

Ltac places Hp :=
  apply placed_cases in Hp as [Hc|[Hc|[Hc|[Hc|[Hc|[Hc|[Hc|Hc]]]]]]].

(** What the other goroutines have to know of a step is whether the section
    is taken: the counter is only written inside it. *)
Lemma thread_step_inv (o : option nat) i th m l th' m' l' :
  placed th → (in_section th ↔ o = Some i) → (o = Some i → reg_ok (counter m) th) →
  l = bool_decide (is_Some o) → thread_step th m l = Some (th', m', l') →
  ∃ o', l' = bool_decide (is_Some o') ∧ placed th' ∧
    (in_section th' ↔ o' = Some i) ∧ (o' = Some i → reg_ok (counter m') th') ∧
    (∀ j, j ≠ i → o' = Some j ↔ o = Some j) ∧
    (o = Some i ∨ m' = m).
Proof.
  intros Hp Hsec Hreg -> Hstep. unfold thread_step, in_section, reg_ok in *.
  places Hp; rewrite Hc in *; simpl in *.
  - destruct (calls th) as [|k]; [done|]. injection Hstep as <- <- <-. exists o. simpl.
    split_and!; [done|by exists 0|rewrite <-Hsec; lia|done|done|by right].
  - destruct o as [j|]; [done|]. injection Hstep as <- <- <-. exists (Some i). simpl.
    split_and!; [done|by exists 1|split; [done|lia]|done|naive_solver|by right].
  - injection Hstep as <- <- <-. exists o. simpl.
    split_and!; [done|by exists 2|rewrite <-Hsec; lia|done|done|by right].
  - injection Hstep as <- <- <-. exists o. simpl.
    split_and!; [done|by exists 3|rewrite <-Hsec; lia|intros ?; by rewrite Hreg|done|by right].
  - injection Hstep as <- <- <-. exists o. simpl.
    split_and!; [done|by exists 4|rewrite <-Hsec; lia|done|done|left; apply Hsec; lia].
  - injection Hstep as <- <- <-. exists o. simpl.
    split_and!; [done|by exists 5|rewrite <-Hsec; lia|done|done|by right].
  - assert (o = Some i) as -> by (apply Hsec; lia). injection Hstep as <- <- <-. exists None. simpl.
    split_and!; [done|by exists 6|split; [lia|done]|done|naive_solver|by right].
  - injection Hstep as <- <- <-. exists o. simpl.
    split_and!; [done|by exists 7|rewrite <-Hsec; lia|intros ?; tauto|done|by right].
Qed.

Lemma inv_start m ks : inv (start m ks).
Proof.
  exists None. split_and!; [done..|]. intros i th Hth. simpl in Hth.
  apply list_lookup_fmap_Some in Hth as (k & -> & _).
  split_and!; [by exists 7|split; [intros [H _]; simpl in H; lia|done]|done].
Qed.

Lemma inv_step s s' : inv s → sys_step s s' → inv s'.
Proof.
  intros (o & Hl & Hex & Hall) [i Hrun].
  destruct (run_thread_Some _ _ _ Hrun) as (th & th' & Hth & Hstep & Hths).
  destruct (Hall _ _ Hth) as (Hp & Hsec & Hreg).
  destruct (thread_step_inv o i _ _ _ _ _ _ Hp Hsec Hreg Hl Hstep) as (o' & Hl' & Hp' & Hsec' & Hreg' & Ho & Hm).
  exists o'. unfold owned_by. rewrite Hths. split_and!; [done| |].
  { intros j Hj. apply lookup_lt_is_Some. rewrite length_insert. apply lookup_lt_is_Some.
    destruct (decide (j = i)) as [->|Hne]; [by eexists|]. by apply Hex, Ho. }
  intros j thj Hj.
  apply list_lookup_insert_Some in Hj as [(<- & <- & _)|(Hne & Hj)]; [done|].
  destruct (Hall _ _ Hj) as (Hpj & Hsecj & Hregj). rewrite Ho by done.
  split_and!; [done|done|]. intros Hoj. destruct Hm as [-> | ->]; [congruence|auto].
Qed.
Lemma inv_steps s s' : rtc sys_step s s' → inv s → inv s'.
Proof. induction 1; eauto using inv_step. Qed.

(** *** Every step is a call at once, or nothing *)

Lemma thread_step_issued m th l th' m' l' :
  placed th → (in_section th → reg_ok (counter m) th) →
  thread_step th m l = Some (th', m', l') →
  (m' = m ∧ issued th' = issued th) ∨
  ∃ v, getID m = (v, m') ∧ issued th' = issued th ++ [v].
Proof.
  intros Hp Hreg Hstep. unfold thread_step, in_section, reg_ok, issued in *.
  places Hp; rewrite Hc in *; simpl in *; repeat case_match; simplify_eq; simpl;
    try (left; by rewrite ?app_nil_r).
  - right. exists (reg th). unfold getID. by rewrite app_nil_r, Hreg by lia.
  - left. by rewrite Hreg by lia.
Qed.

Lemma abs_step s s' : inv s → sys_step s s' → abs s' = abs s ∨ atomic_step (abs s) (abs s').
Proof.
  intros (o & Hl & Hex & Hall) [i Hrun].
  destruct (run_thread_Some _ _ _ Hrun) as (th & th' & Hth & Hstep & Hths).
  destruct (Hall _ _ Hth) as (Hp & Hsec & Hreg). unfold abs. rewrite Hths, list_fmap_insert.
  destruct (thread_step_issued _ _ _ _ _ _ Hp (λ H, Hreg (proj1 Hsec H)) Hstep) as [[-> ->]|(v & Hv & ->)].
  - left. f_equal. apply list_insert_id. by rewrite list_lookup_fmap, Hth.
  - right. apply atomic_getID; [done|]. by rewrite list_lookup_fmap, Hth.
Qed.
Lemma abs_steps s s' : rtc sys_step s s' → inv s → rtc atomic_step (abs s) (abs s').
Proof.
  induction 1 as [|s s1 s' Hstep Hsteps IH]; intros Hinv; [done|].
  specialize (IH (inv_step _ _ Hinv Hstep)).
  destruct (abs_step _ _ Hinv Hstep) as [<-|Ha]; [done|]. by eapply rtc_l.
Qed.

(** *** Calls at once give different numbers *)

Definition numbered (m0 m : Memory) (rs : list (list Z)) : Prop :=
  (counter m0 ≤ counter m)%Z ∧
  concat rs ≡ₚ seqZ (counter m0 + 1) (counter m - counter m0) ∧
  Forall (StronglySorted Z.lt) rs.

Lemma concat_insert_snoc {A} (rs : list (list A)) i r v :
  rs !! i = Some r → concat (<[i := r ++ [v]]> rs) ≡ₚ concat rs ++ [v].
Proof.
  intros Hi. rewrite (insert_take_drop _ _ _ (lookup_lt_Some _ _ _ Hi)).
  rewrite <-(take_drop_middle rs i r Hi) at 3. rewrite !concat_app. simpl.
  rewrite <-!app_assoc. by rewrite (Permutation_app_comm (concat (drop (S i) rs)) [v]).
Qed.

Lemma atomic_numbered m0 m rs m' rs' :
  numbered m0 m rs → atomic_step (m, rs) (m', rs') → numbered m0 m' rs'.
Proof.
  intros (Hle & Hperm & Hsort) Hstep. inversion Hstep as [? ? ? i r v Hget Hi]; subst.
  injection Hget as <- <-. unfold numbered. simpl. split_and!; [lia| |].
  - rewrite (concat_insert_snoc _ _ _ _ Hi), Hperm.
    replace (counter m + 1 - counter m0)%Z with (counter m - counter m0 + 1)%Z by lia.
    rewrite (seqZ_app _ (counter m - counter m0) 1) by lia. apply reflexive_eq. f_equal.
    replace (counter m0 + 1 + (counter m - counter m0))%Z with (counter m + 1)%Z by lia. done.
  - apply Forall_insert; [done|]. apply StronglySorted_app_2.
    + intros x y Hx ->%list_elem_of_singleton. assert (x ∈ concat rs) as Hin.
      { apply list_elem_of_In, in_concat. exists r.
        split; apply list_elem_of_In; [by eapply list_elem_of_lookup_2|done]. }
      rewrite Hperm in Hin. apply elem_of_seqZ in Hin. lia.
    + rewrite Forall_lookup in Hsort. by eapply Hsort.
    + by repeat constructor.
Qed.
Lemma atomic_steps_numbered m0 a a' :
  rtc atomic_step a a' → numbered m0 a.1 a.2 → numbered m0 a'.1 a'.2.
Proof. induction 1 as [|[] [] ? Hs]; eauto using atomic_numbered. Qed.

Lemma abs_start m ks : abs (start m ks) = (m, (λ _, []) <$> ks).
Proof. unfold abs, start. simpl. by rewrite <-list_fmap_compose. Qed.
Lemma numbered_start m (ks : list nat) : numbered m m ((λ _, []) <$> ks).
Proof.
  split_and!; [done| |by apply Forall_fmap, Forall_true; constructor].
  rewrite Z.sub_diag. simpl. by induction ks.
Qed.

Lemma reachable_numbered m ks s :
  rtc sys_step (start m ks) s → numbered m (mem s) (issued <$> threads s).
Proof.
  intros Hsteps. apply abs_steps in Hsteps; [|apply inv_start]. rewrite abs_start in Hsteps.
  apply (atomic_steps_numbered m _ _ Hsteps), numbered_start.
Qed.

Lemma finished_issued s : finished s → issued <$> threads s = returned <$> threads s.
Proof.
  intros Hf. apply list_fmap_ext. intros i th Hth. unfold finished in Hf. rewrite Forall_lookup in Hf.
  destruct (Hf _ _ Hth) as [_ Hc]. unfold issued. by rewrite Hc, app_nil_r.
Qed.

Lemma sublist_concat {A} (l1 l2 : list (list A)) :
  Forall2 sublist l1 l2 → sublist (concat l1) (concat l2).
Proof. induction 1; simpl; [done|]. by apply sublist_app. Qed.
Lemma returned_issued s : sublist (concat (returned <$> threads s)) (concat (issued <$> threads s)).
Proof.
  apply sublist_concat, Forall2_fmap, Forall_Forall2_diag, Forall_true. intros th.
  by apply sublist_inserts_r.
Qed.

(** The numbers a goroutine is given in the end are as many as it has and
    still asks for. *)
Definition due (th : thread) : nat :=
  calls th + match length (todo th) with 7 | 6 | 5 | 4 => 1 | _ => 0 end + length (issued th).

Lemma thread_step_due th m l th' m' l' :
  placed th → thread_step th m l = Some (th', m', l') → due th' = due th.
Proof.
  intros Hp Hstep. unfold thread_step, due, issued in *.
  places Hp; rewrite Hc in *; simpl in *; repeat case_match; simplify_eq; simpl;
    rewrite ?length_app; simpl; lia.
Qed.
Lemma sys_step_due s s' : inv s → sys_step s s' → due <$> threads s' = due <$> threads s.
Proof.
  intros (o & _ & _ & Hall) [i Hrun].
  destruct (run_thread_Some _ _ _ Hrun) as (th & th' & Hth & Hstep & Hths).
  destruct (Hall _ _ Hth) as (Hp & _). rewrite Hths, list_fmap_insert. apply list_insert_id.
  by rewrite list_lookup_fmap, Hth, (thread_step_due _ _ _ _ _ _ Hp Hstep).
Qed.
Lemma sys_steps_due s s' : rtc sys_step s s' → inv s → due <$> threads s' = due <$> threads s.
Proof.
  induction 1 as [|s s1 s' Hstep _ IH]; intros Hinv; [done|].
  rewrite IH by (by eapply inv_step). by apply sys_step_due.
Qed.
Lemma reachable_due m ks s : rtc sys_step (start m ks) s → due <$> threads s = ks.
Proof.
  intros Hsteps. rewrite (sys_steps_due _ _ Hsteps) by apply inv_start.
  simpl. rewrite <-list_fmap_compose. etrans; [|apply list_fmap_id].
  apply list_fmap_ext. intros i k _. unfold due. simpl. lia.
Qed.
Lemma finished_due m ks s :
  rtc sys_step (start m ks) s → finished s →
  length (concat (returned <$> threads s)) = sum_list ks.
Proof.
  intros Hsteps Hf. rewrite <-(reachable_due m ks s Hsteps). unfold finished in Hf.
  induction Hf as [|th l [Hk Hc] _ IH]; [done|].
  rewrite !fmap_cons. cbn [concat]. rewrite length_app, IH.
  cbn. unfold due at 2, issued. by rewrite Hk, Hc, app_nil_r.
Qed.

(** *** Every schedule ends *)

(** The steps a goroutine, and all of them, have left. *)
Definition thread_left (th : thread) : nat := 8 * calls th + length (todo th).
Definition steps_left (s : system) : nat := sum_list (thread_left <$> threads s).

Lemma sum_list_insert (l : list nat) i x y :
  l !! i = Some (S x) → y = x → S (sum_list (<[i := y]> l)) = sum_list l.
Proof.
  revert i. induction l as [|n l IH]; intros [|i] Hi Hy; simplify_eq/=; [done|].
  rewrite <-(IH i) by done. lia.
Qed.

Lemma thread_step_left th m l th' m' l' :
  thread_step th m l = Some (th', m', l') → thread_left th = S (thread_left th').
Proof.
  unfold thread_step, thread_left. intros Hstep.
  repeat case_match; simplify_eq; simpl; lia.
Qed.
Lemma sys_step_left s s' : sys_step s s' → steps_left s = S (steps_left s').
Proof.
  intros [i Hrun]. destruct (run_thread_Some _ _ _ Hrun) as (th & th' & Hth & Hstep & Hths).
  unfold steps_left. rewrite Hths, list_fmap_insert. symmetry. eapply sum_list_insert; [|done].
  rewrite list_lookup_fmap, Hth. simpl. by rewrite (thread_step_left _ _ _ _ _ _ Hstep).
Qed.

(** Someone can run until all have finished: the goroutine in the section
    when there is one, else any that has something left. *)
Lemma placed_in_section_runs th m : placed th → in_section th → is_Some (thread_step th m true).
Proof.
  unfold in_section, thread_step. intros Hp Hsec.
  places Hp; rewrite Hc in *; simpl in *; first [by eexists | lia].
Qed.
Lemma placed_out_runs th m :
  placed th → ¬ in_section th → ¬ (calls th = 0 ∧ todo th = []) → is_Some (thread_step th m false).
Proof.
  unfold in_section, thread_step. intros Hp Hsec Hleft.
  places Hp; rewrite Hc in *; simpl in *; try (by eexists); try lia.
  destruct (calls th); [tauto|by eexists].
Qed.
Lemma run_thread_is_Some i th s :
  threads s !! i = Some th → is_Some (thread_step th (mem s) (locked s)) → ∃ s', sys_step s s'.
Proof.
  intros Hth [[[th' m] l] Hstep]. eexists _, i. unfold run_thread. by rewrite Hth, Hstep.
Qed.

Lemma inv_progress s : inv s → finished s ∨ ∃ s', sys_step s s'.
Proof.
  intros (o & Hl & Hex & Hall). unfold finished.
  destruct (decide (Forall (λ th, calls th = 0 ∧ todo th = []) (threads s))) as [Hf|Hf]; [by left|right].
  apply not_Forall_Exists, Exists_exists in Hf as (th & Hin & Hleft); [|apply _].
  apply list_elem_of_lookup in Hin as [i Hi].
  destruct o as [j|]; simpl in Hl.
  - destruct (Hex j eq_refl) as [thj Hj]. destruct (Hall _ _ Hj) as (Hp & Hsec & _).
    apply (run_thread_is_Some j thj); [done|]. rewrite Hl. apply placed_in_section_runs; [done|].
    by apply Hsec.
  - destruct (Hall _ _ Hi) as (Hp & Hsec & _). apply (run_thread_is_Some i th); [done|]. rewrite Hl.
    apply placed_out_runs; [done| |done]. by intros ?%Hsec.
Qed.

Lemma steps_left_nsteps n s s' : nsteps sys_step n s s' → steps_left s = n + steps_left s'.
Proof.
  induction 1 as [|n s s1 s' Hstep _ IH]; [done|]. rewrite (sys_step_left _ _ Hstep), IH. done.
Qed.
Lemma steps_left_finished s : finished s → steps_left s = 0.
Proof.
  unfold finished, steps_left, thread_left. induction 1 as [|th l [Hk Hc] _ IH]; [done|].
  rewrite fmap_cons. cbn. by rewrite Hk, Hc.
Qed.
Lemma steps_left_start m ks : steps_left (start m ks) = 8 * sum_list ks.
Proof.
  unfold steps_left, start. cbn [threads]. induction ks as [|k ks IH]; [done|].
  rewrite !fmap_cons. cbn in *. lia.
Qed.

(** ** The theorems *)

(** C14: whatever the schedule, once all the goroutines have finished the
    numbers they were given, and the store they leave, are those of the calls
    run at once one after the other, each by the sequential [getID], in some
    order that keeps the order of the calls of each goroutine. *)
Theorem getID_linearizable (m : Memory) (ks : list nat) (s : system) :
  rtc sys_step (start m ks) s → finished s →
  rtc atomic_step (m, (λ _, []) <$> ks) (mem s, returned <$> threads s).
Proof.
  intros Hsteps Hf. rewrite <-(finished_issued s Hf), <-(abs_start m ks).
  apply abs_steps; [done|apply inv_start].
Qed.

(** C15: at any moment of any schedule no number was given twice, to one
    goroutine or to two, all are above the counter the store started with and
    none above the current one, and each goroutine sees them grow; once all
    have finished they are the next numbers without a gap. *)
Theorem getID_unique (m : Memory) (ks : list nat) (s : system) :
  rtc sys_step (start m ks) s →
  let ids := concat (returned <$> threads s) in
  NoDup ids ∧ Forall (λ x, (counter m < x ≤ counter (mem s))%Z) ids ∧
  Forall (StronglySorted Z.lt) (returned <$> threads s) ∧
  (finished s → ids ≡ₚ seqZ (counter m + 1) (Z.of_nat (sum_list ks))).
Proof.
  intros Hsteps ids. destruct (reachable_numbered m ks s Hsteps) as (Hle & Hperm & Hsort).
  pose proof (returned_issued s) as Hsub. fold ids in Hsub. split_and!.
  - eapply sublist_NoDup; [|done]. rewrite Hperm. apply NoDup_seqZ.
  - apply Forall_forall. intros x Hx. apply (elem_of_sublist _ _ _ Hx) in Hsub as Hin.
    rewrite Hperm in Hin. apply elem_of_seqZ in Hin. lia.
  - rewrite Forall_fmap. rewrite Forall_fmap in Hsort. eapply Forall_impl; [exact Hsort|].
    intros th. apply StronglySorted_app_1_l.
  - intros Hf. unfold ids. rewrite <-(finished_due m ks s Hsteps Hf).
    rewrite (finished_issued s Hf) in Hperm. rewrite Hperm at 1. apply reflexive_eq. f_equal.
    rewrite Hperm, length_seqZ. lia.
Qed.

(** C16: no schedule runs for ever and none gets stuck: a run has at most
    eight steps for each call, and as long as it is not over some goroutine
    can go on; when it is over all the calls have returned, after exactly
    that many steps. *)
Theorem getID_terminates (m : Memory) (ks : list nat) (n : nat) (s : system) :
  nsteps sys_step n (start m ks) s →
  n ≤ 8 * sum_list ks ∧
  ((∃ s', sys_step s s') ∨ finished s ∧ n = 8 * sum_list ks).
Proof.
  intros Hsteps. pose proof (steps_left_nsteps _ _ _ Hsteps) as Hleft.
  rewrite steps_left_start in Hleft. split; [lia|].
  destruct (inv_progress s) as [Hf|Hstep]; [| |by left].
  - eapply inv_steps, inv_start. by eapply rtc_nsteps_2.
  - right. split; [done|]. rewrite (steps_left_finished s Hf) in Hleft. lia.
Qed.

(** ** Examples *)

Lemma run_schedule_nsteps l s s' : run_schedule l s = Some s' → nsteps sys_step (length l) s s'.
Proof.
  revert s. induction l as [|i l IH]; intros s Hrun; [injection Hrun as <-; constructor|].
  cbn in Hrun. apply bind_Some in Hrun as (s1 & Hs1 & Hrun).
  eapply nsteps_l; [by exists i|by apply IH].
Qed.
Lemma run_schedule_rtc l s s' : run_schedule l s = Some s' → rtc sys_step s s'.
Proof. intros Hrun. eapply rtc_nsteps_2. by apply run_schedule_nsteps. Qed.

(** Two goroutines, of two calls and of one, that take turns as long as the
    mutex lets them, from the store of a simulator that was just started. *)
Definition two_callers : list nat :=
  [0; 1; 0; 0; 0; 0; 0; 0; 1; 0; 0; 1; 1; 1; 1; 1; 0; 1; 0; 0; 0; 0; 0; 0].
Definition two_callers_end : system := Eval vm_compute in
  default (start NewMemory [2; 1]) (run_schedule two_callers (start NewMemory [2; 1])).
Definition two_callers_middle : system := Eval vm_compute in
  default (start NewMemory [2; 1]) (run_schedule (take 12 two_callers) (start NewMemory [2; 1])).

Lemma getID_linearizable_witness :
  rtc atomic_step (NewMemory, [[]; []]) (mem two_callers_end, [[3; 5]; [4]]%Z).
Proof.
  refine (getID_linearizable NewMemory [2; 1] two_callers_end _ _).
  - refine (run_schedule_rtc two_callers _ _ _). vm_refl.
  - refine (bool_decide_eq_true_1 _ _); vm_refl.
Defined.
Lemma getID_unique_witness :
  finished two_callers_end ∧ concat (returned <$> threads two_callers_end) ≡ₚ seqZ 3 3.
Proof.
  assert (finished two_callers_end) as Hf by (refine (bool_decide_eq_true_1 _ _); vm_refl).
  split; [exact Hf|].
  refine (proj2 (proj2 (proj2 (getID_unique NewMemory [2; 1] two_callers_end _))) Hf).
  refine (run_schedule_rtc two_callers _ _ _). vm_refl.
Defined.
Lemma getID_terminates_witness :
  (∃ s', sys_step two_callers_middle s') ∨ finished two_callers_middle ∧ 12 = 24.
Proof.
  refine (proj2 (getID_terminates NewMemory [2; 1] 12 two_callers_middle _)).
  refine (run_schedule_nsteps (take 12 two_callers) _ _ _). vm_refl.
Defined.

(** Without the mutex the same number is given twice. *)
Definition unlocked_code : list instr := filter (λ i, i ≠ MuLock ∧ i ≠ MuUnlock) getID_code.
Lemma getID_needs_the_mutex :
  let racer := {| calls := 0; todo := unlocked_code; reg := 0; returned := [] |} in
  (λ s, returned <$> threads s) <$> (run_schedule [0; 1; 0; 1; 0; 1; 0; 1; 0; 1]
    {| mem := NewMemory; locked := false; threads := [racer; racer] |}) =
    Some [[3]; [3]]%Z.
Proof. cbv zeta. vm_refl. Qed.
