(* ===== verification/Server.v ===== *)
(** * The HTTP handlers of the API simulator

    [cherry/server/server.go]. A handler works on the response being written
    and on the store. The router and the JSON codecs are code outside the
    repository: a handler gets the variables of the route, and the decoders
    of the three request bodies are a class. A struct all of whose fields
    are unexported is encoded as the empty object. *)

From S2P Require Import Prelude GoStrings Api Store.

(** ** Definitions *)

(** What is encoded into the response. *)
Inductive body :=
| ErrorResponse (Code : Z) (Message : string)
| EmptyObject
| ServerBody (s : Server)
| ServersBody (l : list Server)
| ProjectBody (p : Project).

(** The status is fixed by the first call of [WriteHeader] or [Write]. *)
Record ResponseWriter := { rw_status : option Z; rw_bodies : list body }.
Definition new_response : ResponseWriter := {| rw_status := None; rw_bodies := [] |}.

Record CreateServerRequest := { req_Plan : string; req_Region : string; req_Hostname : string }.
Class Decoders := {
  decode_CreateServer : string → res CreateServerRequest;
  decode_UpdateServer : string → res Api.UpdateServer;
  decode_UpdateProject : string → res Api.UpdateProject
}.

Record Request := { req_Vars : gmap string string; req_Body : string }.
Definition route_var (r : Request) (name : string) : string := map_get (Some (req_Vars r)) name.

Definition StatusOK : Z := 200.
Definition StatusBadRequest : Z := 400.
Definition StatusNotFound : Z := 404.
Definition StatusInternalServerError : Z := 500.

Definition Handler : Type := M (ResponseWriter * Memory) unit.

Section handlers.
Context `{GoRange, Decoders}.
(** The client is gone: every write to the response fails. *)
Variable broken : bool.

Definition WriteHeader (code : Z) : Handler := λ s,
  (Ok (), ({| rw_status := Some (default code (rw_status s.1)); rw_bodies := rw_bodies s.1 |}, s.2)).
(** [json.NewEncoder(w).Encode]; [true] when it failed. *)
Definition Encode (b : body) : M (ResponseWriter * Memory) bool := λ s,
  (Ok broken,
   ({| rw_status := Some (default StatusOK (rw_status s.1));
       rw_bodies := rw_bodies s.1 ++ (if broken then [] else [b]) |}, s.2)).
(** The three lines of every error branch, and of every success. *)
Definition fail (code : Z) (message : string) : Handler :=
  WriteHeader code;; _ ← Encode (ErrorResponse code message); mret ().
Definition respond (b : body) : Handler :=
  err ← Encode b;
  if (err : bool) then fail StatusInternalServerError "unable to write json" else mret ().

(** A method of the store: its error is for the handler to look at. *)
Definition on_store {A} (f : Memory → res A * Memory) : M (ResponseWriter * Memory) (error + A) :=
  try (λ s, let '(a, m) := f s.2 in (a, (s.1, m))).
Definition read_store {A} (f : Memory → res A) : M (ResponseWriter * Memory) (error + A) :=
  on_store (λ m, (f m, m)).
(** An assignment through a pointer. *)
Definition assign (f : Memory → Memory) : Handler := λ s, (Ok (), (s.1, f s.2)).

(** Reading through a pointer; a nil one panics. *)
Definition deref {A} (get : Memory → table A) (p : option loc) : M (ResponseWriter * Memory) A := λ s,
  match p with
  | None => (Panic, s)
  | Some p =>
      match cells (get s.2) !! p with
      | Some x => (Ok x, s)
      | None => (Panic, s)
      end
  end.

Definition listRegionsHandler (r : Request) : Handler :=
  r ← read_store ListRegions;
  match r with
  | inl _ => fail StatusInternalServerError "unable to list regions"
  | inr _ => respond EmptyObject
  end.

Definition getRegionHandler (r : Request) : Handler :=
  let regionVar := route_var r "regionID" in
  match ParseInt32 regionVar with
  | None => fail StatusBadRequest ("invalid region: " +:+ regionVar)
  | Some ID =>
      r ← read_store (GetRegion ID);
      match r with
      | inl _ => fail StatusNotFound "region not found"
      | inr region => _ ← deref regions region; respond EmptyObject
      end
  end.

Definition listPlansHandler (r : Request) : Handler :=
  r ← read_store ListPlans;
  match r with
  | inl _ => fail StatusInternalServerError "unable to list plans"
  | inr _ => respond EmptyObject
  end.

Definition getPlanHandler (r : Request) : Handler :=
  let planVar := route_var r "planID" in
  match ParseInt32 planVar with
  | None => fail StatusBadRequest ("invalid planID: " +:+ planVar)
  | Some ID =>
      r ← read_store (GetPlan ID);
      match r with
      | inl _ => fail StatusNotFound "plan not found"
      | inr plan => _ ← deref plans plan; respond EmptyObject
      end
  end.

(** The values the pointers of a list point to. *)
Fixpoint deref_servers (l : list loc) : M (ResponseWriter * Memory) (list Server) :=
  match l with
  | [] => mret []
  | p :: l' =>
      s ← deref servers (Some p);
      rest ← deref_servers l';
      mret (s :: rest)
  end.
Definition listServersHandler (r : Request) : Handler :=
  let projectVar := route_var r "projectID" in
  match ParseInt32 projectVar with
  | None => fail StatusBadRequest ("invalid project ID: " +:+ projectVar)
  | Some projectID =>
      r ← read_store (ListServers projectID);
      match r with
      | inl _ => fail StatusInternalServerError "project not found"
      | inr l => values ← deref_servers l; respond (ServersBody values)
      end
  end.

Definition getServerHandler (r : Request) : Handler :=
  let serverVar := route_var r "serverID" in
  match ParseInt32 serverVar with
  | None => fail StatusBadRequest ("invalid server ID: " +:+ serverVar)
  | Some ID =>
      r ← read_store (GetServer ID);
      match r with
      | inl _ => fail StatusNotFound "server not found"
      | inr (Some p) => s ← deref servers (Some p); respond (ServerBody s)
      | inr None => fail StatusNotFound "server not found"
      end
  end.

(** [*plan] and [*region] are read when the server is created: a nil pointer
    panics there. *)
Definition createServerHandler (r : Request) : Handler :=
  let projectVar := route_var r "projectID" in
  match ParseInt32 projectVar with
  | None => fail StatusBadRequest ("invalid project ID: " +:+ projectVar)
  | Some projectID =>
      match decode_CreateServer (req_Body r) with
      | Ok req =>
          match ParseInt32 (req_Plan req) with
          | None => fail StatusBadRequest ("invalid plan ID: " +:+ req_Plan req)
          | Some planID =>
              r ← read_store (GetPlan planID);
              match r with
              | inl _ => fail StatusNotFound "unknown plan ID"
              | inr plan =>
                  r ← read_store (GetRegionByName (req_Region req));
                  match r with
                  | inl _ => fail StatusInternalServerError "unknown region"
                  | inr region =>
                      plan ← deref plans plan;
                      region ← deref regions region;
                      r ← on_store (CreateServer projectID (req_Hostname req) plan region);
                      match r with
                      | inl _ => fail StatusInternalServerError "error creating server"
                      | inr (Some p) => s ← deref servers (Some p); respond (ServerBody s)
                      | inr None => fail StatusNotFound "not found"
                      end
                  end
              end
          end
      | Err _ => fail StatusBadRequest "cannot parse body of request"
      | Panic => panic
      end
  end.

(** [server.BGP.Enabled = ...] and [server.Tags = ...], in place. *)
Definition change_server (req : Api.UpdateServer) (s : Server) : Server := {|
  Server_ID := Server_ID s; Server_Hostname := Server_Hostname s; Server_State := Server_State s;
  Server_Plan := Server_Plan s; Server_Region := Server_Region s; Server_Project := Server_Project s;
  Server_IPAddresses := Server_IPAddresses s;
  Server_BGP_Enabled := UpdateServer_Bgp req;
  Server_Tags := match UpdateServer_Tags req with Some tags => tags | None => Server_Tags s end |}.
Definition updateServerHandler (r : Request) : Handler :=
  let serverVar := route_var r "serverID" in
  match ParseInt32 serverVar with
  | None => fail StatusBadRequest ("invalid server ID: " +:+ serverVar)
  | Some serverID =>
      match decode_UpdateServer (req_Body r) with
      | Ok req =>
          r ← read_store (GetServer serverID);
          match r with
          | inl _ => fail StatusBadRequest "unknown server ID"
          | inr None => panic
          | inr (Some p) =>
              s ← deref servers (Some p);
              assign (λ m, set_servers (store_cell p (change_server req s) (servers m)) m);;
              r ← on_store (UpdateServer serverID (Some p));
              match r with
              | inl _ => fail StatusInternalServerError "unable to update server"
              | inr _ => s ← deref servers (Some p); respond (ServerBody s)
              end
          end
      | Err _ => fail StatusBadRequest "unable to parse body of request"
      | Panic => panic
      end
  end.

Definition getProjectHandler (r : Request) : Handler :=
  let projectVar := route_var r "projectID" in
  match ParseInt32 projectVar with
  | None => fail StatusBadRequest ("invalid project ID: " +:+ projectVar)
  | Some ID =>
      r ← read_store (GetProject ID);
      match r with
      | inl _ => fail StatusNotFound "project ID not found"
      | inr (Some p) => pr ← deref projects (Some p); respond (ProjectBody pr)
      | inr None => fail StatusNotFound "project not found"
      end
  end.

(** After the assignments the pointer is not nil: the last branch of the two
    updates is not reached. A request without the BGP field switches BGP off. *)
Definition change_project (req : Api.UpdateProject) (p : Project) : Project := {|
  Project_ID := Project_ID p;
  Project_Name := default (Project_Name p) (UpdateProject_Name req);
  Project_Bgp_Enabled := default false (UpdateProject_Bgp req);
  Project_Bgp_LocalASN := Project_Bgp_LocalASN p |}.
Definition updateProjectHandler (r : Request) : Handler :=
  let projectVar := route_var r "projectID" in
  match ParseInt32 projectVar with
  | None => fail StatusBadRequest ("invalid project ID: " +:+ projectVar)
  | Some projectID =>
      match decode_UpdateProject (req_Body r) with
      | Ok req =>
          r ← read_store (GetProject projectID);
          match r with
          | inl _ => fail StatusNotFound "project ID not found"
          | inr None => panic
          | inr (Some p) =>
              pr ← deref projects (Some p);
              assign (λ m, set_projects (store_cell p (change_project req pr) (projects m)) m);;
              r ← on_store (UpdateProject projectID (Some p));
              match r with
              | inl _ => fail StatusInternalServerError "unable to update project"
              | inr _ => pr ← deref projects (Some p); respond (ProjectBody pr)
              end
          end
      | Err _ => fail StatusBadRequest "unable to read body of request"
      | Panic => panic
      end
  end.

(** The routes, in the order they are registered. *)
Definition CreateHandler : list (string * string * (Request → Handler)) := [
  ("GET", "/v1/regions", listRegionsHandler);
  ("GET", "/v1/regions/{regionID}", getRegionHandler);
  ("GET", "/v1/projects/{projectID}/servers", listServersHandler);
  ("GET", "/v1/servers/{serverID}", getServerHandler);
  ("POST", "/v1/projects/{projectID}/server", createServerHandler);
  ("PUT", "/v1/servers/{serverID}", updateServerHandler);
  ("GET", "/v1/plans", listPlansHandler);
  ("GET", "/v1/plans/{planID}", getPlanHandler);
  ("GET", "/v1/projects/{projectID}", getProjectHandler);
  ("PUT", "/v1/projects/{projectID}", updateProjectHandler)].
End handlers.
