(* ===== verification/ServerProps.v ===== *)
(** * The API simulator implements a map of objects

    An abstract simulator keeps values by ID, without pointers; every handler
    of [Server] on the pointer-based [Store] does one step of it. *)

From S2P Require Import Prelude GoStrings Api Store Server.

(** ** Tables *)

Section table.
Context {A : Type} (idf : A → Z).
Implicit Types t : table A.

(** The objects of the map by value. *)
Definition view t : gmap Z A := omap (λ p, cells t !! p) (entries t).

(** Every entry points to an object with the ID of its key, which was given
    out; new cells are fresh. *)
Definition table_wf (n : Z) t : Prop :=
  (∀ id p, entries t !! id = Some p → (0 < id ≤ n)%Z ∧ ∃ x, cells t !! p = Some x ∧ idf x = id) ∧
  (∀ p x, cells t !! p = Some x → (p < next_cell t)%positive).

Lemma view_lookup t id x :
  view t !! id = Some x ↔ ∃ p, entries t !! id = Some p ∧ cells t !! p = Some x.
Proof. unfold view. rewrite lookup_omap, bind_Some. done. Qed.
Lemma view_entry n t id :
  table_wf n t → entries t !! id = None ↔ view t !! id = None.
Proof.
  intros [Hwf _]. unfold view. rewrite lookup_omap.
  destruct (entries t !! id) as [p|] eqn:E; [|done]. simpl.
  destruct (Hwf _ _ E) as (_ & x & -> & _). done.
Qed.

Lemma table_wf_mono n n' t : table_wf n t → (n ≤ n')%Z → table_wf n' t.
Proof.
  intros [He Hc] Hn. split; [|done]. intros id p Hp. destruct (He _ _ Hp) as [? ?]. split; [lia|done].
Qed.

Lemma empty_wf n : table_wf n empty_table.
Proof. split; intros ? ?; unfold empty_table; simpl; by rewrite lookup_empty. Qed.

Lemma fresh_cell n t : table_wf n t → cells t !! next_cell t = None.
Proof.
  intros [_ Hc]. destruct (cells t !! next_cell t) as [x|] eqn:E; [|done].
  apply Hc in E. lia.
Qed.

Lemma add_new_spec n t x :
  table_wf n t → (0 ≤ n)%Z → idf x = (n + 1)%Z →
  let '(p, t') := add_new x (n + 1) t in
  table_wf (n + 1) t' ∧ view t' = <[(n + 1)%Z := x]> (view t) ∧ cells t' !! p = Some x.
Proof.
  intros Hwf Hn Hid. pose proof (fresh_cell _ _ Hwf) as Hfresh. destruct Hwf as [He Hc].
  unfold add_new, alloc, set_entry. simpl. split_and!.
  - split; simpl.
    + intros id p. rewrite lookup_insert_Some. intros [[<- <-]|[Hne Hp]].
      * split; [lia|]. exists x. by rewrite lookup_insert_eq.
      * destruct (He _ _ Hp) as (? & y & Hy & Hyid). split; [lia|]. exists y. split; [|done].
        rewrite lookup_insert_ne; [done|]. intros <-. congruence.
    + intros p y. rewrite lookup_insert_Some. intros [[<- <-]|[_ Hp]]; [lia|]. apply Hc in Hp. lia.
  - apply map_eq. intros id. unfold view. rewrite lookup_omap. simpl.
    destruct (decide (id = (n + 1)%Z)) as [->|Hne].
    + rewrite !lookup_insert_eq. simpl. by rewrite lookup_insert_eq.
    + rewrite !lookup_insert_ne by done. rewrite lookup_omap.
      destruct (entries t !! id) as [p|] eqn:E; [|done]. simpl.
      rewrite lookup_insert_ne; [done|]. intros <-. apply He in E as (_ & y & Hy & _). congruence.
  - by rewrite lookup_insert_eq.
Qed.

(** Writing through the pointer of one entry, keeping the ID. *)
Lemma store_cell_spec n t id p x :
  table_wf n t → entries t !! id = Some p → idf x = id →
  table_wf n (set_entry id p (store_cell p x t)) ∧
  view (set_entry id p (store_cell p x t)) = <[id := x]> (view t).
Proof.
  intros [He Hc] Hp Hx.
  assert (entries (set_entry id p (store_cell p x t)) = entries t) as Hent
    by (simpl; by apply insert_id).
  assert (∀ id', entries t !! id' = Some p → id' = id) as Huniq.
  { intros id' Hp'. destruct (He _ _ Hp) as (_ & y & Hy & <-).
    destruct (He _ _ Hp') as (_ & y' & Hy' & <-). congruence. }
  split.
  - split; rewrite ?Hent; simpl.
    + intros id' p' Hp'. destruct (He _ _ Hp') as (Hr & y & Hy & Hid). split; [done|].
      destruct (decide (p' = p)) as [->|Hne].
      * exists x. rewrite lookup_insert_eq, Hx. by rewrite (Huniq _ Hp').
      * exists y. by rewrite lookup_insert_ne.
    + intros q y. rewrite lookup_insert_Some. intros [[<- <-]|[_ Hq]]; [|by eapply Hc].
      destruct (He _ _ Hp) as (_ & z & Hz & _). by eapply Hc.
  - apply map_eq. intros id'. unfold view. rewrite lookup_omap, Hent. simpl.
    destruct (decide (id' = id)) as [->|Hne].
    + rewrite Hp, lookup_insert_eq. simpl. by rewrite lookup_insert_eq.
    + rewrite lookup_insert_ne, lookup_omap by done.
      destruct (entries t !! id') as [p'|] eqn:E; [|done]. simpl.
      rewrite lookup_insert_ne; [done|]. intros <-. by destruct (Hne (Huniq _ E)).
Qed.
End table.

(** ** The abstract simulator *)

Record Spec := {
  sp_counter : Z;
  sp_regions : gmap Z Region;
  sp_servers : gmap Z Server;
  sp_plans : gmap Z Plan;
  sp_projects : gmap Z Project
}.
Definition abs (m : Memory) : Spec := {|
  sp_counter := counter m; sp_regions := view (regions m); sp_servers := view (servers m);
  sp_plans := view (plans m); sp_projects := view (projects m) |}.
Definition mem_wf (m : Memory) : Prop :=
  (0 ≤ counter m)%Z ∧
  table_wf Region_ID (counter m) (regions m) ∧ table_wf Server_ID (counter m) (servers m) ∧
  table_wf Plan_ID (counter m) (plans m) ∧ table_wf Project_ID (counter m) (projects m).

(** A reply, or a crash of the handler. *)
Inductive outcome := Reply (code : Z) (b : body) | Crash.

Inductive route :=
| RListRegions | RGetRegion | RListServers | RGetServer | RCreateServer | RUpdateServer
| RListPlans | RGetPlan | RGetProject | RUpdateProject.

Definition bad (prefix s : string) : outcome :=
  Reply StatusBadRequest (ErrorResponse StatusBadRequest (prefix +:+ s)).
Definition not_found (s : string) : outcome :=
  Reply StatusNotFound (ErrorResponse StatusNotFound s).

Definition sp_set_server (id : Z) (s : Server) (sp : Spec) : Spec := {|
  sp_counter := sp_counter sp; sp_regions := sp_regions sp; sp_servers := <[id := s]> (sp_servers sp);
  sp_plans := sp_plans sp; sp_projects := sp_projects sp |}.
Definition sp_set_project (id : Z) (p : Project) (sp : Spec) : Spec := {|
  sp_counter := sp_counter sp; sp_regions := sp_regions sp; sp_servers := sp_servers sp;
  sp_plans := sp_plans sp; sp_projects := <[id := p]> (sp_projects sp) |}.
Definition sp_new_server (s : Server) (sp : Spec) : Spec := {|
  sp_counter := Server_ID s; sp_regions := sp_regions sp;
  sp_servers := <[Server_ID s := s]> (sp_servers sp);
  sp_plans := sp_plans sp; sp_projects := sp_projects sp |}.
Definition fresh_server (sp : Spec) (projectID : Z) (name : string) (plan : Plan) (region : Region)
  : Server := {|
  Server_ID := sp_counter sp + 1; Server_Hostname := name; Server_State := "active";
  Server_Plan := plan; Server_Region := region;
  Server_Project := {| Project_ID := projectID; Project_Name := ""; Project_Bgp_Enabled := false;
                       Project_Bgp_LocalASN := 0 |};
  Server_IPAddresses := []; Server_BGP_Enabled := false; Server_Tags := None |}.

(** A route variable that is not a number is a bad request. *)
Definition with_id (r : Request) (var prefix : string) (sp : Spec) (o : outcome) (sp' : Spec)
    (k : Z → Prop) : Prop :=
  match ParseInt32 (route_var r var) with
  | None => o = bad prefix (route_var r var) ∧ sp' = sp
  | Some id => k id
  end.

(** One request of the abstract simulator. *)
Definition spec_step `{Decoders} (rt : route) (r : Request) (sp : Spec) (o : outcome) (sp' : Spec)
  : Prop :=
  match rt with
  | RListRegions | RListPlans => o = Reply StatusOK EmptyObject ∧ sp' = sp
  | RGetRegion => with_id r "regionID" "invalid region: " sp o sp' (λ id,
      o = match sp_regions sp !! id with Some _ => Reply StatusOK EmptyObject | None => Crash end ∧ sp' = sp)
  | RGetPlan => with_id r "planID" "invalid planID: " sp o sp' (λ id,
      o = match sp_plans sp !! id with Some _ => Reply StatusOK EmptyObject | None => Crash end ∧ sp' = sp)
  | RListServers => with_id r "projectID" "invalid project ID: " sp o sp' (λ id,
      sp' = sp ∧ ∃ l, o = Reply StatusOK (ServersBody l) ∧
        l ≡ₚ (filter (λ kv, Project_ID (Server_Project kv.2) = id) (map_to_list (sp_servers sp))).*2)
  | RGetServer => with_id r "serverID" "invalid server ID: " sp o sp' (λ id,
      o = match sp_servers sp !! id with
          | Some s => Reply StatusOK (ServerBody s)
          | None => not_found "server not found"
          end ∧ sp' = sp)
  | RCreateServer => with_id r "projectID" "invalid project ID: " sp o sp' (λ projectID,
      match decode_CreateServer (req_Body r) with
      | Panic => o = Crash ∧ sp' = sp
      | Err _ => o = bad "cannot parse body of request" "" ∧ sp' = sp
      | Ok req =>
          match ParseInt32 (req_Plan req) with
          | None => o = bad "invalid plan ID: " (req_Plan req) ∧ sp' = sp
          | Some planID =>
              (o = Crash ∧ sp' = sp ∧
                 (sp_plans sp !! planID = None ∨
                  ∀ id rg, sp_regions sp !! id = Some rg → Region_Name rg ≠ req_Region req))
              ∨ ∃ plan id rg,
                  sp_plans sp !! planID = Some plan ∧ sp_regions sp !! id = Some rg ∧
                  Region_Name rg = req_Region req ∧
                  let s := fresh_server sp projectID (req_Hostname req) plan rg in
                  o = Reply StatusOK (ServerBody s) ∧ sp' = sp_new_server s sp
          end
      end)
  | RUpdateServer => with_id r "serverID" "invalid server ID: " sp o sp' (λ id,
      match decode_UpdateServer (req_Body r) with
      | Panic => o = Crash ∧ sp' = sp
      | Err _ => o = bad "unable to parse body of request" "" ∧ sp' = sp
      | Ok req =>
          match sp_servers sp !! id with
          | None => o = Crash ∧ sp' = sp
          | Some s => o = Reply StatusOK (ServerBody (change_server req s)) ∧
                      sp' = sp_set_server id (change_server req s) sp
          end
      end)
  | RGetProject => with_id r "projectID" "invalid project ID: " sp o sp' (λ id,
      o = match sp_projects sp !! id with
          | Some p => Reply StatusOK (ProjectBody p)
          | None => not_found "project not found"
          end ∧ sp' = sp)
  | RUpdateProject => with_id r "projectID" "invalid project ID: " sp o sp' (λ id,
      match decode_UpdateProject (req_Body r) with
      | Panic => o = Crash ∧ sp' = sp
      | Err _ => o = bad "unable to read body of request" "" ∧ sp' = sp
      | Ok req =>
          match sp_projects sp !! id with
          | None => o = Crash ∧ sp' = sp
          | Some p => o = Reply StatusOK (ProjectBody (change_project req p)) ∧
                      sp' = sp_set_project id (change_project req p) sp
          end
      end)
  end.

(** ** The handlers implement it *)

Section refinement.
Context `{GoRange, Decoders} (broken : bool).

Definition handler_of (rt : route) : Request → Handler :=
  match rt with
  | RListRegions => listRegionsHandler broken
  | RGetRegion => getRegionHandler broken
  | RListServers => listServersHandler broken
  | RGetServer => getServerHandler broken
  | RCreateServer => createServerHandler broken
  | RUpdateServer => updateServerHandler broken
  | RListPlans => listPlansHandler broken
  | RGetPlan => getPlanHandler broken
  | RGetProject => getProjectHandler broken
  | RUpdateProject => updateProjectHandler broken
  end.

(** What the client sees of a reply; nothing of the bodies when the
    connection is broken. *)
Definition sent (code : Z) (b : body) : ResponseWriter :=
  {| rw_status := Some code; rw_bodies := if broken then [] else [b] |}.
Definition agrees (o : outcome) (res : res unit) (w : ResponseWriter) : Prop :=
  match o with
  | Reply code b => res = Ok () ∧ w = sent code b
  | Crash => res = Panic ∧ w = new_response
  end.

Lemma fail_new code msg m :
  fail broken code msg (new_response, m) = (Ok (), (sent code (ErrorResponse code msg), m)).
Proof. unfold sent. by destruct broken. Qed.
Lemma respond_new b m : respond broken b (new_response, m) = (Ok (), (sent StatusOK b, m)).
Proof. unfold sent. by destruct broken. Qed.

(** The conclusion every handler's lemma shares. *)
Definition implements (rt : route) (r : Request) (m : Memory) : Prop :=
  ∀ res w' m', handler_of rt r (new_response, m) = (res, (w', m')) →
  ∃ o, spec_step rt r (abs m) o (abs m') ∧ agrees o res w' ∧ mem_wf m'.

Ltac start_handler :=
  let res := fresh "res" in let w' := fresh "w'" in let m' := fresh "m'" in
  intros res w' m'; unfold handler_of, spec_step, with_id.
Ltac reply_with o Hwf :=
  exists o; split; [|split; [by split|exact Hwf]].

Lemma view_Some {A} (idf : A → Z) n (t : table A) id p :
  table_wf idf n t → entries t !! id = Some p → ∃ x, cells t !! p = Some x ∧ view t !! id = Some x ∧ idf x = id.
Proof.
  intros [Hwf _] Hp. destruct (Hwf _ _ Hp) as (_ & x & Hx & Hid). exists x. split; [done|].
  split; [|done]. apply view_lookup. eauto.
Qed.

Lemma listRegions_implements r m : mem_wf m → implements RListRegions r m.
Proof.
  intros Hwf. start_handler. unfold listRegionsHandler, mbind, M_bind, read_store, on_store, try. simpl.
  rewrite respond_new. intros [= <- <- <-]. by reply_with (Reply StatusOK EmptyObject) Hwf.
Qed.
Lemma listPlans_implements r m : mem_wf m → implements RListPlans r m.
Proof.
  intros Hwf. start_handler. unfold listPlansHandler, mbind, M_bind, read_store, on_store, try. simpl.
  rewrite respond_new. intros [= <- <- <-]. by reply_with (Reply StatusOK EmptyObject) Hwf.
Qed.

(** Getting an object that may not be there, in the two styles of the code. *)
Lemma getRegion_implements r m : mem_wf m → implements RGetRegion r m.
Proof.
  intros Hwf. pose proof Hwf as (_ & Ht & _). start_handler. unfold getRegionHandler.
  destruct (ParseInt32 _) as [id|].
  2:{ rewrite fail_new. intros [= <- <- <-]. by reply_with (bad "invalid region: " (route_var r "regionID")) Hwf. }
  unfold mbind, M_bind, read_store, on_store, try, deref, GetRegion. simpl.
  destruct (entries (regions m) !! id) as [p|] eqn:Hp.
  - destruct (view_Some _ _ _ _ _ Ht Hp) as (x & Hx & -> & _). simpl. rewrite Hx, respond_new.
    intros [= <- <- <-]. by reply_with (Reply StatusOK EmptyObject) Hwf.
  - apply (view_entry _ _ _ _ Ht) in Hp as ->. intros [= <- <- <-]. by reply_with Crash Hwf.
Qed.
Lemma getPlan_implements r m : mem_wf m → implements RGetPlan r m.
Proof.
  intros Hwf. pose proof Hwf as (_ & _ & _ & Ht & _). start_handler. unfold getPlanHandler.
  destruct (ParseInt32 _) as [id|].
  2:{ rewrite fail_new. intros [= <- <- <-]. by reply_with (bad "invalid planID: " (route_var r "planID")) Hwf. }
  unfold mbind, M_bind, read_store, on_store, try, deref, GetPlan. simpl.
  destruct (entries (plans m) !! id) as [p|] eqn:Hp.
  - destruct (view_Some _ _ _ _ _ Ht Hp) as (x & Hx & -> & _). simpl. rewrite Hx, respond_new.
    intros [= <- <- <-]. by reply_with (Reply StatusOK EmptyObject) Hwf.
  - apply (view_entry _ _ _ _ Ht) in Hp as ->. intros [= <- <- <-]. by reply_with Crash Hwf.
Qed.
Lemma getServer_run r m id :
  mem_wf m → ParseInt32 (route_var r "serverID") = Some id →
  getServerHandler broken r (new_response, m) =
    (Ok (), (match view (servers m) !! id with
             | Some s => sent StatusOK (ServerBody s)
             | None => sent StatusNotFound (ErrorResponse StatusNotFound "server not found")
             end, m)).
Proof.
  intros (_ & _ & Ht & _) Hid. unfold getServerHandler. rewrite Hid.
  unfold mbind, M_bind, read_store, on_store, try, deref, GetServer. simpl.
  destruct (entries (servers m) !! id) as [p|] eqn:Hp.
  - destruct (view_Some _ _ _ _ _ Ht Hp) as (x & Hx & -> & _). simpl. by rewrite Hx, respond_new.
  - apply (view_entry _ _ _ _ Ht) in Hp as ->. simpl. by rewrite fail_new.
Qed.
Lemma getServer_implements r m : mem_wf m → implements RGetServer r m.
Proof.
  intros Hwf. start_handler.
  destruct (ParseInt32 _) as [id|] eqn:Hid.
  - rewrite (getServer_run _ _ _ Hwf Hid). intros [= <- <- <-].
    destruct (view (servers m) !! id) as [s|] eqn:E; simpl; rewrite E.
    + by reply_with (Reply StatusOK (ServerBody s)) Hwf.
    + by reply_with (not_found "server not found") Hwf.
  - unfold getServerHandler. rewrite Hid, fail_new. intros [= <- <- <-].
    by reply_with (bad "invalid server ID: " (route_var r "serverID")) Hwf.
Qed.
Lemma getProject_implements r m : mem_wf m → implements RGetProject r m.
Proof.
  intros Hwf. pose proof Hwf as (_ & _ & _ & _ & Ht). start_handler. unfold getProjectHandler.
  destruct (ParseInt32 _) as [id|].
  2:{ rewrite fail_new. intros [= <- <- <-]. by reply_with (bad "invalid project ID: " (route_var r "projectID")) Hwf. }
  unfold mbind, M_bind, read_store, on_store, try, deref, GetProject. simpl.
  destruct (entries (projects m) !! id) as [p|] eqn:Hp.
  - destruct (view_Some _ _ _ _ _ Ht Hp) as (x & Hx & -> & _). simpl. rewrite Hx, respond_new.
    intros [= <- <- <-]. by reply_with (Reply StatusOK (ProjectBody x)) Hwf.
  - apply (view_entry _ _ _ _ Ht) in Hp as ->. simpl. rewrite fail_new.
    intros [= <- <- <-]. by reply_with (not_found "project not found") Hwf.
Qed.

(** Changing an object in place and storing its pointer again. *)
Lemma updateServer_implements r m : mem_wf m → implements RUpdateServer r m.
Proof.
  intros Hwf. pose proof Hwf as (Hn & Hr & Ht & Hp & Hj). start_handler. unfold updateServerHandler.
  destruct (ParseInt32 _) as [id|].
  2:{ rewrite fail_new. intros [= <- <- <-]. by reply_with (bad "invalid server ID: " (route_var r "serverID")) Hwf. }
  destruct (decode_UpdateServer (req_Body r)) as [req|e|].
  2:{ rewrite fail_new. intros [= <- <- <-].
      by reply_with (Reply StatusBadRequest (ErrorResponse StatusBadRequest "unable to parse body of request")) Hwf. }
  2:{ intros [= <- <- <-]. by reply_with Crash Hwf. }
  unfold mbind, M_bind, read_store, on_store, try, deref, GetServer. simpl.
  destruct (entries (servers m) !! id) as [p|] eqn:Hent.
  2:{ apply (view_entry _ _ _ _ Ht) in Hent as ->. intros [= <- <- <-]. by reply_with Crash Hwf. }
  destruct (view_Some _ _ _ _ _ Ht Hent) as (s & Hcell & -> & Hid). simpl. rewrite Hcell.
  unfold assign, UpdateServer. simpl. rewrite lookup_insert_eq. simpl.
  rewrite Hid, Hent. simpl. rewrite lookup_insert_eq, respond_new.
  intros [= <- <- <-].
  destruct (store_cell_spec _ _ _ _ _ (change_server req s) Ht Hent Hid) as [Hwf' Hview].
  exists (Reply StatusOK (ServerBody (change_server req s))). split; [|split; [by split|]].
  - split; [done|]. unfold abs, sp_set_server. simpl. by rewrite <-Hview.
  - exact (conj Hn (conj Hr (conj Hwf' (conj Hp Hj)))).
Qed.
Lemma updateProject_implements r m : mem_wf m → implements RUpdateProject r m.
Proof.
  intros Hwf. pose proof Hwf as (Hn & Hr & Hs & Hp & Ht). start_handler. unfold updateProjectHandler.
  destruct (ParseInt32 _) as [id|].
  2:{ rewrite fail_new. intros [= <- <- <-]. by reply_with (bad "invalid project ID: " (route_var r "projectID")) Hwf. }
  destruct (decode_UpdateProject (req_Body r)) as [req|e|].
  2:{ rewrite fail_new. intros [= <- <- <-].
      by reply_with (Reply StatusBadRequest (ErrorResponse StatusBadRequest "unable to read body of request")) Hwf. }
  2:{ intros [= <- <- <-]. by reply_with Crash Hwf. }
  unfold mbind, M_bind, read_store, on_store, try, deref, GetProject. simpl.
  destruct (entries (projects m) !! id) as [p|] eqn:Hent.
  2:{ apply (view_entry _ _ _ _ Ht) in Hent as ->. intros [= <- <- <-]. by reply_with Crash Hwf. }
  destruct (view_Some _ _ _ _ _ Ht Hent) as (pr & Hcell & -> & Hid). simpl. rewrite Hcell.
  unfold assign, UpdateProject. simpl. rewrite lookup_insert_eq. simpl.
  rewrite (decide_False (P := id ≠ _)) by (rewrite Hid; intros Hne; by apply Hne).
  rewrite Hid, Hent. simpl. rewrite lookup_insert_eq, respond_new.
  intros [= <- <- <-].
  destruct (store_cell_spec _ _ _ _ _ (change_project req pr) Ht Hent Hid) as [Hwf' Hview].
  exists (Reply StatusOK (ProjectBody (change_project req pr))). split; [|split; [by split|]].
  - split; [done|]. unfold abs, sp_set_project. simpl. by rewrite <-Hview.
  - exact (conj Hn (conj Hr (conj Hs (conj Hp Hwf')))).
Qed.

(** Lists of servers: the values behind the pointers of the map. *)
Definition value_pairs {A} (t : table A) (l : list (Z * loc)) : list (Z * A) :=
  omap (λ kv, (λ x, (kv.1, x)) <$> cells t !! kv.2) l.
Lemma value_pairs_cons {A} (t : table A) kv l x :
  cells t !! kv.2 = Some x → value_pairs t (kv :: l) = (kv.1, x) :: value_pairs t l.
Proof. intros Hx. unfold value_pairs. simpl. by rewrite Hx. Qed.

Lemma value_pairs_perm {A} (idf : A → Z) n (t : table A) :
  table_wf idf n t → value_pairs t (range_map (entries t)) ≡ₚ map_to_list (view t).
Proof.
  intros Hwf. apply NoDup_Permutation.
  - apply (NoDup_fmap_1 fst).
    assert ((value_pairs t (range_map (entries t))).*1 = (range_map (entries t)).*1) as ->.
    { assert (∀ kv, kv ∈ range_map (entries t) → ∃ x, cells t !! kv.2 = Some x) as Hall.
      { intros [k p] Hin. rewrite (range_map_perm (entries t)) in Hin.
        apply elem_of_map_to_list, (view_Some _ _ _ _ _ Hwf) in Hin as (x & Hx & _). eauto. }
      revert Hall. generalize (range_map (entries t)) as l. induction l as [|kv l IH]; intros Hall; [done|].
      destruct (Hall kv) as [x Hx]; [apply list_elem_of_here|].
      rewrite (value_pairs_cons _ _ _ x), !fmap_cons, IH; [done| |done]. intros ? ?. apply Hall. by right. }
    rewrite (range_map_perm (entries t)). apply NoDup_fst_map_to_list.
  - apply NoDup_map_to_list.
  - intros [id x]. rewrite elem_of_map_to_list, view_lookup. unfold value_pairs.
    rewrite list_elem_of_omap. split.
    + intros ([k p] & Hin & Hx). rewrite (range_map_perm (entries t)) in Hin.
      apply elem_of_map_to_list in Hin. simpl in Hx. destruct (cells t !! p) eqn:E; [|done].
      simpl in Hx. simplify_eq. eauto.
    + intros (p & Hp & Hx). exists (id, p). simpl. rewrite Hx. split; [|done].
      rewrite (range_map_perm (entries t)). by apply elem_of_map_to_list.
Qed.

Lemma deref_servers_run ps vs w m :
  Forall2 (λ p v, cells (servers m) !! p = Some v) ps vs →
  deref_servers ps (w, m) = (Ok vs, (w, m)).
Proof.
  induction 1 as [|p v ps vs Hv _ IH]; [done|]. simpl. unfold mbind, M_bind, deref. simpl.
  rewrite Hv. unfold mbind, M_bind in IH. by rewrite IH.
Qed.

(** The early exit of the loop is never taken. *)
Lemma collect_servers_values m id count l acc :
  (∀ kv, kv ∈ l → ∃ s, cells (servers m) !! kv.2 = Some s) → length acc + length l ≤ count →
  ∃ ps, collect_servers m id count l acc = acc ++ ps ∧
    Forall2 (λ p v, cells (servers m) !! p = Some v) ps
      (filter (λ kv, Project_ID (Server_Project kv.2) = id) (value_pairs (servers m) l)).*2.
Proof.
  revert acc. induction l as [|kv l IH]; intros acc Hall Hlen; cbn [collect_servers].
  { exists []. rewrite app_nil_r. split; [done|constructor]. }
  destruct kv as [k p]. destruct (Hall (k, p)) as [s Hs]; [apply list_elem_of_here|]. simpl in Hs, Hlen.
  rewrite decide_False by lia. rewrite Hs, (value_pairs_cons _ _ _ s) by done. rewrite filter_cons.
  simpl. destruct (decide (Project_ID (Server_Project s) = id)) as [Heq|Hne].
  - rewrite (decide_False (P := _ ≠ _)) by tauto.
    destruct (IH (acc ++ [p])) as (ps & -> & Hps).
    + intros kv Hkv. apply Hall. by right.
    + rewrite length_app. simpl. lia.
    + exists (p :: ps). rewrite <-app_assoc. split; [done|]. by constructor.
  - rewrite (decide_True (P := _ ≠ _)) by done. apply IH; [|simpl in Hlen; lia].
    intros kv Hkv. apply Hall. by right.
Qed.

Lemma listServers_implements r m : mem_wf m → implements RListServers r m.
Proof.
  intros Hwf. pose proof Hwf as (_ & _ & Ht & _). start_handler. unfold listServersHandler.
  destruct (ParseInt32 _) as [id|].
  2:{ rewrite fail_new. intros [= <- <- <-]. by reply_with (bad "invalid project ID: " (route_var r "projectID")) Hwf. }
  unfold mbind, M_bind, read_store, on_store, try, ListServers. simpl.
  destruct (collect_servers_values m id (size (entries (servers m))) (range_map (entries (servers m))) [])
    as (ps & Hps & Hvs).
  - intros [k p] Hin. rewrite (range_map_perm (entries (servers m))) in Hin.
    apply elem_of_map_to_list, (view_Some _ _ _ _ _ Ht) in Hin as (x & Hx & _). eauto.
  - rewrite (range_map_perm (entries (servers m))), length_map_to_list. simpl. lia.
  - rewrite Hps. simpl. rewrite (deref_servers_run _ _ _ _ Hvs), respond_new. intros [= <- <- <-].
    eexists (Reply StatusOK (ServersBody _)). split; [|split; [by split|exact Hwf]].
    split; [done|]. eexists. split; [done|].
    by rewrite (value_pairs_perm _ _ _ Ht).
Qed.

Lemma find_cell_spec {A} (t : table A) test l :
  match find_cell t test l with
  | Some p => ∃ id x, (id, p) ∈ l ∧ cells t !! p = Some x ∧ test x = true
  | None => ∀ id p x, (id, p) ∈ l → cells t !! p = Some x → test x = false
  end.
Proof.
  induction l as [|[k q] l IH]; simpl; [by intros ? ? ? ?%elem_of_nil|].
  destruct (cells t !! q) as [y|] eqn:Hy; [destruct (test y) eqn:Ht|].
  - exists k, y. split; [apply list_elem_of_here|done].
  - destruct (find_cell t test l).
    + destruct IH as (id & x & Hin & ?). exists id, x. split; [by right|done].
    + intros id p x [[= -> ->]|Hin]%elem_of_cons; [congruence|by eapply IH].
  - destruct (find_cell t test l).
    + destruct IH as (id & x & Hin & ?). exists id, x. split; [by right|done].
    + intros id p x [[= -> ->]|Hin]%elem_of_cons; [congruence|by eapply IH].
Qed.

Lemma createServer_implements r m : mem_wf m → implements RCreateServer r m.
Proof.
  intros Hwf. pose proof Hwf as (Hn & Hr & Ht & Hp & Hj). start_handler. unfold createServerHandler.
  destruct (ParseInt32 _) as [projectID|].
  2:{ rewrite fail_new. intros [= <- <- <-]. by reply_with (bad "invalid project ID: " (route_var r "projectID")) Hwf. }
  destruct (decode_CreateServer (req_Body r)) as [req|e|].
  2:{ rewrite fail_new. intros [= <- <- <-].
      by reply_with (Reply StatusBadRequest (ErrorResponse StatusBadRequest "cannot parse body of request")) Hwf. }
  2:{ intros [= <- <- <-]. by reply_with Crash Hwf. }
  destruct (ParseInt32 (req_Plan req)) as [planID|].
  2:{ rewrite fail_new. intros [= <- <- <-]. by reply_with (bad "invalid plan ID: " (req_Plan req)) Hwf. }
  unfold mbind, M_bind, read_store, on_store, try, deref at 1, GetPlan. simpl.
  destruct (entries (plans m) !! planID) as [q|] eqn:Hplan.
  2:{ apply (view_entry _ _ _ _ Hp) in Hplan. intros [= <- <- <-]. reply_with Crash Hwf. left. auto. }
  destruct (view_Some _ _ _ _ _ Hp Hplan) as (plan & Hcell & Hview & _). rewrite Hcell.
  unfold deref at 1. simpl. unfold GetRegionByName.
  pose proof (find_cell_spec (regions m) (λ r, bool_decide (Region_Name r = req_Region req))
    (range_map (entries (regions m)))) as Hfind.
  destruct (find_cell _ _ _) as [p|].
  - destruct Hfind as (id & rg & Hin & Hrg & Hname%bool_decide_eq_true). rewrite Hrg.
    rewrite (range_map_perm (entries (regions m))) in Hin. apply elem_of_map_to_list in Hin.
    set (s := fresh_server (abs m) projectID (req_Hostname req) plan rg).
    pose proof (add_new_spec Server_ID (counter m) (servers m) s Ht Hn eq_refl) as Hadd.
    unfold CreateServer, getID. simpl. unfold add_new in *. simpl in *.
    destruct Hadd as (Hwf' & Hview' & Hcell'). unfold deref. simpl.
    rewrite lookup_insert_eq, respond_new. intros [= <- <- <-].
    exists (Reply StatusOK (ServerBody s)). split; [|split; [by split|]].
    + right. exists plan, id, rg. split; [done|]. split; [apply view_lookup; eauto|]. split; [done|].
      split; [done|]. unfold abs, sp_new_server. f_equal. exact Hview'.
    + assert (counter m ≤ counter m + 1)%Z as Hle by lia. unfold mem_wf. simpl.
      split; [lia|]. split; [by eapply table_wf_mono|]. split; [exact Hwf'|].
      split; by eapply table_wf_mono.
  - intros [= <- <- <-]. reply_with Crash Hwf. left. split; [done|]. split; [done|]. right.
    intros id rg (p & Hin & Hrg)%view_lookup Heq. specialize (Hfind id p rg).
    rewrite (range_map_perm (entries (regions m))), elem_of_map_to_list in Hfind.
    by rewrite bool_decide_eq_false in Hfind; apply Hfind.
Qed.
End refinement.

(** ** Runs of the simulator *)

Section runs.
Context `{GoRange, Decoders}.

Lemma implements_all broken rt r m : mem_wf m → implements broken rt r m.
Proof.
  intros Hwf. destruct rt; auto using listRegions_implements, getRegion_implements,
    listServers_implements, getServer_implements, createServer_implements, updateServer_implements,
    listPlans_implements, getPlan_implements, getProject_implements, updateProject_implements.
Qed.

(** A request, from a client that may be gone, or an object a test creates. *)
Inductive simulator_step : Memory → Memory → Prop :=
| step_request broken rt r m res w m' :
    handler_of broken rt r (new_response, m) = (res, (w, m')) → simulator_step m m'
| step_project name bgp m : simulator_step m (CreateProject name bgp m).2
| step_region name code m : simulator_step m (CreateRegion name code m).2
| step_plan name m : simulator_step m (CreatePlan name m).2.

(** An object with the next ID, in one of the tables. *)
Definition sp_created (sp sp' : Spec) : Prop :=
  let id := (sp_counter sp + 1)%Z in
  sp_counter sp' = id ∧
  ((∃ x, sp_regions sp' = <[id := x]> (sp_regions sp) ∧ sp_servers sp' = sp_servers sp ∧
         sp_plans sp' = sp_plans sp ∧ sp_projects sp' = sp_projects sp) ∨
   (∃ x, sp_regions sp' = sp_regions sp ∧ sp_servers sp' = <[id := x]> (sp_servers sp) ∧
         sp_plans sp' = sp_plans sp ∧ sp_projects sp' = sp_projects sp) ∨
   (∃ x, sp_regions sp' = sp_regions sp ∧ sp_servers sp' = sp_servers sp ∧
         sp_plans sp' = <[id := x]> (sp_plans sp) ∧ sp_projects sp' = sp_projects sp) ∨
   (∃ x, sp_regions sp' = sp_regions sp ∧ sp_servers sp' = sp_servers sp ∧
         sp_plans sp' = sp_plans sp ∧ sp_projects sp' = <[id := x]> (sp_projects sp))).

(** How many of the tables hold an ID; exactly one does for every ID given
    out, and none for another. *)
Definition holds {A} (t : gmap Z A) (id : Z) : nat := if t !! id is Some _ then 1 else 0.
Definition holders (sp : Spec) (id : Z) : nat :=
  holds (sp_regions sp) id + holds (sp_servers sp) id + holds (sp_plans sp) id +
  holds (sp_projects sp) id.
Definition ids_exact (sp : Spec) : Prop :=
  ∀ id, holders sp id = if decide (0 < id ≤ sp_counter sp)%Z then 1 else 0.

Lemma CreateProject_wf name bgp m :
  mem_wf m → mem_wf (CreateProject name bgp m).2 ∧ sp_created (abs m) (abs (CreateProject name bgp m).2).
Proof.
  intros (Hn & Hr & Hs & Hp & Ht).
  assert (counter m ≤ counter m + 1)%Z as Hle by lia.
  pose proof (add_new_spec Project_ID (counter m) (projects m) _ Ht Hn
    (eq_refl : Project_ID {| Project_ID := counter m + 1; Project_Name := name;
                             Project_Bgp_Enabled := bgp; Project_Bgp_LocalASN := 0 |} = _)) as Hadd.
  unfold add_new in Hadd. simpl in Hadd. destruct Hadd as (Hwf & Hv & _).
  split; [|split; [done|]].
  - split; simpl; [lia|]. split_and!; [by eapply table_wf_mono..|exact Hwf].
  - right; right; right. eexists. repeat split. exact Hv.
Qed.
Lemma CreateRegion_wf name code m :
  mem_wf m → mem_wf (CreateRegion name code m).2 ∧ sp_created (abs m) (abs (CreateRegion name code m).2).
Proof.
  intros (Hn & Ht & Hs & Hp & Hj).
  assert (counter m ≤ counter m + 1)%Z as Hle by lia.
  pose proof (add_new_spec Region_ID (counter m) (regions m) _ Ht Hn
    (eq_refl : Region_ID {| Region_ID := counter m + 1; Region_Name := name; Region_Slug := "";
                            Region_RegionIso2 := code;
                            Region_BGP := {| BGP_Hosts := []; BGP_Asn := 0 |} |} = _)) as Hadd.
  unfold add_new in Hadd. simpl in Hadd. destruct Hadd as (Hwf & Hv & _).
  split; [|split; [done|]].
  - split; simpl; [lia|]. split_and!; [exact Hwf|by eapply table_wf_mono..].
  - left. eexists. repeat split. exact Hv.
Qed.
Lemma CreatePlan_wf name m :
  mem_wf m → mem_wf (CreatePlan name m).2 ∧ sp_created (abs m) (abs (CreatePlan name m).2).
Proof.
  intros (Hn & Hr & Hs & Ht & Hj).
  assert (counter m ≤ counter m + 1)%Z as Hle by lia.
  pose proof (add_new_spec Plan_ID (counter m) (plans m) _ Ht Hn
    (eq_refl : Plan_ID {| Plan_ID := counter m + 1; Plan_Name := name;
                          Plan_Slug := "slug-" +:+ name |} = _)) as Hadd.
  unfold add_new in Hadd. simpl in Hadd. destruct Hadd as (Hwf & Hv & _).
  split; [|split; [done|]].
  - split; simpl; [lia|]. split_and!; [by eapply table_wf_mono..|exact Hwf|by eapply table_wf_mono].
  - right; right; left. eexists. repeat split. exact Hv.
Qed.

Lemma holds_insert {A} (t : gmap Z A) k x id :
  holds t k = 0 → holds (<[k := x]> t) id = holds t id + (if decide (id = k) then 1 else 0).
Proof.
  unfold holds. destruct (decide (id = k)) as [->|Hne].
  - rewrite lookup_insert_eq. by destruct (t !! k).
  - rewrite lookup_insert_ne by done. lia.
Qed.
Lemma holds_update {A} (t : gmap Z A) k x y id : t !! k = Some x → holds (<[k := y]> t) id = holds t id.
Proof.
  unfold holds. intros Hk. destruct (decide (id = k)) as [->|Hne].
  - by rewrite lookup_insert_eq, Hk.
  - by rewrite lookup_insert_ne.
Qed.

Lemma sp_created_ids sp sp' :
  (0 ≤ sp_counter sp)%Z → sp_created sp sp' → ids_exact sp → ids_exact sp'.
Proof.
  intros Hn [Hc Hcases] Hids id. rewrite Hc.
  pose proof (Hids id) as Hid. pose proof (Hids (sp_counter sp + 1)%Z) as Hnew.
  rewrite decide_False in Hnew by lia. unfold holders in *.
  assert (holders sp' id = holders sp id + if decide (id = sp_counter sp + 1)%Z then 1 else 0) as Hsum.
  { unfold holders.
    destruct Hcases as [(x & -> & -> & -> & ->)|[(x & -> & -> & -> & ->)|[(x & -> & -> & -> & ->)|(x & -> & -> & -> & ->)]]];
      rewrite holds_insert by lia; lia. }
  unfold holders in Hsum. rewrite Hsum, Hid.
  destruct (decide (id = sp_counter sp + 1)%Z) as [->|Hne].
  - rewrite decide_False, decide_True by lia. done.
  - destruct (decide (0 < id ≤ sp_counter sp)%Z); [rewrite decide_True by lia|rewrite decide_False by lia]; lia.
Qed.

(** A request changes nothing, changes one object, or creates one. *)
Lemma spec_step_shape rt r sp o sp' :
  spec_step rt r sp o sp' →
  sp_created sp sp' ∨ (sp_counter sp' = sp_counter sp ∧ ∀ id, holders sp' id = holders sp id).
Proof.
  assert (∀ sp'', sp'' = sp → sp_created sp sp'' ∨
    (sp_counter sp'' = sp_counter sp ∧ ∀ id, holders sp'' id = holders sp id)) as Hsame
    by (intros ? ->; auto).
  destruct rt; unfold spec_step, with_id; try (destruct (ParseInt32 _) as [id|]);
    try (intros [_ ?]; by auto); try (intros [? _]; by auto).
  - destruct (decode_CreateServer _) as [req| |]; try (intros [_ ?]; by auto).
    destruct (ParseInt32 _) as [planID|]; try (intros [_ ?]; by auto).
    intros [(_ & ? & _)|(plan & k & rg & _ & _ & _ & _ & ->)]; [by auto|].
    left. split; [done|]. right; left. by eexists.
  - destruct (decode_UpdateServer _) as [req| |]; try (intros [_ ?]; by auto).
    destruct (sp_servers sp !! id) as [s|] eqn:Hs; intros [_ ->]; [|by auto].
    right. split; [done|]. intros k. unfold holders, sp_set_server. simpl. by erewrite holds_update.
  - destruct (decode_UpdateProject _) as [req| |]; try (intros [_ ?]; by auto).
    destruct (sp_projects sp !! id) as [p|] eqn:Hp; intros [_ ->]; [|by auto].
    right. split; [done|]. intros k. unfold holders, sp_set_project. simpl. by erewrite holds_update.
Qed.

Lemma simulator_step_wf m m' :
  simulator_step m m' → mem_wf m ∧ ids_exact (abs m) → mem_wf m' ∧ ids_exact (abs m').
Proof.
  intros Hstep [Hwf Hids]. pose proof Hwf as [Hn _].
  destruct Hstep as [broken rt r m res w m' Hrun|name bgp m|name code m|name m].
  - destruct (implements_all broken rt r m Hwf _ _ _ Hrun) as (o & Hspec & _ & Hwf').
    split; [done|]. apply spec_step_shape in Hspec as [Hnew|[Hc Hsame]]; [exact (sp_created_ids (abs m) _ Hn Hnew Hids)|].
    intros id. by rewrite Hsame, Hc.
  - destruct (CreateProject_wf name bgp m Hwf) as [? Hnew]. split; [done|exact (sp_created_ids (abs m) _ Hn Hnew Hids)].
  - destruct (CreateRegion_wf name code m Hwf) as [? Hnew]. split; [done|exact (sp_created_ids (abs m) _ Hn Hnew Hids)].
  - destruct (CreatePlan_wf name m Hwf) as [? Hnew]. split; [done|exact (sp_created_ids (abs m) _ Hn Hnew Hids)].
Qed.

Lemma no_memory_wf : mem_wf no_memory ∧ ids_exact (abs no_memory).
Proof.
  split.
  - split; [done|]. split_and!; apply empty_wf.
  - intros id. rewrite decide_False; [done|]. simpl. lia.
Qed.
Lemma NewMemory_wf : mem_wf NewMemory ∧ ids_exact (abs NewMemory).
Proof.
  eapply simulator_step_wf; [apply step_region|].
  eapply simulator_step_wf; [apply step_plan|]. apply no_memory_wf.
Qed.
Lemma reachable_wf m : rtc simulator_step NewMemory m → mem_wf m ∧ ids_exact (abs m).
Proof.
  revert m. apply (rtc_ind_r (λ m, mem_wf m ∧ ids_exact (abs m))); [apply NewMemory_wf|].
  intros y z _ Hstep. by apply simulator_step_wf.
Qed.

(** Every pointer of the map leads to an object with the ID of its key. *)
Definition own_ids {A} (idf : A → Z) (t : table A) : Prop :=
  ∀ id p, entries t !! id = Some p → ∃ x, cells t !! p = Some x ∧ idf x = id.

Lemma table_wf_own_ids {A} (idf : A → Z) n (t : table A) : table_wf idf n t → own_ids idf t.
Proof. intros [Hwf _] id p Hp. by destruct (Hwf id p Hp) as (_ & ?). Qed.

(** ** Properties *)

(** C13: Every request handler of the simulator, on a store that is well
    formed, does one step of an abstract simulator that keeps values by ID:
    the same reply (or the same crash on a nil pointer), the values of the
    new store are those of the abstract one, and the store stays well formed;
    when the client is gone only the reply is lost. *)
Theorem handlers_refine broken rt r m res w' m' :
  mem_wf m → handler_of broken rt r (new_response, m) = (res, (w', m')) →
  ∃ o, spec_step rt r (abs m) o (abs m') ∧ agrees broken o res w' ∧ mem_wf m'.
Proof. intros Hwf. by apply implements_all. Qed.

(** C28: In every state the simulator reaches from [NewMemory], through any
    requests and any objects created by tests, each ID given out so far is
    held by exactly one of the four maps, any other ID by none, and every
    entry of each map, regions, servers, plans and projects, points to an
    object that is there and whose own ID is the one it is stored under. *)
Theorem simulator_ids m :
  rtc simulator_step NewMemory m →
  (∀ id, holders (abs m) id = if decide (0 < id ≤ counter m)%Z then 1 else 0) ∧
  own_ids Region_ID (regions m) ∧ own_ids Server_ID (servers m) ∧
  own_ids Plan_ID (plans m) ∧ own_ids Project_ID (projects m).
Proof.
  intros [(_ & Hr & Hs & Hp & Hj) Hids]%reachable_wf. split; [exact Hids|].
  split_and!; by eapply table_wf_own_ids.
Qed.

(** C23: A server the simulator replies to a POST with can be read back with
    a GET on its ID: the reply is the same server and nothing changes; before
    the POST the GET was answered 404. *)
Theorem created_server_can_be_read m r w m' s r' :
  rtc simulator_step NewMemory m →
  createServerHandler false r (new_response, m) = (Ok (), (w, m')) →
  rw_bodies w = [ServerBody s] →
  ParseInt32 (route_var r' "serverID") = Some (Server_ID s) →
  getServerHandler false r' (new_response, m') = (Ok (), (sent false StatusOK (ServerBody s), m')) ∧
  rw_status (getServerHandler false r' (new_response, m)).2.1 = Some StatusNotFound.
Proof.
  intros [Hwf _]%reachable_wf Hpost Hbody Hid.
  destruct (createServer_implements false r m Hwf _ _ _ Hpost) as (o & Hspec & Hag & Hwf').
  assert (Server_ID s = (counter m + 1)%Z ∧ view (servers m') !! Server_ID s = Some s) as [Hnew Hs].
  { destruct o as [code b|]; destruct Hag as [_ ->]; [|done]. simpl in Hbody. simplify_eq.
    unfold spec_step, with_id in Hspec.
    destruct (ParseInt32 (route_var r "projectID")) as [projectID|]; [|by destruct Hspec].
    destruct (decode_CreateServer (req_Body r)) as [req| |]; [|by destruct Hspec..].
    destruct (ParseInt32 (req_Plan req)); [|by destruct Hspec].
    destruct Hspec as [(? & _)|(plan & k & rg & _ & _ & _ & Ho & Habs)]; [done|]. simplify_eq.
    split; [done|]. change (view (servers m')) with (sp_servers (abs m')). rewrite Habs.
    apply lookup_insert_eq. }
  rewrite (getServer_run _ _ _ _ Hwf' Hid), (getServer_run _ _ _ _ Hwf Hid), Hs.
  destruct (view (servers m) !! Server_ID s) as [s'|] eqn:E; [|done].
  apply view_lookup in E as (p & He & _). destruct Hwf as (_ & _ & [Hent _] & _).
  apply Hent in He as [? _]. lia.
Qed.

(** Updating a project with only a name renames it and switches its BGP
    off, whatever it was: the handler assigns the flag of a request that does
    not carry one. *)
Theorem rename_disables_bgp r m id p name req :
  mem_wf m →
  ParseInt32 (route_var r "projectID") = Some id →
  decode_UpdateProject (req_Body r) = Ok req →
  UpdateProject_Name req = Some name → UpdateProject_Bgp req = None →
  view (projects m) !! id = Some p →
  ∃ m', let p' := {| Project_ID := id; Project_Name := name; Project_Bgp_Enabled := false;
                     Project_Bgp_LocalASN := Project_Bgp_LocalASN p |} in
  updateProjectHandler false r (new_response, m) = (Ok (), (sent false StatusOK (ProjectBody p'), m')) ∧
  view (projects m') = <[id := p']> (view (projects m)).
Proof.
  intros Hwf Hid Hreq Hname Hbgp Hp.
  destruct (updateProjectHandler false r (new_response, m)) as [res [w m']] eqn:Hrun.
  destruct (updateProject_implements false r m Hwf _ _ _ Hrun) as (o & Hspec & Hag & _).
  unfold spec_step, with_id in Hspec. rewrite Hid, Hreq in Hspec. simpl in Hspec. rewrite Hp in Hspec.
  destruct Hspec as [-> Habs]. destruct Hag as [-> ->]. exists m'.
  assert (Project_ID p = id) as Hpid.
  { destruct Hwf as (_ & _ & _ & _ & Ht). apply view_lookup in Hp as (q & He & Hx).
    destruct (view_Some _ _ _ _ _ Ht He) as (y & Hy & _ & <-). congruence. }
  unfold change_project in *. rewrite Hname, Hbgp, Hpid in *. split; [done|].
  exact (f_equal sp_projects Habs).
Qed.
End runs.

(** ** Runs on concrete requests *)

Definition sample_decoders : Decoders := {|
  decode_CreateServer := λ body,
    if decide (body = "") then Err (EExt "EOF")
    else Ok {| req_Plan := "1"; req_Region := "EU-Nord-1"; req_Hostname := body |};
  decode_UpdateServer := λ body, Ok {| UpdateServer_Tags := None; UpdateServer_Bgp := true |};
  decode_UpdateProject := λ body, Ok {| UpdateProject_Name := Some body; UpdateProject_Bgp := None |}
|}.
Definition sample_request (var value body : string) : Request :=
  {| req_Vars := {[ var := value ]}; req_Body := body |}.
(** A project with ID 3, with BGP on. *)
Definition sample_memory : Memory := (CreateProject "web" true NewMemory).2.

Lemma sample_reachable `{GoRange, Decoders} : rtc simulator_step NewMemory sample_memory.
Proof. apply rtc_once, step_project. Qed.

(** A POST that creates server 4 in project 3. *)
Definition sample_post (broken : bool) : res unit * (ResponseWriter * Memory) :=
  @createServerHandler key_order sample_decoders broken (sample_request "projectID" "3" "node-1")
    (new_response, sample_memory).
Definition sample_server : Server := {|
  Server_ID := 4; Server_Hostname := "node-1"; Server_State := "active";
  Server_Plan := {| Plan_ID := 1; Plan_Name := "baremetal"; Plan_Slug := "slug-baremetal" |};
  Server_Region := {| Region_ID := 2; Region_Name := "EU-Nord-1"; Region_Slug := "";
                      Region_RegionIso2 := "LT"; Region_BGP := {| BGP_Hosts := []; BGP_Asn := 0 |} |};
  Server_Project := {| Project_ID := 3; Project_Name := ""; Project_Bgp_Enabled := false;
                       Project_Bgp_LocalASN := 0 |};
  Server_IPAddresses := []; Server_BGP_Enabled := false; Server_Tags := None |}.

Lemma handlers_refine_witness :
  let _ := key_order in let _ := sample_decoders in
  ∃ o, spec_step RCreateServer (sample_request "projectID" "3" "node-1") (abs sample_memory) o
      (abs (sample_post true).2.2) ∧
    agrees true o (Ok ()) (sample_post true).2.1 ∧ mem_wf (sample_post true).2.2.
Proof.
  intros HR HD.
  refine (handlers_refine true RCreateServer (sample_request "projectID" "3" "node-1")
    sample_memory (Ok ()) _ _ (proj1 (reachable_wf _ sample_reachable)) _).
  vm_refl.
Defined.

Lemma simulator_ids_witness :
  (holders (abs sample_memory) 3 = 1 ∧ holders (abs sample_memory) 4 = 0) ∧
  own_ids Region_ID (regions sample_memory) ∧ own_ids Plan_ID (plans sample_memory).
Proof.
  destruct (@simulator_ids key_order sample_decoders sample_memory sample_reachable)
    as (Hids & Hr & _ & Hp & _).
  split; [split; [rewrite (Hids 3%Z)|rewrite (Hids 4%Z)]; vm_refl|split; [exact Hr|exact Hp]].
Defined.

Lemma created_server_can_be_read_witness :
  let _ := key_order in let _ := sample_decoders in
  getServerHandler false (sample_request "serverID" "4" "") (new_response, (sample_post false).2.2) =
    (Ok (), (sent false StatusOK (ServerBody sample_server), (sample_post false).2.2)).
Proof.
  intros HR HD.
  refine (proj1 (created_server_can_be_read sample_memory (sample_request "projectID" "3" "node-1")
    (sample_post false).2.1 (sample_post false).2.2 sample_server (sample_request "serverID" "4" "")
    sample_reachable _ _ _)); vm_refl.
Defined.

Lemma rename_disables_bgp_witness :
  let _ := key_order in let _ := sample_decoders in
  ∃ m', updateProjectHandler false (sample_request "projectID" "3" "db") (new_response, sample_memory) =
    (Ok (), (sent false StatusOK (ProjectBody {| Project_ID := 3; Project_Name := "db";
       Project_Bgp_Enabled := false; Project_Bgp_LocalASN := 0 |}), m')).
Proof.
  intros HR HD.
  destruct (rename_disables_bgp (sample_request "projectID" "3" "db") sample_memory 3
    {| Project_ID := 3; Project_Name := "web"; Project_Bgp_Enabled := true; Project_Bgp_LocalASN := 0 |}
    "db" {| UpdateProject_Name := Some "db"; UpdateProject_Bgp := None |}) as (m' & Hrun & _);
    [exact (proj1 (reachable_wf _ sample_reachable))|vm_refl..|].
  exists m'. exact Hrun.
Defined.
